(* ===== verification/_CoqProject ===== *)
-Q . S2P
Prelude.v
Engine.v
EngineScan.v
Utf8.v
Options.v
Ffi.v
Cabi.v
Cursor.v
Binding.v
FfiFacts.v
Sound.v
Calls.v
BindingFacts.v
Session.v
Semantics.v
Concrete.v
Clients.v
Buffers.v
ScanFacts.v
CabiFacts.v
Agree.v
CursorFacts.v
CursorEdges.v
CabiRuns.v
Guarantees.v
NoCgo.v
Transaction.v
Concurrent.v
Frees.v
GoText.v
Paths.v
Json.v
Harness.v
Report.v
Restart.v
Bench.v
Places.v
RunDir.v
Repo.v
Table.v
Sqlite.v
SqliteRuns.v
Main.v
MainFacts.v
MainRuns.v
ReadTax.v
Probes.v
