(* ===== verification/Prelude.v ===== *)
(** * f4kvs-ffi: a verification development

    ** The program

    f4kvs-ffi exposes the F4KVS storage engine (an LSM tree, a crate outside this
    repository) to C and Go.
    - [crates/f4kvs-ffi/src/lib.rs] is the C ABI: exported functions that check
      their arguments, call the engine, keep tables of the buffers they handed
      out and one last-error text per thread.
    - [go/f4kvs.go] is the Go binding: an [F4KVS] object with a handle, a
      read-write lock and a [closed] flag; every method takes the lock, copies its
      arguments to C memory, calls one library function, frees what it allocated
      and turns a failure into an error with the thread's last-error text.
    - [go/transaction.go] stages writes in a map until [Commit] or [Rollback].
    - [bench/embed_vs_sqlite] is a benchmark that drives the binding and SQLite
      with the same work: it selects profiles, makes keys and payloads, ingests and
      reads them, checks after a restart that nothing was lost, prints a table and
      publishes the rows in a run directory ([main.go], [de_out.go]).
    - [bench/ffi_read_tax] is a second benchmark: fill, close, open, read.

    ** The files

    - [Prelude]: the state-and-outcome monad [M] (a call returns, panics, waits for
      ever, or is undefined behaviour), its notations and the predicate [ends];
      fixed-width integers, little-endian fields, byte strings.
    - [Engine]: the LSM engine as the class [LsmEngine], the operations [lib.rs]
      calls; its documented contract is the class [LsmLaws], about successful
      calls only.  [MapEngine] is an instance with fault injection.
    - [EngineScan]: the operations only the rest of the C ABI uses (existence,
      scans with values, incremental scans, attempts without waiting) as the class
      [LsmScan], with the laws [LsmScanLaws] and an instance.
    - [Utf8]: C strings, UTF-8 validation, the lossy conversion, the texts of the
      two conversion errors.
    - [Options]: [F4KvsOpenOptions] in memory, [read_open_options],
      [apply_open_options].
    - [Ffi]: the process state of the library ([Proc]: one heap of typed blocks,
      the allocation tables, the last errors, the file system) and the exported
      functions the binding calls, one definition each.
    - [Cabi]: the exported functions the binding does not call: string values,
      [exists], scans with values, length-prefixed keys.
    - [Cursor]: cursors ([Lib]: a [Proc], the open cursors and the engines only
      cursors keep alive) and the scan that calls back.
    - [Binding]: the Go side ([World]: a [Proc] and the [F4KVS] objects) and every
      method of [go/f4kvs.go].
    - [FfiFacts], [BindingFacts]: what each function and method returns and leaves
      behind, as equations, on every path.
    - [Session]: frames, sequences of calls, opening and closing.
    - [Semantics]: the abstract specification, a map from texts to values with the
      relation [kv_step], and the refinement of each method.
    - [Sound], [Calls]: rules for C functions called with valid arguments (they
      return, keep the tables consistent, set the last error when and only when
      they fail) and each function by these rules.
    - [Clients]: C programs as sequences of calls of the whole ABI, what makes the
      arguments of a call valid, what its answer may be used for.
    - [Buffers], [ScanFacts]: what is lent to a caller by a scan, and given back.
    - [CabiFacts], [Agree], [CursorFacts], [CursorEdges], [CabiRuns]: the properties
      of the functions of [Cabi] and [Cursor], [Agree] comparing the length-prefixed
      functions with those that take C strings, and runs of them.
    - [Concrete]: a platform and worlds in which the model runs.
    - [Guarantees]: the properties of the binding.
    - [NoCgo]: the stub of [go/f4kvs_nocgo.go].
    - [Transaction]: [go/transaction.go] over the interface [TxnEngine], with the
      laws [TxnEngineLaws]; [binding_engine] and [binding_laws] show that [F4KVS]
      provides it.
    - [Concurrent]: goroutines calling methods and [Close] on one object, as an
      interleaving step relation, under a lock that lets no reader in while a
      writer waits.
    - [Frees]: threads freeing one library buffer, likewise.
    - [GoText], [Paths], [Json]: what the benchmarks use of the Go library: text
      searches, padding and [%.1f], [%g] formatting of [float64]; [filepath];
      [encoding/json].
    - [Harness]: profile selection, keys, payloads, batch sizes and the sliced
      ingest of [bench/embed_vs_sqlite/main.go].
    - [Report]: result rows and the long format of [main.go] and [de_out.go].
    - [Restart]: [benchF4KVSPostRestart].
    - [Bench]: [benchF4KVS] and its side runs.
    - [Places]: engines that keep to their data directory ([LsmPlace]) and which
      directories a run leaves alone.
    - [RunDir]: [RunWriter] of [de_out.go]: staging and publishing a run directory,
      over a tree of directories whose operations can fail or be interrupted
      ([HostOs]).
    - [Repo]: git and host metadata over what the host answers ([HostFacts]).
    - [Table]: [printTable] and the comparison lines.
    - [Sqlite], [SqliteRuns]: the SQLite side of [main.go] over an abstract database
      ([SqlDb], with the behaviour SQLite documents in [SqlLaws]); [mem_db] is a
      database in memory that keeps the laws.
    - [Main], [MainFacts]: [main], from its flags to the exit code, on a machine
      made of a [World], databases, report files and standard output; what its
      reports contain.
    - [MainRuns]: the runs of [main] put together on lawful parts.
    - [ReadTax]: [bench/ffi_read_tax/main.go].
    - [Probes]: the two probes of [bench/embed_vs_sqlite]; the one on F4KVS gives
      back all memory on every path ([batch_probe_tidy]).

    ** What is shown

    - Refinement: any sequence of calls on an open engine behaves as on a
      key-value map ([calls_refine]); a committed transaction is its staged writes
      one after another ([commit_sequential]), reads inside it see them
      ([read_your_writes]); [put_get_roundtrip], [batch_put_union],
      [reopen_contents].
    - Safety: no call deadlocks, touches memory it does not own, leaks or keeps the
      lock ([calls_safe], [session_clean]), also when goroutines race with [Close]
      ([ops_close_safe], [ops_close_finish]); buffers of bytes are freed once
      ([bytes_free_once]), strings need not be ([string_free_race]).
    - Limits and errors: which keys, values and batches are accepted, what is left
      after an error, which text an error carries, life after [Close]
      ([put_accepted_iff], [batch_limit], [error_text_thread], [open_error_text],
      [use_after_close], [commit_partial], [txn_lifecycle], [nul_keys_collide],
      [scan_hides_on_nul]).
    - The C ABI by itself: a C program that keeps to the safety comments cannot go
      wrong in the 36 functions of [c_call] (all but [f4kvs_result_to_string] and the
      scan that calls back) and every failure is explained ([c_calls_typed], [c_failures_reported]);
      the length-prefixed functions agree with the C-string ones and read back what
      was written ([kv_agrees], [kv_roundtrip]); scans and cursors deliver every
      pair once and give back what they lent ([scan_pairs_roundtrip],
      [cursor_drains], [cb_visits], [get_text]); a cursor outlives the handle of
      its engine ([cursor_survives_free]); what errors lose ([cursor_error_skips],
      [cursor_nul_skips], [scan_nul_fails]).
    - Layout: the open options across the ABI, current, truncated and old
      ([open_options_config], [read_open_options_truncated],
      [read_open_options_legacy], [read_open_options_legacy_padding]).
    - Benchmark runs: its keys are distinct, its batches are accepted, its ingest
      is complete.  For flags of a run that can succeed (at least one key of each
      kind to read, or no reads; at most 2^30 keys of each; payloads below 2^31
      bytes) and on an engine and a database that keep their contracts and do not
      fail to scan, its runs on F4KVS and on SQLite end with the rows of their path
      and with the same work in the phases they share, and the restart checks pass
      ([harness_keys_distinct], [batch_size_accepted], [chunked_puts_all],
      [bench_run_complete], [sqlite_run_complete], [sqlite_batch_put_left],
      [restart_integrity], [sqlite_restart_integrity], [read_tax_complete]).
    - The benchmark as a whole, with such flags and parts, never panics and exits
      with 0 unless an error stops it ([main_passes]).  With nothing to read and
      reads to do it panics ([bench_no_memoirs_panics]).
    - A build without cgo behaves as a closed engine, but for empty batches and the
      method it lacks ([stub_as_closed]).
    - Benchmark reports: the program as a whole reports exactly the selected
      profiles, publishes them and exits by the restart checks ([main_report],
      [profiles_selected], [run_lines_complete]); a published run is never a
      mixture of two, whatever fails ([publish_never_mixes]), though a run id such as
      [.] has every other run removed ([publish_covering]), and its results read
      back ([results_read_back]); no comparison is the wrong way round
      ([compare_lines_truthful]); the search for the repository ends
      ([find_repo_root_ends]).

    ** Modelling choices

    - Pointers are addresses ([Z], 0 is null) into one heap of typed blocks; the
      allocator is a parameter ([Platform]) that returns a fresh address above 1.
      [C.CString] aborts the process when memory runs out and is not given a
      failing path; [C.malloc] is, since the code tests it.
    - The thread a library call runs on is a parameter ([os_thread]); the last
      error is per thread.  The order in which Go visits a map is a parameter
      ([range_order]) constrained to be a permutation.
    - [fmt.Errorf] errors keep format and arguments; [%w] wraps are [Wrapf].
    - A machine integer is a [Z], converted where the code converts it
      ([to_int32], [to_uint32]); the [len] of Go values is taken as exact.
    - Every loop is structural on the list it visits except seven.  [put_slices] has
      as fuel the number of keys, and each slice takes at least one; [dec] prints
      a number with one unit of fuel per binary digit, of which there are at least
      as many as decimal ones; [find_root] walks up a path with its length plus
      three steps.  [put_slices_ends], [itoa_spec] and [find_repo_root_ends] show
      that the fuel suffices.  [shortest_from] looks for the shortest decimal of a
      [float64] among up to 17 digits, which always suffice to tell two of them
      apart, and answers with 17 digits if it were not so.  [lossy] converts a
      text with one unit per byte ([lossy_enough]); [visit_rest] and the client
      [drain] of a cursor take one per pair left and one more ([cb_visits],
      [cursor_drains]).
    - An out pointer of a C function is what it points at, [None] when null, and
      the result carries what it points at afterwards.  The callback of a scan works
      on the caller's state and does not call the library.
    - In the benchmarks, [fatal] ends the process, so a run is an error or an
      answer; deferred calls run when a function returns or panics, not when the
      process exits.  Measured times are parameters and progress output is left
      out.
    - A [float64] is a [spec_float] of the Standard Library, with its rounding.
    - Report files, databases and engine directories are separate parts of the
      state; a path is the text the program builds.  The file system of [RunDir] is
      a map from the names that lead to a directory to its files, paths resolved
      from a working directory; it records every state that becomes visible, and
      where a write or a removal stops is a parameter.

    ** What is not modelled

    The engine itself, SQLite and its driver (parameters with their documented
    behaviour); two threads in one cursor, which the header of the library forbids;
    a callback that calls the library; command-line parsing and progress on
    standard error.  Next in the plan: several goroutines on one transaction. *)

From stdpp Require Export base gmap strings list fin_maps numbers pretty.
From Stdlib Require Export Strings.Byte.
From Stdlib Require Import Lia ZArith.

#[global] Open Scope Z_scope.

(** ** Outcomes of running code

    [Ret] is an ordinary return, [Panic] a Go panic that is still unwinding,
    [Stuck] a goroutine that waits for ever on a lock nobody will release, and
    [Undefined] undefined behaviour on the C side (a dangling handle, a read
    outside an allocation, a double free).  A theorem that concludes [Ret]
    therefore also says that nothing of the rest happened. *)

Inductive outcome (S A : Type) : Type :=
| Ret (a : A) (s : S)
| Panic (msg : string) (s : S)
| Stuck (s : S)
| Undefined.
Arguments Ret {S A}.
Arguments Panic {S A}.
Arguments Stuck {S A}.
Arguments Undefined {S A}.

Definition M (S A : Type) : Type := S → outcome S A.

Definition mret {S A} (a : A) : M S A := λ s, Ret a s.

Definition bind {S A B} (m : M S A) (k : A → M S B) : M S B := λ s,
  match m s with
  | Ret a s' => k a s'
  | Panic msg s' => Panic msg s'
  | Stuck s' => Stuck s'
  | Undefined => Undefined
  end.

Definition get {S} : M S S := λ s, Ret s s.
Definition gets {S A} (f : S → A) : M S A := λ s, Ret (f s) s.
Definition modify {S} (f : S → S) : M S unit := λ s, Ret tt (f s).
Definition panic {S A} (msg : string) : M S A := λ s, Panic msg s.
Definition stuck {S A} : M S A := λ s, Stuck s.
Definition undefined {S A} : M S A := λ _, Undefined.

(** Go's [defer]: the cleanup runs when the body returns and when it panics. *)
Definition finally {S A} (m : M S A) (cleanup : M S unit) : M S A := λ s,
  match m s with
  | Ret a s' =>
      match cleanup s' with
      | Ret _ s'' => Ret a s''
      | Panic msg s'' => Panic msg s''
      | Stuck s'' => Stuck s''
      | Undefined => Undefined
      end
  | Panic msg s' =>
      match cleanup s' with
      | Ret _ s'' => Panic msg s''
      | Panic msg' s'' => Panic msg' s''
      | Stuck s'' => Stuck s''
      | Undefined => Undefined
      end
  | Stuck s' => Stuck s'
  | Undefined => Undefined
  end.

Declare Scope code_scope.
Delimit Scope code_scope with code.
Notation "'let!' x ':=' m 'in' k" := (bind m (λ x, k))
  (at level 10, x binder, m at level 200, k at level 200) : code_scope.
Notation "'run!' m 'in' k" := (bind m (λ _, k))
  (at level 10, m at level 200, k at level 200) : code_scope.
Notation "'defer!' c 'in' k" := (finally k c)
  (at level 10, c at level 200, k at level 200) : code_scope.
#[global] Open Scope code_scope.

(** An operation on one part of a larger state. *)
Definition lift {S T A} (part : S → T) (set : T → S → S) (m : M T A) : M S A := λ s,
  match m (part s) with
  | Ret a t => Ret a (set t s)
  | Panic msg t => Panic msg (set t s)
  | Stuck t => Stuck (set t s)
  | Undefined => Undefined
  end.

(** A loop over a list, in order, for its effects. *)
Fixpoint each {S A} (f : A → M S unit) (l : list A) : M S unit :=
  match l with
  | [] => mret tt
  | x :: l => run! f x in each f l
  end.

Lemma bind_ret {S A B} (m : M S A) (k : A → M S B) s a s' :
  m s = Ret a s' → bind m k s = k a s'.
Proof. unfold bind. by intros ->. Qed.

Lemma bind_assoc {S A B C} (m : M S A) (f : A → M S B) (g : B → M S C) s :
  bind (bind m f) g s = bind m (λ a, bind (f a) g) s.
Proof. unfold bind. by destruct (m s). Qed.

Lemma finally_ret {S A} (m : M S A) (c : M S unit) s a s' s'' :
  m s = Ret a s' → c s' = Ret tt s'' → finally m c s = Ret a s''.
Proof. unfold finally. by intros -> ->. Qed.

Lemma finally_panic {S A} (m : M S A) (c : M S unit) s e s' s'' :
  m s = Panic e s' → c s' = Ret tt s'' → finally m c s = Panic e s''.
Proof. unfold finally. by intros -> ->. Qed.

(** An outcome that is not a deadlock nor undefined behaviour, and what holds of
    its answer and world. *)
Definition ends {W A} (Q : A → W → Prop) (R : W → Prop) (x : outcome W A) : Prop :=
  match x with
  | Ret a w => Q a w
  | Panic _ w => R w
  | Stuck _ | Undefined => False
  end.

Lemma ends_bind {W A B} (m : M W A) (k : A → M W B) w Q Q' R :
  ends Q R (m w) → (∀ a w', Q a w' → ends Q' R (k a w')) → ends Q' R (bind m k w).
Proof. unfold bind, ends. destruct (m w); naive_solver. Qed.

Lemma ends_impl {W A} (Q Q' : A → W → Prop) R (x : outcome W A) :
  ends Q R x → (∀ a w, Q a w → Q' a w) → ends Q' R x.
Proof. destruct x; simpl; auto. Qed.

Lemma ends_weaken {W A} (Q : A → W → Prop) (R R' : W → Prop) (x : outcome W A) :
  ends Q R x → (∀ w, R w → R' w) → ends Q R' x.
Proof. destruct x; simpl; auto. Qed.

(** A step that returns does not panic. *)
Lemma ends_returns {W A} (Q : A → W → Prop) R R' (x : outcome W A) :
  ends Q R x → (∃ a w, x = Ret a w) → ends Q R' x.
Proof. by intros Hx (a & w & ->). Qed.

Lemma ends_eq {W A} (Q Q' : A → W → Prop) R (x : outcome W A) :
  ends Q R x → (∀ a w, x = Ret a w → Q a w → Q' a w) → ends Q' R x.
Proof. destruct x; simpl; auto. Qed.

Lemma ends_lift {S T A} (part : S → T) set (m : M T A) s Q R :
  ends (λ a t, Q a (set t s)) (λ t, R (set t s)) (m (part s)) → ends Q R (lift part set m s).
Proof. unfold lift. by destruct (m (part s)). Qed.

Create HintDb code.
Create Rewrite HintDb code.
#[export] Hint Rewrite @bind_assoc : code.

(** ** Fixed-width integers *)

Definition byteZ (b : byte) : Z := Z.of_N (Byte.to_N b).

Definition Zbyte (z : Z) : byte :=
  match Byte.of_N (Z.to_N (z mod 256)) with Some b => b | None => x00 end.

(** Conversion to a signed 32-bit integer ([C.int]). *)
Definition to_int32 (z : Z) : Z :=
  let m := z mod 2 ^ 32 in if m <? 2 ^ 31 then m else m - 2 ^ 32.

Definition to_uint32 (z : Z) : Z := z mod 2 ^ 32.
Definition to_uint64 (z : Z) : Z := z mod 2 ^ 64.

(** [len x] as the machine integer the code compares with. *)
Definition zlen {A} (l : list A) : Z := Z.of_nat (length l).

Lemma byteZ_range b : 0 ≤ byteZ b < 256.
Proof. unfold byteZ. pose proof (Byte.to_N_bounded b). lia. Qed.

Lemma Zbyte_byteZ b : Zbyte (byteZ b) = b.
Proof.
  unfold Zbyte. rewrite Z.mod_small by apply byteZ_range.
  unfold byteZ. by rewrite N2Z.id, Byte.of_to_N.
Qed.

Lemma byteZ_Zbyte z : byteZ (Zbyte z) = z mod 256.
Proof.
  unfold Zbyte, byteZ.
  destruct (Byte.of_N (Z.to_N (z mod 256))) as [b|] eqn:E.
  - apply Byte.to_of_N in E. rewrite E, Z2N.id; [done|].
    by apply Z.mod_pos_bound.
  - apply Byte.of_N_None_iff in E. pose proof (Z.mod_pos_bound z 256). lia.
Qed.

Lemma to_int32_small z : 0 ≤ z < 2 ^ 31 → to_int32 z = z.
Proof.
  intros Hz. unfold to_int32. rewrite Z.mod_small by lia.
  by rewrite (proj2 (Z.ltb_lt _ _)) by lia.
Qed.

Lemma zlen_nonneg {A} (l : list A) : 0 ≤ zlen l.
Proof. unfold zlen. lia. Qed.

Lemma zlen_nil_inv {A} (l : list A) : zlen l = 0 → l = [].
Proof. destruct l; unfold zlen; simpl; [done|lia]. Qed.

#[export] Hint Resolve byteZ_range zlen_nonneg : code.

(** Little-endian fields of C structures. *)
Fixpoint le_bytes (n : nat) (z : Z) : list byte :=
  match n with
  | O => []
  | S n => Zbyte z :: le_bytes n (z / 256)
  end.

Fixpoint le_value (l : list byte) : Z :=
  match l with
  | [] => 0
  | b :: l => byteZ b + 256 * le_value l
  end.

Lemma length_le_bytes n z : length (le_bytes n z) = n.
Proof. revert z. induction n; intros z; simpl; [done|]. by rewrite IHn. Qed.

Lemma le_value_bytes n z : 0 ≤ z < 256 ^ Z.of_nat n → le_value (le_bytes n z) = z.
Proof.
  revert z. induction n as [|n IH]; intros z Hz; simpl.
  - change (256 ^ Z.of_nat 0) with 1 in Hz. lia.
  - rewrite byteZ_Zbyte, IH.
    + pose proof (Z.div_mod z 256). lia.
    + rewrite Nat2Z.inj_succ, Z.pow_succ_r in Hz by lia.
      split; [apply Z.div_pos; lia|]. apply Z.div_lt_upper_bound; lia.
Qed.

(** ** Byte strings *)

Lemma string_of_bytes_of_string s : String.string_of_list_byte (String.list_byte_of_string s) = s.
Proof. apply String.string_of_list_byte_of_string. Qed.

Lemma bytes_of_string_of_bytes l : String.list_byte_of_string (String.string_of_list_byte l) = l.
Proof. apply String.list_byte_of_string_of_list_byte. Qed.

#[export] Hint Rewrite string_of_bytes_of_string bytes_of_string_of_bytes : code.

#[global] Instance byte_eq_dec : EqDecision byte := Byte.byte_eq_dec.
