(* ===== verification/Engine.v ===== *)
(** * The LSM engine the binding talks to

    The storage engine (crates [f4kvs-lsm], [f4kvs-storage-core] and
    [f4kvs-value]) is a dependency of the repository and not part of it.  It is
    the class [LsmEngine]: the operations [crates/f4kvs-ffi/src/lib.rs] calls,
    with the types of the source.  [LsmLaws] states the documented contract of
    those operations ([f4kvs.h], [README.md]): what a successful call did to the
    key-value contents.  Nothing is assumed of a call that fails.

    [MapEngine] is a concrete engine with fault injection; it satisfies the
    contract and is what witnesses run on. *)

From Stdlib Require Import Floats.SpecFloat.
From S2P Require Import Prelude.

(** ** Values

    The variants of [f4kvs_value::Value] that [value_to_bytes] matches on. *)
Inductive Value (json : Type) : Type :=
| VBytes (b : list byte)
| VString (s : string)
| VJson (j : json)
| VInt64 (n : Z)
| VUInt64 (n : Z)
| VFloat64 (f : spec_float)
| VBool (b : bool)
| VNull.
Arguments VBytes {json}.
Arguments VString {json}.
Arguments VJson {json}.
Arguments VInt64 {json}.
Arguments VUInt64 {json}.
Arguments VFloat64 {json}.
Arguments VBool {json}.
Arguments VNull {json}.

(** ** Configuration

    The fields of [LsmConfig] the repository reads or writes. *)
Inductive WalDurability := Strict | Amortized | Buffered.
Inductive WalEngine := Segment | Frame | Indexed.
Inductive WalSyncMode := Fsync | FsyncAsync.

#[global] Instance WalDurability_eq_dec : EqDecision WalDurability.
Proof. solve_decision. Defined.
#[global] Instance WalEngine_eq_dec : EqDecision WalEngine.
Proof. solve_decision. Defined.
#[global] Instance WalSyncMode_eq_dec : EqDecision WalSyncMode.
Proof. solve_decision. Defined.

Record WalConfig := mkWal {
  wal_dir : string;
  sync_mode : WalSyncMode;
  group_commit_enabled : bool;
  group_commit_max_wait : Z;
  group_commit_max_batch_size : Z;
  group_commit_wait_durable : bool;
  group_commit_idle_flush : option Z;
  wal_engine : WalEngine
}.

Record LsmConfig := mkConfig {
  data_dir : string;
  wal : WalConfig;
  max_batch_size : Z;
  background_enabled : bool;
  max_sstables_per_level : Z;
  memtable_max_size : Z;
  sstable_target_size : Z;
  sstable_max_size : Z
}.

(** ** The engine interface *)

(** An operation of an open engine: the [Result] it returns ([inl] is an error
    with its [Display] text), the engine after it and the file system after it. *)
Definition LsmOp (lsm disk A : Type) : Type := lsm → disk → (string + A) * (lsm * disk).

Class LsmEngine := {
  json : Type;
  json_to_string : json → string;
  f64_to_string : spec_float → string;
  lsm : Type;
  disk : Type;
  config_default : LsmConfig;
  durability_apply_to : WalDurability → WalConfig → WalConfig;
  lsm_new : LsmConfig → disk → (string + lsm) * disk;
  lsm_config : lsm → LsmConfig;
  lsm_shutdown : LsmOp lsm disk unit;
  lsm_compact : LsmOp lsm disk unit;
  lsm_flush : LsmOp lsm disk unit;
  lsm_flush_wal : LsmOp lsm disk unit;
  lsm_set_bulk_import : bool → lsm → lsm;
  lsm_put : string → Value json → LsmOp lsm disk unit;
  lsm_get : string → LsmOp lsm disk (option (Value json));
  lsm_delete : string → LsmOp lsm disk unit;
  lsm_batch_put : list (string * Value json) → LsmOp lsm disk unit;
  lsm_batch_delete : list string → LsmOp lsm disk unit;
  lsm_scan_prefix : string → LsmOp lsm disk (list string)
}.

(** Inserting the pairs of a batch in order, and deleting the keys of one. *)
Definition insert_all {V} (items : list (string * V)) (m : gmap string V) : gmap string V :=
  foldl (λ m kv, <[kv.1 := kv.2]> m) m items.

Definition delete_all {V} (keys : list string) (m : gmap string V) : gmap string V :=
  foldl (λ m k, delete k m) m keys.

(** The contract of the operations, on the key-value contents of an engine. *)
Class LsmLaws (L : LsmEngine) := {
  contents : lsm → gmap string (Value json);
  durable : disk → string → gmap string (Value json);
  new_ok c d g d' : lsm_new c d = (inr g, d') →
    contents g = durable d (data_dir c) ∧ lsm_config g = c;
  put_ok k v g d g' d' : lsm_put k v g d = (inr tt, (g', d')) →
    contents g' = <[k := v]> (contents g);
  get_ok k g d r g' d' : lsm_get k g d = (inr r, (g', d')) →
    r = contents g !! k ∧ contents g' = contents g;
  delete_ok k g d g' d' : lsm_delete k g d = (inr tt, (g', d')) →
    contents g' = delete k (contents g);
  batch_put_ok l g d g' d' : lsm_batch_put l g d = (inr tt, (g', d')) →
    contents g' = insert_all l (contents g);
  batch_delete_ok l g d g' d' : lsm_batch_delete l g d = (inr tt, (g', d')) →
    contents g' = delete_all l (contents g);
  scan_ok p g d ks g' d' : lsm_scan_prefix p g d = (inr ks, (g', d')) →
    NoDup ks ∧ (∀ k, k ∈ ks ↔ is_Some (contents g !! k) ∧ String.prefix p k = true) ∧
    contents g' = contents g;
  flush_ok g d g' d' : lsm_flush g d = (inr tt, (g', d')) → contents g' = contents g;
  flush_wal_ok g d g' d' : lsm_flush_wal g d = (inr tt, (g', d')) → contents g' = contents g;
  compact_ok g d g' d' : lsm_compact g d = (inr tt, (g', d')) → contents g' = contents g;
  set_bulk_ok on g : contents (lsm_set_bulk_import on g) = contents g;
  shutdown_ok g d g' d' : lsm_shutdown g d = (inr tt, (g', d')) →
    durable d' (data_dir (lsm_config g)) = contents g;
  (* an engine keeps the configuration it was opened with *)
  put_config k v g d : lsm_config (lsm_put k v g d).2.1 = lsm_config g;
  get_config k g d : lsm_config (lsm_get k g d).2.1 = lsm_config g;
  delete_config k g d : lsm_config (lsm_delete k g d).2.1 = lsm_config g;
  batch_put_config l g d : lsm_config (lsm_batch_put l g d).2.1 = lsm_config g;
  batch_delete_config l g d : lsm_config (lsm_batch_delete l g d).2.1 = lsm_config g;
  scan_config p g d : lsm_config (lsm_scan_prefix p g d).2.1 = lsm_config g;
  flush_config g d : lsm_config (lsm_flush g d).2.1 = lsm_config g;
  flush_wal_config g d : lsm_config (lsm_flush_wal g d).2.1 = lsm_config g;
  compact_config g d : lsm_config (lsm_compact g d).2.1 = lsm_config g;
  set_bulk_config on g : lsm_config (lsm_set_bulk_import on g) = lsm_config g
}.

(** ** A concrete engine *)
Module MapEngine.

(** The engine keeps its pairs in a map; [faults] is a schedule of injected
    failures, one entry consumed by each operation ([None] succeeds), so that
    error paths can be run.  The directory [/readonly] cannot be opened. *)
Record state := mkState {
  pairs : gmap string (Value unit);
  config : LsmConfig;
  bulk : bool;
  faults : list (option string)
}.

Definition store := gmap string (gmap string (Value unit)).

Definition default_config : LsmConfig :=
  mkConfig "./data" (mkWal "./data/wal" Fsync false 10 1000 false None Segment)
           10000 true 10 67108864 67108864 134217728.

Definition apply_to (d : WalDurability) (w : WalConfig) : WalConfig :=
  match d with
  | Strict => w
  | Amortized => mkWal (wal_dir w) (sync_mode w) true (group_commit_max_wait w)
      (group_commit_max_batch_size w) (group_commit_wait_durable w)
      (group_commit_idle_flush w) (wal_engine w)
  | Buffered => mkWal (wal_dir w) FsyncAsync (group_commit_enabled w) (group_commit_max_wait w)
      (group_commit_max_batch_size w) (group_commit_wait_durable w)
      (group_commit_idle_flush w) (wal_engine w)
  end.

Definition pop (g : state) : state := mkState (pairs g) (config g) (bulk g) (tail (faults g)).
Definition with_pairs (m : gmap string (Value unit)) (g : state) : state :=
  mkState m (config g) (bulk g) (faults g).

Definition step {A} (f : state → (string + A) * state) : LsmOp state store A := λ g d,
  match faults g with
  | Some msg :: _ => (inl msg, (pop g, d))
  | _ => let '(r, g') := f (pop g) in (r, (g', d))
  end.

Definition prefix_keys (p : string) (m : gmap string (Value unit)) : list string :=
  filter (λ k, String.prefix p k = true) (map_to_list m).*1.

#[export] Instance map_engine : LsmEngine := {|
  json := unit;
  json_to_string := λ _, "null";
  f64_to_string := λ _, "0";
  lsm := state;
  disk := store;
  config_default := default_config;
  durability_apply_to := apply_to;
  lsm_new c d :=
    if bool_decide (data_dir c = "/readonly") then (inl "permission denied", d)
    else (inr (mkState (default ∅ (d !! data_dir c)) c false []), d);
  lsm_config := config;
  lsm_shutdown g d := 
    match faults g with
    | Some msg :: _ => (inl msg, (pop g, d))
    | _ => (inr tt, (pop g, <[data_dir (config g) := pairs g]> d))
    end;
  lsm_compact := step (λ g, (inr tt, g));
  lsm_flush := step (λ g, (inr tt, g));
  lsm_flush_wal := step (λ g, (inr tt, g));
  lsm_set_bulk_import on g := mkState (pairs g) (config g) on (faults g);
  lsm_put k v := step (λ g, (inr tt, with_pairs (<[k := v]> (pairs g)) g));
  lsm_get k := step (λ g, (inr (pairs g !! k), g));
  lsm_delete k := step (λ g, (inr tt, with_pairs (delete k (pairs g)) g));
  lsm_batch_put l := step (λ g, (inr tt, with_pairs (insert_all l (pairs g)) g));
  lsm_batch_delete l := step (λ g, (inr tt, with_pairs (delete_all l (pairs g)) g));
  lsm_scan_prefix p := step (λ g, (inr (prefix_keys p (pairs g)), g))
|}.

Lemma step_ok {A} (f : state → (string + A) * state) g d r g' d' :
  step f g d = (inr r, (g', d')) → f (pop g) = (inr r, g') ∧ d' = d.
Proof.
  unfold step. intros H.
  destruct (faults g) as [|[]]; [| done |]; destruct (f (pop g)); by simplify_eq.
Qed.

Lemma step_config {A} (f : state → (string + A) * state) g d :
  (∀ g, config (f g).2 = config g) → config (step f g d).2.1 = config g.
Proof.
  intros Hf. unfold step. specialize (Hf (pop g)).
  destruct (faults g) as [|[]]; [| done |]; destruct (f (pop g)); simpl in *; by rewrite Hf.
Qed.

#[export] Instance map_engine_laws : LsmLaws map_engine.
Proof.
  refine {| contents := pairs : @lsm map_engine → _;
            durable := λ (d : @disk map_engine) dir, default ∅ (d !! dir) |}; simpl.
  - intros * H. case_bool_decide; by simplify_eq.
  - intros * [H _]%step_ok. by simplify_eq.
  - intros * [H _]%step_ok. by simplify_eq.
  - intros * [H _]%step_ok. by simplify_eq.
  - intros * [H _]%step_ok. by simplify_eq.
  - intros * [H _]%step_ok. by simplify_eq.
  - intros * [H _]%step_ok. simplify_eq. unfold prefix_keys. split_and!; [| |done].
    + apply NoDup_filter, NoDup_fst_map_to_list.
    + intros k. rewrite list_elem_of_filter, list_elem_of_fmap. split.
      * intros [Hp [[k' v] [-> Hk]]]. apply elem_of_map_to_list in Hk. by split; [eexists|].
      * intros [[v Hv] Hp]. split; [done|]. exists (k, v). by rewrite elem_of_map_to_list.
  - intros * [H _]%step_ok. by simplify_eq.
  - intros * [H _]%step_ok. by simplify_eq.
  - intros * [H _]%step_ok. by simplify_eq.
  - done.
  - intros * H. unfold store in *. destruct (faults g) as [|[]]; simplify_eq/=; by rewrite lookup_insert_eq.
  - intros. by apply step_config.
  - intros. by apply step_config.
  - intros. by apply step_config.
  - intros. by apply step_config.
  - intros. by apply step_config.
  - intros. by apply step_config.
  - intros. by apply step_config.
  - intros. by apply step_config.
  - intros. by apply step_config.
  - done.
Defined.

End MapEngine.

(** ** Facts about batches *)

Lemma insert_all_app {V} (l1 l2 : list (string * V)) m :
  insert_all (l1 ++ l2) m = insert_all l2 (insert_all l1 m).
Proof. apply foldl_app. Qed.

Lemma insert_all_lookup_notin {V} (l : list (string * V)) m k :
  k ∉ l.*1 → insert_all l m !! k = m !! k.
Proof.
  revert m. induction l as [|[k' v] l IH]; intros m; csimpl; [done|].
  rewrite not_elem_of_cons. intros [Hne Hl]. unfold insert_all in *. simpl.
  rewrite IH by done. by rewrite lookup_insert_ne.
Qed.

(** With distinct keys, the contents after a batch do not depend on its order. *)
Lemma insert_all_union {V} (l : list (string * V)) m :
  NoDup l.*1 → insert_all l m = list_to_map l ∪ m.
Proof.
  revert m. induction l as [|[k v] l IH]; intros m; csimpl.
  - intros _. unfold insert_all. simpl. by rewrite (left_id_L ∅ (∪)).
  - intros [Hk Hl]%NoDup_cons. unfold insert_all in *. simpl. rewrite IH by done.
    rewrite <-insert_union_l. rewrite insert_union_r; [done|].
    by apply not_elem_of_list_to_map_1.
Qed.

Lemma delete_all_lookup {V} (l : list string) (m : gmap string V) k :
  delete_all l m !! k = if decide (k ∈ l) then None else m !! k.
Proof.
  revert m. induction l as [|k' l IH]; intros m.
  - case_decide; [set_solver|done].
  - unfold delete_all in *. simpl. rewrite IH. destruct (decide (k = k')) as [->|Hne].
    + rewrite lookup_delete_eq. repeat case_decide; set_solver.
    + rewrite lookup_delete_ne by done. repeat case_decide; set_solver.
Qed.
