(* ===== verification/EngineScan.v ===== *)
(** * The rest of the engine's interface

    The operations of the LSM engine that only the C functions outside the Go
    binding call: the existence test, the scan with values, the incremental
    prefix scan, and the attempts that answer without the runtime
    ([try_*_sync], [None] when the engine declines).  As in [Engine], the types
    are those of [lib.rs] and the laws speak of successful calls only. *)

From S2P Require Import Prelude Engine.

(** An attempt: [None] when the engine wants to be asked through [block_on]. *)
Definition LsmTry (lsm disk A : Type) : Type :=
  lsm → disk → option (string + A) * (lsm * disk).

(** An operation on a scan position, which it advances, also when it fails. *)
Definition LsmScanOp (st lsm disk A : Type) : Type := st → lsm → disk → (A * st) * (lsm * disk).

Class LsmScan (L : LsmEngine) := {
  scan_state : Type;
  lsm_exists : string → LsmOp lsm disk bool;
  lsm_scan_prefix_with_values : string → LsmOp lsm disk (list (string * Value json));
  lsm_try_get_sync : string → LsmTry lsm disk (option (Value json));
  lsm_prefix_scan_start : string → LsmOp lsm disk scan_state;
  lsm_try_prefix_scan_start_sync : string → LsmTry lsm disk scan_state;
  lsm_prefix_scan_next : LsmScanOp scan_state lsm disk (string + option (string * Value json));
  lsm_try_prefix_scan_next_n_sync (max : nat) :
    LsmScanOp scan_state lsm disk (option (string + list (string * Value json) * bool));
  lsm_try_prefix_scan_foreach_sync {U : Type} :
    string → (list byte → list byte → U → bool * U) →
    LsmScanOp U lsm disk (option (string + unit))
}.

(** The pairs of a map whose key has the prefix, each once. *)
Definition pairs_of {V} (p : string) (m : gmap string V) (l : list (string * V)) : Prop :=
  NoDup l.*1 ∧ ∀ k v, (k, v) ∈ l ↔ m !! k = Some v ∧ String.prefix p k = true.

Definition prefix_pairs {V} (p : string) (m : gmap string V) : list (string * V) :=
  filter (λ kv, String.prefix p kv.1 = true) (map_to_list m).

Lemma prefix_pairs_of {V} p (m : gmap string V) : pairs_of p m (prefix_pairs p m).
Proof.
  unfold pairs_of, prefix_pairs. split.
  - pose proof (NoDup_fst_map_to_list m) as Hm. induction (map_to_list m) as [|kv l IH]; [constructor|].
    csimpl in *. apply NoDup_cons in Hm as [Hin Hm]. rewrite filter_cons. case_decide; [|auto].
    csimpl. constructor; [|auto]. contradict Hin. apply list_elem_of_fmap in Hin as (x & -> & Hx).
    apply list_elem_of_filter in Hx as [_ Hx]. apply list_elem_of_fmap. by exists x.
  - intros k v. rewrite list_elem_of_filter, elem_of_map_to_list. simpl. naive_solver.
Qed.

Lemma pairs_of_length {V} p (m : gmap string V) l : pairs_of p m l → (length l ≤ size m)%nat.
Proof.
  intros [Hd Hl]. rewrite <-(length_fmap fst), <-size_dom.
  rewrite <-(size_list_to_set (C := gset string)) by done. apply subseteq_size.
  intros k Hk. apply elem_of_list_to_set, list_elem_of_fmap in Hk as ([k' v] & -> & Hk).
  apply Hl in Hk as [Hk _]. by eapply elem_of_dom_2.
Qed.

(** What the documentation of the engine's scans promises: [remaining g st] are
    the pairs a scan at [st] has still to deliver. *)
Class LsmScanLaws (L : LsmEngine) (LL : LsmLaws L) (S : LsmScan L) := {
  remaining : lsm → scan_state → list (string * Value json);
  exists_ok k g d r g' d' : lsm_exists k g d = (inr r, (g', d')) →
    r = bool_decide (is_Some (contents g !! k)) ∧ contents g' = contents g;
  scan_values_ok p g d l g' d' : lsm_scan_prefix_with_values p g d = (inr l, (g', d')) →
    pairs_of p (contents g) l ∧ contents g' = contents g;
  try_get_ok k g d r g' d' : lsm_try_get_sync k g d = (Some (inr r), (g', d')) →
    r = contents g !! k ∧ contents g' = contents g;
  try_get_none k g d g' d' : lsm_try_get_sync k g d = (None, (g', d')) →
    contents g' = contents g;
  scan_start_ok p g d st g' d' : lsm_prefix_scan_start p g d = (inr st, (g', d')) →
    pairs_of p (contents g) (remaining g' st) ∧ contents g' = contents g;
  try_start_ok p g d st g' d' : lsm_try_prefix_scan_start_sync p g d = (Some (inr st), (g', d')) →
    pairs_of p (contents g) (remaining g' st) ∧ contents g' = contents g;
  try_start_none p g d g' d' : lsm_try_prefix_scan_start_sync p g d = (None, (g', d')) →
    contents g' = contents g;
  scan_next_ok st g d kv st' g' d' :
    lsm_prefix_scan_next st g d = (inr (Some kv), st', (g', d')) →
    remaining g st = kv :: remaining g' st' ∧ contents g' = contents g;
  scan_next_end st g d st' g' d' :
    lsm_prefix_scan_next st g d = (inr None, st', (g', d')) →
    remaining g st = [] ∧ contents g' = contents g;
  try_next_ok max st g d l eof st' g' d' :
    lsm_try_prefix_scan_next_n_sync max st g d = (Some (inr (l, eof)), st', (g', d')) →
    remaining g st = l ++ (if eof : bool then [] else remaining g' st') ∧
    (length l ≤ max)%nat ∧ (eof = false → length l = max) ∧ contents g' = contents g;
  try_next_none max st g d st' g' d' :
    lsm_try_prefix_scan_next_n_sync max st g d = (None, st', (g', d')) →
    remaining g' st' = remaining g st ∧ contents g' = contents g;
  try_foreach_none U p (f : list byte → list byte → U → bool * U) u g d u' g' d' :
    lsm_try_prefix_scan_foreach_sync p f u g d = (None, u', (g', d')) →
    u' = u ∧ contents g' = contents g
}.

(** ** The concrete engine

    A scan position holds the pairs that remain.  The attempts answer when no
    failure is scheduled for the operation; pages are always pulled pair by
    pair, so a failure can fall inside one. *)
Module MapScan.
Import MapEngine.

Definition quiet (g : state) : bool := match faults g with Some _ :: _ => false | _ => true end.

Definition attempt {A} (f : state → A) (g : state) (d : store) :
    option (string + A) * (state * store) :=
  if quiet g then (Some (inr (f g)), (pop g, d)) else (None, (g, d)).

Definition next (st : list (string * Value unit)) (g : state) (d : store)
    : (string + option (string * Value unit)) * list (string * Value unit) * (state * store) :=
  match faults g with
  | Some msg :: _ => (inl msg, st, (pop g, d))
  | _ => (inr (head st), tail st, (pop g, d))
  end.

#[export] Instance map_scan : LsmScan map_engine := {|
  scan_state := list (string * Value unit);
  lsm_exists k := step (λ g, (inr (bool_decide (is_Some (pairs g !! k))), g));
  lsm_scan_prefix_with_values p := step (λ g, (inr (prefix_pairs p (pairs g)), g));
  lsm_try_get_sync k := attempt (λ g, pairs g !! k);
  lsm_prefix_scan_start p := step (λ g, (inr (prefix_pairs p (pairs g)), g));
  lsm_try_prefix_scan_start_sync p := attempt (λ g, prefix_pairs p (pairs g));
  lsm_prefix_scan_next := next;
  lsm_try_prefix_scan_next_n_sync _ st g d := (None, st, (g, d));
  lsm_try_prefix_scan_foreach_sync U _ _ u g d := (None, u, (g, d))
|}.

Lemma attempt_ok {A} (f : state → A) g d r g' d' :
  attempt f g d = (Some (inr r), (g', d')) → r = f g ∧ pairs g' = pairs g.
Proof. unfold attempt. destruct (quiet g); naive_solver. Qed.

Lemma attempt_none {A} (f : state → A) g d g' d' :
  attempt f g d = (None, (g', d')) → pairs g' = pairs g.
Proof. unfold attempt. destruct (quiet g); naive_solver. Qed.

Lemma next_ok st g d r st' g' d' :
  next st g d = (inr r, st', (g', d')) → r = head st ∧ st' = tail st ∧ pairs g' = pairs g.
Proof. unfold next. destruct (faults g) as [|[]]; naive_solver. Qed.

#[export] Instance map_scan_laws : LsmScanLaws map_engine map_engine_laws map_scan.
Proof.
  refine {| remaining := λ (_ : @lsm map_engine) (st : @scan_state _ map_scan), st |}; simpl.
  - intros * [H _]%step_ok. by simplify_eq.
  - intros * [H _]%step_ok. simplify_eq. split; [apply prefix_pairs_of|done].
  - intros * H. by apply attempt_ok in H.
  - intros * H. by apply attempt_none in H.
  - intros * [H _]%step_ok. simplify_eq. split; [apply prefix_pairs_of|done].
  - intros * [-> H]%attempt_ok. split; [apply prefix_pairs_of|done].
  - intros * H. by apply attempt_none in H.
  - intros * (Hh & -> & ?)%next_ok. split; [by destruct st; simplify_eq/=|done].
  - intros * (Hh & -> & ?)%next_ok. split; [by destruct st; simplify_eq/=|done].
  - intros * [=].
  - intros _ st g d st' g' d' [= <- <- <-]. done.
  - intros U _ _ u g d u' g' d' [= <- <- <-]. done.
Defined.

End MapScan.
