(* ===== verification/Utf8.v ===== *)
(** * C strings and UTF-8

    What [lib.rs] uses of the Rust standard library on text: [CStr::from_ptr]
    (the bytes up to the first NUL), [str::from_utf8] with the error it reports,
    [CString::new], and the [Display] texts of the two errors.  The validator
    follows the case analysis of the library; [utf8_ok_iff] relates it to the
    encoding of Unicode scalar values. *)

From S2P Require Import Prelude.

(** ** NUL-terminated strings *)

(** Bytes before the first NUL; [None] when there is none (the read would run
    past the allocation). *)
Fixpoint until_nul (l : list byte) : option (list byte) :=
  match l with
  | [] => None
  | b :: l => if decide (b = x00) then Some [] else cons b <$> until_nul l
  end.

(** Position of the first NUL, as [CString::new] reports it. *)
Fixpoint nul_position (l : list byte) : option nat :=
  match l with
  | [] => None
  | b :: l => if decide (b = x00) then Some O else S <$> nul_position l
  end.

(** The part of a byte string before its first NUL, the whole of it if none. *)
Fixpoint c_prefix (l : list byte) : list byte :=
  match l with
  | [] => []
  | b :: l => if decide (b = x00) then [] else b :: c_prefix l
  end.

Definition nul_free (l : list byte) : bool :=
  match nul_position l with Some _ => false | None => true end.

(** The key the C side sees for a Go string. *)
Definition c_string (s : string) : string :=
  String.string_of_list_byte (c_prefix (String.list_byte_of_string s)).

Lemma until_nul_terminated l r : until_nul (l ++ x00 :: r) = Some (c_prefix l).
Proof.
  induction l as [|b l IH]; simpl; [done|].
  case_decide; [done|]. by rewrite IH.
Qed.

Lemma c_prefix_nul_free l : nul_free l = true → c_prefix l = l.
Proof.
  unfold nul_free. induction l as [|b l IH]; simpl; [done|].
  case_decide; [done|]. destruct (nul_position l); simpl; [done|].
  intros _. by rewrite IH.
Qed.

Lemma nul_free_c_prefix l : nul_free (c_prefix l) = true.
Proof.
  unfold nul_free. induction l as [|b l IH]; simpl; [done|].
  case_decide; [done|]. simpl. rewrite decide_False by done.
  by destruct (nul_position (c_prefix l)).
Qed.

Lemma length_c_prefix l : (length (c_prefix l) ≤ length l)%nat.
Proof. induction l; simpl; [lia|]. case_decide; simpl; lia. Qed.

Lemma c_string_nul_free s :
  nul_free (String.list_byte_of_string s) = true → c_string s = s.
Proof. intros H. unfold c_string. rewrite c_prefix_nul_free by done. by autorewrite with code. Qed.

Lemma c_string_idemp s : c_string (c_string s) = c_string s.
Proof.
  apply c_string_nul_free. unfold c_string. autorewrite with code.
  apply nul_free_c_prefix.
Qed.

Definition NulError_display (pos : nat) : string :=
  "nul byte found in provided data at position: " +:+ pretty pos.

(** ** UTF-8 validation *)

Record Utf8Error := mkUtf8Error { valid_up_to : Z; error_len : option Z }.

Definition between (lo hi : Z) (b : byte) : bool := (lo <=? byteZ b) && (byteZ b <=? hi).

(** A continuation byte: [(b as i8) < -64]. *)
Definition cont (b : byte) : bool := between 128 191 b.

Definition utf8_char_width (b : byte) : Z :=
  if between 0 127 b then 1
  else if between 194 223 b then 2
  else if between 224 239 b then 3
  else if between 240 244 b then 4
  else 0.

(** The second byte a three-byte or four-byte sequence allows after [b]. *)
Definition second_of_3 (b b2 : byte) : bool :=
  if between 224 224 b then between 160 191 b2
  else if between 237 237 b then between 128 159 b2
  else between 128 191 b2.

Definition second_of_4 (b b2 : byte) : bool :=
  if between 240 240 b then between 144 191 b2
  else if between 244 244 b then between 128 143 b2
  else between 128 191 b2.

(** [pos] is the index of the head of the list; [None] means valid. *)
Fixpoint utf8_scan (pos : Z) (l : list byte) : option Utf8Error :=
  match l with
  | [] => None
  | b :: l1 =>
      let err n := Some (mkUtf8Error pos n) in
      let w := utf8_char_width b in
      if w =? 1 then utf8_scan (pos + 1) l1
      else if w =? 2 then
        match l1 with
        | [] => err None
        | b2 :: l2 => if cont b2 then utf8_scan (pos + 2) l2 else err (Some 1)
        end
      else if w =? 3 then
        match l1 with
        | [] => err None
        | b2 :: l2 =>
            if second_of_3 b b2 then
              match l2 with
              | [] => err None
              | b3 :: l3 => if cont b3 then utf8_scan (pos + 3) l3 else err (Some 2)
              end
            else err (Some 1)
        end
      else if w =? 4 then
        match l1 with
        | [] => err None
        | b2 :: l2 =>
            if second_of_4 b b2 then
              match l2 with
              | [] => err None
              | b3 :: l3 =>
                  if cont b3 then
                    match l3 with
                    | [] => err None
                    | b4 :: l4 => if cont b4 then utf8_scan (pos + 4) l4 else err (Some 3)
                    end
                  else err (Some 2)
              end
            else err (Some 1)
        end
      else err (Some 1)
  end.

Definition from_utf8 (l : list byte) : Utf8Error + string :=
  match utf8_scan 0 l with
  | Some e => inl e
  | None => inr (String.string_of_list_byte l)
  end.

Definition utf8_valid (l : list byte) : bool :=
  match utf8_scan 0 l with Some _ => false | None => true end.

Definition Utf8Error_display (e : Utf8Error) : string :=
  match error_len e with
  | Some n => "invalid utf-8 sequence of " +:+ pretty n +:+ " bytes from index " +:+ pretty (valid_up_to e)
  | None => "incomplete utf-8 byte sequence from index " +:+ pretty (valid_up_to e)
  end.

(** ** The encoding it accepts *)

(** A Unicode scalar value: a code point that is not a surrogate. *)
Definition scalar (c : Z) : bool :=
  ((0 <=? c) && (c <=? 55295)) || ((57344 <=? c) && (c <=? 1114111)).

Definition encode_utf8 (c : Z) : list byte :=
  if c <? 128 then [Zbyte c]
  else if c <? 2048 then [Zbyte (192 + c / 64); Zbyte (128 + c mod 64)]
  else if c <? 65536 then
    [Zbyte (224 + c / 4096); Zbyte (128 + (c / 64) mod 64); Zbyte (128 + c mod 64)]
  else [Zbyte (240 + c / 262144); Zbyte (128 + (c / 4096) mod 64);
        Zbyte (128 + (c / 64) mod 64); Zbyte (128 + c mod 64)].

Definition encodes (l : list byte) (cs : list Z) : Prop :=
  Forall (λ c, scalar c = true) cs ∧ l = cs ≫= encode_utf8.

Lemma between_Zbyte lo hi z :
  0 ≤ z < 256 → between lo hi (Zbyte z) = (lo <=? z) && (z <=? hi).
Proof. intros. unfold between. by rewrite byteZ_Zbyte, Z.mod_small. Qed.

Lemma utf8_scan_shift pos pos' l :
  utf8_scan pos l = None → utf8_scan pos' l = None.
Proof.
  revert pos pos'. induction l as [l IH] using (well_founded_induction (well_founded_ltof _ length)).
  intros pos pos'. destruct l as [|b l1]; [done|]. simpl.
  repeat case_match; try done; apply IH; unfold ltof; simpl; lia.
Qed.

Ltac zdiv := Z.to_euclidean_division_equations; lia.

Ltac reflect_bytes :=
  unfold cont, second_of_3, second_of_4, utf8_char_width, scalar in *;
  rewrite ?between_Zbyte in * by zdiv;
  repeat match goal with
  | H : context [between ?a ?b ?x] |- _ => unfold between in H
  | |- context [between ?a ?b ?x] => unfold between
  end.

(** A scalar value is scanned in one go. *)
Lemma utf8_scan_encode pos c l :
  scalar c = true → utf8_scan pos (encode_utf8 c ++ l) = None ↔ utf8_scan 0 l = None.
Proof.
  intros Hc. assert (Hshift : ∀ p, utf8_scan p l = None ↔ utf8_scan 0 l = None).
  { intros p. split; apply utf8_scan_shift. }
  unfold encode_utf8.
  repeat case_match; simpl; reflect_bytes;
    repeat (case_match; try (apply Hshift); try (exfalso; zdiv)).
Qed.

(** Each accepted sequence is the encoding of one scalar value. *)
Lemma decode_1 b : utf8_char_width b = 1 → ∃ c, scalar c = true ∧ encode_utf8 c = [b].
Proof.
  intros H. exists (byteZ b). pose proof (byteZ_range b). reflect_bytes. split.
  - repeat case_match; lia.
  - unfold encode_utf8. repeat case_match; try lia. by rewrite Zbyte_byteZ.
Qed.

Lemma Zbyte_eq b z : z = byteZ b → Zbyte z = b.
Proof. intros ->. apply Zbyte_byteZ. Qed.

Ltac decode_bytes :=
  unfold encode_utf8; repeat case_match; try lia;
  repeat (apply (f_equal2 cons); [apply Zbyte_eq; zdiv|]); reflexivity.

Lemma decode_2 b b2 :
  utf8_char_width b = 2 → cont b2 = true → ∃ c, scalar c = true ∧ encode_utf8 c = [b; b2].
Proof.
  intros H H2. exists ((byteZ b - 192) * 64 + (byteZ b2 - 128)).
  pose proof (byteZ_range b). reflect_bytes. split; repeat case_match; try lia; decode_bytes.
Qed.

Lemma decode_3 b b2 b3 :
  utf8_char_width b = 3 → second_of_3 b b2 = true → cont b3 = true →
  ∃ c, scalar c = true ∧ encode_utf8 c = [b; b2; b3].
Proof.
  intros H H2 H3.
  exists ((byteZ b - 224) * 4096 + (byteZ b2 - 128) * 64 + (byteZ b3 - 128)).
  pose proof (byteZ_range b). reflect_bytes. split; repeat case_match; try lia; decode_bytes.
Qed.

Lemma decode_4 b b2 b3 b4 :
  utf8_char_width b = 4 → second_of_4 b b2 = true → cont b3 = true → cont b4 = true →
  ∃ c, scalar c = true ∧ encode_utf8 c = [b; b2; b3; b4].
Proof.
  intros H H2 H3 H4.
  exists ((byteZ b - 240) * 262144 + (byteZ b2 - 128) * 4096 + (byteZ b3 - 128) * 64 + (byteZ b4 - 128)).
  pose proof (byteZ_range b). reflect_bytes. split; repeat case_match; try lia; decode_bytes.
Qed.

Lemma encodes_nil : encodes [] [].
Proof. by split. Qed.

Lemma encodes_cons l1 c l cs :
  scalar c = true → encode_utf8 c = l1 → encodes l cs → encodes (l1 ++ l) (c :: cs).
Proof. intros Hc <- [Hcs ->]. split; [by constructor|done]. Qed.

(** The validator accepts exactly the encodings of sequences of scalar values. *)
Lemma utf8_scan_encodes l : utf8_scan 0 l = None → ∃ cs, encodes l cs.
Proof.
  induction l as [l IH] using (well_founded_induction (well_founded_ltof _ length)).
  assert (IH' : ∀ p l', utf8_scan p l' = None → (length l' < length l)%nat → ∃ cs, encodes l' cs).
  { intros p l' H Hl. apply IH; [done|]. by eapply utf8_scan_shift. }
  clear IH. destruct l as [|b l1]; [by exists []; apply encodes_nil|]. simpl in *.
  repeat (case_match; try done); subst; intros Hs; apply IH' in Hs as [cs Hcs];
    simpl; try lia; rewrite ?Z.eqb_eq in *.
  - destruct (decode_1 b) as (c & ? & ?); [done|]. exists (c :: cs). by apply (encodes_cons [b]).
  - match goal with |- ∃ _, encodes (?a :: ?b :: _) _ => destruct (decode_2 a b) as (c & ? & ?) end;
      [done..|]. exists (c :: cs). by apply (encodes_cons [_; _]).
  - match goal with |- ∃ _, encodes (?a :: ?b :: ?d :: _) _ =>
      destruct (decode_3 a b d) as (c & ? & ?) end;
      [done..|]. exists (c :: cs). by apply (encodes_cons [_; _; _]).
  - match goal with |- ∃ _, encodes (?a :: ?b :: ?d :: ?e :: _) _ =>
      destruct (decode_4 a b d e) as (c & ? & ?) end;
      [done..|]. exists (c :: cs). by apply (encodes_cons [_; _; _; _]).
Qed.

Lemma utf8_ok_iff l : utf8_valid l = true ↔ ∃ cs, encodes l cs.
Proof.
  unfold utf8_valid. split.
  - destruct (utf8_scan 0 l) eqn:E; [done|]. intros _. by apply utf8_scan_encodes.
  - intros (cs & Hcs & ->).
    enough (utf8_scan 0 (cs ≫= encode_utf8) = None) as -> by done.
    induction Hcs as [|c cs Hc _ IH]; [done|].
    csimpl. by apply utf8_scan_encode.
Qed.

Lemma from_utf8_valid l : utf8_valid l = true → from_utf8 l = inr (String.string_of_list_byte l).
Proof. unfold utf8_valid, from_utf8. by destruct (utf8_scan 0 l). Qed.

Lemma from_utf8_invalid l :
  utf8_valid l = false → ∃ e, from_utf8 l = inl e.
Proof. unfold utf8_valid, from_utf8. destruct (utf8_scan 0 l); naive_solver. Qed.

(** ** Lossy conversion *)

(** U+FFFD, which [String::from_utf8_lossy] puts for each invalid sequence. *)
Definition REPLACEMENT : list byte := [xef; xbf; xbd].

Fixpoint lossy (fuel : nat) (l : list byte) : list byte :=
  match fuel, utf8_scan 0 l with
  | _, None => l
  | O, Some _ => []
  | S fuel, Some e =>
      let v := Z.to_nat (valid_up_to e) in
      take v l ++ REPLACEMENT ++
        match error_len e with
        | Some n => lossy fuel (drop (v + Z.to_nat n) l)
        | None => []
        end
  end.

(** Every round drops at least one byte. *)
Definition from_utf8_lossy (l : list byte) : list byte := lossy (length l) l.

(** Where the validator stops: after a valid part, and short of the end. *)
Definition stops (pos : Z) (l : list byte) (e : Utf8Error) : Prop :=
  pos ≤ valid_up_to e < pos + zlen l ∧
  utf8_scan 0 (take (Z.to_nat (valid_up_to e - pos)) l) = None ∧
  (∀ n, error_len e = Some n → 1 ≤ n).

Lemma stops_here pos b l n : (∀ k, n = Some k → 1 ≤ k) → stops pos (b :: l) (mkUtf8Error pos n).
Proof.
  intros Hn. unfold stops. simpl. rewrite Z.sub_diag. unfold zlen. simpl. split_and!; [lia|lia|done|done].
Qed.

(** A sequence that is scanned in one go. *)
Lemma stops_next pos pre l e :
  pre ≠ [] → (∀ t, utf8_scan 0 (pre ++ t) = utf8_scan (0 + zlen pre) t) →
  stops (pos + zlen pre) l e → stops pos (pre ++ l) e.
Proof.
  intros Hpre Hscan (Hr & Ht & Hn).
  assert (0 < zlen pre) by (destruct pre; [done|unfold zlen; simpl; lia]).
  split_and!; [lia|unfold zlen in *; rewrite length_app; lia| |done].
  rewrite take_app, take_ge by (unfold zlen in *; lia). rewrite Hscan. apply (utf8_scan_shift 0).
  replace (Z.to_nat (valid_up_to e - pos) - length pre)%nat
    with (Z.to_nat (valid_up_to e - (pos + zlen pre))) by (unfold zlen in *; lia). done.
Qed.

Lemma utf8_scan_stops pos l e : utf8_scan pos l = Some e → stops pos l e.
Proof.
  revert pos. induction l as [l IH] using (well_founded_induction (well_founded_ltof _ length)).
  assert (Hnext : ∀ pos pre l1, l = pre ++ l1 → pre ≠ [] →
    (∀ t, utf8_scan 0 (pre ++ t) = utf8_scan (0 + zlen pre) t) →
    utf8_scan (pos + zlen pre) l1 = Some e → stops pos (pre ++ l1) e).
  { intros pos pre l1 -> Hpre Hscan H1. apply stops_next; [done..|]. apply IH; [|done].
    unfold ltof. rewrite length_app. destruct pre; [done|simpl; lia]. }
  intros pos. destruct l as [|b l1]; [done|]. simpl.
  repeat (case_match; subst); intros Hs; try (injection Hs as <-; apply stops_here; naive_solver lia).
  - apply (Hnext pos [b] l1); [done|done| |done]. intros t. simpl. by repeat (case_match; try congruence).
  - match goal with |- stops _ (?a :: ?c :: ?l) _ => apply (Hnext pos [a; c] l) end;
      [done|done| |done]. intros t. simpl. by repeat (case_match; try congruence).
  - match goal with |- stops _ (?a :: ?c :: ?d :: ?l) _ => apply (Hnext pos [a; c; d] l) end;
      [done|done| |done]. intros t. simpl. by repeat (case_match; try congruence).
  - match goal with |- stops _ (?a :: ?c :: ?d :: ?f :: ?l) _ => apply (Hnext pos [a; c; d; f] l) end;
      [done|done| |done]. intros t. simpl. by repeat (case_match; try congruence).
Qed.

Lemma utf8_valid_app l1 l2 : utf8_valid l1 = true → utf8_valid l2 = true → utf8_valid (l1 ++ l2) = true.
Proof.
  rewrite !utf8_ok_iff. intros (c1 & H1 & ->) (c2 & H2 & ->). exists (c1 ++ c2).
  split; [by apply Forall_app|]. by rewrite bind_app.
Qed.

Lemma lossy_valid fuel l : utf8_valid (lossy fuel l) = true.
Proof.
  revert l. induction fuel as [|fuel IH]; intros l; simpl; destruct (utf8_scan 0 l) as [e|] eqn:E; try done;
    try (unfold utf8_valid; by rewrite E).
  destruct (utf8_scan_stops _ _ _ E) as (_ & Ht & _). rewrite Z.sub_0_r in Ht.
  apply utf8_valid_app; [unfold utf8_valid; by rewrite Ht|].
  apply (utf8_valid_app REPLACEMENT); [done|]. by destruct (error_len e).
Qed.

Lemma lossy_id fuel l : utf8_valid l = true → lossy fuel l = l.
Proof. unfold utf8_valid. by destruct fuel; simpl; destruct (utf8_scan 0 l). Qed.

(** The fuel of [from_utf8_lossy] is enough: more of it changes nothing. *)
Lemma lossy_enough fuel l : (length l ≤ fuel)%nat → lossy fuel l = from_utf8_lossy l.
Proof.
  unfold from_utf8_lossy. assert (Hgen : ∀ n m l, (length l ≤ n)%nat → (length l ≤ m)%nat → lossy n l = lossy m l).
  { clear. induction n as [|n IH]; intros m l Hn Hm.
    - destruct l; simpl in Hn; [|lia]. by destruct m.
    - destruct m as [|m]; [destruct l; simpl in Hm; [done|lia]|]. simpl.
      destruct (utf8_scan 0 l) as [e|] eqn:E; [|done]. do 2 f_equal.
      destruct (error_len e) as [k|] eqn:Hk; [|done].
      destruct (utf8_scan_stops _ _ _ E) as (Hr & _ & Hk1). specialize (Hk1 k Hk). unfold zlen in Hr.
      do 2 f_equal. apply IH; rewrite length_drop; lia. }
  intros Hf. by apply Hgen.
Qed.
