(* ===== verification/Options.v ===== *)
(** * Open options across the C ABI

    [F4KvsOpenOptions] of [f4kvs.h] and [lib.rs]: its memory layout, the copy
    [read_open_options] makes of a caller's structure (current, truncated or of
    the layout before [struct_size]), and [apply_open_options], which turns the
    options into an [LsmConfig].  Memory is a list of bytes, little-endian, laid
    out by [repr(C)] with four-byte alignment for [c_uint]. *)

From S2P Require Import Prelude Engine.

Record F4KvsOpenOptions := mkOpts {
  o_struct_size : Z;
  o_group_commit_enabled : Z;
  o_group_commit_max_wait_ms : Z;
  o_group_commit_max_batch_size : Z;
  o_group_commit_wait_durable : Z;
  o_wal_engine : Z;
  o_wal_durability : Z;
  o_group_commit_idle_flush_ms : Z;
  o_max_batch_size : Z;
  o_compaction_background : Z;
  o_max_sstables_per_level : Z;
  o_memtable_max_size : Z;
  o_sstable_target_size : Z;
  o_sstable_max_size : Z
}.

Record F4KvsOpenOptionsV0 := mkOptsV0 {
  v0_group_commit_enabled : Z;
  v0_group_commit_max_wait_ms : Z;
  v0_group_commit_max_batch_size : Z;
  v0_group_commit_wait_durable : Z;
  v0_wal_engine : Z;
  v0_wal_durability : Z;
  v0_group_commit_idle_flush_ms : Z;
  v0_max_batch_size : Z;
  v0_compaction_background : Z;
  v0_max_sstables_per_level : Z;
  v0_memtable_max_size : Z;
  v0_sstable_target_size : Z;
  v0_sstable_max_size : Z
}.

Definition MIN_VERSIONED_OPEN_OPTIONS : Z := 8.
Definition sizeof_F4KvsOpenOptions : nat := 48.
Definition sizeof_F4KvsOpenOptionsV0 : nat := 44.

(** [F4KvsOpenOptions::new]. *)
Definition F4KvsOpenOptions_new : F4KvsOpenOptions :=
  mkOpts (Z.of_nat sizeof_F4KvsOpenOptions) 0 0 0 0 0 0 0 0 0 0 0 0 0.

(** [impl From<F4KvsOpenOptionsV0> for F4KvsOpenOptions]. *)
Definition from_v0 (old : F4KvsOpenOptionsV0) : F4KvsOpenOptions :=
  mkOpts 0
    (v0_group_commit_enabled old) (v0_group_commit_max_wait_ms old)
    (v0_group_commit_max_batch_size old) (v0_group_commit_wait_durable old)
    (v0_wal_engine old) (v0_wal_durability old) (v0_group_commit_idle_flush_ms old)
    (v0_max_batch_size old) (v0_compaction_background old)
    (v0_max_sstables_per_level old) (v0_memtable_max_size old)
    (v0_sstable_target_size old) (v0_sstable_max_size old).

(** ** Layout *)

Definition u8_at (off : nat) (mem : list byte) : Z := le_value (take 1 (drop off mem)).
Definition u32_at (off : nat) (mem : list byte) : Z := le_value (take 4 (drop off mem)).

Definition decode_options (mem : list byte) : F4KvsOpenOptions :=
  mkOpts (u32_at 0 mem) (u8_at 4 mem) (u32_at 8 mem) (u32_at 12 mem)
         (u8_at 16 mem) (u8_at 17 mem) (u8_at 18 mem) (u32_at 20 mem) (u32_at 24 mem)
         (u8_at 28 mem) (u32_at 32 mem) (u32_at 36 mem) (u32_at 40 mem) (u32_at 44 mem).

Definition decode_options_v0 (mem : list byte) : F4KvsOpenOptionsV0 :=
  mkOptsV0 (u8_at 0 mem) (u32_at 4 mem) (u32_at 8 mem)
           (u8_at 12 mem) (u8_at 13 mem) (u8_at 14 mem) (u32_at 16 mem) (u32_at 20 mem)
           (u8_at 24 mem) (u32_at 28 mem) (u32_at 32 mem) (u32_at 36 mem) (u32_at 40 mem).

(** The structure as a caller lays it out; [p1], [p2] and [p3] are the padding
    bytes, which C leaves unspecified. *)
Definition encode_options (p1 p2 p3 : list byte) (o : F4KvsOpenOptions) : list byte :=
  le_bytes 4 (o_struct_size o) ++ le_bytes 1 (o_group_commit_enabled o) ++ p1 ++
  le_bytes 4 (o_group_commit_max_wait_ms o) ++ le_bytes 4 (o_group_commit_max_batch_size o) ++
  le_bytes 1 (o_group_commit_wait_durable o) ++ le_bytes 1 (o_wal_engine o) ++
  le_bytes 1 (o_wal_durability o) ++ p2 ++ le_bytes 4 (o_group_commit_idle_flush_ms o) ++
  le_bytes 4 (o_max_batch_size o) ++ le_bytes 1 (o_compaction_background o) ++ p3 ++
  le_bytes 4 (o_max_sstables_per_level o) ++ le_bytes 4 (o_memtable_max_size o) ++
  le_bytes 4 (o_sstable_target_size o) ++ le_bytes 4 (o_sstable_max_size o).

Definition encode_options_v0 (p1 p2 p3 : list byte) (o : F4KvsOpenOptionsV0) : list byte :=
  le_bytes 1 (v0_group_commit_enabled o) ++ p1 ++
  le_bytes 4 (v0_group_commit_max_wait_ms o) ++ le_bytes 4 (v0_group_commit_max_batch_size o) ++
  le_bytes 1 (v0_group_commit_wait_durable o) ++ le_bytes 1 (v0_wal_engine o) ++
  le_bytes 1 (v0_wal_durability o) ++ p2 ++ le_bytes 4 (v0_group_commit_idle_flush_ms o) ++
  le_bytes 4 (v0_max_batch_size o) ++ le_bytes 1 (v0_compaction_background o) ++ p3 ++
  le_bytes 4 (v0_max_sstables_per_level o) ++ le_bytes 4 (v0_memtable_max_size o) ++
  le_bytes 4 (v0_sstable_target_size o) ++ le_bytes 4 (v0_sstable_max_size o).

(** Every field fits its C type. *)
Definition u8 (z : Z) : Prop := 0 ≤ z < 256.
Definition u32 (z : Z) : Prop := 0 ≤ z < 2 ^ 32.

Definition options_fit (o : F4KvsOpenOptions) : Prop :=
  u32 (o_struct_size o) ∧ u8 (o_group_commit_enabled o) ∧
  u32 (o_group_commit_max_wait_ms o) ∧ u32 (o_group_commit_max_batch_size o) ∧
  u8 (o_group_commit_wait_durable o) ∧ u8 (o_wal_engine o) ∧ u8 (o_wal_durability o) ∧
  u32 (o_group_commit_idle_flush_ms o) ∧ u32 (o_max_batch_size o) ∧
  u8 (o_compaction_background o) ∧ u32 (o_max_sstables_per_level o) ∧
  u32 (o_memtable_max_size o) ∧ u32 (o_sstable_target_size o) ∧ u32 (o_sstable_max_size o).

Definition options_v0_fit (o : F4KvsOpenOptionsV0) : Prop :=
  u8 (v0_group_commit_enabled o) ∧
  u32 (v0_group_commit_max_wait_ms o) ∧ u32 (v0_group_commit_max_batch_size o) ∧
  u8 (v0_group_commit_wait_durable o) ∧ u8 (v0_wal_engine o) ∧ u8 (v0_wal_durability o) ∧
  u32 (v0_group_commit_idle_flush_ms o) ∧ u32 (v0_max_batch_size o) ∧
  u8 (v0_compaction_background o) ∧ u32 (v0_max_sstables_per_level o) ∧
  u32 (v0_memtable_max_size o) ∧ u32 (v0_sstable_target_size o) ∧ u32 (v0_sstable_max_size o).

(** ** [read_open_options]

    [ptr] is the caller's pointer: null, or the bytes readable from it.  The
    outer option is [None] when the copy would read past those bytes. *)
Definition read_open_options (ptr : option (list byte)) : option (option F4KvsOpenOptions) :=
  match ptr with
  | None => Some None
  | Some mem =>
      if bool_decide (length mem < 4)%nat then None
      else
        let first := u32_at 0 mem in
        if first <? MIN_VERSIONED_OPEN_OPTIONS then
          if bool_decide (length mem < sizeof_F4KvsOpenOptionsV0)%nat then None
          else Some (Some (from_v0 (decode_options_v0 mem)))
        else
          let n := Nat.min (Z.to_nat first) sizeof_F4KvsOpenOptions in
          if bool_decide (length mem < n)%nat then None
          else
            let buf := take n mem ++ replicate (sizeof_F4KvsOpenOptions - n) x00 in
            Some (Some (decode_options buf))
  end.

(** ** [apply_open_options] *)

Definition set_wal (f : WalConfig → WalConfig) (c : LsmConfig) : LsmConfig :=
  mkConfig (data_dir c) (f (wal c)) (max_batch_size c) (background_enabled c)
    (max_sstables_per_level c) (memtable_max_size c) (sstable_target_size c) (sstable_max_size c).

Definition set_group_commit_enabled (b : bool) (w : WalConfig) : WalConfig :=
  mkWal (wal_dir w) (sync_mode w) b (group_commit_max_wait w) (group_commit_max_batch_size w)
    (group_commit_wait_durable w) (group_commit_idle_flush w) (wal_engine w).
Definition set_group_commit_max_wait (z : Z) (w : WalConfig) : WalConfig :=
  mkWal (wal_dir w) (sync_mode w) (group_commit_enabled w) z (group_commit_max_batch_size w)
    (group_commit_wait_durable w) (group_commit_idle_flush w) (wal_engine w).
Definition set_group_commit_max_batch_size (z : Z) (w : WalConfig) : WalConfig :=
  mkWal (wal_dir w) (sync_mode w) (group_commit_enabled w) (group_commit_max_wait w) z
    (group_commit_wait_durable w) (group_commit_idle_flush w) (wal_engine w).
Definition set_group_commit_wait_durable (b : bool) (w : WalConfig) : WalConfig :=
  mkWal (wal_dir w) (sync_mode w) (group_commit_enabled w) (group_commit_max_wait w)
    (group_commit_max_batch_size w) b (group_commit_idle_flush w) (wal_engine w).
Definition set_group_commit_idle_flush (z : option Z) (w : WalConfig) : WalConfig :=
  mkWal (wal_dir w) (sync_mode w) (group_commit_enabled w) (group_commit_max_wait w)
    (group_commit_max_batch_size w) (group_commit_wait_durable w) z (wal_engine w).
Definition set_wal_engine (e : WalEngine) (w : WalConfig) : WalConfig :=
  mkWal (wal_dir w) (sync_mode w) (group_commit_enabled w) (group_commit_max_wait w)
    (group_commit_max_batch_size w) (group_commit_wait_durable w) (group_commit_idle_flush w) e.

Definition durability_of (b : Z) : WalDurability :=
  if b =? 1 then Amortized else if b =? 2 then Buffered else Strict.

Definition wal_engine_of (b : Z) : WalEngine :=
  if b =? 1 then Frame else if b =? 2 then Indexed else Segment.

(** The [config.wal] half of the function, statement by statement. *)
Definition apply_wal_options `{LsmEngine} (o : F4KvsOpenOptions) (w : WalConfig) : WalConfig :=
  let durability := durability_of (o_wal_durability o) in
  let w := durability_apply_to durability w in
  let w := if bool_decide (o_group_commit_enabled o ≠ 0) then set_group_commit_enabled true w else w in
  let w := if 0 <? o_group_commit_max_wait_ms o
           then set_group_commit_max_wait (o_group_commit_max_wait_ms o) w else w in
  let w := if 0 <? o_group_commit_max_batch_size o
           then set_group_commit_max_batch_size (o_group_commit_max_batch_size o) w else w in
  let w := if bool_decide (o_group_commit_wait_durable o ≠ 0)
           then set_group_commit_wait_durable true w else w in
  let w := if 0 <? o_group_commit_idle_flush_ms o
           then set_group_commit_idle_flush (Some (o_group_commit_idle_flush_ms o)) w
           else if bool_decide (durability = Amortized) && bool_decide (group_commit_idle_flush w = None)
           then set_group_commit_idle_flush (Some 100) w else w in
  let w := if bool_decide (durability = Amortized) && (o_group_commit_max_wait_ms o =? 0)
           then set_group_commit_max_wait 50 w else w in
  set_wal_engine (wal_engine_of (o_wal_engine o)) w.

Definition apply_open_options `{LsmEngine}
    (config : LsmConfig) (options : option F4KvsOpenOptions) : LsmConfig :=
  match options with
  | None => config
  | Some o =>
      let target := if 0 <? o_sstable_target_size o then o_sstable_target_size o
                    else sstable_target_size config in
      let max := if 0 <? o_sstable_max_size o then o_sstable_max_size o
                 else sstable_max_size config in
      mkConfig (data_dir config) (apply_wal_options o (wal config))
        (if 0 <? o_max_batch_size o then o_max_batch_size o else max_batch_size config)
        (if o_compaction_background o =? 2 then false
         else if o_compaction_background o =? 1 then true else background_enabled config)
        (if 0 <? o_max_sstables_per_level o then o_max_sstables_per_level o
         else max_sstables_per_level config)
        (if 0 <? o_memtable_max_size o then o_memtable_max_size o else memtable_max_size config)
        target
        (if max <? target then target else max)
  end.

(** ** Lemmas *)

Lemma u8_le z : u8 z → le_value (le_bytes 1 z) = z.
Proof. intros H. apply le_value_bytes. exact H. Qed.

Lemma u32_le z : u32 z → le_value (le_bytes 4 z) = z.
Proof. intros H. apply le_value_bytes. exact H. Qed.

(** A list of known length is an explicit list. *)
Lemma length_3 {A} (l : list A) : length l = 3%nat → ∃ a b c, l = [a; b; c].
Proof. destruct l as [|a [|b [|c [|]]]]; naive_solver. Qed.

Lemma length_1 {A} (l : list A) : length l = 1%nat → ∃ a, l = [a].
Proof. destruct l as [|a [|]]; naive_solver. Qed.

Definition padding (p1 p2 p3 : list byte) : Prop :=
  length p1 = 3%nat ∧ length p2 = 1%nat ∧ length p3 = 3%nat.

Ltac explicit_padding :=
  match goal with
  | H : padding _ _ _ |- _ =>
      let Ha := fresh in let Hb := fresh in let Hc := fresh in
      destruct H as (Ha & Hb & Hc);
      apply length_3 in Ha as (? & ? & ? & ->);
      apply length_1 in Hb as (? & ->);
      apply length_3 in Hc as (? & ? & ? & ->)
  end.

Lemma length_encode_options p1 p2 p3 o :
  padding p1 p2 p3 → length (encode_options p1 p2 p3 o) = 48%nat.
Proof. intros. explicit_padding. reflexivity. Qed.

Lemma encode_options_first p1 p2 p3 o rest :
  u32 (o_struct_size o) → u32_at 0 (encode_options p1 p2 p3 o ++ rest) = o_struct_size o.
Proof. intros H. by apply u32_le. Qed.

(** The fields lie at the offsets the decoder reads, whatever the padding. *)
Lemma decode_encode_options p1 p2 p3 o rest :
  padding p1 p2 p3 → options_fit o → decode_options (encode_options p1 p2 p3 o ++ rest) = o.
Proof.
  intros Hp Ho. explicit_padding.
  destruct o. destruct Ho as (?&?&?&?&?&?&?&?&?&?&?&?&?&?). simpl in *.
  unfold decode_options. f_equal; first [by apply u8_le | by apply u32_le].
Qed.

Lemma decode_encode_options_v0 p1 p2 p3 o rest :
  padding p1 p2 p3 → options_v0_fit o →
  decode_options_v0 (encode_options_v0 p1 p2 p3 o ++ rest) = o.
Proof.
  intros Hp Ho. explicit_padding.
  destruct o. destruct Ho as (?&?&?&?&?&?&?&?&?&?&?&?&?). simpl in *.
  unfold decode_options_v0. f_equal; first [by apply u8_le | by apply u32_le].
Qed.

(** The structure a caller that declared [n] bytes sees: the fields that end at
    or before byte [n], zero for the others. *)
Definition truncate_options (n : nat) (o : F4KvsOpenOptions) : F4KvsOpenOptions :=
  let keep (last : nat) (z : Z) := if bool_decide (last ≤ n)%nat then z else 0 in
  mkOpts (o_struct_size o) (keep 5%nat (o_group_commit_enabled o))
    (keep 12%nat (o_group_commit_max_wait_ms o)) (keep 16%nat (o_group_commit_max_batch_size o))
    (keep 17%nat (o_group_commit_wait_durable o)) (keep 18%nat (o_wal_engine o))
    (keep 19%nat (o_wal_durability o)) (keep 24%nat (o_group_commit_idle_flush_ms o))
    (keep 28%nat (o_max_batch_size o)) (keep 29%nat (o_compaction_background o))
    (keep 36%nat (o_max_sstables_per_level o)) (keep 40%nat (o_memtable_max_size o))
    (keep 44%nat (o_sstable_target_size o)) (keep 48%nat (o_sstable_max_size o)).

(** Declared sizes that do not cut a field in two. *)
Definition field_boundaries : list nat :=
  [8; 12; 16; 17; 18; 19; 20; 24; 28; 29; 30; 31; 32; 36; 40; 44; 48]%nat.

Lemma decode_truncated p1 p2 p3 o n :
  padding p1 p2 p3 → options_fit o → n ∈ field_boundaries →
  decode_options (take n (encode_options p1 p2 p3 o) ++ replicate (48 - n) x00) =
    truncate_options n o.
Proof.
  intros Hp Ho Hn. explicit_padding.
  destruct o. destruct Ho as (?&?&?&?&?&?&?&?&?&?&?&?&?&?). simpl in *.
  unfold field_boundaries in Hn.
  repeat (apply elem_of_cons in Hn as [->|Hn];
    [unfold decode_options, truncate_options; f_equal;
     first [by apply u8_le | by apply u32_le | reflexivity] |]).
  by apply elem_of_nil in Hn.
Qed.

Lemma field_boundaries_bound n : n ∈ field_boundaries → (8 ≤ n ≤ 48)%nat.
Proof.
  intros Hn. assert (Forall (λ n, 8 ≤ n ≤ 48)%nat field_boundaries) as HF
    by (unfold field_boundaries; repeat constructor; lia).
  rewrite Forall_forall in HF. by apply HF.
Qed.

(** [read_open_options] on a versioned structure, of which [mem] is readable. *)
Lemma read_versioned mem :
  (4 ≤ length mem)%nat → MIN_VERSIONED_OPEN_OPTIONS ≤ u32_at 0 mem →
  let n := Nat.min (Z.to_nat (u32_at 0 mem)) sizeof_F4KvsOpenOptions in
  (n ≤ length mem)%nat →
  read_open_options (Some mem) = Some (Some (decode_options (take n mem ++ replicate (48 - n) x00))).
Proof.
  intros H4 H8 n Hn. unfold read_open_options.
  rewrite bool_decide_eq_false_2 by lia.
  rewrite (proj2 (Z.ltb_ge _ _)) by done. fold n. by rewrite bool_decide_eq_false_2 by lia.
Qed.

Lemma u32_at_take n mem : (4 ≤ n)%nat → u32_at 0 (take n mem) = u32_at 0 mem.
Proof. intros. unfold u32_at. rewrite !drop_0, take_take. by rewrite Nat.min_l. Qed.

(** The structure of the current layout comes back as it was laid out. *)
Lemma read_open_options_full p1 p2 p3 o :
  padding p1 p2 p3 → options_fit o → o_struct_size o = Z.of_nat sizeof_F4KvsOpenOptions →
  read_open_options (Some (encode_options p1 p2 p3 o)) = Some (Some o).
Proof.
  intros Hp Ho Hsz. pose proof (length_encode_options p1 p2 p3 o Hp) as Hlen.
  assert (Hf : u32_at 0 (encode_options p1 p2 p3 o) = 48).
  { rewrite <-(app_nil_r (encode_options _ _ _ _)), encode_options_first by apply Ho. done. }
  rewrite read_versioned; rewrite ?Hf, ?Hlen; try done.
  - change (Nat.min _ _) with 48%nat. rewrite take_ge by lia. by rewrite decode_encode_options.
  - lia.
Qed.

(** ** Properties *)

(** A caller that declared [n] bytes, cut at a field boundary, and owns only
    those [n] bytes is read without touching memory past them: the fields it
    provided come back unchanged, whatever the padding, and the others are zero. *)
Lemma read_open_options_truncated p1 p2 p3 o n :
  padding p1 p2 p3 → options_fit o → n ∈ field_boundaries → o_struct_size o = Z.of_nat n →
  read_open_options (Some (take n (encode_options p1 p2 p3 o))) = Some (Some (truncate_options n o)).
Proof.
  intros Hp Ho Hn Hsz. pose proof (field_boundaries_bound n Hn).
  pose proof (length_encode_options p1 p2 p3 o Hp) as Hlen.
  assert (Hf : u32_at 0 (take n (encode_options p1 p2 p3 o)) = Z.of_nat n).
  { rewrite u32_at_take by lia. rewrite <-Hsz, <-(app_nil_r (encode_options _ _ _ _)).
    apply encode_options_first, Ho. }
  assert (Htake : length (take n (encode_options p1 p2 p3 o)) = n) by (rewrite length_take; lia).
  rewrite read_versioned; rewrite ?Hf, ?Htake; unfold MIN_VERSIONED_OPEN_OPTIONS,
    sizeof_F4KvsOpenOptions; try lia.
  replace (Nat.min (Z.to_nat (Z.of_nat n)) 48) with n by lia.
  rewrite take_take, Nat.min_id. by rewrite decode_truncated.
Qed.

Lemma read_open_options_truncated_witness :
  let o := mkOpts 36 0 0 0 0 0 1 0 0 0 0 1048576 0 0 in
  read_open_options (Some (take 36 (encode_options [xff; xff; xff] [xaa] [x00; x00; x00] o))) =
    Some (Some (mkOpts 36 0 0 0 0 0 1 0 0 0 0 0 0 0)).
Proof.
  intros o. etrans.
  - apply (read_open_options_truncated _ _ _ o 36).
    + repeat split; reflexivity.
    + unfold options_fit, u8, u32; simpl; lia.
    + unfold field_boundaries. set_solver.
    + reflexivity.
  - reflexivity.
Defined.

(** C31: a structure laid out before [struct_size] existed is recognised when its
    first byte is below 8 (it is 0 or 1 there) and the three padding bytes after it
    are zero; each of its thirteen fields then comes back under its own name, with
    [struct_size] 0, whatever the other padding and whatever follows in memory. *)
Theorem read_open_options_legacy p2 p3 enabled max_wait max_batch durable engine durability idle
    batch compaction per_level memtable target max rest :
  let o := mkOptsV0 enabled max_wait max_batch durable engine durability idle
             batch compaction per_level memtable target max in
  padding [x00; x00; x00] p2 p3 → options_v0_fit o → enabled < 8 →
  read_open_options (Some (encode_options_v0 [x00; x00; x00] p2 p3 o ++ rest)) =
    Some (Some {|
      o_struct_size := 0;
      o_group_commit_enabled := enabled;
      o_group_commit_max_wait_ms := max_wait;
      o_group_commit_max_batch_size := max_batch;
      o_group_commit_wait_durable := durable;
      o_wal_engine := engine;
      o_wal_durability := durability;
      o_group_commit_idle_flush_ms := idle;
      o_max_batch_size := batch;
      o_compaction_background := compaction;
      o_max_sstables_per_level := per_level;
      o_memtable_max_size := memtable;
      o_sstable_target_size := target;
      o_sstable_max_size := max |}).
Proof.
  intros o Hp Ho H8. change enabled with (v0_group_commit_enabled o) in H8. unfold read_open_options.
  assert (Hlen : (44 ≤ length (encode_options_v0 [x00; x00; x00] p2 p3 o ++ rest))%nat).
  { explicit_padding. simpl. lia. }
  assert (Hf : u32_at 0 (encode_options_v0 [x00; x00; x00] p2 p3 o ++ rest) = v0_group_commit_enabled o).
  { change (u32_at 0 _) with (byteZ (Zbyte (v0_group_commit_enabled o)) + 256 * 0).
    rewrite byteZ_Zbyte, Z.mod_small; [lia|]. apply Ho. }
  rewrite Hf. unfold sizeof_F4KvsOpenOptionsV0, MIN_VERSIONED_OPEN_OPTIONS.
  rewrite bool_decide_eq_false_2 by lia. rewrite (proj2 (Z.ltb_lt _ _)) by done.
  rewrite bool_decide_eq_false_2 by lia. by rewrite decode_encode_options_v0.
Qed.

Lemma read_open_options_legacy_witness :
  read_open_options (Some (encode_options_v0 [x00; x00; x00] [x07] [x01; x02; x03]
    (mkOptsV0 1 50 3 1 2 1 7 8 2 9 10 11 12) ++ [])) =
  Some (Some (mkOpts 0 1 50 3 1 2 1 7 8 2 9 10 11 12)).
Proof.
  apply (read_open_options_legacy [x07] [x01; x02; x03] 1 50 3 1 2 1 7 8 2 9 10 11 12 []).
  - repeat split; reflexivity.
  - unfold options_v0_fit, u8, u32; simpl; lia.
  - lia.
Defined.

(** What each option does to the configuration it is applied to. *)
Lemma apply_open_options_zero `{LsmEngine} config :
  sstable_target_size config ≤ sstable_max_size config →
  apply_open_options config (Some F4KvsOpenOptions_new) =
    set_wal (λ w, set_wal_engine Segment (durability_apply_to Strict w)) config.
Proof.
  intros Hle. unfold apply_open_options, F4KvsOpenOptions_new, set_wal. simpl.
  f_equal. case_match; lia.
Qed.

Lemma legacy_first_word p1 p2 p3 o rest :
  padding p1 p2 p3 →
  u32_at 0 (encode_options_v0 p1 p2 p3 o ++ rest) =
    v0_group_commit_enabled o mod 256 + 256 * le_value p1.
Proof.
  intros Hp. explicit_padding. unfold u32_at. simpl. rewrite byteZ_Zbyte. lia.
Qed.

(** Recognising the old layout relies on its padding: C leaves the three bytes
    after [group_commit_enabled] unspecified, and when they are not all zero
    beyond the first the structure is taken for a versioned one of at least 48
    bytes, so the copy reads past the 44 bytes the caller owns. *)
Lemma read_open_options_legacy_padding p1 p2 p3 o :
  padding p1 p2 p3 → 1 ≤ le_value p1 →
  read_open_options (Some (encode_options_v0 p1 p2 p3 o)) = None.
Proof.
  intros Hp H1. pose proof (legacy_first_word p1 p2 p3 o [] Hp) as Hf.
  rewrite app_nil_r in Hf. pose proof (Z.mod_pos_bound (v0_group_commit_enabled o) 256).
  assert (Hlen : length (encode_options_v0 p1 p2 p3 o) = 44%nat) by (explicit_padding; reflexivity).
  unfold read_open_options. rewrite Hf, Hlen. unfold MIN_VERSIONED_OPEN_OPTIONS, sizeof_F4KvsOpenOptions.
  rewrite bool_decide_eq_false_2 by lia. rewrite (proj2 (Z.ltb_ge _ _)) by lia.
  rewrite Nat.min_r by lia. by rewrite bool_decide_eq_true_2 by lia.
Qed.

Lemma read_open_options_legacy_padding_witness :
  1 ≤ le_value [x01; x00; x00] ∧
  read_open_options (Some (encode_options_v0 [x01; x00; x00] [x00] [x00; x00; x00]
    (mkOptsV0 1 50 0 0 2 0 0 0 0 0 0 0 0))) = None.
Proof.
  split; [vm_compute; discriminate|].
  apply read_open_options_legacy_padding; [repeat split; reflexivity | vm_compute; discriminate].
Defined.
