(* ===== verification/Ffi.v ===== *)
(** * The C ABI layer

    [crates/f4kvs-ffi/src/lib.rs] as the Go binding sees it: the process state
    the library keeps (allocations it handed out, the last error of each thread,
    the boxed engines) and the exported functions the binding calls, with their
    argument checks and every error path.

    All C and Rust memory of the process is one heap of typed blocks, so that a
    dangling handle, a block freed twice or freed by the wrong allocator is
    [Undefined].  Pointers are addresses; 0 is null.  A pointer the binding makes
    to Go memory is represented by what it points at ([GoMem]). *)

From S2P Require Import Prelude Engine Utf8 Options.

Definition MAX_KEY_LENGTH : Z := 1 * 1024 * 1024.
Definition MAX_VALUE_LENGTH : Z := 100 * 1024 * 1024.

(** [F4KvsResult], with its discriminants. *)
Inductive F4KvsResult :=
| Success
| ErrorInvalidArgument
| ErrorNotFound
| ErrorStorage
| ErrorNetwork
| ErrorTimeout
| ErrorUnknown.

#[global] Instance F4KvsResult_eq_dec : EqDecision F4KvsResult.
Proof. solve_decision. Defined.

(** The [Debug] text of a result, as [{:?}] prints it. *)
Definition F4KvsResult_debug (r : F4KvsResult) : string :=
  match r with
  | Success => "Success"
  | ErrorInvalidArgument => "ErrorInvalidArgument"
  | ErrorNotFound => "ErrorNotFound"
  | ErrorStorage => "ErrorStorage"
  | ErrorNetwork => "ErrorNetwork"
  | ErrorTimeout => "ErrorTimeout"
  | ErrorUnknown => "ErrorUnknown"
  end.

Record F4KvsKeyScanResult := mkKeyScan { ks_keys : Z; ks_count : Z }.

(** The elements of the arrays of pairs that the other scans hand out. *)
Record F4KvsKVPair := mkPair { pair_key : Z; pair_value : Z; pair_value_len : Z }.
Record F4KvsKVPairKv := mkPairKv {
  kv_key : Z; kv_key_len : Z; kv_value : Z; kv_value_len : Z
}.

Section Ffi.
Context `{L : LsmEngine}.

(** ** Process state *)

(** Who owns a block and what is in it: [malloc] memory, a [CString] given out
    by [into_raw] (with its NUL), a boxed byte slice, a boxed array of string
    pointers or of pairs, a boxed engine, a boxed cursor (whose fields [Cursor]
    keeps). *)
Inductive block :=
| BMalloc (l : list byte)
| BCString (l : list byte)
| BBoxed (l : list byte)
| BKeys (l : list Z)
| BPairs (l : list F4KvsKVPair)
| BPairsKv (l : list F4KvsKVPairKv)
| BEngine (g : lsm)
| BCursor.

(** What the platform decides: the address of a new block, whether [malloc]
    fails, the thread a C call of a goroutine runs on, where temporary files go. *)
Class Platform := {
  alloc_addr : gmap Z block → Z;
  malloc_fails : gmap Z block → Z → bool;
  os_thread : nat → nat;
  temp_dir : string;
  process_id : Z
}.

(** Fresh addresses: not null, not the dangling address of an empty slice, and
    of no live block. *)
Class PlatformOk (P : Platform) := {
  alloc_fresh h : h !! alloc_addr h = None;
  alloc_above h : 1 < alloc_addr h
}.

#[projections(primitive)]
Record Proc := mkProc {
  heap : gmap Z block;
  string_allocations : gset Z;
  bytes_allocations : gmap Z Z;
  last_error : gmap nat string;
  engine_counter : Z;
  dsk : disk;
  thread : nat;
  calls : nat
}.

Definition set_heap (h : gmap Z block) (s : Proc) : Proc :=
  mkProc h (string_allocations s) (bytes_allocations s) (last_error s) (engine_counter s)
    (dsk s) (thread s) (calls s).
Definition set_strings (a : gset Z) (s : Proc) : Proc :=
  mkProc (heap s) a (bytes_allocations s) (last_error s) (engine_counter s)
    (dsk s) (thread s) (calls s).
Definition set_bytes (a : gmap Z Z) (s : Proc) : Proc :=
  mkProc (heap s) (string_allocations s) a (last_error s) (engine_counter s)
    (dsk s) (thread s) (calls s).
Definition set_errors (e : gmap nat string) (s : Proc) : Proc :=
  mkProc (heap s) (string_allocations s) (bytes_allocations s) e (engine_counter s)
    (dsk s) (thread s) (calls s).
Definition set_counter (n : Z) (s : Proc) : Proc :=
  mkProc (heap s) (string_allocations s) (bytes_allocations s) (last_error s) n
    (dsk s) (thread s) (calls s).
Definition set_disk (d : disk) (s : Proc) : Proc :=
  mkProc (heap s) (string_allocations s) (bytes_allocations s) (last_error s)
    (engine_counter s) d (thread s) (calls s).
Definition set_call (t n : nat) (s : Proc) : Proc :=
  mkProc (heap s) (string_allocations s) (bytes_allocations s) (last_error s)
    (engine_counter s) (dsk s) t n.

Context `{P : Platform}.

(** ** Memory *)

Definition alloc (b : block) : M Proc Z := λ s,
  let a := alloc_addr (heap s) in Ret a (set_heap (<[a := b]> (heap s)) s).

(** [free] of the C library. *)
Definition c_free (a : Z) : M Proc unit := λ s,
  if a =? 0 then Ret tt s
  else match heap s !! a with
       | Some (BMalloc _) => Ret tt (set_heap (delete a (heap s)) s)
       | _ => Undefined
       end.

(** The bytes of a C string: up to the first NUL of its block. *)
Definition read_c_str (a : Z) : M Proc (list byte) := λ s,
  match heap s !! a with
  | Some (BMalloc l) | Some (BCString l) =>
      match until_nul l with Some r => Ret r s | None => Undefined end
  | _ => Undefined
  end.

(** A buffer argument: null, an address, or Go memory. *)
Inductive bufptr := NullPtr | AtAddr (a : Z) | GoMem (l : list byte).

Definition is_null (p : bufptr) : bool :=
  match p with NullPtr => true | AtAddr a => a =? 0 | GoMem _ => false end.

(** [slice::from_raw_parts(p, len).to_vec()]. *)
Definition read_buf (p : bufptr) (len : Z) : M Proc (list byte) := λ s,
  let from l := if len <=? zlen l then Ret (take (Z.to_nat len) l) s else Undefined in
  match p with
  | NullPtr => Undefined
  | GoMem l => from l
  | AtAddr a =>
      match heap s !! a with
      | Some (BMalloc l) | Some (BCString l) | Some (BBoxed l) => from l
      | _ => Undefined
      end
  end.

(** ** The last error of a thread *)

(** [msg.replace('\0', "\\0")]. *)
Definition escape_nul (msg : string) : string :=
  String.string_of_list_byte
    (String.list_byte_of_string msg ≫= λ b, if decide (b = x00) then [x5c; x30] else [b]).

Definition set_last_error (msg : string) : M Proc unit := λ s,
  Ret tt (set_errors (<[thread s := escape_nul msg]> (last_error s)) s).

(** The string behind the pointer; [None] is the null pointer. *)
Definition f4kvs_get_last_error : M Proc (option string) := λ s,
  Ret (last_error s !! thread s) s.

(** ** Handing out and taking back memory *)

(** [CString::new] followed by [into_raw] and [StringAllocator::register]. *)
Definition allocate_c_string (value : string) : M Proc (F4KvsResult + Z) :=
  let bytes := String.list_byte_of_string value in
  match nul_position bytes with
  | Some pos =>
      run! set_last_error ("Failed to create C string: " +:+ NulError_display pos) in
      mret (inl ErrorStorage)
  | None =>
      let! a := alloc (BCString (bytes ++ [x00])) in
      run! modify (λ s, set_strings ({[a]} ∪ string_allocations s) s) in
      mret (inr a)
  end.

(** [Vec::into_boxed_slice]; the slice of an empty vector is not allocated and
    has the dangling address 1.  Then [BytesAllocator::register]. *)
Definition allocate_bytes (value : list byte) : M Proc (F4KvsResult + Z * Z) :=
  let len := zlen value in
  let! a := (if len =? 0 then mret 1 else alloc (BBoxed value)) in
  run! modify (λ s, set_bytes (<[a := len]> (bytes_allocations s)) s) in
  mret (inr (a, len)).

Definition f4kvs_string_free (a : Z) : M Proc unit := λ s,
  if a =? 0 then Ret tt s
  else if bool_decide (a ∈ string_allocations s) then
    let s := set_strings (string_allocations s ∖ {[a]}) s in
    match heap s !! a with
    | Some (BCString _) => Ret tt (set_heap (delete a (heap s)) s)
    | _ => Undefined
    end
  else Ret tt s.

Definition f4kvs_bytes_free (a : Z) : M Proc unit := λ s,
  if a =? 0 then Ret tt s
  else match bytes_allocations s !! a with
       | None => Ret tt s
       | Some len =>
           let s := set_bytes (delete a (bytes_allocations s)) s in
           if len =? 0 then Ret tt s
           else match heap s !! a with
                | Some (BBoxed l) =>
                    if zlen l =? len then Ret tt (set_heap (delete a (heap s)) s) else Undefined
                | _ => Undefined
                end
       end.

(** ** Argument checks *)

Definition validate_engine (engine : Z) : M Proc (F4KvsResult + lsm) := λ s,
  if engine =? 0 then
    (run! set_last_error "Invalid argument: engine is null" in mret (inl ErrorInvalidArgument)) s
  else match heap s !! engine with
       | Some (BEngine g) => Ret (inr g) s
       | _ => Undefined
       end.

Definition validate_c_string (ptr max_length : Z) (field_name : string) : M Proc (F4KvsResult + string) :=
  if ptr =? 0 then
    let msg := if bool_decide (field_name = "key") then "Invalid argument: key is null"
               else if bool_decide (field_name = "value") then "Invalid argument: value is null"
               else if bool_decide (field_name = "prefix") then "Invalid argument: prefix is null"
               else "Invalid argument: unknown field is null" in
    run! set_last_error msg in mret (inl ErrorInvalidArgument)
  else
    let! bytes := read_c_str ptr in
    if max_length <? zlen bytes then
      run! set_last_error ("Invalid argument: " +:+ field_name +:+ " exceeds maximum length of "
                           +:+ pretty max_length +:+ " bytes") in
      mret (inl ErrorInvalidArgument)
    else match from_utf8 bytes with
         | inr str => mret (inr str)
         | inl e =>
             run! set_last_error ("Invalid UTF-8 in " +:+ field_name +:+ ": " +:+ Utf8Error_display e) in
             mret (inl ErrorInvalidArgument)
         end.

Definition reject_batch_count (g : lsm) (count : Z) : M Proc (option F4KvsResult) :=
  let max := max_batch_size (lsm_config g) in
  if max <? count then
    run! set_last_error ("Invalid argument: batch count " +:+ pretty count
                         +:+ " exceeds max_batch_size " +:+ pretty max) in
    mret (Some ErrorInvalidArgument)
  else mret None.

(** [block_on] of an engine operation: the boxed engine and the file system change. *)
Definition engine_op {A} (engine : Z) (op : LsmOp lsm disk A) : M Proc (string + A) := λ s,
  match heap s !! engine with
  | Some (BEngine g) =>
      let '(r, (g', d')) := op g (dsk s) in
      Ret r (set_disk d' (set_heap (<[engine := BEngine g']> (heap s)) s))
  | _ => Undefined
  end.

(** [match block_on(..) { Ok(_) => Success, Err(e) => ..ErrorStorage }]. *)
Definition report {A} (what : string) (r : string + A) : M Proc F4KvsResult :=
  match r with
  | inr _ => mret Success
  | inl e => run! set_last_error (what +:+ " failed: " +:+ e) in mret ErrorStorage
  end.

(** ** Opening and closing *)

Definition path_join (a b : string) : string :=
  if bool_decide (a = "") then b
  else if bool_decide (last (String.list_byte_of_string a) = Some x2f) then a +:+ b
  else a +:+ "/" +:+ b.

Definition unique_data_dir : M Proc string := λ s,
  let id := engine_counter s in
  Ret (path_join temp_dir ("f4kvs_ffi_" +:+ pretty process_id +:+ "_" +:+ pretty id))
      (set_counter (to_uint64 (id + 1)) s).

(** The configuration [open_lsm_engine] builds before it opens the engine. *)
Definition open_config (dir : string) (options : option F4KvsOpenOptions) : LsmConfig :=
  let c := config_default in
  let w := wal c in
  apply_open_options
    (mkConfig dir
       (mkWal (path_join dir "wal") FsyncAsync (group_commit_enabled w) (group_commit_max_wait w)
          (group_commit_max_batch_size w) (group_commit_wait_durable w)
          (group_commit_idle_flush w) (wal_engine w))
       (max_batch_size c) (background_enabled c) (max_sstables_per_level c)
       (memtable_max_size c) (sstable_target_size c) (sstable_max_size c))
    options.

Definition open_lsm_engine (dir : string) (options : option F4KvsOpenOptions)
    : M Proc (F4KvsResult + lsm) := λ s,
  let '(r, d') := lsm_new (open_config dir options) (dsk s) in
  let s := set_disk d' s in
  match r with
  | inr g => Ret (inr g) s
  | inl e =>
      (run! set_last_error ("Failed to open LSM engine: " +:+ e) in mret (inl ErrorStorage)) s
  end.

Definition validate_data_dir (data_dir : Z) : M Proc (F4KvsResult + string) :=
  if data_dir =? 0 then
    run! set_last_error "Invalid argument: data_dir is null" in mret (inl ErrorInvalidArgument)
  else
    let! bytes := read_c_str data_dir in
    match from_utf8 bytes with
    | inl e =>
        run! set_last_error ("Invalid UTF-8 in data_dir: " +:+ Utf8Error_display e) in
        mret (inl ErrorInvalidArgument)
    | inr path =>
        if bool_decide (path = "") then
          run! set_last_error "Invalid argument: data_dir is empty" in
          mret (inl ErrorInvalidArgument)
        else mret (inr path)
    end.

(** [Box::into_raw(Box::new(engine))], or the error path with a null handle. *)
Definition box_engine (what : string) (r : F4KvsResult + lsm) : M Proc Z :=
  match r with
  | inr g => alloc (BEngine g)
  | inl e => run! set_last_error (what +:+ F4KvsResult_debug e) in mret 0
  end.

Definition f4kvs_engine_new : M Proc Z :=
  let! dir := unique_data_dir in
  let! r := open_lsm_engine dir None in
  box_engine "Failed to create engine: " r.

Definition f4kvs_engine_open (data_dir : Z) : M Proc Z :=
  let! path := validate_data_dir data_dir in
  match path with
  | inl _ => mret 0
  | inr path =>
      let! r := open_lsm_engine path None in
      box_engine "Failed to open engine: " r
  end.

(** [options] is the caller's pointer: null or the bytes readable from it. *)
Definition f4kvs_engine_open_ex (data_dir : Z) (options : option (list byte)) : M Proc Z :=
  let! path := validate_data_dir data_dir in
  match path with
  | inl _ => mret 0
  | inr path =>
      match read_open_options options with
      | None => undefined
      | Some owned =>
          let! r := open_lsm_engine path owned in
          box_engine "Failed to open engine: " r
      end
  end.

(** Functions of the shape: check the handle, run one operation, report. *)
Definition simple_op (what : string) (op : LsmOp lsm disk unit) (engine : Z) : M Proc F4KvsResult :=
  let! e := validate_engine engine in
  match e with
  | inl e => mret e
  | inr _ => let! r := engine_op engine op in report what r
  end.

Definition f4kvs_engine_close : Z → M Proc F4KvsResult := simple_op "Close" lsm_shutdown.
Definition f4kvs_engine_compact : Z → M Proc F4KvsResult := simple_op "Compact" lsm_compact.
Definition f4kvs_engine_flush : Z → M Proc F4KvsResult := simple_op "Flush" lsm_flush.
Definition f4kvs_engine_flush_wal : Z → M Proc F4KvsResult := simple_op "Flush WAL" lsm_flush_wal.

Definition f4kvs_engine_free (engine : Z) : M Proc unit := λ s,
  if engine =? 0 then Ret tt s
  else match heap s !! engine with
       | Some (BEngine _) => Ret tt (set_heap (delete engine (heap s)) s)
       | _ => Undefined
       end.

Definition f4kvs_engine_set_bulk_import (engine enabled : Z) : M Proc F4KvsResult :=
  let! e := validate_engine engine in
  match e with
  | inl e => mret e
  | inr g =>
      run! modify (λ s, set_heap (<[engine := BEngine (lsm_set_bulk_import
             (bool_decide (enabled ≠ 0)) g)]> (heap s)) s) in
      mret Success
  end.

(** ** Reading and writing *)

Definition value_to_bytes (value : Value json) : list byte :=
  match value with
  | VBytes b => b
  | VString s => String.list_byte_of_string s
  | VJson j => String.list_byte_of_string (json_to_string j)
  | VInt64 n => String.list_byte_of_string (pretty n)
  | VUInt64 n => String.list_byte_of_string (pretty n)
  | VFloat64 f => String.list_byte_of_string (f64_to_string f)
  | VBool b => String.list_byte_of_string (if b then "true" else "false")
  | VNull => []
  end.

Definition f4kvs_engine_put_bytes (engine key : Z) (value : bufptr) (value_len : Z) : M Proc F4KvsResult :=
  let! e := validate_engine engine in
  match e with
  | inl e => mret e
  | inr _ =>
      let! key_str := validate_c_string key MAX_KEY_LENGTH "key" in
      match key_str with
      | inl e => mret e
      | inr key_str =>
          if MAX_VALUE_LENGTH <? value_len then
            run! set_last_error ("Invalid argument: value exceeds maximum length of "
                                 +:+ pretty MAX_VALUE_LENGTH +:+ " bytes") in
            mret ErrorInvalidArgument
          else if (0 <? value_len) && is_null value then
            run! set_last_error "Invalid argument: value is null" in
            mret ErrorInvalidArgument
          else
            let! bytes := (if value_len =? 0 then mret [] else read_buf value value_len) in
            let! r := engine_op engine (lsm_put key_str (VBytes bytes)) in
            report "Put bytes" r
      end
  end.

(** [outs] is what [value_out] and [value_len_out] point at, [None] when one of
    them is null; the result carries what they point at afterwards. *)
Definition f4kvs_engine_get_bytes (engine key : Z) (outs : option (Z * Z))
    : M Proc (F4KvsResult * option (Z * Z)) :=
  match outs with
  | None =>
      run! set_last_error "Invalid argument: output pointer is null" in
      mret (ErrorInvalidArgument, None)
  | Some _ =>
      let! e := validate_engine engine in
      match e with
      | inl e => mret (e, outs)
      | inr _ =>
          let! key_str := validate_c_string key MAX_KEY_LENGTH "key" in
          match key_str with
          | inl e => mret (e, outs)
          | inr key_str =>
              let! got := engine_op engine (lsm_get key_str) in
              match got with
              | inr (Some value) =>
                  let! r := allocate_bytes (value_to_bytes value) in
                  match r with
                  | inr (ptr, allocated_len) => mret (Success, Some (ptr, allocated_len))
                  | inl e => mret (e, outs)
                  end
              | inr None => mret (ErrorNotFound, Some (0, 0))
              | inl e =>
                  run! set_last_error ("Get bytes failed: " +:+ e) in
                  mret (ErrorStorage, outs)
              end
          end
      end
  end.

Definition f4kvs_engine_delete (engine key : Z) : M Proc F4KvsResult :=
  let! e := validate_engine engine in
  match e with
  | inl e => mret e
  | inr _ =>
      let! key_str := validate_c_string key MAX_KEY_LENGTH "key" in
      match key_str with
      | inl e => mret e
      | inr key_str => let! r := engine_op engine (lsm_delete key_str) in report "Delete" r
      end
  end.

(** Reading element [i] of an array the caller passed. *)
Definition elem_at (arr : option (list Z)) (i : nat) : M Proc Z :=
  match arr ≫= (.!! i) with Some z => mret z | None => undefined end.

(** The loop of [f4kvs_engine_batch_put_bytes]: element [i] and the [n - 1] after it. *)
Fixpoint collect_items (keys values value_lens : option (list Z)) (i n : nat)
    (items : list (string * Value json)) : M Proc (F4KvsResult + list (string * Value json)) :=
  match n with
  | O => mret (inr items)
  | S n =>
      let! key_ptr := elem_at keys i in
      let! key_str := validate_c_string key_ptr MAX_KEY_LENGTH "key" in
      match key_str with
      | inl e => mret (inl e)
      | inr key_str =>
          let! value_len := elem_at value_lens i in
          if MAX_VALUE_LENGTH <? value_len then
            run! set_last_error ("Invalid argument: value at index " +:+ pretty i
              +:+ " exceeds maximum length of " +:+ pretty MAX_VALUE_LENGTH +:+ " bytes") in
            mret (inl ErrorInvalidArgument)
          else
            let! value_ptr := elem_at values i in
            if (0 <? value_len) && (value_ptr =? 0) then
              run! set_last_error ("Invalid argument: value at index " +:+ pretty i +:+ " is null") in
              mret (inl ErrorInvalidArgument)
            else
              let! bytes := (if value_len =? 0 then mret [] else read_buf (AtAddr value_ptr) value_len) in
              collect_items keys values value_lens (S i) n (items ++ [(key_str, VBytes bytes)])
      end
  end.

Definition f4kvs_engine_batch_put_bytes (engine : Z) (keys values value_lens : option (list Z))
    (count : Z) : M Proc F4KvsResult :=
  let! e := validate_engine engine in
  match e with
  | inl e => mret e
  | inr g =>
      let! rejected := reject_batch_count g count in
      match rejected with
      | Some e => mret e
      | None =>
          if (0 <? count) && (bool_decide (keys = None) || bool_decide (values = None)
                              || bool_decide (value_lens = None)) then
            run! set_last_error "Invalid argument: keys, values, or value_lens is null" in
            mret ErrorInvalidArgument
          else
            let! items := collect_items keys values value_lens O (Z.to_nat count) [] in
            match items with
            | inl e => mret e
            | inr items =>
                let! r := engine_op engine (lsm_batch_put items) in
                report "Batch put bytes" r
            end
      end
  end.

Fixpoint collect_keys (keys : option (list Z)) (i n : nat) (acc : list string)
    : M Proc (F4KvsResult + list string) :=
  match n with
  | O => mret (inr acc)
  | S n =>
      let! key_ptr := elem_at keys i in
      let! key_str := validate_c_string key_ptr MAX_KEY_LENGTH "key" in
      match key_str with
      | inl e => mret (inl e)
      | inr key_str => collect_keys keys (S i) n (acc ++ [key_str])
      end
  end.

Definition f4kvs_engine_batch_delete (engine : Z) (keys : option (list Z)) (count : Z)
    : M Proc F4KvsResult :=
  let! e := validate_engine engine in
  match e with
  | inl e => mret e
  | inr g =>
      let! rejected := reject_batch_count g count in
      match rejected with
      | Some e => mret e
      | None =>
          if (0 <? count) && bool_decide (keys = None) then
            run! set_last_error "Invalid argument: keys is null" in
            mret ErrorInvalidArgument
          else
            let! key_strings := collect_keys keys O (Z.to_nat count) [] in
            match key_strings with
            | inl e => mret e
            | inr key_strings =>
                let! r := engine_op engine (lsm_batch_delete key_strings) in
                report "Batch delete" r
            end
      end
  end.

(** ** Prefix scans *)

(** Allocate one C string per key; on a key with a NUL, free those made so far. *)
Fixpoint allocate_keys (keys : list string) (key_ptrs : list Z) : M Proc (F4KvsResult + list Z) :=
  match keys with
  | [] => mret (inr key_ptrs)
  | key :: keys =>
      let! r := allocate_c_string key in
      match r with
      | inr ptr => allocate_keys keys (key_ptrs ++ [ptr])
      | inl e => run! each f4kvs_string_free key_ptrs in mret (inl e)
      end
  end.

(** [result_out] is what the pointer points at, [None] when it is null. *)
Definition f4kvs_engine_scan_prefix_keys (engine prefix : Z) (result_out : option F4KvsKeyScanResult)
    : M Proc (F4KvsResult * option F4KvsKeyScanResult) :=
  match result_out with
  | None =>
      run! set_last_error "Invalid argument: result_out is null" in
      mret (ErrorInvalidArgument, None)
  | Some _ =>
      let! e := validate_engine engine in
      match e with
      | inl e => mret (e, result_out)
      | inr _ =>
          let! prefix_str := validate_c_string prefix MAX_KEY_LENGTH "prefix" in
          match prefix_str with
          | inl e => mret (e, result_out)
          | inr prefix_str =>
              let! r := engine_op engine (lsm_scan_prefix prefix_str) in
              match r with
              | inr keys =>
                  let count := zlen keys in
                  if count =? 0 then mret (Success, Some (mkKeyScan 0 0))
                  else
                    let! ptrs := allocate_keys keys [] in
                    match ptrs with
                    | inl e => mret (e, result_out)
                    | inr ptrs =>
                        let! ptr := alloc (BKeys ptrs) in
                        mret (Success, Some (mkKeyScan ptr count))
                    end
              | inl e =>
                  run! set_last_error ("Scan prefix keys failed: " +:+ e) in
                  mret (ErrorStorage, result_out)
              end
          end
      end
  end.

Definition f4kvs_key_scan_result_free (scan : F4KvsKeyScanResult) : M Proc F4KvsKeyScanResult :=
  if bool_decide (ks_keys scan ≠ 0) && (0 <? ks_count scan) then
    let! s := get in
    match heap s !! ks_keys scan with
    | Some (BKeys ptrs) =>
        if zlen ptrs =? ks_count scan then
          run! each f4kvs_string_free ptrs in
          run! modify (λ s, set_heap (delete (ks_keys scan) (heap s)) s) in
          mret (mkKeyScan 0 0)
        else undefined
    | _ => undefined
    end
  else mret scan.

End Ffi.
