(* ===== verification/Cabi.v ===== *)
(** * The C functions outside the Go binding

    The exported functions of [crates/f4kvs-ffi/src/lib.rs] that [go/f4kvs.go]
    does not call: the string-valued [put] and [get], [exists], the scan with
    values, and the functions on length-prefixed keys ([_kv]), with their
    argument checks and every error path.  They work on the process state of
    [Ffi]; cursors and the scan with a callback are in [Cursor]. *)

From S2P Require Import Prelude Engine EngineScan Utf8 Options Ffi.

Record F4KvsScanResult := mkScan { sr_pairs : Z; sr_count : Z }.
Record F4KvsScanResultKv := mkScanKv { srk_pairs : Z; srk_count : Z }.

(** [f4kvs_result_to_string], without the terminating NUL of the static text. *)
Definition f4kvs_result_to_string (result : F4KvsResult) : string :=
  match result with
  | Success => "Success"
  | ErrorInvalidArgument => "Invalid argument"
  | ErrorNotFound => "Not found"
  | ErrorStorage => "Storage error"
  | ErrorNetwork => "Network error"
  | ErrorTimeout => "Timeout"
  | ErrorUnknown => "Unknown error"
  end.

Section Cabi.
Context `{L : LsmEngine} {SC : LsmScan L} {P : Platform}.

(** An access of the engine in a box, with whatever it answers. *)
Definition engine_run {B} (engine : Z) (op : lsm → disk → B * (lsm * disk)) : M Proc B := λ s,
  match heap s !! engine with
  | Some (BEngine g) =>
      let '(r, (g', d')) := op g (dsk s) in
      Ret r (set_disk d' (set_heap (<[engine := BEngine g']> (heap s)) s))
  | _ => Undefined
  end.

(** [match try_x_sync(..) { Some(r) => r, None => block_on(x(..)) }]. *)
Definition or_block_on {A} (try : LsmTry lsm disk A) (op : LsmOp lsm disk A) : LsmOp lsm disk A :=
  λ g d, match try g d with
         | (Some r, gd) => (r, gd)
         | (None, (g, d)) => op g d
         end.

(** ** Strings as values *)

(** A [String] is its bytes; [String::from_utf8_lossy] always gives one. *)
Definition value_to_string (value : Value json) : string :=
  match value with
  | VString s => s
  | VBytes b => String.string_of_list_byte (from_utf8_lossy b)
  | VJson j => json_to_string j
  | VInt64 n => pretty n
  | VUInt64 n => pretty n
  | VFloat64 f => f64_to_string f
  | VBool b => if b then "true" else "false"
  | VNull => ""
  end.

Definition f4kvs_engine_put (engine key value : Z) : M Proc F4KvsResult :=
  let! e := validate_engine engine in
  match e with
  | inl e => mret e
  | inr _ =>
      let! key_str := validate_c_string key MAX_KEY_LENGTH "key" in
      match key_str with
      | inl e => mret e
      | inr key_str =>
          let! value_str := validate_c_string value MAX_VALUE_LENGTH "value" in
          match value_str with
          | inl e => mret e
          | inr value_str =>
              let! r := engine_op engine (lsm_put key_str (VString value_str)) in
              report "Put" r
          end
      end
  end.

(** [value_out] is what the pointer points at, [None] when it is null; the
    result carries what it points at afterwards. *)
Definition f4kvs_engine_get (engine key : Z) (value_out : option Z) : M Proc (F4KvsResult * option Z) :=
  match value_out with
  | None =>
      run! set_last_error "Invalid argument: value_out is null" in
      mret (ErrorInvalidArgument, None)
  | Some _ =>
      let! e := validate_engine engine in
      match e with
      | inl e => mret (e, value_out)
      | inr _ =>
          let! key_str := validate_c_string key MAX_KEY_LENGTH "key" in
          match key_str with
          | inl e => mret (e, value_out)
          | inr key_str =>
              let! got := engine_op engine (lsm_get key_str) in
              match got with
              | inr (Some value) =>
                  let! r := allocate_c_string (value_to_string value) in
                  match r with
                  | inr ptr => mret (Success, Some ptr)
                  | inl e => mret (e, value_out)
                  end
              | inr None => mret (ErrorNotFound, Some 0)
              | inl e =>
                  run! set_last_error ("Get failed: " +:+ e) in
                  mret (ErrorStorage, value_out)
              end
          end
      end
  end.

Definition f4kvs_engine_exists (engine key : Z) (exists_out : option Z)
    : M Proc (F4KvsResult * option Z) :=
  match exists_out with
  | None =>
      run! set_last_error "Invalid argument: exists_out is null" in
      mret (ErrorInvalidArgument, None)
  | Some _ =>
      let! e := validate_engine engine in
      match e with
      | inl e => mret (e, exists_out)
      | inr _ =>
          let! key_str := validate_c_string key MAX_KEY_LENGTH "key" in
          match key_str with
          | inl e => mret (e, exists_out)
          | inr key_str =>
              let! r := engine_op engine (lsm_exists key_str) in
              match r with
              | inr found => mret (Success, Some (if found : bool then 1 else 0))
              | inl e =>
                  run! set_last_error ("Exists check failed: " +:+ e) in
                  mret (ErrorStorage, exists_out)
              end
          end
      end
  end.

(** ** Scans with values *)

(** [for pair in pairs { f4kvs_string_free(pair.key); f4kvs_bytes_free(pair.value) }]. *)
Definition free_pair (pair : F4KvsKVPair) : M Proc unit :=
  run! f4kvs_string_free (pair_key pair) in f4kvs_bytes_free (pair_value pair).

(** The loop of [fill_scan_result]; on a key with a NUL, free what was made. *)
Fixpoint fill_pairs (items : list (string * Value json)) (pairs : list F4KvsKVPair)
    : M Proc (F4KvsResult + list F4KvsKVPair) :=
  match items with
  | [] => mret (inr pairs)
  | (key, value) :: items =>
      let! key_ptr := allocate_c_string key in
      match key_ptr with
      | inl e => run! each free_pair pairs in mret (inl e)
      | inr key_ptr =>
          let bytes := value_to_bytes value in
          let value_len := zlen bytes in
          let! allocation := allocate_bytes bytes in
          match allocation with
          | inl e =>
              run! f4kvs_string_free key_ptr in
              run! each free_pair pairs in
              mret (inl e)
          | inr (value_ptr, _) =>
              fill_pairs items (pairs ++ [mkPair key_ptr value_ptr value_len])
          end
      end
  end.

(** [result_out] is what the pointer points at before the call. *)
Definition fill_scan_result (items : list (string * Value json)) (result_out : F4KvsScanResult)
    : M Proc (F4KvsResult * F4KvsScanResult) :=
  let count := zlen items in
  if count =? 0 then mret (Success, mkScan 0 0)
  else
    let! pairs := fill_pairs items [] in
    match pairs with
    | inl e => mret (e, result_out)
    | inr pairs =>
        let! ptr := alloc (BPairs pairs) in
        mret (Success, mkScan ptr count)
    end.

(** Calls that check their out pointer first. *)
Definition with_out {A} (result_out : option A)
    (k : A → M Proc (F4KvsResult * A)) : M Proc (F4KvsResult * option A) :=
  match result_out with
  | None =>
      run! set_last_error "Invalid argument: result_out is null" in
      mret (ErrorInvalidArgument, None)
  | Some out => let! r := k out in mret (r.1, Some r.2)
  end.

Definition f4kvs_engine_scan_prefix (engine prefix : Z) (result_out : option F4KvsScanResult)
    : M Proc (F4KvsResult * option F4KvsScanResult) :=
  with_out result_out (λ out,
    let! e := validate_engine engine in
    match e with
    | inl e => mret (e, out)
    | inr _ =>
        let! prefix_str := validate_c_string prefix MAX_KEY_LENGTH "prefix" in
        match prefix_str with
        | inl e => mret (e, out)
        | inr prefix_str =>
            let! r := engine_op engine (lsm_scan_prefix_with_values prefix_str) in
            match r with
            | inr items => fill_scan_result items out
            | inl e =>
                run! set_last_error ("Scan prefix failed: " +:+ e) in
                mret (ErrorStorage, out)
            end
        end
    end).

(** [drop(Box::from_raw(slice::from_raw_parts_mut(ptr, count)))] of an array
    whose elements were given back before. *)
Definition drop_pairs (ptr count : Z) : M Proc unit := λ s,
  match heap s !! ptr with
  | Some (BPairs pairs) =>
      if zlen pairs =? count then
        (run! each free_pair pairs in
         modify (λ s, set_heap (delete ptr (heap s)) s)) s
      else Undefined
  | _ => Undefined
  end.

Definition f4kvs_scan_result_free (result : option F4KvsScanResult) : M Proc (option F4KvsScanResult) :=
  match result with
  | None => mret None
  | Some scan =>
      run! (if bool_decide (sr_pairs scan ≠ 0) && (0 <? sr_count scan)
            then drop_pairs (sr_pairs scan) (sr_count scan) else mret tt) in
      mret (Some (mkScan 0 0))
  end.

(** ** Length-prefixed keys *)

Definition key_from_bytes (bytes : list byte) (field : string) : M Proc (F4KvsResult + string) :=
  if MAX_KEY_LENGTH <? zlen bytes then
    run! set_last_error ("Invalid argument: " +:+ field +:+ " exceeds maximum length of "
                         +:+ pretty MAX_KEY_LENGTH +:+ " bytes") in
    mret (inl ErrorInvalidArgument)
  else match from_utf8 bytes with
       | inr s => mret (inr s)
       | inl e =>
           run! set_last_error ("Invalid UTF-8 in " +:+ field +:+ ": " +:+ Utf8Error_display e) in
           mret (inl ErrorInvalidArgument)
       end.

Definition key_from_raw (ptr : bufptr) (len : Z) (field : string) : M Proc (F4KvsResult + string) :=
  if len =? 0 then mret (inr "")
  else if is_null ptr then
    run! set_last_error ("Invalid argument: " +:+ field +:+ " is null") in
    mret (inl ErrorInvalidArgument)
  else
    let! bytes := read_buf ptr len in
    key_from_bytes bytes field.

(** [if len == 0 { Vec::new() } else { slice::from_raw_parts(p, len).to_vec() }]. *)
Definition value_from_raw (ptr : bufptr) (len : Z) : M Proc (list byte) :=
  if len =? 0 then mret [] else read_buf ptr len.

Definition f4kvs_engine_get_kv (engine : Z) (key : bufptr) (key_len : Z) (outs : option (Z * Z))
    : M Proc (F4KvsResult * option (Z * Z)) :=
  match outs with
  | None =>
      run! set_last_error "Invalid argument: output pointer is null" in
      mret (ErrorInvalidArgument, None)
  | Some _ =>
      let! e := validate_engine engine in
      match e with
      | inl e => mret (e, outs)
      | inr _ =>
          let! key_str := key_from_raw key key_len "key" in
          match key_str with
          | inl e => mret (e, outs)
          | inr key_str =>
              let! got := engine_run engine (or_block_on (lsm_try_get_sync key_str) (lsm_get key_str)) in
              match got with
              | inr (Some value) =>
                  let! r := allocate_bytes (value_to_bytes value) in
                  match r with
                  | inr (ptr, allocated_len) => mret (Success, Some (ptr, allocated_len))
                  | inl e => mret (e, outs)
                  end
              | inr None => mret (ErrorNotFound, Some (0, 0))
              | inl e =>
                  run! set_last_error ("Get kv failed: " +:+ e) in
                  mret (ErrorStorage, outs)
              end
          end
      end
  end.

Definition f4kvs_engine_put_kv (engine : Z) (key : bufptr) (key_len : Z) (value : bufptr)
    (value_len : Z) : M Proc F4KvsResult :=
  let! e := validate_engine engine in
  match e with
  | inl e => mret e
  | inr _ =>
      let! key_str := key_from_raw key key_len "key" in
      match key_str with
      | inl e => mret e
      | inr key_str =>
          if MAX_VALUE_LENGTH <? value_len then
            run! set_last_error ("Invalid argument: value exceeds maximum length of "
                                 +:+ pretty MAX_VALUE_LENGTH +:+ " bytes") in
            mret ErrorInvalidArgument
          else if (0 <? value_len) && is_null value then
            run! set_last_error "Invalid argument: value is null" in
            mret ErrorInvalidArgument
          else
            let! bytes := value_from_raw value value_len in
            let! r := engine_op engine (lsm_put key_str (VBytes bytes)) in
            report "Put kv" r
      end
  end.

Definition f4kvs_engine_delete_kv (engine : Z) (key : bufptr) (key_len : Z) : M Proc F4KvsResult :=
  let! e := validate_engine engine in
  match e with
  | inl e => mret e
  | inr _ =>
      let! key_str := key_from_raw key key_len "key" in
      match key_str with
      | inl e => mret e
      | inr key_str => let! r := engine_op engine (lsm_delete key_str) in report "Delete kv" r
      end
  end.

(** The loop of [f4kvs_engine_batch_put_kv]: element [i] and the [n - 1] after it. *)
Fixpoint collect_items_kv (keys key_lens values value_lens : option (list Z)) (i n : nat)
    (items : list (string * Value json)) : M Proc (F4KvsResult + list (string * Value json)) :=
  match n with
  | O => mret (inr items)
  | S n =>
      let! key_len := elem_at key_lens i in
      let! key_ptr := elem_at keys i in
      let! key_str := key_from_raw (AtAddr key_ptr) key_len "key" in
      match key_str with
      | inl e => mret (inl e)
      | inr key_str =>
          let! value_len := elem_at value_lens i in
          if MAX_VALUE_LENGTH <? value_len then
            run! set_last_error "Invalid argument: value exceeds maximum length" in
            mret (inl ErrorInvalidArgument)
          else
            let! value_ptr := elem_at values i in
            if (0 <? value_len) && (value_ptr =? 0) then
              run! set_last_error "Invalid argument: value is null" in
              mret (inl ErrorInvalidArgument)
            else
              let! bytes := value_from_raw (AtAddr value_ptr) value_len in
              collect_items_kv keys key_lens values value_lens (S i) n
                (items ++ [(key_str, VBytes bytes)])
      end
  end.

Definition f4kvs_engine_batch_put_kv (engine : Z) (keys key_lens values value_lens : option (list Z))
    (count : Z) : M Proc F4KvsResult :=
  let! e := validate_engine engine in
  match e with
  | inl e => mret e
  | inr g =>
      let! rejected := reject_batch_count g count in
      match rejected with
      | Some e => mret e
      | None =>
          if (0 <? count) && (bool_decide (keys = None) || bool_decide (key_lens = None)
                              || bool_decide (values = None) || bool_decide (value_lens = None)) then
            run! set_last_error "Invalid argument: batch_put_kv pointer is null" in
            mret ErrorInvalidArgument
          else
            let! items := collect_items_kv keys key_lens values value_lens O (Z.to_nat count) [] in
            match items with
            | inl e => mret e
            | inr items =>
                let! r := engine_op engine (lsm_batch_put items) in
                report "Batch put kv" r
            end
      end
  end.

Fixpoint collect_keys_kv (keys key_lens : option (list Z)) (i n : nat) (acc : list string)
    : M Proc (F4KvsResult + list string) :=
  match n with
  | O => mret (inr acc)
  | S n =>
      let! key_ptr := elem_at keys i in
      let! key_len := elem_at key_lens i in
      let! key_str := key_from_raw (AtAddr key_ptr) key_len "key" in
      match key_str with
      | inl e => mret (inl e)
      | inr key_str => collect_keys_kv keys key_lens (S i) n (acc ++ [key_str])
      end
  end.

Definition f4kvs_engine_batch_delete_kv (engine : Z) (keys key_lens : option (list Z)) (count : Z)
    : M Proc F4KvsResult :=
  let! e := validate_engine engine in
  match e with
  | inl e => mret e
  | inr g =>
      let! rejected := reject_batch_count g count in
      match rejected with
      | Some e => mret e
      | None =>
          if (0 <? count) && (bool_decide (keys = None) || bool_decide (key_lens = None)) then
            run! set_last_error "Invalid argument: batch_delete_kv pointer is null" in
            mret ErrorInvalidArgument
          else
            let! key_strings := collect_keys_kv keys key_lens O (Z.to_nat count) [] in
            match key_strings with
            | inl e => mret e
            | inr key_strings =>
                let! r := engine_op engine (lsm_batch_delete key_strings) in
                report "Batch delete kv" r
            end
      end
  end.

Definition f4kvs_engine_scan_prefix_kv (engine : Z) (prefix : bufptr) (prefix_len : Z)
    (result_out : option F4KvsScanResult) : M Proc (F4KvsResult * option F4KvsScanResult) :=
  with_out result_out (λ out,
    let! e := validate_engine engine in
    match e with
    | inl e => mret (e, out)
    | inr _ =>
        let! prefix_str := key_from_raw prefix prefix_len "prefix" in
        match prefix_str with
        | inl e => mret (e, out)
        | inr prefix_str =>
            let! r := engine_op engine (lsm_scan_prefix_with_values prefix_str) in
            match r with
            | inr items => fill_scan_result items out
            | inl e =>
                run! set_last_error ("Scan prefix kv failed: " +:+ e) in
                mret (ErrorStorage, out)
            end
        end
    end).

Definition f4kvs_engine_scan_prefix_keys_kv (engine : Z) (prefix : bufptr) (prefix_len : Z)
    (result_out : option F4KvsKeyScanResult) : M Proc (F4KvsResult * option F4KvsKeyScanResult) :=
  with_out result_out (λ out,
    let! e := validate_engine engine in
    match e with
    | inl e => mret (e, out)
    | inr _ =>
        let! prefix_str := key_from_raw prefix prefix_len "prefix" in
        match prefix_str with
        | inl e => mret (e, out)
        | inr prefix_str =>
            let! r := engine_op engine (lsm_scan_prefix prefix_str) in
            match r with
            | inr keys =>
                let count := zlen keys in
                if count =? 0 then mret (Success, mkKeyScan 0 0)
                else
                  let! ptrs := allocate_keys keys [] in
                  match ptrs with
                  | inl e => mret (e, out)
                  | inr ptrs =>
                      let! ptr := alloc (BKeys ptrs) in
                      mret (Success, mkKeyScan ptr count)
                  end
            | inl e =>
                run! set_last_error ("Scan prefix keys kv failed: " +:+ e) in
                mret (ErrorStorage, out)
            end
        end
    end).

(** ** Length-prefixed pairs *)

Definition free_pair_kv (pair : F4KvsKVPairKv) : M Proc unit :=
  run! f4kvs_bytes_free (kv_key pair) in f4kvs_bytes_free (kv_value pair).

(** The loop of [fill_scan_result_kv]. *)
Fixpoint fill_pairs_kv (items : list (string * Value json)) (pairs : list F4KvsKVPairKv)
    : M Proc (F4KvsResult + list F4KvsKVPairKv) :=
  match items with
  | [] => mret (inr pairs)
  | (key, value) :: items =>
      let key_bytes := String.list_byte_of_string key in
      let! key_alloc := allocate_bytes key_bytes in
      match key_alloc with
      | inl e => run! each free_pair_kv pairs in mret (inl e)
      | inr (key_ptr, _) =>
          let val_bytes := value_to_bytes value in
          let! value_alloc := allocate_bytes val_bytes in
          match value_alloc with
          | inl e =>
              run! f4kvs_bytes_free key_ptr in
              run! each free_pair_kv pairs in
              mret (inl e)
          | inr (value_ptr, _) =>
              fill_pairs_kv items
                (pairs ++ [mkPairKv key_ptr (zlen key_bytes) value_ptr (zlen val_bytes)])
          end
      end
  end.

Definition fill_scan_result_kv (items : list (string * Value json)) (result_out : F4KvsScanResultKv)
    : M Proc (F4KvsResult * F4KvsScanResultKv) :=
  let count := zlen items in
  if count =? 0 then mret (Success, mkScanKv 0 0)
  else
    let! pairs := fill_pairs_kv items [] in
    match pairs with
    | inl e => mret (e, result_out)
    | inr pairs =>
        let! ptr := alloc (BPairsKv pairs) in
        mret (Success, mkScanKv ptr count)
    end.

Definition drop_pairs_kv (ptr count : Z) : M Proc unit := λ s,
  match heap s !! ptr with
  | Some (BPairsKv pairs) =>
      if zlen pairs =? count then
        (run! each free_pair_kv pairs in
         modify (λ s, set_heap (delete ptr (heap s)) s)) s
      else Undefined
  | _ => Undefined
  end.

Definition f4kvs_scan_result_kv_free (result : option F4KvsScanResultKv)
    : M Proc (option F4KvsScanResultKv) :=
  match result with
  | None => mret None
  | Some scan =>
      run! (if bool_decide (srk_pairs scan ≠ 0) && (0 <? srk_count scan)
            then drop_pairs_kv (srk_pairs scan) (srk_count scan) else mret tt) in
      mret (Some (mkScanKv 0 0))
  end.

End Cabi.
