(* ===== verification/Cursor.v ===== *)
(** * Cursors and the scan with a callback

    [F4KvsCursor] of [crates/f4kvs-ffi/src/lib.rs].  A cursor shares the engine
    with the handle it was opened on ([Arc]), so the engine outlives the handle
    while a cursor refers to it: [Lib] extends the process state [Proc] with the
    open cursors and the engines only cursors refer to.  The scan with a callback
    runs beside the caller's own state. *)

From S2P Require Import Prelude Engine EngineScan Utf8 Options Ffi Cabi.

(** Where a shared engine is: in the box of a live handle, or kept by cursors
    after [f4kvs_engine_free] dropped the box. *)
Inductive Arc := Boxed (engine : Z) | Orphan (n : nat).

#[global] Instance Arc_eq_dec : EqDecision Arc.
Proof. solve_decision. Defined.

Section Cursor.
Context `{L : LsmEngine} {SC : LsmScan L} {P : Platform}.

Record F4KvsCursor := mkCursor {
  cur_engine : Arc;
  cur_state : option scan_state;
  cur_prefix : string;
  cur_done : bool
}.

Definition set_state (st : option scan_state) (c : F4KvsCursor) : F4KvsCursor :=
  mkCursor (cur_engine c) st (cur_prefix c) (cur_done c).
Definition set_done (b : bool) (c : F4KvsCursor) : F4KvsCursor :=
  mkCursor (cur_engine c) (cur_state c) (cur_prefix c) b.
Definition set_arc (e : Arc) (c : F4KvsCursor) : F4KvsCursor :=
  mkCursor e (cur_state c) (cur_prefix c) (cur_done c).

(** The library's memory with its cursors; [next_orphan] names the next engine
    that loses its handle. *)
Record Lib := mkLib {
  lib_proc : Proc;
  cursors : gmap Z F4KvsCursor;
  orphans : gmap nat lsm;
  next_orphan : nat
}.

Definition set_proc (s : Proc) (l : Lib) : Lib := mkLib s (cursors l) (orphans l) (next_orphan l).
Definition set_cursors (c : gmap Z F4KvsCursor) (l : Lib) : Lib :=
  mkLib (lib_proc l) c (orphans l) (next_orphan l).
Definition set_orphans (o : gmap nat lsm) (l : Lib) : Lib :=
  mkLib (lib_proc l) (cursors l) o (next_orphan l).

(** A call that does not touch cursors. *)
Definition in_proc {A} (m : M Proc A) : M Lib A := lift lib_proc set_proc m.

(** ** Shared engines *)

(** An access of a shared engine. *)
Definition arc_run {B} (e : Arc) (op : lsm → disk → B * (lsm * disk)) : M Lib B :=
  match e with
  | Boxed a => in_proc (engine_run a op)
  | Orphan n => λ l,
      match orphans l !! n with
      | None => Undefined
      | Some g =>
          let '(r, (g', d')) := op g (dsk (lib_proc l)) in
          Ret r (set_orphans (<[n := g']> (orphans l)) (set_proc (set_disk d' (lib_proc l)) l))
      end
  end.

Definition refers (e : Arc) (c : F4KvsCursor) : bool := bool_decide (cur_engine c = e).

(** Whether a cursor keeps the engine alive. *)
Definition kept (e : Arc) (l : Lib) : bool :=
  existsb (refers e) (map_to_list (cursors l)).*2.

(** Dropping a cursor's reference: an engine without a handle goes with the last. *)
Definition drop_arc (e : Arc) (l : Lib) : Lib :=
  match e with
  | Boxed _ => l
  | Orphan n => if kept e l then l else set_orphans (delete n (orphans l)) l
  end.

(** [f4kvs_engine_free] with cursors about: the box goes, the engine stays with
    the cursors that share it. *)
Definition engine_free (engine : Z) : M Lib unit := λ l,
  match heap (lib_proc l) !! engine with
  | Some (BEngine g) =>
      if kept (Boxed engine) l then
        let move c := if refers (Boxed engine) c then set_arc (Orphan (next_orphan l)) c else c in
        in_proc (f4kvs_engine_free engine)
          (mkLib (lib_proc l) (move <$> cursors l) (<[next_orphan l := g]> (orphans l))
             (S (next_orphan l)))
      else in_proc (f4kvs_engine_free engine) l
  | _ => in_proc (f4kvs_engine_free engine) l
  end.

(** ** Cursors *)

Definition cursor_at (cur : Z) : M Lib F4KvsCursor := λ l,
  match heap (lib_proc l) !! cur, cursors l !! cur with
  | Some BCursor, Some c => Ret c l
  | _, _ => Undefined
  end.

Definition update_cursor (cur : Z) (f : F4KvsCursor → F4KvsCursor) : M Lib unit :=
  modify (λ l, set_cursors (alter f cur (cursors l)) l).

Definition f4kvs_engine_cursor_open (engine : Z) (prefix : bufptr) (prefix_len : Z) : M Lib Z :=
  let! e := in_proc (validate_engine engine) in
  match e with
  | inl _ => mret 0
  | inr _ =>
      let! prefix := in_proc (key_from_raw prefix prefix_len "prefix") in
      match prefix with
      | inl _ => mret 0
      | inr prefix =>
          let! a := in_proc (alloc BCursor) in
          run! modify (λ l, set_cursors
                 (<[a := mkCursor (Boxed engine) None prefix false]> (cursors l)) l) in
          mret a
      end
  end.

Definition cursor_ensure_state (cur : Z) : M Lib (F4KvsResult + unit) :=
  let! c := cursor_at cur in
  match cur_state c with
  | Some _ => mret (inr tt)
  | None =>
      let prefix := cur_prefix c in
      let! started := arc_run (cur_engine c)
        (or_block_on (lsm_try_prefix_scan_start_sync prefix) (lsm_prefix_scan_start prefix)) in
      match started with
      | inr s => run! update_cursor cur (set_state (Some s)) in mret (inr tt)
      | inl e =>
          run! in_proc (set_last_error ("Cursor start failed: " +:+ e)) in
          mret (inl ErrorStorage)
      end
  end.

(** The [for _ in 0..max] loop of [cursor_pull_page]. *)
Fixpoint next_each (max : nat) (items : list (string * Value json))
    : LsmScanOp scan_state lsm disk (string + list (string * Value json) * bool) := λ st g d,
  match max with
  | O => (inr (items, false), st, (g, d))
  | S max =>
      match lsm_prefix_scan_next st g d with
      | (inr (Some kv), st, (g, d)) => next_each max (items ++ [kv]) st g d
      | (inr None, st, gd) => (inr (items, true), st, gd)
      | (inl e, st, gd) => (inl e, st, gd)
      end
  end.

Definition next_page (max : nat)
    : LsmScanOp scan_state lsm disk (string + list (string * Value json) * bool) := λ st g d,
  match lsm_try_prefix_scan_next_n_sync max st g d with
  | (Some r, st, gd) => (r, st, gd)
  | (None, st, (g, d)) => next_each max [] st g d
  end.

(** [expect] on a missing state would abort the process. *)
Definition cursor_pull_page (cur max : Z)
    : M Lib (F4KvsResult + list (string * Value json) * bool) :=
  let! e := cursor_ensure_state cur in
  match e with
  | inl e => mret (inl e)
  | inr _ =>
      let! c := cursor_at cur in
      match cur_state c with
      | None => panic "cursor state"
      | Some state =>
          run! update_cursor cur (set_state None) in
          let! pulled := arc_run (cur_engine c) (next_page (Z.to_nat max) state) in
          match pulled with
          | (inr (items, eof), state) =>
              run! (if eof : bool then mret tt else update_cursor cur (set_state (Some state))) in
              mret (inr (items, eof))
          | (inl e, state) =>
              run! update_cursor cur (set_state (Some state)) in
              run! in_proc (set_last_error ("Cursor next failed: " +:+ e)) in
              mret (inl ErrorStorage)
          end
      end
  end.

(** What [f4kvs_engine_cursor_next_n] and [..._next_n_kv] share: [fill] writes the
    page, [empty] is the result without pairs. *)
Definition cursor_page {A} (fill : list (string * Value json) → A → M Proc (F4KvsResult * A))
    (empty : A) (cur max : Z) (result_out : option A) : M Lib (F4KvsResult * option A) :=
  match result_out with
  | Some out =>
      if cur =? 0 then
        run! in_proc (set_last_error "Invalid argument: cursor or result_out is null") in
        mret (ErrorInvalidArgument, result_out)
      else
        let! c := cursor_at cur in
        if cur_done c || (max =? 0) then mret (Success, Some empty)
        else
          let! page := cursor_pull_page cur max in
          match page with
          | inr (items, eof) =>
              run! update_cursor cur (set_done eof) in
              let! r := in_proc (fill items out) in
              mret (r.1, Some r.2)
          | inl e => mret (e, result_out)
          end
  | None =>
      run! in_proc (set_last_error "Invalid argument: cursor or result_out is null") in
      mret (ErrorInvalidArgument, None)
  end.

Definition f4kvs_engine_cursor_next_n
    : Z → Z → option F4KvsScanResult → M Lib (F4KvsResult * option F4KvsScanResult) :=
  cursor_page fill_scan_result (mkScan 0 0).

Definition f4kvs_engine_cursor_next_n_kv
    : Z → Z → option F4KvsScanResultKv → M Lib (F4KvsResult * option F4KvsScanResultKv) :=
  cursor_page fill_scan_result_kv (mkScanKv 0 0).

Definition f4kvs_engine_cursor_free (cur : Z) : M Lib unit :=
  if cur =? 0 then mret tt
  else
    let! c := cursor_at cur in
    modify (λ l,
      let s := lib_proc l in
      drop_arc (cur_engine c)
        (set_cursors (delete cur (cursors l)) (set_proc (set_heap (delete cur (heap s)) s) l))).

(** ** The scan with a callback *)

(** The bytes handed to the callback; other values are passed over. *)
Definition payload (value : Value json) : option (list byte) :=
  match value with
  | VBytes b => Some b
  | VString s => Some (String.list_byte_of_string s)
  | _ => None
  end.

Section Callback.
Context {U : Type}.

(** The callback runs on the caller's state [U] and is given copies of the key
    and the value; it does not call the library. *)
Definition Callback : Type := Z → list byte → list byte → U → Z * U.

Definition visit (cb : Callback) (user : Z) (k v : list byte) (u : U) : bool * U :=
  let '(r, u) := cb user k v u in (r =? 0, u).

Definition cb_proc {A} (m : M Proc A) : M (Proc * U) A := lift fst (λ s x, (s, x.2)) m.

(** The [loop]; it ends when the scan does, which takes as many rounds as there
    are pairs left ([fuel]). *)
Fixpoint visit_rest (fuel : nat) (engine : Z) (cb : Callback) (user : Z) (st : scan_state)
    : M (Proc * U) F4KvsResult :=
  match fuel with
  | O => stuck
  | S fuel =>
      let! r := cb_proc (engine_run engine (lsm_prefix_scan_next st)) in
      match r with
      | (inr (Some (k, v)), st) =>
          match payload v with
          | None => visit_rest fuel engine cb user st
          | Some payload => λ x,
              let '(go_on, u) := visit cb user (String.list_byte_of_string k) payload x.2 in
              if go_on then visit_rest fuel engine cb user st (x.1, u)
              else Ret Success (x.1, u)
          end
      | (inr None, _) => mret Success
      | (inl e, _) =>
          run! cb_proc (set_last_error ("Scan prefix cb failed: " +:+ e)) in mret ErrorStorage
      end
  end.

(** The attempt, which calls [visit] itself. *)
Definition foreach_sync (engine : Z) (prefix : string) (f : list byte → list byte → U → bool * U)
    : M (Proc * U) (option (string + unit)) := λ x,
  match engine_run engine (lsm_try_prefix_scan_foreach_sync prefix f x.2) x.1 with
  | Ret (r, u) s => Ret r (s, u)
  | Panic msg s => Panic msg (s, x.2)
  | Stuck s => Stuck (s, x.2)
  | Undefined => Undefined
  end.

Definition f4kvs_engine_scan_prefix_cb (fuel : nat) (engine : Z) (prefix : bufptr) (prefix_len : Z)
    (cb : option Callback) (user : Z) : M (Proc * U) F4KvsResult :=
  match cb with
  | None =>
      run! cb_proc (set_last_error "Invalid argument: cb is null") in mret ErrorInvalidArgument
  | Some cb =>
      let! e := cb_proc (validate_engine engine) in
      match e with
      | inl e => mret e
      | inr _ =>
          let! prefix_str := cb_proc (key_from_raw prefix prefix_len "prefix") in
          match prefix_str with
          | inl e => mret e
          | inr prefix_str =>
              let! tried := foreach_sync engine prefix_str (visit cb user) in
              match tried with
              | Some (inr _) => mret Success
              | Some (inl e) =>
                  run! cb_proc (set_last_error ("Scan prefix cb failed: " +:+ e)) in
                  mret ErrorStorage
              | None =>
                  let! st := cb_proc (engine_op engine (lsm_prefix_scan_start prefix_str)) in
                  match st with
                  | inl e =>
                      run! cb_proc (set_last_error ("Scan prefix cb start failed: " +:+ e)) in
                      mret ErrorStorage
                  | inr st => visit_rest fuel engine cb user st
                  end
              end
          end
      end
  end.

End Callback.
End Cursor.
