(* ===== verification/Binding.v ===== *)
(** * The Go binding

    [go/f4kvs.go]: the [F4KVS] handle with its lock and its [closed] flag, and its
    methods.  Each method is the whole of the Go method: taking and releasing the
    lock, the C strings it allocates and frees, the library call, the error it
    builds from the thread's last error.  Go objects live in a store, so that two
    variables can hold the same engine.

    A [fmt.Errorf] error is kept as its format and arguments ([Errorf]); formats
    that wrap an error with [%w] as [Wrapf].  A Go byte slice is [None] when nil. *)

From S2P Require Import Prelude Engine Utf8 Options Ffi.

(** ** Errors ([go/errors.go]) *)

Inductive GoError :=
| ErrNotFound
| ErrClosed
| ErrTxnCommitted
| ErrTxnRolledBack
| ErrCGORequired
| Errorf (format : string) (args : list string)
| Wrapf (format : string) (wrapped : GoError).

#[global] Instance GoError_eq_dec : EqDecision GoError.
Proof. solve_decision. Defined.

(** A Go byte slice: its bytes, or nil. *)
Definition goslice := option (list byte).
Definition slice_bytes (v : goslice) : list byte := default [] v.

(** [string(b)] and [[]byte(s)]. *)
Definition string_of_slice (v : goslice) : string := String.string_of_list_byte (slice_bytes v).
Definition slice_of_string (s : string) : goslice := Some (String.list_byte_of_string s).

(** ** Open options *)

Definition WalEngineSegment : Z := 0.
Definition WalEngineFrame : Z := 1.
Definition WalEngineIndexed : Z := 2.
Definition WalDurabilityStrict : Z := 0.
Definition WalDurabilityAmortized : Z := 1.
Definition WalDurabilityBuffered : Z := 2.

Record OpenOptions := mkOpenOptions {
  GroupCommitEnabled : bool;
  GroupCommitMaxWaitMs : Z;
  GroupCommitMaxBatchSz : Z;
  GroupCommitWaitDurable : bool;
  WalEngineSel : Z;
  WalDurabilitySel : Z;
  GroupCommitIdleFlushMs : Z;
  MaxBatchSize : Z;
  CompactionBackground : Z;
  MaxSSTablesPerLevel : Z;
  MemtableMaxSize : Z;
  SstableTargetSize : Z;
  SstableMaxSize : Z
}.

(** The [C.F4KvsOpenOptions] literal and the two assignments after it. *)
Definition copts (o : OpenOptions) : F4KvsOpenOptions :=
  mkOpts (Z.of_nat sizeof_F4KvsOpenOptions)
    (if GroupCommitEnabled o then 1 else 0) (GroupCommitMaxWaitMs o) (GroupCommitMaxBatchSz o)
    (if GroupCommitWaitDurable o then 1 else 0) (WalEngineSel o) (WalDurabilitySel o)
    (GroupCommitIdleFlushMs o) (MaxBatchSize o) (CompactionBackground o)
    (MaxSSTablesPerLevel o) (MemtableMaxSize o) (SstableTargetSize o) (SstableMaxSize o).

(** ** The lock *)

(** [sync.RWMutex]: the readers inside and whether a writer is. *)
Record RWMutex := mkRWMutex { rw_readers : nat; rw_writer : bool }.
Definition unlocked : RWMutex := mkRWMutex 0 false.

#[projections(primitive)]
Record F4KVS := mkF4KVS { handle : Z; mu : RWMutex; closed : bool }.

Definition set_handle (h : Z) (e : F4KVS) : F4KVS := mkF4KVS h (mu e) (closed e).
Definition set_mu (m : RWMutex) (e : F4KVS) : F4KVS := mkF4KVS (handle e) m (closed e).
Definition set_closed (b : bool) (e : F4KVS) : F4KVS := mkF4KVS (handle e) (mu e) b.

(** The order in which a [range] over a map visits it: Go leaves it open, so the
    order may differ from one [range] (numbered) to the next. *)
Class GoRuntime := {
  range_order : ∀ {V : Type}, nat → gmap string V → list (string * V)
}.
Class GoRuntimeOk (G : GoRuntime) := {
  range_perm V n (m : gmap string V) : range_order n m ≡ₚ map_to_list m
}.

Section Binding.
Context `{L : LsmEngine} {P : Platform} {G : GoRuntime}.

#[projections(primitive)]
Record World := mkWorld { proc : Proc; objs : gmap nat F4KVS; ranges : nat }.

Definition set_proc (p : Proc) (w : World) : World := mkWorld p (objs w) (ranges w).
Definition set_objs (o : gmap nat F4KVS) (w : World) : World := mkWorld (proc w) o (ranges w).

(** A call into the C library proper ([malloc], [free], [memcpy]). *)
Definition clib {A} (m : M Proc A) : M World A := λ w,
  match m (proc w) with
  | Ret a p => Ret a (set_proc p w)
  | Panic msg p => Panic msg (set_proc p w)
  | Stuck p => Stuck (set_proc p w)
  | Undefined => Undefined
  end.

(** A call into the library: the goroutine runs it on some thread. *)
Definition cgo {A} (m : M Proc A) : M World A :=
  clib (λ s, m (set_call (os_thread (calls s)) (S (calls s)) s)).

Definition load (e : nat) : M World F4KVS := λ w,
  match objs w !! e with
  | Some o => Ret o w
  | None => Panic "invalid memory address or nil pointer dereference" w
  end.

Definition store (e : nat) (f : F4KVS → F4KVS) : M World unit := λ w,
  Ret tt (set_objs (alter f e (objs w)) w).

(** [&F4KVS{handle: handle}]. *)
Definition new_object (h : Z) : M World nat := λ w,
  let e := fresh (dom (objs w)) in
  Ret e (set_objs (<[e := mkF4KVS h unlocked false]> (objs w)) w).

Definition RLock (e : nat) : M World unit :=
  let! o := load e in
  if rw_writer (mu o) then stuck
  else store e (set_mu (mkRWMutex (S (rw_readers (mu o))) false)).

Definition RUnlock (e : nat) : M World unit :=
  let! o := load e in
  match rw_readers (mu o) with
  | O => panic "sync: RUnlock of unlocked RWMutex"
  | S n => store e (set_mu (mkRWMutex n (rw_writer (mu o))))
  end.

Definition Lock (e : nat) : M World unit :=
  let! o := load e in
  if rw_writer (mu o) || bool_decide (rw_readers (mu o) ≠ O) then stuck
  else store e (set_mu (mkRWMutex O true)).

Definition Unlock (e : nat) : M World unit :=
  let! o := load e in
  if rw_writer (mu o) then store e (set_mu (mkRWMutex (rw_readers (mu o)) false))
  else panic "sync: Unlock of unlocked RWMutex".

Definition rLockLive (e : nat) : M World (option GoError) :=
  run! RLock e in
  let! o := load e in
  if closed o || (handle o =? 0) then
    run! RUnlock e in mret (Some ErrClosed)
  else mret None.

(** ** Helpers *)

(** [C.CString]: a copy of the Go string with a NUL after it. *)
Definition CString (s : string) : M World Z :=
  clib (alloc (BMalloc (String.list_byte_of_string s ++ [x00]))).

Definition C_free (a : Z) : M World unit := clib (c_free a).

(** [C.malloc]; 0 when it fails. *)
Definition C_malloc (n : Z) : M World Z :=
  clib (λ s, if malloc_fails (heap s) n then Ret 0 s
             else alloc (BMalloc (replicate (Z.to_nat n) x00)) s).

(** [C.memcpy] of a whole Go slice into a block of that size. *)
Definition C_memcpy (a : Z) (l : list byte) : M World unit :=
  clib (λ s, match heap s !! a with
             | Some (BMalloc l') =>
                 if zlen l <=? zlen l'
                 then Ret tt (set_heap (<[a := BMalloc (l ++ drop (length l) l')]> (heap s)) s)
                 else Undefined
             | _ => Undefined
             end).

(** [C.GoBytes(p, n)]. *)
Definition GoBytes (a n : Z) : M World (list byte) :=
  if n <? 0 then panic "gobytes: length out of range"
  else clib (read_buf (AtAddr a) n).

(** [C.GoString(p)]. *)
Definition GoString (a : Z) : M World string :=
  let! l := clib (read_c_str a) in mret (String.string_of_list_byte l).

Definition lastError : M World string :=
  let! msg := cgo f4kvs_get_last_error in
  mret (match msg with None => "unknown error" | Some m => m end).

(** [return fmt.Errorf(format, args..., lastError())]. *)
Definition fail_with (format : string) (args : list string) : M World GoError :=
  let! m := lastError in mret (Errorf format (args ++ [m])).

(** The common tail [if res != C.F4KVS_SUCCESS { return fmt.Errorf(..) }; return nil]. *)
Definition check (format : string) (args : list string) (res : F4KvsResult)
    : M World (option GoError) :=
  if bool_decide (res ≠ Success) then
    let! err := fail_with format args in mret (Some err)
  else mret None.

(** ** Opening *)

Definition NewMemoryEngine : M World (GoError + nat) :=
  let! h := cgo f4kvs_engine_new in
  if h =? 0 then
    let! err := fail_with "f4kvs memory engine: %s" [] in mret (inl err)
  else let! e := new_object h in mret (inr e).

Definition NewPersistentEngineWithOptions (path : string) (opts : option OpenOptions)
    : M World (GoError + nat) :=
  let! cpath := CString path in
  defer! C_free cpath in
  let! h := match opts with
            | None => cgo (f4kvs_engine_open cpath)
            | Some o =>
                cgo (f4kvs_engine_open_ex cpath
                       (Some (encode_options [x00; x00; x00] [x00] [x00; x00; x00] (copts o))))
            end in
  if h =? 0 then
    let! err := fail_with "f4kvs open %s: %s" [path] in mret (inl err)
  else let! e := new_object h in mret (inr e).

Definition NewPersistentEngine (path : string) : M World (GoError + nat) :=
  NewPersistentEngineWithOptions path None.

(** ** Reading and writing *)

Definition GetBytes (e : nat) (key : string) : M World (GoError + goslice) :=
  let! err := rLockLive e in
  match err with
  | Some err => mret (inl err)
  | None =>
      defer! RUnlock e in
      let! ckey := CString key in
      defer! C_free ckey in
      let! o := load e in
      let! r := cgo (f4kvs_engine_get_bytes (handle o) ckey (Some (0, 0))) in
      let res := r.1 in
      let '(out, outLen) := default (0, 0) r.2 in
      if bool_decide (res = ErrorNotFound) then mret (inl ErrNotFound)
      else if bool_decide (res ≠ Success) then
        let! err := fail_with "f4kvs get %q: %s" [key] in mret (inl err)
      else
        defer! cgo (f4kvs_bytes_free out) in
        if (out =? 0) || (outLen =? 0) then mret (inr (Some []))
        else let! l := GoBytes out (to_int32 outLen) in mret (inr (Some l))
  end.

Definition PutBytes (e : nat) (key : string) (value : goslice) : M World (option GoError) :=
  let! err := rLockLive e in
  match err with
  | Some err => mret (Some err)
  | None =>
      defer! RUnlock e in
      let! ckey := CString key in
      defer! C_free ckey in
      let len := zlen (slice_bytes value) in
      let ptr := if 0 <? len then GoMem (slice_bytes value) else NullPtr in
      let! o := load e in
      let! res := cgo (f4kvs_engine_put_bytes (handle o) ckey ptr len) in
      check "f4kvs put %q: %s" [key] res
  end.

Definition Get (e : nat) (key : string) : M World (GoError + string) :=
  let! r := GetBytes e key in
  match r with
  | inl err => mret (inl err)
  | inr value => mret (inr (string_of_slice value))
  end.

Definition Put (e : nat) (key value : string) : M World (option GoError) :=
  PutBytes e key (slice_of_string value).

Definition Delete (e : nat) (key : string) : M World (option GoError) :=
  let! err := rLockLive e in
  match err with
  | Some err => mret (Some err)
  | None =>
      defer! RUnlock e in
      let! ckey := CString key in
      defer! C_free ckey in
      let! o := load e in
      let! res := cgo (f4kvs_engine_delete (handle o) ckey) in
      if bool_decide (res = ErrorNotFound) then mret None
      else check "f4kvs delete %q: %s" [key] res
  end.

(** ** Prefix scans *)

(** The keys array as a Go slice of its first [count] elements. *)
Definition key_slice (a count : Z) : M World (list Z) :=
  if 2 ^ 30 <? count then panic "slice bounds out of range"
  else clib (λ s, match heap s !! a with
                  | Some (BKeys ptrs) =>
                      if count <=? zlen ptrs then Ret (take (Z.to_nat count) ptrs) s else Undefined
                  | _ => Undefined
                  end).

Fixpoint go_strings (ptrs : list Z) (keys : list string) : M World (list string) :=
  match ptrs with
  | [] => mret keys
  | p :: ptrs => let! k := GoString p in go_strings ptrs (keys ++ [k])
  end.

(** [None] is the nil slice. *)
Definition scanPrefixLocked (e : nat) (prefix : string) : M World (option (list string)) :=
  let! cprefix := CString prefix in
  defer! C_free cprefix in
  let! o := load e in
  let! r := cgo (f4kvs_engine_scan_prefix_keys (handle o) cprefix (Some (mkKeyScan 0 0))) in
  if bool_decide (r.1 ≠ Success) then mret None
  else
    let result := default (mkKeyScan 0 0) r.2 in
    defer! (let! _ := cgo (f4kvs_key_scan_result_free result) in mret tt) in
    if bool_decide (ks_keys result ≠ 0) && (0 <? ks_count result) then
      let! slice := key_slice (ks_keys result) (ks_count result) in
      let! keys := go_strings slice [] in
      mret (Some keys)
    else mret (Some []).

Definition ScanPrefixKeys (e : nat) (prefix : string) : M World (option (list string)) :=
  run! RLock e in
  defer! RUnlock e in
  let! o := load e in
  if closed o || (handle o =? 0) then mret None
  else scanPrefixLocked e prefix.

Definition GetAllKeys (e : nat) : M World (option (list string)) := ScanPrefixKeys e "".

(** ** Batches *)

(** The pairs a [range] over the map visits, in its order. *)
Definition range {V} (m : gmap string V) : M World (list (string * V)) := λ w,
  Ret (range_order (ranges w) m) (mkWorld (proc w) (objs w) (S (ranges w))).

Fixpoint put_each (e : nat) (items : list (string * string)) : M World (option GoError) :=
  match items with
  | [] => mret None
  | (key, value) :: items =>
      let! err := Put e key value in
      match err with
      | Some err => mret (Some err)
      | None => put_each e items
      end
  end.

Definition BatchPut (e : nat) (items : gmap string string) : M World (option GoError) :=
  let! order := range items in put_each e order.

(** The loop of [BatchGetValues] and [BatchGetBytes], with the getter it calls. *)
Fixpoint get_each {V} (getter : string → M World (GoError + V)) (keys : list string)
    (result : gmap string V) : M World (GoError + gmap string V) :=
  match keys with
  | [] => mret (inr result)
  | key :: keys =>
      let! r := getter key in
      match r with
      | inl err => mret (inl err)
      | inr value => get_each getter keys (<[key := value]> result)
      end
  end.

Definition BatchGetValues (e : nat) (keys : list string) : M World (GoError + gmap string string) :=
  get_each (Get e) keys ∅.

Definition BatchGetBytes (e : nat) (keys : list string) : M World (GoError + gmap string goslice) :=
  get_each (GetBytes e) keys ∅.

(** The arrays [BatchPutBytes] fills: C keys, C values, lengths. *)
Record CArrays := mkArrays { cKeys : list Z; cValues : list Z; cLens : list Z }.

(** The allocation loop; [a] holds the elements filled so far.  When [C.malloc]
    fails, the rest of the arrays is still nil (zero). *)
Fixpoint fill_arrays (items : list (string * goslice)) (a : CArrays)
    : M World (option GoError * CArrays) :=
  match items with
  | [] => mret (None, a)
  | (key, value) :: items =>
      let! ck := CString key in
      let l := slice_bytes value in
      if zlen l =? 0 then
        fill_arrays items (mkArrays (cKeys a ++ [ck]) (cValues a ++ [0]) (cLens a ++ [0]))
      else
        let! buf := C_malloc (zlen l) in
        if buf =? 0 then
          let nil := replicate (length items) 0 in
          mret (Some (Errorf "f4kvs batch put: out of memory" []),
                mkArrays (cKeys a ++ ck :: nil) (cValues a ++ 0 :: nil) (cLens a ++ zlen l :: nil))
        else
          run! C_memcpy buf l in
          fill_arrays items (mkArrays (cKeys a ++ [ck]) (cValues a ++ [buf]) (cLens a ++ [zlen l]))
  end.

(** The deferred cleanup, over the arrays as the loop left them. *)
Definition free_arrays (a : CArrays) : M World unit :=
  run! each C_free (cKeys a) in
  each (λ cv, if bool_decide (cv ≠ 0) then C_free cv else mret tt) (cValues a).

Definition BatchPutBytes (e : nat) (items : gmap string goslice) : M World (option GoError) :=
  if bool_decide (size items = O) then mret None
  else
    let! err := rLockLive e in
    match err with
    | Some err => mret (Some err)
    | None =>
        defer! RUnlock e in
        let! order := range items in
        let! filled := fill_arrays order (mkArrays [] [] []) in
        let a := filled.2 in
        defer! free_arrays a in
        match filled.1 with
        | Some err => mret (Some err)
        | None =>
            let! o := load e in
            let! res := cgo (f4kvs_engine_batch_put_bytes (handle o) (Some (cKeys a))
                               (Some (cValues a)) (Some (cLens a)) (zlen order)) in
            check "f4kvs batch put: %s" [] res
        end
    end.

Fixpoint c_strings (keys : list string) (cks : list Z) : M World (list Z) :=
  match keys with
  | [] => mret cks
  | key :: keys => let! ck := CString key in c_strings keys (cks ++ [ck])
  end.

Definition BatchDelete (e : nat) (keys : list string) : M World (option GoError) :=
  if bool_decide (keys = []) then mret None
  else
    let! err := rLockLive e in
    match err with
    | Some err => mret (Some err)
    | None =>
        defer! RUnlock e in
        let! cks := c_strings keys [] in
        defer! each C_free cks in
        let! o := load e in
        let! res := cgo (f4kvs_engine_batch_delete (handle o) (Some cks) (zlen keys)) in
        check "f4kvs batch delete: %s" [] res
    end.

(** ** Maintenance *)

Definition SetBulkImport (e : nat) (on : bool) : M World (option GoError) :=
  let! err := rLockLive e in
  match err with
  | Some err => mret (Some err)
  | None =>
      defer! RUnlock e in
      let enabled := if on then 1 else 0 in
      let! o := load e in
      let! res := cgo (f4kvs_engine_set_bulk_import (handle o) enabled) in
      check "f4kvs set bulk import: %s" [] res
  end.

Definition Flush (e : nat) : M World (option GoError) :=
  let! err := rLockLive e in
  match err with
  | Some err => mret (Some err)
  | None =>
      defer! RUnlock e in
      let! o := load e in
      let! res := cgo (f4kvs_engine_flush (handle o)) in
      check "f4kvs flush: %s" [] res
  end.

Definition FlushWAL (e : nat) : M World (option GoError) :=
  let! err := rLockLive e in
  match err with
  | Some err => mret (Some err)
  | None =>
      defer! RUnlock e in
      let! o := load e in
      let! res := cgo (f4kvs_engine_flush_wal (handle o)) in
      check "f4kvs flush wal: %s" [] res
  end.

Definition Sync (e : nat) : M World (option GoError) :=
  let! err := rLockLive e in
  match err with
  | Some err => mret (Some err)
  | None =>
      defer! RUnlock e in
      let! o := load e in
      let! res := cgo (f4kvs_engine_compact (handle o)) in
      check "f4kvs sync: %s" [] res
  end.

Definition Close (e : nat) : M World unit :=
  run! Lock e in
  defer! Unlock e in
  let! o := load e in
  if handle o =? 0 then mret tt
  else
    run! cgo (f4kvs_engine_close (handle o)) in
    run! cgo (f4kvs_engine_free (handle o)) in
    run! store e (set_handle 0) in
    store e (set_closed true).

End Binding.
