(* ===== verification/FfiFacts.v ===== *)
(** * Facts about the C ABI layer

    What each exported function returns and leaves behind, as equations: a
    checked key either yields the text the engine is called with or the message
    that becomes the thread's last error.  [wf] is the resource invariant of the
    library between calls. *)

From S2P Require Import Prelude Engine Utf8 Options Ffi.

Section FfiFacts.
Context `{L : LsmEngine} {P : Platform} {POk : PlatformOk P}.
Implicit Types (s : Proc) (g : lsm) (a : Z).

(** ** Small steps, as functions on the state *)

Definition err (msg : string) (s : Proc) : Proc :=
  set_errors (<[thread s := escape_nul msg]> (last_error s)) s.

Definition with_engine (a : Z) (g : lsm) (d : disk) (s : Proc) : Proc :=
  set_disk d (set_heap (<[a := BEngine g]> (heap s)) s).

(** Why a C string is refused ([inl], the message) or the text it holds. *)
Definition check_text (field : string) (max : Z) (bytes : list byte) : string + string :=
  if max <? zlen bytes then
    inl ("Invalid argument: " +:+ field +:+ " exceeds maximum length of "
         +:+ pretty max +:+ " bytes")
  else match from_utf8 bytes with
       | inr str => inr str
       | inl e => inl ("Invalid UTF-8 in " +:+ field +:+ ": " +:+ Utf8Error_display e)
       end.

Definition check_key (key : string) : string + string :=
  check_text "key" MAX_KEY_LENGTH (c_prefix (String.list_byte_of_string key)).

(** What a library call comes to: the message that becomes the last error or a
    result, and the engine and file system after it when the engine was called. *)
Definition eff (A : Type) : Type := (string + A) * option (lsm * disk).

Definition run_eff {A} (what : string) (op : LsmOp lsm disk A) (g : lsm) (d : disk) : eff A :=
  let '(r, gd) := op g d in
  (match r with inl e => inl (what +:+ " failed: " +:+ e) | inr x => inr x end, Some gd).

Definition key_eff {A} (key : string) (f : string → eff A) : eff A :=
  match check_key key with inl msg => (inl msg, None) | inr k => f k end.

Definition put_eff (key : string) (v : list byte) (g : lsm) (d : disk) : eff unit :=
  key_eff key (λ k,
    if MAX_VALUE_LENGTH <? zlen v then
      (inl ("Invalid argument: value exceeds maximum length of "
            +:+ pretty MAX_VALUE_LENGTH +:+ " bytes"), None)
    else run_eff "Put bytes" (lsm_put k (VBytes v)) g d).

Definition delete_eff (key : string) (g : lsm) (d : disk) : eff unit :=
  key_eff key (λ k, run_eff "Delete" (lsm_delete k) g d).

Definition get_eff (key : string) (g : lsm) (d : disk) : eff (option (Value json)) :=
  key_eff key (λ k, run_eff "Get bytes" (lsm_get k) g d).

(** The process after it, and the code returned when it failed. *)
Definition after (a : Z) (x : option (lsm * disk)) (s : Proc) : Proc :=
  match x with None => s | Some (g, d) => with_engine a g d s end.

Definition code_of (x : option (lsm * disk)) : F4KvsResult :=
  match x with None => ErrorInvalidArgument | Some _ => ErrorStorage end.

Definition reply {A} (a : Z) (x : eff A) (s : Proc) : outcome Proc F4KvsResult :=
  match x with
  | (inr _, y) => Ret Success (after a y s)
  | (inl msg, y) => Ret (code_of y) (err msg (after a y s))
  end.

(** ** Well-formedness *)

(** Every block lies at a real address, and what the two allocators have
    registered is live, of the right kind and length. *)
Record wf (s : Proc) : Prop := mkWf {
  wf_low a b : heap s !! a = Some b → 1 < a;
  wf_strings a : a ∈ string_allocations s → ∃ l, heap s !! a = Some (BCString l);
  wf_bytes a n : bytes_allocations s !! a = Some n →
    ∃ l, heap s !! a = Some (BBoxed l) ∧ zlen l = n
}.

Lemma wf_err msg s : wf s → wf (err msg s).
Proof. by intros []. Qed.

Lemma wf_bytes_None s a : wf s → heap s !! a = None → bytes_allocations s !! a = None.
Proof.
  intros Hwf Ha. destruct (bytes_allocations s !! a) eqn:E; [|done].
  apply wf_bytes in E as (l & ? & _); [congruence|done].
Qed.

Lemma wf_strings_notin s a : wf s → heap s !! a = None → a ∉ string_allocations s.
Proof. intros Hwf Ha Hin. apply wf_strings in Hin as [l ?]; [congruence|done]. Qed.

Lemma wf_low_None s a : wf s → a ≤ 1 → heap s !! a = None.
Proof.
  intros Hwf Ha. destruct (heap s !! a) eqn:E; [|done]. apply wf_low in E; [lia|done].
Qed.

(** Replacing the block of an engine by another engine. *)
Lemma wf_with_engine a g g' d s :
  wf s → heap s !! a = Some (BEngine g) → wf (with_engine a g' d s).
Proof.
  intros [Hl Hs Hb] Ha. split; simpl.
  - intros a' b. rewrite lookup_insert. case_decide; intros; simplify_eq; eauto.
  - intros a' Hin. destruct (Hs a' Hin) as [l Hl']. exists l.
    rewrite lookup_insert_ne; congruence.
  - intros a' n Hn. destruct (Hb a' n Hn) as (l & Hl' & ?). exists l.
    rewrite lookup_insert_ne; [done|]. congruence.
Qed.

Lemma wf_alloc_malloc s l : wf s → wf (set_heap (<[alloc_addr (heap s) := BMalloc l]> (heap s)) s).
Proof.
  intros [Hl Hs Hb]. pose proof (alloc_fresh (heap s)) as Hf. split; simpl.
  - intros a' b. rewrite lookup_insert. case_decide; intros; simplify_eq; eauto using alloc_above.
  - intros a' Hin. destruct (Hs a' Hin) as [l' Hl']. exists l'.
    rewrite lookup_insert_ne; congruence.
  - intros a' n Hn. destruct (Hb a' n Hn) as (l' & Hl' & ?). exists l'.
    rewrite lookup_insert_ne; [done|]. congruence.
Qed.

(** ** Argument checks *)

Lemma alloc_addr_nonzero (h : gmap Z block) : (alloc_addr h =? 0) = false.
Proof. pose proof (alloc_above h). lia. Qed.

Lemma validate_engine_live s a g :
  a ≠ 0 → heap s !! a = Some (BEngine g) → validate_engine a s = Ret (inr g) s.
Proof.
  intros Ha Hg. unfold validate_engine. rewrite (proj2 (Z.eqb_neq _ _)) by done. by rewrite Hg.
Qed.

Lemma read_c_str_malloc s a l :
  heap s !! a = Some (BMalloc (l ++ [x00])) → read_c_str a s = Ret (c_prefix l) s.
Proof. intros H. unfold read_c_str. by rewrite H, until_nul_terminated. Qed.

Lemma validate_c_string_malloc s a l max field :
  a ≠ 0 → heap s !! a = Some (BMalloc (l ++ [x00])) →
  validate_c_string a max field s =
    match check_text field max (c_prefix l) with
    | inl msg => Ret (inl ErrorInvalidArgument) (err msg s)
    | inr k => Ret (inr k) s
    end.
Proof.
  intros Ha Hl. unfold validate_c_string, check_text.
  rewrite (proj2 (Z.eqb_neq _ _)) by done.
  unfold bind at 1. rewrite (read_c_str_malloc _ _ _ Hl).
  case_match; [done|]. by destruct (from_utf8 _).
Qed.

Lemma engine_op_live {A} s a g (op : LsmOp lsm disk A) :
  heap s !! a = Some (BEngine g) →
  engine_op a op s =
    let '(r, (g', d')) := op g (dsk s) in Ret r (with_engine a g' d' s).
Proof. intros H. unfold engine_op. by rewrite H. Qed.

(** [block_on] and the report of its result. *)
Lemma op_report {A} s a g what (op : LsmOp lsm disk A) :
  heap s !! a = Some (BEngine g) →
  (let! r := engine_op a op in report what r) s = reply a (run_eff what op g (dsk s)) s.
Proof.
  intros H. unfold bind. rewrite (engine_op_live _ _ _ _ H). unfold run_eff, reply.
  by destruct (op g (dsk s)) as [[] []].
Qed.

(** The texts a C string is accepted with: short enough and UTF-8. *)
Lemma check_text_ok field max l :
  check_text field max l = inr (String.string_of_list_byte l) ↔
  zlen l ≤ max ∧ utf8_valid l = true.
Proof.
  unfold check_text, utf8_valid, from_utf8.
  destruct (Z.ltb_spec max (zlen l)), (utf8_scan 0 l); naive_solver lia.
Qed.

Lemma check_text_inr field max l k :
  check_text field max l = inr k → k = String.string_of_list_byte l.
Proof.
  unfold check_text, from_utf8. case_match; [done|]. destruct (utf8_scan 0 l); naive_solver.
Qed.

(** ** The exported functions on a live engine and a C-string key *)

Section Live.
Context (s : Proc) (a ck : Z) (g : lsm) (key : string).
Hypothesis Ha : a ≠ 0.
Hypothesis Hck : ck ≠ 0.
Hypothesis Hg : heap s !! a = Some (BEngine g).
Hypothesis Hkey : heap s !! ck = Some (BMalloc (String.list_byte_of_string key ++ [x00])).

(** The common start of the functions that take a key. *)
Lemma keyed_call {B} (onerr : F4KvsResult → M Proc B) (k : string → M Proc B) :
  (let! e := validate_engine a in
   match e with
   | inl e => onerr e
   | inr _ =>
       let! key_str := validate_c_string ck MAX_KEY_LENGTH "key" in
       match key_str with inl e => onerr e | inr key_str => k key_str end
   end) s =
  match check_key key with
  | inl msg => onerr ErrorInvalidArgument (err msg s)
  | inr key_str => k key_str s
  end.
Proof.
  unfold bind. rewrite (validate_engine_live _ _ _ Ha Hg).
  rewrite (validate_c_string_malloc _ _ _ _ _ Hck Hkey).
  unfold check_key. by destruct (check_text _ _ _).
Qed.

(** [f4kvs_engine_put_bytes] on Go memory. *)
Lemma put_bytes_live (v : list byte) :
  f4kvs_engine_put_bytes a ck (if 0 <? zlen v then GoMem v else NullPtr) (zlen v) s =
  reply a (put_eff key v g (dsk s)) s.
Proof.
  unfold f4kvs_engine_put_bytes, put_eff, key_eff. rewrite keyed_call.
  destruct (check_key key) as [msg|k]; [done|].
  case_match eqn:Hmax; [done|]. clear Hmax.
  assert (Hread : (if zlen v =? 0 then mret [] else
            read_buf (if 0 <? zlen v then GoMem v else NullPtr) (zlen v)) s = Ret v s).
  { destruct (Z.eqb_spec (zlen v) 0) as [H0|H0]; [by rewrite (zlen_nil_inv v)|].
    pose proof (zlen_nonneg v). rewrite (proj2 (Z.ltb_lt 0 _)) by lia.
    unfold read_buf. rewrite (proj2 (Z.leb_le _ _)) by lia.
    unfold zlen. by rewrite Nat2Z.id, firstn_all. }
  replace ((0 <? zlen v) && is_null (if 0 <? zlen v then GoMem v else NullPtr)) with false
    by (by destruct (0 <? zlen v)).
  rewrite (bind_ret _ _ _ _ _ Hread). by apply op_report.
Qed.

Lemma delete_live : f4kvs_engine_delete a ck s = reply a (delete_eff key g (dsk s)) s.
Proof.
  unfold f4kvs_engine_delete, delete_eff, key_eff. rewrite keyed_call.
  destruct (check_key key) as [msg|k]; [done|]. by apply op_report.
Qed.

Lemma get_bytes_live o :
  f4kvs_engine_get_bytes a ck (Some o) s =
  match get_eff key g (dsk s) with
  | (inl msg, y) => Ret (code_of y, Some o) (err msg (after a y s))
  | (inr None, y) => Ret (ErrorNotFound, Some (0, 0)) (after a y s)
  | (inr (Some v), y) =>
      let b := value_to_bytes v in
      let s' := after a y s in
      let p := if zlen b =? 0 then 1 else alloc_addr (heap s') in
      let h := if zlen b =? 0 then heap s' else <[p := BBoxed b]> (heap s') in
      Ret (Success, Some (p, zlen b))
        (set_bytes (<[p := zlen b]> (bytes_allocations s')) (set_heap h s'))
  end.
Proof.
  unfold f4kvs_engine_get_bytes, get_eff, key_eff. rewrite keyed_call.
  destruct (check_key key) as [msg|k]; [done|].
  unfold bind. rewrite (engine_op_live _ _ _ _ Hg).
  unfold run_eff. destruct (lsm_get _ _ _) as [[e|[v|]] [g' d']]; [done| |done].
  unfold allocate_bytes, bind. by destruct (zlen (value_to_bytes v) =? 0).
Qed.

End Live.

(** The functions that only name the engine. *)
Lemma simple_op_live s a g what op :
  a ≠ 0 → heap s !! a = Some (BEngine g) →
  simple_op what op a s = reply a (run_eff what op g (dsk s)) s.
Proof.
  intros Ha Hg. unfold simple_op, bind. rewrite (validate_engine_live _ _ _ Ha Hg).
  by apply op_report.
Qed.

Lemma set_bulk_import_live s a g on :
  a ≠ 0 → heap s !! a = Some (BEngine g) →
  f4kvs_engine_set_bulk_import a (if on : bool then 1 else 0) s =
    reply a (inr tt, Some (lsm_set_bulk_import on g, dsk s)) s.
Proof.
  intros Ha Hg. unfold f4kvs_engine_set_bulk_import, bind.
  rewrite (validate_engine_live _ _ _ Ha Hg). by destruct on.
Qed.

(** ** Batches *)

(** The pairs [f4kvs_engine_batch_put_bytes] hands to the engine for the given
    keys and values, or the message of the first one it refuses. *)
Fixpoint batch_check (i : nat) (items : list (string * list byte))
    : string + list (string * Value json) :=
  match items with
  | [] => inr []
  | (key, v) :: items =>
      match check_key key with
      | inl msg => inl msg
      | inr k =>
          if MAX_VALUE_LENGTH <? zlen v then
            inl ("Invalid argument: value at index " +:+ pretty i
                 +:+ " exceeds maximum length of " +:+ pretty MAX_VALUE_LENGTH +:+ " bytes")
          else match batch_check (S i) items with
               | inl msg => inl msg
               | inr l => inr ((k, VBytes v) :: l)
               end
      end
  end.

Fixpoint keys_check (keys : list string) : string + list string :=
  match keys with
  | [] => inr []
  | key :: keys =>
      match check_key key with
      | inl msg => inl msg
      | inr k => match keys_check keys with inl msg => inl msg | inr l => inr (k :: l) end
      end
  end.

Definition count_eff (count : Z) (g : lsm) (x : eff unit) : eff unit :=
  if max_batch_size (lsm_config g) <? count then
    (inl ("Invalid argument: batch count " +:+ pretty count +:+ " exceeds max_batch_size "
          +:+ pretty (max_batch_size (lsm_config g))), None)
  else x.

Definition batch_put_eff (items : list (string * list byte)) (g : lsm) (d : disk) : eff unit :=
  count_eff (zlen items) g
    match batch_check 0 items with
    | inl msg => (inl msg, None)
    | inr l => run_eff "Batch put bytes" (lsm_batch_put l) g d
    end.

Definition batch_delete_eff (keys : list string) (g : lsm) (d : disk) : eff unit :=
  count_eff (zlen keys) g
    match keys_check keys with
    | inl msg => (inl msg, None)
    | inr l => run_eff "Batch delete" (lsm_batch_delete l) g d
    end.

(** A C string in memory, and a value buffer (null when the value is empty). *)
Definition has_key (h : gmap Z block) (ck : Z) (key : string) : Prop :=
  ck ≠ 0 ∧ h !! ck = Some (BMalloc (String.list_byte_of_string key ++ [x00])).

Definition has_value (h : gmap Z block) (cv len : Z) (v : list byte) : Prop :=
  len = zlen v ∧ (v = [] ∨ cv ≠ 0 ∧ h !! cv = Some (BMalloc v)).

(** The rows of the three arrays hold the pairs. *)
Inductive rows (h : gmap Z block) : list (string * list byte) → list Z → list Z → list Z → Prop :=
| rows_nil : rows h [] [] [] []
| rows_cons key v items ck cks cv cvs len lens :
    has_key h ck key → has_value h cv len v → rows h items cks cvs lens →
    rows h ((key, v) :: items) (ck :: cks) (cv :: cvs) (len :: lens).

Lemma elem_at_mid (pre : list Z) z l s : elem_at (Some (pre ++ z :: l)) (length pre) s = Ret z s.
Proof. unfold elem_at. simpl. by rewrite list_lookup_middle. Qed.

Lemma validate_key s ck key :
  has_key (heap s) ck key →
  validate_c_string ck MAX_KEY_LENGTH "key" s =
    match check_key key with
    | inl msg => Ret (inl ErrorInvalidArgument) (err msg s)
    | inr k => Ret (inr k) s
    end.
Proof. intros [H0 Hk]. by apply validate_c_string_malloc. Qed.

Lemma read_value s cv len v :
  has_value (heap s) cv len v →
  ((0 <? len) && (cv =? 0)) = false ∧
  (if len =? 0 then mret [] else read_buf (AtAddr cv) len) s = Ret v s.
Proof.
  intros [-> [->|[H0 Hv]]]; [done|]. split; [lia|].
  destruct (Z.eqb_spec (zlen v) 0) as [Hz|Hz]; [by rewrite (zlen_nil_inv v)|].
  unfold read_buf. rewrite Hv, (proj2 (Z.leb_le _ _)) by lia.
  unfold zlen. by rewrite Nat2Z.id, firstn_all.
Qed.

Lemma snoc_app {A} (pre : list A) x l : pre ++ x :: l = (pre ++ [x]) ++ l.
Proof. by rewrite <-app_assoc. Qed.

Lemma length_snoc {A} (pre : list A) x : length (pre ++ [x]) = S (length pre).
Proof. rewrite length_app. simpl. lia. Qed.

Lemma collect_items_rows s items cks cvs lens :
  rows (heap s) items cks cvs lens →
  ∀ pk pv pl acc, length pv = length pk → length pl = length pk →
  collect_items (Some (pk ++ cks)) (Some (pv ++ cvs)) (Some (pl ++ lens))
    (length pk) (length items) acc s =
  match batch_check (length pk) items with
  | inl msg => Ret (inl ErrorInvalidArgument) (err msg s)
  | inr l => Ret (inr (acc ++ l)) s
  end.
Proof.
  induction 1 as [|key v items ck cks cv cvs len lens Hk Hv _ IH]; intros pk pv pl acc Hpv Hpl; simpl.
  - by rewrite app_nil_r.
  - rewrite (bind_ret _ _ _ _ _ (elem_at_mid pk _ _ _)).
    unfold bind at 1. rewrite (validate_key _ _ _ Hk).
    destruct (check_key key) as [msg|k]; [done|].
    erewrite bind_ret by (rewrite <-Hpl; apply elem_at_mid).
    destruct (read_value _ _ _ _ Hv) as [Hnull Hread].
    assert (len = zlen v) as -> by apply Hv.
    destruct (MAX_VALUE_LENGTH <? zlen v); [done|].
    erewrite bind_ret by (rewrite <-Hpv; apply elem_at_mid).
    rewrite Hnull, (bind_ret _ _ _ _ _ Hread).
    rewrite (snoc_app pk), (snoc_app pv), (snoc_app pl), <-(length_snoc pk ck).
    rewrite IH by (rewrite !length_snoc; lia).
    destruct (batch_check _ items); [done|]. by rewrite <-app_assoc.
Qed.

Lemma rows_length h items cks cvs lens : rows h items cks cvs lens → length cks = length items.
Proof. induction 1; simpl; congruence. Qed.

Lemma batch_put_bytes_live s a g items cks cvs lens :
  a ≠ 0 → heap s !! a = Some (BEngine g) → rows (heap s) items cks cvs lens →
  f4kvs_engine_batch_put_bytes a (Some cks) (Some cvs) (Some lens) (zlen items) s =
    reply a (batch_put_eff items g (dsk s)) s.
Proof.
  intros Ha Hg Hr. unfold f4kvs_engine_batch_put_bytes, bind at 1.
  rewrite (validate_engine_live _ _ _ Ha Hg).
  unfold batch_put_eff, count_eff, reject_batch_count. case_match; [done|].
  erewrite bind_ret by reflexivity. rewrite !bool_decide_eq_false_2 by done. rewrite andb_false_r.
  unfold bind at 1. unfold zlen. rewrite Nat2Z.id.
  pose proof (collect_items_rows s items cks cvs lens Hr [] [] [] [] eq_refl eq_refl) as Hc.
  simpl in Hc. rewrite Hc. destruct (batch_check 0 items) as [msg|l]; [done|].
  simpl. by apply op_report.
Qed.

Lemma collect_keys_spec s keys cks :
  Forall2 (has_key (heap s)) cks keys →
  ∀ pre acc, collect_keys (Some (pre ++ cks)) (length pre) (length keys) acc s =
  match keys_check keys with
  | inl msg => Ret (inl ErrorInvalidArgument) (err msg s)
  | inr l => Ret (inr (acc ++ l)) s
  end.
Proof.
  induction 1 as [|ck key cks keys Hk _ IH]; intros pre acc; simpl.
  - by rewrite app_nil_r.
  - rewrite (bind_ret _ _ _ _ _ (elem_at_mid pre _ _ _)).
    unfold bind at 1. rewrite (validate_key _ _ _ Hk).
    destruct (check_key key) as [msg|k]; [done|].
    rewrite (snoc_app pre), <-(length_snoc pre ck), IH.
    destruct (keys_check keys); [done|]. by rewrite <-app_assoc.
Qed.

Lemma batch_delete_live s a g keys cks :
  a ≠ 0 → heap s !! a = Some (BEngine g) → Forall2 (has_key (heap s)) cks keys →
  f4kvs_engine_batch_delete a (Some cks) (zlen keys) s =
    reply a (batch_delete_eff keys g (dsk s)) s.
Proof.
  intros Ha Hg Hk. unfold f4kvs_engine_batch_delete, bind at 1.
  rewrite (validate_engine_live _ _ _ Ha Hg).
  unfold batch_delete_eff, count_eff, reject_batch_count. case_match; [done|].
  erewrite bind_ret by reflexivity. rewrite !bool_decide_eq_false_2 by done. rewrite andb_false_r.
  unfold bind at 1. unfold zlen. rewrite Nat2Z.id.
  pose proof (collect_keys_spec s keys cks Hk [] []) as Hc.
  simpl in Hc. rewrite Hc. destruct (keys_check keys) as [msg|l]; [done|].
  simpl. by apply op_report.
Qed.

(** ** Prefix scans *)

(** The state with the library strings of [C] handed out. *)
Definition add_strings (C : gmap Z block) (s : Proc) : Proc :=
  set_strings (dom C ∪ string_allocations s) (set_heap (C ∪ heap s) s).

(** [C] holds exactly the strings at the addresses [l], all of them new. *)
Record strings_at (C : gmap Z block) (s : Proc) (l : list Z) : Prop := mkStringsAt {
  sa_nodup : NoDup l;
  sa_in a : a ∈ l →
    1 < a ∧ heap s !! a = None ∧ (a ∉ string_allocations s) ∧ ∃ b, C !! a = Some (BCString b);
  sa_out a : a ∉ l → C !! a = None
}.

Lemma add_strings_empty s : add_strings ∅ s = s.
Proof.
  unfold add_strings. rewrite (left_id_L ∅ (∪)), dom_empty_L, (left_id_L ∅ (∪)). done.
Qed.

Lemma strings_at_nil s : strings_at ∅ s [].
Proof. split; [constructor|set_solver|done]. Qed.

Lemma string_free_add a b C s :
  1 < a → heap s !! a = None → a ∉ string_allocations s → C !! a = None →
  f4kvs_string_free a (add_strings (<[a := BCString b]> C) s) = Ret tt (add_strings C s).
Proof.
  intros H1 Hh Hs HC. unfold f4kvs_string_free.
  rewrite (proj2 (Z.eqb_neq _ _)) by lia. simpl.
  rewrite bool_decide_eq_true_2 by (rewrite dom_insert_L; set_solver).
  rewrite (lookup_union_Some_l _ _ _ (BCString b)) by apply lookup_insert_eq.
  unfold add_strings, set_strings, set_heap. simpl. f_equal. f_equal.
  - rewrite delete_union, (delete_id (heap s)) by done. by rewrite delete_insert_id.
  - rewrite dom_insert_L. apply not_elem_of_dom in HC. set_solver.
Qed.

Lemma strings_at_delete C s a l :
  strings_at C s (a :: l) → strings_at (delete a C) s l.
Proof.
  intros [Hd Hin Hout]. apply NoDup_cons in Hd as [Ha Hd]. split; [done| |].
  - intros x Hx. destruct (Hin x ltac:(set_solver)) as (? & ? & ? & b & ?). split_and!; [done..|].
    exists b. rewrite lookup_delete_ne; [done|]. intros ->. done.
  - intros x Hx. rewrite lookup_delete. case_decide; [done|]. apply Hout. set_solver.
Qed.

Lemma free_strings C s l :
  strings_at C s l → each f4kvs_string_free l (add_strings C s) = Ret tt s.
Proof.
  revert C. induction l as [|a l IH]; intros C HC; simpl.
  - assert (C = ∅) as -> by (apply map_eq; intros a; rewrite lookup_empty; apply HC; set_solver).
    by rewrite add_strings_empty.
  - destruct (sa_in _ _ _ HC a ltac:(set_solver)) as (H1 & Hh & Hs & b & Hb).
    rewrite <-(insert_delete_id C a (BCString b)) by done.
    erewrite bind_ret by (apply string_free_add; [done..|apply lookup_delete_eq]).
    by apply IH, strings_at_delete.
Qed.

Lemma strings_at_err C s l msg : strings_at C s l → strings_at C (err msg s) l.
Proof. by intros []. Qed.

(** What makes a list of keys impossible to return as C strings. *)
Definition nul_key (keys : list string) : option string :=
  foldr (λ k r, match nul_position (String.list_byte_of_string k) with
                | Some pos => Some ("Failed to create C string: " +:+ NulError_display pos)
                | None => r
                end) None keys.

Definition c_text (k : string) : block := BCString (String.list_byte_of_string k ++ [x00]).

Lemma strings_at_snoc C s l k :
  (∀ a, a ∈ string_allocations s → is_Some (heap s !! a)) → strings_at C s l →
  let a := alloc_addr (C ∪ heap s) in strings_at (<[a := c_text k]> C) s (l ++ [a]).
Proof.
  intros Hwf [Hd Hin Hout] a. pose proof (alloc_fresh (C ∪ heap s)) as Hf.
  pose proof (alloc_above (C ∪ heap s)). fold a in Hf. apply lookup_union_None in Hf as [HC Hh].
  assert (Hnl : a ∉ l). { intros Ha. apply Hin in Ha as (_ & _ & _ & b & ?). congruence. }
  split.
  - apply NoDup_app. split_and!; [done| |apply NoDup_singleton]. set_solver.
  - intros x [Hx| ->%list_elem_of_singleton]%elem_of_app.
    + destruct (Hin x Hx) as (? & ? & ? & b & ?). split_and!; [done..|]. exists b.
      rewrite lookup_insert_ne; [done|]. intros <-. done.
    + split_and!; [done..| |by rewrite lookup_insert_eq; eexists].
      intros Hs. apply Hwf in Hs as [? ?]. congruence.
  - intros x [Hx Hxa]%not_elem_of_app. rewrite lookup_insert_ne; [by apply Hout|]. set_solver.
Qed.

Lemma allocate_c_string_ok C s k :
  nul_position (String.list_byte_of_string k) = None →
  let a := alloc_addr (C ∪ heap s) in
  allocate_c_string k (add_strings C s) = Ret (inr a) (add_strings (<[a := c_text k]> C) s).
Proof.
  intros Hk a. unfold allocate_c_string. rewrite Hk. unfold bind. simpl. fold (c_text k) a.
  unfold modify, mret, add_strings, set_strings, set_heap. simpl.
  by rewrite insert_union_l, dom_insert_L, (assoc_L (∪)).
Qed.

Lemma allocate_c_string_nul C s k pos :
  nul_position (String.list_byte_of_string k) = Some pos →
  allocate_c_string k (add_strings C s) =
    Ret (inl ErrorStorage)
      (add_strings C (err ("Failed to create C string: " +:+ NulError_display pos) s)).
Proof. intros Hk. unfold allocate_c_string. by rewrite Hk. Qed.

Lemma allocate_keys_spec keys s :
  (∀ a, a ∈ string_allocations s → is_Some (heap s !! a)) →
  ∀ C acc done_keys, strings_at C s acc → Forall2 (λ a k, C !! a = Some (c_text k)) acc done_keys →
  match nul_key keys with
  | Some msg => allocate_keys keys acc (add_strings C s) = Ret (inl ErrorStorage) (err msg s)
  | None => ∃ l C', allocate_keys keys acc (add_strings C s) = Ret (inr l) (add_strings C' s) ∧
      strings_at C' s l ∧ Forall2 (λ a k, C' !! a = Some (c_text k)) l (done_keys ++ keys)
  end.
Proof.
  intros Hwf. induction keys as [|k keys IH]; intros C acc dk HC Hk; simpl.
  - exists acc, C. by rewrite app_nil_r.
  - destruct (nul_position (String.list_byte_of_string k)) as [pos|] eqn:Hpos.
    + rewrite (bind_ret _ _ _ _ _ (allocate_c_string_nul C s k pos Hpos)).
      by rewrite (bind_ret _ _ _ _ _ (free_strings C (err _ s) acc (strings_at_err _ _ _ _ HC))).
    + pose proof (strings_at_snoc C s acc k Hwf HC) as HC'. cbv zeta in HC'.
      pose proof (alloc_fresh (C ∪ heap s)) as Hf. apply lookup_union_None in Hf as [HCa _].
      pose proof (allocate_c_string_ok C s k Hpos) as Hal. cbv zeta in Hal.
      set (a := alloc_addr (C ∪ heap s)) in *.
      specialize (IH (<[a := c_text k]> C) (acc ++ [a]) (dk ++ [k]) HC').
      rewrite <-(assoc_L (++) dk) in IH. rewrite (bind_ret _ _ _ _ _ Hal).
      refine (IH _). apply Forall2_app.
      * eapply Forall2_impl; [exact Hk|]. intros x y Hx. rewrite lookup_insert_ne; [done|congruence].
      * constructor; [apply lookup_insert_eq|constructor].
Qed.

Definition scan_eff (prefix : string) (g : lsm) (d : disk) : eff (list string) :=
  match check_text "prefix" MAX_KEY_LENGTH (c_prefix (String.list_byte_of_string prefix)) with
  | inl msg => (inl msg, None)
  | inr p => run_eff "Scan prefix keys" (lsm_scan_prefix p) g d
  end.

(** Once the engine has answered: the array of C strings. *)
Definition scan_tail (keys : list string) : M Proc (F4KvsResult * option F4KvsKeyScanResult) :=
  if zlen keys =? 0 then mret (Success, Some (mkKeyScan 0 0))
  else
    let! ptrs := allocate_keys keys [] in
    match ptrs with
    | inl e => mret (e, Some (mkKeyScan 0 0))
    | inr ptrs =>
        let! ptr := alloc (BKeys ptrs) in
        mret (Success, Some (mkKeyScan ptr (zlen keys)))
    end.

Lemma scan_prefix_keys_run s a ck g prefix :
  a ≠ 0 → heap s !! a = Some (BEngine g) → has_key (heap s) ck prefix →
  f4kvs_engine_scan_prefix_keys a ck (Some (mkKeyScan 0 0)) s =
    match scan_eff prefix g (dsk s) with
    | (inl msg, y) => Ret (code_of y, Some (mkKeyScan 0 0)) (err msg (after a y s))
    | (inr keys, y) => scan_tail keys (after a y s)
    end.
Proof.
  intros Ha Hg [Hck Hkey]. unfold f4kvs_engine_scan_prefix_keys, scan_eff.
  rewrite (bind_ret _ _ _ _ _ (validate_engine_live _ _ _ Ha Hg)).
  unfold bind at 1. rewrite (validate_c_string_malloc _ _ _ _ _ Hck Hkey).
  destruct (check_text _ _ _) as [msg|p]; [done|]. unfold bind at 1.
  rewrite (engine_op_live _ _ _ _ Hg). unfold run_eff.
  by destruct (lsm_scan_prefix p g (dsk s)) as [[e|keys] [g' d']].
Qed.

Lemma strings_live_after a x s :
  (∀ b, b ∈ string_allocations s → is_Some (heap s !! b)) →
  ∀ b, b ∈ string_allocations (after a x s) → is_Some (heap (after a x s) !! b).
Proof.
  intros Hwf b. destruct x as [[g d]|]; [|apply Hwf]. simpl. intros Hb.
  rewrite lookup_insert. case_decide; [by eexists|]. by apply Hwf.
Qed.

(** [f4kvs_engine_scan_prefix_keys]: the keys as fresh library strings in a boxed
    array, or nothing allocated at all. *)
Lemma scan_prefix_keys_live s a ck g prefix :
  a ≠ 0 → heap s !! a = Some (BEngine g) → has_key (heap s) ck prefix →
  (∀ a, a ∈ string_allocations s → is_Some (heap s !! a)) →
  let x := scan_eff prefix g (dsk s) in
  let s' := after a x.2 s in
  match x.1 with
  | inl msg =>
      f4kvs_engine_scan_prefix_keys a ck (Some (mkKeyScan 0 0)) s =
        Ret (code_of x.2, Some (mkKeyScan 0 0)) (err msg s')
  | inr [] =>
      f4kvs_engine_scan_prefix_keys a ck (Some (mkKeyScan 0 0)) s =
        Ret (Success, Some (mkKeyScan 0 0)) s'
  | inr keys =>
      match nul_key keys with
      | Some msg =>
          f4kvs_engine_scan_prefix_keys a ck (Some (mkKeyScan 0 0)) s =
            Ret (ErrorStorage, Some (mkKeyScan 0 0)) (err msg s')
      | None => ∃ l C, strings_at C s' l ∧ Forall2 (λ a k, C !! a = Some (c_text k)) l keys ∧
          let pk := alloc_addr (C ∪ heap s') in
          f4kvs_engine_scan_prefix_keys a ck (Some (mkKeyScan 0 0)) s =
            Ret (Success, Some (mkKeyScan pk (zlen keys)))
              (add_strings C (set_heap (<[pk := BKeys l]> (heap s')) s'))
      end
  end.
Proof.
  intros Ha Hg Hk Hwf x s'. rewrite (scan_prefix_keys_run s a ck g prefix) by done.
  pose proof (strings_live_after a x.2 s Hwf) as Hwf'. fold s' in Hwf'. fold x.
  unfold s' in *. clear s'. destruct x as [[msg|[|k keys]] y]; [done..|].
  cbn [fst snd] in *. set (s' := after a y s) in *. unfold scan_tail.
  rewrite (proj2 (Z.eqb_neq _ _)) by (unfold zlen; simpl; lia).
  pose proof (allocate_keys_spec (k :: keys) s' Hwf' ∅ [] [] (strings_at_nil _) (List.Forall2_nil _)) as Hal.
  rewrite add_strings_empty in Hal. destruct (nul_key (k :: keys)) as [msg|].
  - by rewrite (bind_ret _ _ _ _ _ Hal).
  - destruct Hal as (l & C & Hal & HC & HF). exists l, C. split_and!; [done..|].
    rewrite (bind_ret _ _ _ _ _ Hal). unfold bind, alloc. simpl. unfold mret. f_equal.
    unfold add_strings, set_strings, set_heap. simpl. rewrite insert_union_r; [done|].
    pose proof (alloc_fresh (C ∪ heap s')) as Hf. apply lookup_union_None in Hf. by destruct Hf.
Qed.

(** Giving a scan result back. *)
Lemma strings_at_keys C s l pk :
  strings_at C s l → C !! pk = None →
  strings_at C (set_heap (<[pk := BKeys l]> (heap s)) s) l.
Proof.
  intros [Hd Hin Hout] Hpk. split; [done| |done]. intros a Ha.
  destruct (Hin a Ha) as (? & ? & ? & b & Hb). split_and!; [done| |done|by eexists].
  simpl. rewrite lookup_insert_ne; [done|]. congruence.
Qed.

Lemma key_scan_result_free_spec C s l pk :
  strings_at C s l → l ≠ [] → pk ≠ 0 → C !! pk = None → heap s !! pk = None →
  f4kvs_key_scan_result_free (mkKeyScan pk (zlen l))
    (add_strings C (set_heap (<[pk := BKeys l]> (heap s)) s)) = Ret (mkKeyScan 0 0) s.
Proof.
  intros HC Hl Hpk HCpk Hs. unfold f4kvs_key_scan_result_free. simpl.
  rewrite bool_decide_eq_true_2 by done.
  rewrite (proj2 (Z.ltb_lt _ _)) by (destruct l; [done|unfold zlen; simpl; lia]). simpl.
  unfold bind at 1. simpl. rewrite lookup_union_r, lookup_insert_eq, Z.eqb_refl by done.
  erewrite bind_ret by (by apply free_strings, strings_at_keys).
  unfold bind, modify, mret, set_heap. simpl. by rewrite delete_insert_id.
Qed.

End FfiFacts.
