(* ===== verification/Sound.v ===== *)
(** * Rules for the functions of the C ABI

    What every exported function of [lib.rs] owes its caller: it ends, in a
    well-formed process, with the engines and cursors there were, and with a new
    last error exactly when it failed ([sound]).  The rules follow the shape the
    functions have in the source: checks of the arguments ([checks]), steps that
    cannot fail ([quietly]), steps that may ([tries]). *)

From S2P Require Import Prelude Engine EngineScan Utf8 Options Ffi Cabi FfiFacts.

Section Sound.
Context `{L : LsmEngine} {P : Platform} {POk : PlatformOk P}.
Implicit Types (s : Proc) (a : Z) (g : lsm).

(** ** What holds of the process between calls *)

Definition is_engine (h : gmap Z block) (a : Z) : Prop := ∃ g, h !! a = Some (BEngine g).

(** As [wf], for a client that keeps buffers: the buffer of an empty value is
    registered at the dangling address of an empty slice. *)
Record cwf (s : Proc) : Prop := mkCwf {
  cwf_low a b : heap s !! a = Some b → 1 < a;
  cwf_strings a : a ∈ string_allocations s → ∃ l, heap s !! a = Some (BCString l);
  cwf_bytes a n : bytes_allocations s !! a = Some n →
    a = 1 ∧ n = 0 ∨ ∃ l, heap s !! a = Some (BBoxed l) ∧ zlen l = n
}.

(** What a call leaves alone: engines stay engines, and cursors are the same. *)
Record keeps (s s' : Proc) : Prop := mkKeeps {
  keeps_engine a : is_engine (heap s) a → is_engine (heap s') a;
  keeps_cursor a : heap s' !! a = Some BCursor ↔ heap s !! a = Some BCursor
}.

#[export] Instance keeps_preorder : PreOrder keeps.
Proof.
  split; [by split|]. intros s1 s2 s3 [He1 Hc1] [He2 Hc2].
  split; [auto|]. intros a. by rewrite Hc2.
Qed.

(** The last error of the calling thread: set by a failure, else left alone. *)
Definition told (failed : bool) (s s' : Proc) : Prop :=
  thread s' = thread s ∧
  if failed then ∃ msg, msg ≠ "" ∧ last_error s' = <[thread s := msg]> (last_error s)
  else last_error s' = last_error s.

Definition failing (r : F4KvsResult) : bool :=
  match r with Success | ErrorNotFound => false | _ => true end.

(** A computation that ends, in a well-formed process, having reported. *)
Definition sound {A} (failed : A → bool) (Q : A → Proc → Prop) (m : M Proc A) (s : Proc) : Prop :=
  ends (λ x s', cwf s' ∧ keeps s s' ∧ told (failed x) s s' ∧ Q x s') (λ _, False) (m s).

(** ** Rules *)

Lemma escape_nul_nonempty msg : msg ≠ "" → escape_nul msg ≠ "".
Proof.
  unfold escape_nul. destruct msg as [|c msg]; [done|]. intros _ H.
  apply (f_equal String.list_byte_of_string) in H. rewrite bytes_of_string_of_bytes in H.
  simpl in H. by case_decide.
Qed.

Lemma cwf_err msg s : cwf s → cwf (err msg s).
Proof. by intros []. Qed.

Section Rules.
Context {A : Type} (failed : A → bool) (Q : A → Proc → Prop).

Lemma sound_ret x s : cwf s → failed x = false → Q x s → sound failed Q (mret x) s.
Proof. intros Hs Hx HQ. unfold sound, ends, mret, told. rewrite Hx. by split_and!. Qed.

(** The result of a failure whose message has been set. *)
Lemma sound_failed x msg s :
  cwf s → msg ≠ "" → failed x = true → Q x (err msg s) →
  ends (λ x s', cwf s' ∧ keeps s s' ∧ told (failed x) s s' ∧ Q x s') (λ _, False)
    (Ret x (err msg s)).
Proof.
  intros Hs Hm Hx HQ. simpl. unfold told. rewrite Hx. split_and!; [by apply cwf_err|done|done| |done].
  exists (escape_nul msg). split; [by apply escape_nul_nonempty|done].
Qed.

Lemma sound_fail x msg s :
  cwf s → msg ≠ "" → failed x = true → Q x (err msg s) →
  sound failed Q (run! set_last_error msg in mret x) s.
Proof. intros. by apply sound_failed. Qed.

(** A step that reports nothing. *)
Definition silent (s s' : Proc) : Prop := cwf s' ∧ keeps s s' ∧ told false s s'.

Lemma sound_after m s s' :
  silent s s' → sound failed Q m s' →
  ends (λ x s', cwf s' ∧ keeps s s' ∧ told (failed x) s s' ∧ Q x s') (λ _, False) (m s').
Proof.
  intros (Hs & Hk & Ht & He) Hm. eapply ends_impl; [exact Hm|].
  intros x s2 (? & ? & [Ht2 He2] & ?). split_and!; [done|by etrans| |done].
  unfold told. rewrite <-Ht, <-He. done.
Qed.

Lemma sound_bind_silent {B} (m : M Proc B) (k : B → M Proc A) s R :
  ends (λ x s', silent s s' ∧ R x s') (λ _, False) (m s) →
  (∀ x s', silent s s' → R x s' → sound failed Q (k x) s') →
  sound failed Q (bind m k) s.
Proof.
  intros Hm Hk. eapply ends_bind; [exact Hm|]. intros x s' [Hs HR].
  by apply (sound_after _ s s'), Hk.
Qed.

End Rules.

(** A step that cannot fail. *)
Definition quietly {B} (R : B → Proc → Prop) (m : M Proc B) (s : Proc) : Prop :=
  ends (λ x s', silent s s' ∧ R x s') (λ _, False) (m s).

Lemma silent_refl s : cwf s → silent s s.
Proof. intros Hs. unfold silent. by split_and!. Qed.

Lemma silent_trans s1 s2 s3 : silent s1 s2 → silent s2 s3 → silent s1 s3.
Proof.
  intros (_ & K1 & T1 & E1) (H2 & K2 & T2 & E2). unfold silent. split_and!; [done|by etrans|].
  split; congruence.
Qed.

Lemma quietly_bind {B C} (R : B → Proc → Prop) (R' : C → Proc → Prop) (m : M Proc B)
    (k : B → M Proc C) s :
  quietly R m s → (∀ x s', cwf s' → R x s' → quietly R' (k x) s') → quietly R' (bind m k) s.
Proof.
  intros Hm Hk. eapply ends_bind; [exact Hm|]. intros x s1 [H1 HR]. destruct (H1) as [Hs _].
  eapply ends_impl; [by apply (Hk x)|]. intros y s2 [H2 ?]. split; [by eapply silent_trans|done].
Qed.

Lemma sound_quietly {A} (failed : A → bool) (Q : A → Proc → Prop) R (m : M Proc A) s :
  quietly R m s → (∀ x s', R x s' → failed x = false ∧ Q x s') → sound failed Q m s.
Proof.
  intros Hm HQ. eapply ends_impl; [exact Hm|]. intros x s' [(? & ? & ?) HR].
  destruct (HQ x s' HR) as [-> ?]. by split_and!.
Qed.

(** Giving memory back: no block appears or changes. *)
Definition gives_back (m : M Proc unit) (s : Proc) : Prop := quietly (λ _ s', heap s' ⊆ heap s) m s.

Lemma gives_back_bind (m k : M Proc unit) s :
  gives_back m s → (∀ s', cwf s' → gives_back k s') → gives_back (run! m in k) s.
Proof.
  intros Hm Hk. eapply quietly_bind; [exact Hm|]. intros u s1 H1 Hsub. cbv beta in Hsub.
  eapply ends_impl; [by apply Hk|]. intros u2 s2 [? ?]. split; [done|]. by etrans.
Qed.

Lemma gives_back_each {B} (f : B → M Proc unit) l s :
  (∀ x s', cwf s' → gives_back (f x) s') → cwf s → gives_back (each f l) s.
Proof.
  intros Hf. revert s. induction l as [|x l IH]; intros s Hs; simpl.
  { split; [by apply silent_refl|done]. }
  apply gives_back_bind; [by apply Hf|]. apply IH.
Qed.

(** Steps that may refuse: what holds of an answer, when there is one. *)
Definition tries {B} (R : B → Proc → Prop) : M Proc (F4KvsResult + B) → Proc → Prop :=
  sound (λ x, if x is inl _ then true else false)
    (λ x s', match x with inl e => failing e = true | inr y => R y s' end).

Lemma sound_bind {A B} (failed : A → bool) (Q : A → Proc → Prop) R
    (m : M Proc (F4KvsResult + B)) (k : F4KvsResult + B → M Proc A) (onerr : F4KvsResult → A) s :
  tries R m s → (∀ e, k (inl e) = mret (onerr e)) →
  (∀ e s', failing e = true → failed (onerr e) = true ∧ Q (onerr e) s') →
  (∀ y s', cwf s' → R y s' → sound failed Q (k (inr y)) s') → sound failed Q (bind m k) s.
Proof.
  intros Hm Hk Hf Hy. eapply ends_bind; [exact Hm|]. intros [e|y] s' (Hs & Hk' & Ht & HR).
  - rewrite Hk. destruct (Hf e s' HR) as [Hfe HQ]. simpl. by rewrite Hfe.
  - by apply (sound_after _ _ _ s s'), Hy.
Qed.

(** Some clean up before they return the failure. *)
Lemma sound_bind_cleanup {A B} (failed : A → bool) (Q : A → Proc → Prop) R
    (m : M Proc (F4KvsResult + B)) (k : F4KvsResult + B → M Proc A) (clean : M Proc unit)
    (onerr : F4KvsResult → A) s :
  tries R m s → (∀ e s', k (inl e) s' = (run! clean in mret (onerr e)) s') →
  (∀ s', cwf s' → gives_back clean s') →
  (∀ e s', failing e = true → failed (onerr e) = true ∧ Q (onerr e) s') →
  (∀ y s', cwf s' → R y s' → sound failed Q (k (inr y)) s') → sound failed Q (bind m k) s.
Proof.
  intros Hm Hk Hc Hf Hy. eapply ends_bind; [exact Hm|]. intros [e|y] s' (Hs & Hk' & Ht & HR).
  - rewrite Hk. eapply ends_bind; [by apply Hc|].
    intros _ s2 [(Hs2 & Hk2 & Ht2 & He2) _]. destruct (Hf e s2 HR) as [Hfe HQ].
    unfold mret, ends, told. rewrite Hfe. destruct Ht as [Ht He].
    split_and!; [done|by etrans|congruence| |done]. by rewrite He2.
  - by apply (sound_after _ _ _ s s'), Hy.
Qed.

(** Checks of arguments change nothing when they accept. *)
Definition checks {B} (R : B → Prop) (m : M Proc (F4KvsResult + B)) (s : Proc) : Prop :=
  tries (λ y s', s' = s ∧ R y) m s.

Lemma checks_refuse {B} (R : B → Prop) msg s :
  cwf s → msg ≠ "" → checks R (run! set_last_error msg in mret (inl ErrorInvalidArgument)) s.
Proof. intros. by apply sound_fail. Qed.

Lemma checks_accept {B} (R : B → Prop) x s : cwf s → R x → checks R (mret (inr x)) s.
Proof. intros. by apply sound_ret. Qed.

Lemma checks_bind {B C} (R : B → Prop) (R' : C → Prop) (m : M Proc (F4KvsResult + B))
    (k : F4KvsResult + B → M Proc (F4KvsResult + C)) s :
  cwf s → checks R m s → (∀ e, k (inl e) = mret (inl e)) →
  (∀ y, R y → checks R' (k (inr y)) s) → checks R' (bind m k) s.
Proof.
  intros Hs Hm Hk Hy. eapply (sound_bind _ _ _ _ _ inl); [exact Hm|done|done|].
  intros y s' _ [-> HR]. by apply Hy.
Qed.

(** A check followed by the rest of a call. *)
Lemma sound_check {A B} (failed : A → bool) (Q : A → Proc → Prop) R
    (m : M Proc (F4KvsResult + B)) (k : F4KvsResult + B → M Proc A) (onerr : F4KvsResult → A) s :
  cwf s → checks R m s → (∀ e, k (inl e) = mret (onerr e)) →
  (∀ e s', failing e = true → failed (onerr e) = true ∧ Q (onerr e) s') →
  (∀ y, R y → sound failed Q (k (inr y)) s) → sound failed Q (bind m k) s.
Proof.
  intros Hs Hm Hk Hf Hy. eapply sound_bind; [exact Hm|done|done|].
  intros y s' _ [-> HR]. by apply Hy.
Qed.

Lemma validate_engine_checks s a :
  cwf s → a = 0 ∨ is_engine (heap s) a →
  checks (λ g, heap s !! a = Some (BEngine g)) (validate_engine a) s.
Proof.
  intros Hs [->|[g Hg]]; [by apply checks_refuse|].
  unfold checks, tries, sound. assert (a ≠ 0) by (apply cwf_low in Hg; [lia|done]).
  rewrite (validate_engine_live _ _ _ H Hg). 
  by apply (checks_accept (λ g, heap s !! a = Some (BEngine g))).
Qed.

(** A C string argument: null or terminated memory. *)
Definition is_text (h : gmap Z block) (a : Z) : Prop :=
  ∃ l r, (h !! a = Some (BMalloc l) ∨ h !! a = Some (BCString l)) ∧ until_nul l = Some r.

Definition text_arg (h : gmap Z block) (a : Z) : Prop := a = 0 ∨ is_text h a.

Lemma validate_c_string_checks s a max field :
  cwf s → text_arg (heap s) a → checks (λ _, True) (validate_c_string a max field) s.
Proof.
  intros Hs Ha. unfold validate_c_string. destruct (Z.eqb_spec a 0) as [->|H0].
  { apply checks_refuse; [done|]. by repeat case_bool_decide. }
  destruct Ha as [|(l & r & Hl & Hr)]; [done|].
  assert (read_c_str a s = Ret r s) as Hread.
  { unfold read_c_str. destruct Hl as [-> | ->]; by rewrite Hr. }
  unfold checks, tries, sound. rewrite (bind_ret _ _ _ _ _ Hread).
  case_match; [by apply (checks_refuse (λ _ : string, True))|]. destruct (from_utf8 r).
  - by apply (checks_refuse (λ _ : string, True)).
  - by apply (checks_accept (λ _ : string, True)).
Qed.

(** A buffer argument: null, empty or readable. *)
Definition buf_arg (s : Proc) (p : bufptr) (len : Z) : Prop :=
  0 ≤ len ∧ (len = 0 ∨ is_null p = true ∨ ∃ l, read_buf p len s = Ret l s).

Lemma key_from_raw_checks s p len field :
  cwf s → buf_arg s p len → checks (λ _, True) (key_from_raw p len field) s.
Proof.
  intros Hs Hp. unfold key_from_raw.
  destruct (Z.eqb_spec len 0) as [->|H0]; [by apply checks_accept|].
  destruct (is_null p) eqn:Hn; [by apply checks_refuse|].
  destruct Hp as [_ [|[|[l Hl]]]]; [congruence..|]. unfold checks, tries, sound.
  rewrite (bind_ret _ _ _ _ _ Hl). unfold key_from_bytes.
  case_match; [by apply (checks_refuse (λ _ : string, True))|]. destruct (from_utf8 l).
  - by apply (checks_refuse (λ _ : string, True)).
  - by apply (checks_accept (λ _ : string, True)).
Qed.

(** *** The arrays of a batch *)

(** Element [i] of the array is there and satisfies [R]. *)
Definition elem_ok (arr : option (list Z)) (i : nat) (R : Z → Prop) : Prop :=
  ∃ z, arr ≫= (.!! i) = Some z ∧ R z.

Lemma elem_at_ok arr i R s :
  elem_ok arr i R → ∃ z, elem_at arr i s = Ret z s ∧ R z.
Proof. intros (z & Hz & HR). exists z. unfold elem_at. by rewrite Hz. Qed.

(** Row [i] of the arrays of [f4kvs_engine_batch_put_bytes]. *)
Definition item_arg (s : Proc) (keys values lens : option (list Z)) (i : nat) : Prop :=
  elem_ok keys i (text_arg (heap s)) ∧
  elem_ok lens i (λ n, elem_ok values i (λ p, buf_arg s (AtAddr p) n)).

(** Row [i] of the arrays with lengths. *)
Definition key_arg_kv (s : Proc) (keys key_lens : option (list Z)) (i : nat) : Prop :=
  elem_ok key_lens i (λ n, elem_ok keys i (λ p, buf_arg s (AtAddr p) n)).
Definition item_arg_kv (s : Proc) (keys key_lens values lens : option (list Z)) (i : nat) : Prop :=
  key_arg_kv s keys key_lens i ∧
  elem_ok lens i (λ n, elem_ok values i (λ p, buf_arg s (AtAddr p) n)).

(** [n] rows from [i] on. *)
Definition rows_ok (R : nat → Prop) (i n : nat) : Prop := ∀ j, (i ≤ j < i + n)%nat → R j.

Lemma rows_ok_S (R : nat → Prop) i n : rows_ok R i (S n) → R i ∧ rows_ok R (S i) n.
Proof. intros H. split; [|intros j Hj]; apply H; lia. Qed.

Lemma checks_elem {B} (R : B → Prop) (R' : Z → Prop) arr i (k : Z → M Proc (F4KvsResult + B)) s :
  elem_ok arr i R' → (∀ z, R' z → checks R (k z) s) → checks R (bind (elem_at arr i) k) s.
Proof.
  intros Hz Hk. apply (elem_at_ok _ _ _ s) in Hz as (z & Hz & HR).
  unfold checks, tries, sound. rewrite (bind_ret _ _ _ _ _ Hz). by apply Hk.
Qed.

Lemma checks_buf {B} (R : B → Prop) p n (k : list byte → M Proc (F4KvsResult + B)) s :
  buf_arg s p n → (0 <? n) && is_null p = false → (∀ l, checks R (k l) s) →
  checks R (bind (if n =? 0 then mret [] else read_buf p n) k) s.
Proof.
  intros [H0 Hp] Hn Hk. destruct (Z.eqb_spec n 0) as [->|Hne]; [apply Hk|].
  rewrite (proj2 (Z.ltb_lt 0 n)) in Hn by lia. simpl in Hn.
  destruct Hp as [|[|[l Hl]]]; [lia|congruence|].
  unfold checks, tries, sound. rewrite (bind_ret _ _ _ _ _ Hl). apply Hk.
Qed.

Lemma collect_items_checks s keys values lens n i items :
  cwf s → rows_ok (item_arg s keys values lens) i n →
  checks (λ _, True) (collect_items keys values lens i n items) s.
Proof.
  intros Hs. revert i items. induction n as [|n IH]; intros i items Hr; simpl.
  { by apply checks_accept. }
  apply rows_ok_S in Hr as [[Hk Hv] Hr]. eapply checks_elem; [exact Hk|]. intros ck Hck.
  eapply checks_bind; [done|by apply validate_c_string_checks|done|]. intros key _. simpl.
  eapply checks_elem; [exact Hv|]. intros len Hlen. simpl.
  case_match; [by apply checks_refuse|].
  eapply checks_elem; [exact Hlen|]. intros p Hp. simpl.
  case_match eqn:Hnull; [by apply checks_refuse|].
  apply checks_buf; [done..|]. intros l. by apply IH.
Qed.

Lemma collect_keys_checks s keys n i acc :
  cwf s → rows_ok (λ j, elem_ok keys j (text_arg (heap s))) i n →
  checks (λ _, True) (collect_keys keys i n acc) s.
Proof.
  intros Hs. revert i acc. induction n as [|n IH]; intros i acc Hr; simpl.
  { by apply checks_accept. }
  apply rows_ok_S in Hr as [Hk Hr]. eapply checks_elem; [exact Hk|]. intros ck Hck.
  eapply checks_bind; [done|by apply validate_c_string_checks|done|]. intros key _. by apply IH.
Qed.

Lemma collect_items_kv_checks s keys key_lens values lens n i items :
  cwf s → rows_ok (item_arg_kv s keys key_lens values lens) i n →
  checks (λ _, True) (collect_items_kv keys key_lens values lens i n items) s.
Proof.
  intros Hs. revert i items. induction n as [|n IH]; intros i items Hr; simpl.
  { by apply checks_accept. }
  apply rows_ok_S in Hr as [[Hk Hv] Hr]. eapply checks_elem; [exact Hk|]. intros klen Hkl. simpl.
  eapply checks_elem; [exact Hkl|]. intros ck Hck. simpl.
  eapply checks_bind; [done|by apply key_from_raw_checks|done|]. intros key _. simpl.
  eapply checks_elem; [exact Hv|]. intros len Hlen. simpl.
  case_match; [by apply checks_refuse|].
  eapply checks_elem; [exact Hlen|]. intros p Hp. simpl.
  case_match eqn:Hnull; [by apply checks_refuse|].
  apply checks_buf; [done..|]. intros l. by apply IH.
Qed.

Lemma collect_keys_kv_checks s keys key_lens n i acc :
  cwf s → rows_ok (key_arg_kv s keys key_lens) i n →
  checks (λ _, True) (collect_keys_kv keys key_lens i n acc) s.
Proof.
  intros Hs. revert i acc. induction n as [|n IH]; intros i acc Hr; simpl.
  { by apply checks_accept. }
  apply rows_ok_S in Hr as [(len & Hlen & z & Hz & Hb) Hr].
  eapply (checks_elem _ (λ z, buf_arg s (AtAddr z) len)); [by exists z|]. intros ck Hck.
  eapply (checks_elem _ (λ n, n = len)); [by exists len|]. intros ? ->.
  eapply checks_bind; [done|by apply key_from_raw_checks|done|]. intros key _. by apply IH.
Qed.

(** *** Memory and the engine *)

Lemma silent_engine a g g' d s :
  cwf s → heap s !! a = Some (BEngine g) → silent s (with_engine a g' d s).
Proof.
  intros [Hl Hs Hb] Ha. unfold silent. split_and!.
  - split; simpl.
    + intros x b. rewrite lookup_insert. case_decide; naive_solver.
    + intros x Hx. destruct (Hs x Hx) as [l ?]. exists l. rewrite lookup_insert_ne; congruence.
    + intros x n Hn. destruct (Hb x n Hn) as [|(l & ? & ?)]; [by left|right]. exists l.
      by rewrite lookup_insert_ne by congruence.
  - split; simpl.
    + intros x [gx Hx]. unfold is_engine. rewrite lookup_insert. case_decide; eauto.
    + intros x. rewrite lookup_insert. case_decide; [|done]. split; congruence.
  - by split.
Qed.

Lemma quietly_engine {B} a (op : lsm → disk → B * (lsm * disk)) s :
  cwf s → is_engine (heap s) a → quietly (λ _ _, True) (engine_run a op) s.
Proof.
  intros Hs [g Hg]. unfold quietly, engine_run. rewrite Hg.
  destruct (op g (dsk s)) as [r [g' d']]. split; [|done].
  by apply (silent_engine a g g' d').
Qed.

Lemma quietly_op {B} a (op : LsmOp lsm disk B) s :
  cwf s → is_engine (heap s) a → quietly (λ _ _, True) (engine_op a op) s.
Proof. apply quietly_engine. Qed.

(** A new block, which the tables may list or not. *)
Lemma silent_alloc b s strs bytes :
  cwf s → b ≠ BCursor →
  let a := alloc_addr (heap s) in
  (∀ x, x ∈ strs → x ∈ string_allocations s ∨ x = a ∧ ∃ l, b = BCString l) →
  (∀ x n, bytes !! x = Some n → bytes_allocations s !! x = Some n ∨
     x = a ∧ ∃ l, b = BBoxed l ∧ zlen l = n) →
  silent s (set_bytes bytes (set_strings strs (set_heap (<[a := b]> (heap s)) s))).
Proof.
  intros [Hl Hs Hb] Hc a Hstr Hbyt. pose proof (alloc_fresh (heap s)) as Hf. fold a in Hf.
  unfold silent. split_and!.
  - split; simpl.
    + intros x bx. rewrite lookup_insert. case_decide; [|eauto].
      intros _. subst x. apply alloc_above.
    + intros x Hx. destruct (Hstr x Hx) as [Hin|[-> [l ->]]].
      * destruct (Hs x Hin) as [l ?]. exists l. rewrite lookup_insert_ne; congruence.
      * exists l. by rewrite lookup_insert_eq.
    + intros x n Hx. destruct (Hbyt x n Hx) as [Hin|[-> (l & -> & ?)]].
      * destruct (Hb x n Hin) as [|(l & ? & ?)]; [by left|right]. exists l.
        rewrite lookup_insert_ne; [done|congruence].
      * right. exists l. by rewrite lookup_insert_eq.
  - split; simpl.
    + intros x [g Hx]. exists g. rewrite lookup_insert_ne; [done|congruence].
    + intros x. rewrite lookup_insert. case_decide; [|done]. subst x. rewrite Hf. naive_solver.
  - by split.
Qed.

Lemma quietly_alloc b s : cwf s → b ≠ BCursor →
  quietly (λ a s', a ≠ 0 ∧ heap s' !! a = Some b) (alloc b) s.
Proof.
  intros Hs Hb. unfold quietly, alloc. simpl. split_and!.
  - apply (silent_alloc b s (string_allocations s) (bytes_allocations s)); auto.
  - pose proof (alloc_above (heap s)). lia.
  - by rewrite lookup_insert_eq.
Qed.

Lemma allocate_c_string_tries text s : cwf s → tries (λ _ _, True) (allocate_c_string text) s.
Proof.
  intros Hs. unfold allocate_c_string. case_match; [by apply sound_fail|].
  unfold tries, sound, bind, alloc, modify, mret, ends. 
  destruct (silent_alloc (BCString (String.list_byte_of_string text ++ [x00])) s
    ({[alloc_addr (heap s)]} ∪ string_allocations s) (bytes_allocations s)) as (? & ? & ?);
    [done|done| |auto|by unfold silent; split_and!].
  intros x [->%elem_of_singleton|]%elem_of_union; eauto.
Qed.

Lemma allocate_bytes_tries v s : cwf s → tries (λ _ _, True) (allocate_bytes v) s.
Proof.
  intros Hs. unfold allocate_bytes, tries, sound. destruct (Z.eqb_spec (zlen v) 0) as [H0|H0].
  - unfold bind, modify, mret, ends. rewrite H0. split_and!; [|by split|by split|done].
    destruct Hs as [Hl Hst Hb]. split; [done..|]. intros a n.
    unfold set_bytes. cbn [bytes_allocations heap]. rewrite lookup_insert. case_decide; naive_solver.
  - unfold bind, alloc, modify, mret, ends.
    destruct (silent_alloc (BBoxed v) s (string_allocations s)
      (<[alloc_addr (heap s) := zlen v]> (bytes_allocations s))) as (? & ? & ?);
      [done|done|auto| |by split_and!].
    intros x n. rewrite lookup_insert. case_decide; naive_solver.
Qed.

(** A library buffer goes, and with it its entry. *)
Lemma silent_free s a b strs bytes :
  cwf s → heap s !! a = Some b → b ≠ BCursor → (∀ g, b ≠ BEngine g) →
  (∀ x, x ∈ strs → x ∈ string_allocations s ∧ x ≠ a) →
  (∀ x n, bytes !! x = Some n → bytes_allocations s !! x = Some n ∧ x ≠ a) →
  silent s (set_bytes bytes (set_strings strs (set_heap (delete a (heap s)) s))).
Proof.
  intros [Hl Hs Hb] Ha Hc He Hstr Hbyt. unfold silent. split_and!.
  - split; simpl.
    + intros x bx. rewrite lookup_delete_Some. naive_solver.
    + intros x [Hin Hne]%Hstr. destruct (Hs x Hin) as [l ?]. exists l.
      by rewrite lookup_delete_ne.
    + intros x n [Hin Hne]%Hbyt. destruct (Hb x n Hin) as [|(l & ? & ?)]; [by left|right].
      exists l. by rewrite lookup_delete_ne.
  - split; simpl.
    + intros x [g Hx]. exists g. rewrite lookup_delete_ne; [done|]. intros <-.
      rewrite Ha in Hx. by apply (He g); simplify_eq.
    + intros x. rewrite lookup_delete_Some. naive_solver.
  - by split.
Qed.

Lemma string_free_quiet s a : cwf s → gives_back (f4kvs_string_free a) s.
Proof.
  intros Hs. unfold gives_back, quietly, f4kvs_string_free.
  case_match; [by split; [apply silent_refl|]|].
  case_bool_decide as Hin; [|by split; [apply silent_refl|]].
  destruct (cwf_strings s Hs a Hin) as [l Hl]. simpl. rewrite Hl. split; [|by apply delete_subseteq].
  pose proof (silent_free s a (BCString l) (string_allocations s ∖ {[a]}) (bytes_allocations s)) as Hfree.
  apply Hfree; [done..| |].
  - by intros x [? ?%not_elem_of_singleton]%elem_of_difference.
  - intros x n Hx. split; [done|]. intros ->.
    destruct (cwf_bytes s Hs a n Hx) as [[-> _]|(l' & ? & _)]; [|congruence].
    apply (cwf_low s Hs) in Hl. lia.
Qed.

Lemma bytes_free_quiet s a : cwf s → gives_back (f4kvs_bytes_free a) s.
Proof.
  intros Hs. unfold gives_back, quietly, f4kvs_bytes_free.
  case_match; [by split; [apply silent_refl|]|].
  destruct (bytes_allocations s !! a) as [n|] eqn:Hn; [|by split; [apply silent_refl|]].
  destruct (Z.eqb_spec n 0) as [->|Hn0].
  { split; [|done]. unfold silent. split_and!; [|by split|by split]. destruct Hs as [Hl Hst Hb].
    split; [done..|]. unfold set_bytes. cbn [bytes_allocations heap]. intros x m.
    rewrite lookup_delete_Some. naive_solver. }
  destruct (cwf_bytes s Hs a n Hn) as [[_ ?]|(l & Hl & Hlen)]; [done|].
  simpl. rewrite Hl, (proj2 (Z.eqb_eq _ _)) by done. split; [|by apply delete_subseteq].
  pose proof (silent_free s a (BBoxed l) (string_allocations s) (delete a (bytes_allocations s))) as Hfree.
  apply Hfree; [done..| |].
  - intros x Hx. split; [done|]. intros ->. destruct (cwf_strings s Hs a Hx). congruence.
  - intros x m. rewrite lookup_delete_Some. naive_solver.
Qed.


(** *** Engine calls and their reports *)

Lemma report_sound {A} (Q : F4KvsResult → Proc → Prop) what (r : string + A) s :
  cwf s → (∀ code s', Q code s') → sound failing Q (report what r) s.
Proof.
  intros Hs HQ. destruct r as [e|x]; [|by apply sound_ret].
  apply sound_fail; [done| |done..]. by destruct what.
Qed.

Lemma op_sound {A} (Q : F4KvsResult → Proc → Prop) what a (op : LsmOp lsm disk A) s :
  cwf s → is_engine (heap s) a → (∀ code s', Q code s') →
  sound failing Q (let! r := engine_op a op in report what r) s.
Proof.
  intros Hs Ha HQ. eapply sound_bind_silent; [by apply quietly_op|].
  intros r s' [Hs' _] _. by apply report_sound.
Qed.

Lemma reject_batch_count_sound (Q : F4KvsResult → Proc → Prop) g n (k : option F4KvsResult → M Proc F4KvsResult) s :
  cwf s → (∀ e, k (Some e) = mret e) → (∀ code s', Q code s') →
  (n ≤ max_batch_size (lsm_config g) → sound failing Q (k None) s) →
  sound failing Q (bind (reject_batch_count g n) k) s.
Proof.
  intros Hs Hk HQ Hn. unfold reject_batch_count.
  destruct (Z.ltb_spec (max_batch_size (lsm_config g)) n) as [Hlt|Hle].
  - unfold sound, bind, set_last_error, mret. rewrite Hk. by apply sound_failed.
  - by apply Hn.
Qed.

End Sound.

Create HintDb sound.
#[export] Hint Extern 1 (is_engine _ _) => eexists; eassumption : sound.
#[export] Hint Resolve validate_engine_checks validate_c_string_checks key_from_raw_checks
  collect_items_checks collect_keys_checks collect_items_kv_checks collect_keys_kv_checks : sound.
#[export] Hint Resolve silent_refl : sound.

(** The next check of a function. *)
Ltac check :=
  eapply sound_check;
    [eassumption | by eauto with sound | done | naive_solver |
     let H := fresh "Hc" in intros ? H; cbv beta in H; cbn beta iota].
