(* ===== verification/Calls.v ===== *)
(** * The functions of the C ABI keep their contract

    Each exported function of [lib.rs] that works on the process alone is [sound]:
    with arguments as its safety comment asks for, it ends in a well-formed
    process, reports its failures, and a result it fills can be freed. *)

From S2P Require Import Prelude Engine EngineScan Utf8 Options Ffi Cabi FfiFacts Sound.

(** Functions with an out pointer answer a code and what the pointer holds after. *)
Abbreviation failing1 := (λ r, failing r.1).

Create HintDb call.

Section Functions.
Context `{L : LsmEngine} {SC : LsmScan L} {P : Platform} {POk : PlatformOk P}.
Implicit Types (s : Proc) (a : Z) (g : lsm).

Definition engine_arg (h : gmap Z block) (a : Z) : Prop := a = 0 ∨ is_engine h a.

Abbreviation coded := (sound failing (λ _ _, True)).

Lemma simple_op_sound what op a s :
  cwf s → engine_arg (heap s) a → coded (simple_op what op a) s.
Proof. intros Hs Ha. check. apply op_sound; by eauto with sound. Qed.

Lemma set_bulk_import_sound a on s :
  cwf s → engine_arg (heap s) a → coded (f4kvs_engine_set_bulk_import a on) s.
Proof.
  intros Hs Ha. check. unfold sound, bind, modify, mret, ends.
  destruct (silent_engine a y (lsm_set_bulk_import (bool_decide (on ≠ 0)) y) (dsk s) s)
    as (? & ? & ?); [done..|]. by split_and!.
Qed.

(** ** Opening *)

Definition handled : Z → Proc → Prop := λ a s', a = 0 ∨ is_engine (heap s') a.
Abbreviation opens := (sound (λ a, a =? 0) handled).

Lemma silent_disk d n s : cwf s → silent s (set_counter n (set_disk d s)).
Proof. intros [Hl Hs Hb]. unfold silent. split_and!; by split. Qed.

Lemma box_engine_sound what dir o s :
  what ≠ "" → cwf s → opens (let! r := open_lsm_engine dir o in box_engine what r) s.
Proof.
  intros Hw Hs. unfold sound, bind, open_lsm_engine, box_engine.
  destruct (lsm_new _ _) as [[e|g] d'].
  - unfold set_last_error, bind, mret, ends. destruct Hs as [Hl Hst Hb].
    split_and!; [by split|by split| |by left]. split; [done|]. simpl. eexists.
    split; [|apply insert_insert_eq]. apply escape_nul_nonempty. by destruct what.
  - assert (silent s (set_disk d' s)) as Hd by exact (silent_disk d' (engine_counter s) s Hs).
    apply (sound_after _ _ _ s (set_disk d' s) Hd). destruct Hd as [Hs' _].
    eapply sound_quietly; [by apply quietly_alloc|]. intros a s2 [Ha0 Hh].
    split; [by apply Z.eqb_neq|right; by exists g].
Qed.

Lemma engine_new_sound s : cwf s → opens f4kvs_engine_new s.
Proof.
  intros Hs. unfold f4kvs_engine_new. eapply (sound_bind_silent _ _ _ _ _ (λ _ _, True)).
  - unfold unique_data_dir. split; [|done].
    apply (silent_disk (dsk s) (to_uint64 (engine_counter s + 1)) s Hs).
  - intros dir s' [Hs' _] _. by apply box_engine_sound.
Qed.

Lemma validate_data_dir_checks p s :
  cwf s → text_arg (heap s) p → checks (λ _, True) (validate_data_dir p) s.
Proof.
  intros Hs Hp. unfold validate_data_dir. destruct (Z.eqb_spec p 0) as [->|H0].
  { by apply checks_refuse. }
  destruct Hp as [|(l & r & Hl & Hr)]; [done|].
  assert (read_c_str p s = Ret r s) as Hread.
  { unfold read_c_str. destruct Hl as [-> | ->]; by rewrite Hr. }
  unfold checks, tries, sound. rewrite (bind_ret _ _ _ _ _ Hread).
  destruct (from_utf8 r) as [|path]; [by apply (checks_refuse (λ _ : string, True))|].
  case_bool_decide; [by apply (checks_refuse (λ _ : string, True))|].
  by apply (checks_accept (λ _ : string, True)).
Qed.

Lemma engine_open_sound p s : cwf s → text_arg (heap s) p → opens (f4kvs_engine_open p) s.
Proof.
  intros Hs Hp. eapply (sound_check _ _ _ _ _ (λ _, 0));
    [done|by apply validate_data_dir_checks|done|by split; [|left]|].
  intros path _. by apply box_engine_sound.
Qed.

Lemma engine_open_ex_sound p o s :
  cwf s → text_arg (heap s) p → read_open_options o ≠ None → opens (f4kvs_engine_open_ex p o) s.
Proof.
  intros Hs Hp Ho. eapply (sound_check _ _ _ _ _ (λ _, 0));
    [done|by apply validate_data_dir_checks|done|by split; [|left]|].
  intros path _. simpl. destruct (read_open_options o); [|done]. by apply box_engine_sound.
Qed.

(** ** Writing *)

Lemma engine_put_sound a k v s :
  cwf s → engine_arg (heap s) a → text_arg (heap s) k → text_arg (heap s) v →
  coded (f4kvs_engine_put a k v) s.
Proof. intros. do 3 check. apply op_sound; by eauto with sound. Qed.

(** The value of a single write. *)
Lemma put_value_sound what msg what' a p n (op : list byte → LsmOp lsm disk unit) s :
  cwf s → is_engine (heap s) a → buf_arg s p n → msg ≠ "" → what' ≠ "" →
  coded (if MAX_VALUE_LENGTH <? n then run! set_last_error msg in mret ErrorInvalidArgument
         else if (0 <? n) && is_null p then
           run! set_last_error what' in mret ErrorInvalidArgument
         else let! bytes := (if n =? 0 then mret [] else read_buf p n) in
              let! r := engine_op a (op bytes) in report what r) s.
Proof.
  intros Hs Ha [H0 Hp] ? ?. case_match; [by apply sound_fail|].
  case_match eqn:Hnull; [by apply sound_fail|].
  unfold sound. destruct (Z.eqb_spec n 0) as [->|Hne].
  { rewrite (bind_ret _ _ s [] s) by done. by apply op_sound. }
  rewrite (proj2 (Z.ltb_lt 0 n)) in Hnull by lia. simpl in Hnull.
  destruct Hp as [|[|[l Hl]]]; [lia|congruence|].
  rewrite (bind_ret _ _ _ _ _ Hl). by apply op_sound.
Qed.

Lemma put_bytes_sound a k p n s :
  cwf s → engine_arg (heap s) a → text_arg (heap s) k → buf_arg s p n →
  coded (f4kvs_engine_put_bytes a k p n) s.
Proof. intros. do 2 check. apply put_value_sound; by eauto with sound. Qed.

Lemma put_kv_sound a k kn p n s :
  cwf s → engine_arg (heap s) a → buf_arg s k kn → buf_arg s p n →
  coded (f4kvs_engine_put_kv a k kn p n) s.
Proof. intros. do 2 check. apply put_value_sound; by eauto with sound. Qed.

Lemma delete_sound a k s :
  cwf s → engine_arg (heap s) a → text_arg (heap s) k → coded (f4kvs_engine_delete a k) s.
Proof. intros. do 2 check. apply op_sound; by eauto with sound. Qed.

Lemma delete_kv_sound a k n s :
  cwf s → engine_arg (heap s) a → buf_arg s k n → coded (f4kvs_engine_delete_kv a k n) s.
Proof. intros. do 2 check. apply op_sound; by eauto with sound. Qed.

(** ** Batches *)

(** The rows a batch of [count] reads, should its arrays be there. *)
Definition batch_arg (R : nat → Prop) (count : Z) : Prop := rows_ok R 0 (Z.to_nat count).

Ltac batch :=
  check; apply reject_batch_count_sound; [done|done|done|intros _];
  case_match; [by apply sound_fail|].

Lemma batch_put_bytes_sound a keys values lens count s :
  cwf s → engine_arg (heap s) a → batch_arg (item_arg s keys values lens) count →
  coded (f4kvs_engine_batch_put_bytes a keys values lens count) s.
Proof. intros. batch. check. apply op_sound; by eauto with sound. Qed.

Lemma batch_delete_sound a keys count s :
  cwf s → engine_arg (heap s) a → batch_arg (λ i, elem_ok keys i (text_arg (heap s))) count →
  coded (f4kvs_engine_batch_delete a keys count) s.
Proof. intros. batch. check. apply op_sound; by eauto with sound. Qed.

Lemma batch_put_kv_sound a keys key_lens values lens count s :
  cwf s → engine_arg (heap s) a → batch_arg (item_arg_kv s keys key_lens values lens) count →
  coded (f4kvs_engine_batch_put_kv a keys key_lens values lens count) s.
Proof. intros. batch. check. apply op_sound; by eauto with sound. Qed.

Lemma batch_delete_kv_sound a keys key_lens count s :
  cwf s → engine_arg (heap s) a → batch_arg (key_arg_kv s keys key_lens) count →
  coded (f4kvs_engine_batch_delete_kv a keys key_lens count) s.
Proof. intros. batch. check. apply op_sound; by eauto with sound. Qed.

(** ** Reading *)

Abbreviation answered := (sound failing1 (λ _ _, True)).

Ltac check_out out :=
  eapply (sound_check _ _ _ _ _ (λ e, (e, out)));
    [eassumption | by eauto with sound | done | done |
     let H := fresh "Hc" in intros ? H; cbv beta in H; cbn beta iota].

(** The answer of an engine, and the text of its failure. *)
Lemma asked_sound {A B} (Q : F4KvsResult * B → Proc → Prop) a (op : lsm → disk → (string + A) * (lsm * disk))
    what (out : B) (k : A → M Proc (F4KvsResult * B)) s :
  cwf s → is_engine (heap s) a → what ≠ "" → (∀ s', Q (ErrorStorage, out) s') →
  (∀ x s', cwf s' → sound failing1 Q (k x) s') →
  sound failing1 Q
    (let! r := engine_run a op in
     match r with
     | inr x => k x
     | inl e => run! set_last_error (what +:+ e) in mret (ErrorStorage, out)
     end) s.
Proof.
  intros Hs Ha Hw HQ Hk. eapply sound_bind_silent; [by apply quietly_engine|].
  intros [e|x] s' [Hs' _] _; [|by apply Hk]. apply sound_fail; [done| |done..]. by destruct what.
Qed.

Lemma get_sound a k out s :
  cwf s → engine_arg (heap s) a → text_arg (heap s) k → answered (f4kvs_engine_get a k out) s.
Proof.
  intros Hs Ha Hk. destruct out as [out|]; [|by apply sound_fail]. simpl.
  check_out (Some out). check_out (Some out).
  eapply sound_bind_silent; [apply quietly_op; by eauto with sound|].
  intros [e|[v|]] s' [Hs' _] _; [by apply sound_fail| |by apply sound_ret].
  eapply (sound_bind _ _ _ _ _ (λ e, (e, Some out))); [by apply allocate_c_string_tries|done|done|].
  intros p s2 ? _. by apply sound_ret.
Qed.

Lemma give_bytes_sound v outs s :
  cwf s →
  answered (let! r := allocate_bytes v in
            match r with
            | inr (ptr, allocated_len) => mret (Success, Some (ptr, allocated_len))
            | inl e => mret (e, outs)
            end) s.
Proof.
  intros Hs. eapply (sound_bind _ _ _ _ _ (λ e, (e, outs)));
    [by apply allocate_bytes_tries|done|done|].
  intros [p n] s2 ? _. by apply sound_ret.
Qed.

Lemma get_bytes_sound a k outs s :
  cwf s → engine_arg (heap s) a → text_arg (heap s) k → answered (f4kvs_engine_get_bytes a k outs) s.
Proof.
  intros Hs Ha Hk. destruct outs as [o|]; [|by apply sound_fail]. simpl.
  check_out (Some o). check_out (Some o).
  eapply sound_bind_silent; [apply quietly_op; by eauto with sound|].
  intros [e|[v|]] s' [Hs' _] _; [by apply sound_fail| |by apply sound_ret].
  by apply give_bytes_sound.
Qed.

Lemma get_kv_sound a k n outs s :
  cwf s → engine_arg (heap s) a → buf_arg s k n → answered (f4kvs_engine_get_kv a k n outs) s.
Proof.
  intros Hs Ha Hk. destruct outs as [o|]; [|by apply sound_fail]. simpl.
  check_out (Some o). check_out (Some o).
  eapply sound_bind_silent; [apply quietly_engine; by eauto with sound|].
  intros [e|[v|]] s' [Hs' _] _; [by apply sound_fail| |by apply sound_ret].
  by apply give_bytes_sound.
Qed.

Lemma exists_sound a k out s :
  cwf s → engine_arg (heap s) a → text_arg (heap s) k → answered (f4kvs_engine_exists a k out) s.
Proof.
  intros Hs Ha Hk. destruct out as [o|]; [|by apply sound_fail]. simpl.
  check_out (Some o). check_out (Some o).
  eapply sound_bind_silent; [apply quietly_op; by eauto with sound|].
  intros [e|v] s' [Hs' _] _; [by apply sound_fail|by apply sound_ret].
Qed.

(** ** Scans *)

(** What the function that frees a result relies on. *)
Definition keys_ok (r : F4KvsKeyScanResult) (s : Proc) : Prop :=
  ks_keys r = 0 ∨ ∃ l, heap s !! ks_keys r = Some (BKeys l) ∧ zlen l = ks_count r.
Definition scan_ok (r : F4KvsScanResult) (s : Proc) : Prop :=
  sr_pairs r = 0 ∨ ∃ l, heap s !! sr_pairs r = Some (BPairs l) ∧ zlen l = sr_count r.
Definition scan_kv_ok (r : F4KvsScanResultKv) (s : Proc) : Prop :=
  srk_pairs r = 0 ∨ ∃ l, heap s !! srk_pairs r = Some (BPairsKv l) ∧ zlen l = srk_count r.

(** A successful call left a result that can be freed. *)
Definition filled {A} (ok : A → Proc → Prop) (r : F4KvsResult * A) (s : Proc) : Prop :=
  r.1 = Success → ok r.2 s.

Lemma zlen_snoc {A} (l : list A) x : zlen (l ++ [x]) = zlen l + 1.
Proof. unfold zlen. rewrite length_app. simpl. lia. Qed.

Lemma zlen_cons {A} (l : list A) x : zlen (x :: l) = 1 + zlen l.
Proof. unfold zlen. simpl. lia. Qed.

Lemma allocate_keys_tries keys ptrs s :
  cwf s → tries (λ l _, zlen l = zlen ptrs + zlen keys) (allocate_keys keys ptrs) s.
Proof.
  revert ptrs s. induction keys as [|key keys IH]; intros ptrs s Hs; simpl.
  { apply sound_ret; [done..|]. unfold zlen. simpl. lia. }
  eapply (sound_bind_cleanup _ _ _ _ _ _ inl); [by apply allocate_c_string_tries|done| |done|].
  { intros s' Hs'. apply gives_back_each; [|done]. intros. by apply string_free_quiet. }
  intros p s' Hs' _. simpl. rewrite zlen_cons. 
  replace (zlen ptrs + (1 + zlen keys)) with (zlen (ptrs ++ [p]) + zlen keys) by (rewrite zlen_snoc; lia).
  by apply IH.
Qed.

Lemma free_pair_quiet p s : cwf s → gives_back (free_pair p) s.
Proof.
  intros Hs. apply gives_back_bind; [by apply string_free_quiet|]. intros. by apply bytes_free_quiet.
Qed.

Lemma free_pair_kv_quiet p s : cwf s → gives_back (free_pair_kv p) s.
Proof.
  intros Hs. apply gives_back_bind; [by apply bytes_free_quiet|]. intros. by apply bytes_free_quiet.
Qed.

Lemma free_pairs_quiet ps s : cwf s → gives_back (each free_pair ps) s.
Proof. apply gives_back_each. intros. by apply free_pair_quiet. Qed.

Lemma free_pairs_kv_quiet ps s : cwf s → gives_back (each free_pair_kv ps) s.
Proof. apply gives_back_each. intros. by apply free_pair_kv_quiet. Qed.

Lemma fill_pairs_tries items ps s :
  cwf s → tries (λ l _, zlen l = zlen ps + zlen items) (fill_pairs items ps) s.
Proof.
  revert ps s. induction items as [|[key v] items IH]; intros ps s Hs; simpl.
  { apply sound_ret; [done..|]. unfold zlen. simpl. lia. }
  eapply (sound_bind_cleanup _ _ _ _ _ _ inl); [by apply allocate_c_string_tries|done| |done|].
  { intros. by apply free_pairs_quiet. }
  intros p s' Hs' _. simpl.
  eapply (sound_bind_cleanup _ _ _ _ _ (run! f4kvs_string_free p in each free_pair ps) inl);
    [by apply allocate_bytes_tries| |  |done|].
  { intros e s2. by rewrite bind_assoc. }
  { intros. apply gives_back_bind; [by apply string_free_quiet|]. intros. by apply free_pairs_quiet. }
  intros [q n] s2 Hs2 _. rewrite zlen_cons.
  set (l := ps ++ _). replace (zlen ps + (1 + zlen items)) with (zlen l + zlen items)
    by (subst l; rewrite zlen_snoc; lia).
  by apply IH.
Qed.

Lemma fill_pairs_kv_tries items ps s :
  cwf s → tries (λ l _, zlen l = zlen ps + zlen items) (fill_pairs_kv items ps) s.
Proof.
  revert ps s. induction items as [|[key v] items IH]; intros ps s Hs; simpl.
  { apply sound_ret; [done..|]. unfold zlen. simpl. lia. }
  eapply (sound_bind_cleanup _ _ _ _ _ _ inl); [by apply allocate_bytes_tries|done| |done|].
  { intros. by apply free_pairs_kv_quiet. }
  intros [p m] s' Hs' _. simpl.
  eapply (sound_bind_cleanup _ _ _ _ _ (run! f4kvs_bytes_free p in each free_pair_kv ps) inl);
    [by apply allocate_bytes_tries| |  |done|].
  { intros e s2. by rewrite bind_assoc. }
  { intros. apply gives_back_bind; [by apply bytes_free_quiet|]. intros. by apply free_pairs_kv_quiet. }
  intros [q n] s2 Hs2 _. rewrite zlen_cons.
  set (l := ps ++ _). replace (zlen ps + (1 + zlen items)) with (zlen l + zlen items)
    by (subst l; rewrite zlen_snoc; lia).
  by apply IH.
Qed.

(** The three results with an array: fill it, box it. *)
Lemma box_result_sound {A B C} (fill : M Proc (F4KvsResult + list B)) (b : list B → block)
    (ok : C → Proc → Prop) (res : Z → Z → C) (items : list A) (out : C) s :
  cwf s → tries (λ l _, zlen l = zlen items) fill s → (∀ l, b l ≠ BCursor) →
  (∀ s', ok (res 0 0) s') →
  (∀ p l s', heap s' !! p = Some (b l) → ok (res p (zlen l)) s') →
  sound failing1 (filled ok)
    (if zlen items =? 0 then mret (Success, res 0 0)
     else let! l := fill in
          match l with
          | inl e => mret (e, out)
          | inr l => let! p := alloc (b l) in mret (Success, res p (zlen items))
          end) s.
Proof.
  intros Hs Hfill Hb H0 Hok. destruct (Z.eqb_spec (zlen items) 0).
  { apply sound_ret; [done..|]. intros _. apply H0. }
  eapply (sound_bind _ _ _ _ _ (λ e, (e, out))); [exact Hfill|done| |].
  { intros e s2 He. split; [done|]. intros Hok1. simpl in Hok1. by subst e. }
  intros l s' Hs' Hl. cbn beta iota. eapply sound_bind_silent; [by apply quietly_alloc|].
  intros p s2 [Hs2 _] [_ Hp]. apply sound_ret; [done..|]. intros _. simpl. rewrite <-Hl. by apply Hok.
Qed.

Lemma fill_scan_result_sound items out s :
  cwf s → sound failing1 (filled scan_ok) (fill_scan_result items out) s.
Proof.
  intros Hs. apply (box_result_sound (fill_pairs items []) BPairs scan_ok mkScan); [done| |done|by left|].
  - by apply fill_pairs_tries.
  - intros p l s' Hp. right. by exists l.
Qed.

Lemma fill_scan_result_kv_sound items out s :
  cwf s → sound failing1 (filled scan_kv_ok) (fill_scan_result_kv items out) s.
Proof.
  intros Hs. apply (box_result_sound (fill_pairs_kv items []) BPairsKv scan_kv_ok mkScanKv);
    [done| |done|by left|].
  - by apply fill_pairs_kv_tries.
  - intros p l s' Hp. right. by exists l.
Qed.

Lemma fill_keys_sound keys out s :
  cwf s →
  sound failing1 (filled keys_ok)
    (if zlen keys =? 0 then mret (Success, mkKeyScan 0 0)
     else let! ptrs := allocate_keys keys [] in
          match ptrs with
          | inl e => mret (e, out)
          | inr ptrs => let! ptr := alloc (BKeys ptrs) in mret (Success, mkKeyScan ptr (zlen keys))
          end) s.
Proof.
  intros Hs. apply (box_result_sound (allocate_keys keys []) BKeys keys_ok mkKeyScan);
    [done| |done|by left|].
  - by apply allocate_keys_tries.
  - intros p l s' Hp. right. by exists l.
Qed.

(** *** Giving results back *)

Definition is_array (b : block) : Prop :=
  match b with BKeys _ | BPairs _ | BPairsKv _ => True | _ => False end.

Lemma drop_array_back (m : M Proc unit) p b s :
  cwf s → heap s !! p = Some b → is_array b → gives_back m s →
  gives_back (run! m in modify (λ s, set_heap (delete p (heap s)) s)) s.
Proof.
  intros Hs Hp Hb Hm. eapply quietly_bind; [exact Hm|]. intros u s1 Hs1 Hsub. cbv beta in Hsub.
  split; [|simpl; etrans; [apply delete_subseteq|done]].
  assert (heap s1 !! p = None ∨ heap s1 !! p = Some b) as [Hn|Hn].
  { destruct (heap s1 !! p) eqn:E; [right|by left]. eapply lookup_weaken in E; [|done]. congruence. }
  - rewrite delete_id by done. by apply silent_refl.
  - pose proof (silent_free s1 p b (string_allocations s1) (bytes_allocations s1)) as Hfree.
    apply Hfree; [done|done|by intros ->|by intros g ->| |].
    + intros x Hx. split; [done|]. intros ->. destruct (cwf_strings s1 Hs1 p Hx) as [l Hl].
      rewrite Hn in Hl. by simplify_eq.
    + intros x n Hx. split; [done|]. intros ->.
      destruct (cwf_bytes s1 Hs1 p n Hx) as [[-> _]|(l & Hl & _)].
      * apply (cwf_low s1 Hs1) in Hn. lia.
      * rewrite Hn in Hl. by simplify_eq.
Qed.

(** Functions without a result code report nothing. *)
Abbreviation freed := (sound (λ _, false) (λ _ _, True)).

Lemma freed_back {A} (m : M Proc unit) (x : A) s : gives_back m s → freed (run! m in mret x) s.
Proof.
  intros Hm. eapply sound_bind_silent; [exact Hm|]. intros u s' [Hs' _] _. by apply sound_ret.
Qed.

Lemma gives_back_skip s : cwf s → gives_back (mret tt) s.
Proof. intros Hs. split; [by apply silent_refl|done]. Qed.

Lemma scan_result_free_sound r s :
  cwf s → (∀ x, r = Some x → scan_ok x s) → freed (f4kvs_scan_result_free r) s.
Proof.
  intros Hs Hr. destruct r as [x|]; [|by apply sound_ret]. apply freed_back.
  destruct (Hr x eq_refl) as [->|(l & Hl & Hn)]; [by apply gives_back_skip|].
  case_match; [|by apply gives_back_skip]. unfold gives_back, quietly, drop_pairs.
  rewrite Hl, (proj2 (Z.eqb_eq _ _)) by done.
  apply (drop_array_back _ _ (BPairs l)); [done..|]. by apply free_pairs_quiet.
Qed.

Lemma scan_result_kv_free_sound r s :
  cwf s → (∀ x, r = Some x → scan_kv_ok x s) → freed (f4kvs_scan_result_kv_free r) s.
Proof.
  intros Hs Hr. destruct r as [x|]; [|by apply sound_ret]. apply freed_back.
  destruct (Hr x eq_refl) as [->|(l & Hl & Hn)]; [by apply gives_back_skip|].
  case_match; [|by apply gives_back_skip]. unfold gives_back, quietly, drop_pairs_kv.
  rewrite Hl, (proj2 (Z.eqb_eq _ _)) by done.
  apply (drop_array_back _ _ (BPairsKv l)); [done..|]. by apply free_pairs_kv_quiet.
Qed.

Lemma key_scan_result_free_sound x s :
  cwf s → keys_ok x s → freed (f4kvs_key_scan_result_free x) s.
Proof.
  intros Hs [H0|(l & Hl & Hn)]; unfold f4kvs_key_scan_result_free.
  { rewrite H0. by apply sound_ret. }
  case_match; [|by apply sound_ret]. unfold sound. rewrite (bind_ret get _ s s s) by done.
  rewrite Hl, (proj2 (Z.eqb_eq _ _)) by done. rewrite <-bind_assoc. apply freed_back.
  apply (drop_array_back _ _ (BKeys l)); [done..|].
  apply gives_back_each; [|done]. intros. by apply string_free_quiet.
Qed.

(** *** The scans *)

(** A result structure behind a pointer. *)
Definition filled_opt {A} (ok : A → Proc → Prop) : F4KvsResult * option A → Proc → Prop :=
  filled (λ o s, ∃ x, o = Some x ∧ ok x s).

Lemma with_out_sound {A} (ok : A → Proc → Prop) out (k : A → M Proc (F4KvsResult * A)) s :
  cwf s → (∀ x, sound failing1 (filled ok) (k x) s) →
  sound failing1 (filled_opt ok) (with_out out k) s.
Proof.
  intros Hs Hk. destruct out as [x|]; [|by apply sound_fail].
  eapply ends_bind; [apply (Hk x)|]. intros [r y] s' (? & ? & ? & Hf).
  unfold mret, ends. split_and!; [done..|]. intros Hr. exists y. split; [done|by apply Hf].
Qed.

(** A refused call filled nothing. *)
Ltac check_scan out :=
  eapply (sound_check _ _ _ _ _ (λ e, (e, out)));
    [eassumption | by eauto with sound | done |
     let e := fresh in let H := fresh in let H' := fresh in
     intros e ? H; split; [exact H|intros H'; simpl in H'; by subst e] |
     let H := fresh "Hc" in intros ? H; cbv beta in H; cbn beta iota].

Lemma scan_prefix_sound a p out s :
  cwf s → engine_arg (heap s) a → text_arg (heap s) p →
  sound failing1 (filled_opt scan_ok) (f4kvs_engine_scan_prefix a p out) s.
Proof.
  intros Hs Ha Hp. apply with_out_sound; [done|]. intros x. do 2 check_scan x.
  apply asked_sound; [done|by eauto with sound|done|done|]. intros. by apply fill_scan_result_sound.
Qed.

Lemma scan_prefix_kv_sound a p n out s :
  cwf s → engine_arg (heap s) a → buf_arg s p n →
  sound failing1 (filled_opt scan_ok) (f4kvs_engine_scan_prefix_kv a p n out) s.
Proof.
  intros Hs Ha Hp. apply with_out_sound; [done|]. intros x. do 2 check_scan x.
  apply asked_sound; [done|by eauto with sound|done|done|]. intros. by apply fill_scan_result_sound.
Qed.

Lemma scan_prefix_keys_kv_sound a p n out s :
  cwf s → engine_arg (heap s) a → buf_arg s p n →
  sound failing1 (filled_opt keys_ok) (f4kvs_engine_scan_prefix_keys_kv a p n out) s.
Proof.
  intros Hs Ha Hp. apply with_out_sound; [done|]. intros x. do 2 check_scan x.
  apply asked_sound; [done|by eauto with sound|done|done|]. intros. by apply fill_keys_sound.
Qed.

Lemma scan_prefix_keys_sound a p out s :
  cwf s → engine_arg (heap s) a → text_arg (heap s) p →
  sound failing1 (filled_opt keys_ok) (f4kvs_engine_scan_prefix_keys a p out) s.
Proof.
  intros Hs Ha Hp. destruct out as [x|]; [|by apply sound_fail]. simpl.
  do 2 check_scan (Some x).
  apply (asked_sound _ _ (lsm_scan_prefix y0)); [done|by eauto with sound|done|done|].
  intros keys s' Hs'.
  apply (box_result_sound (allocate_keys keys []) BKeys _ (λ p n, Some (mkKeyScan p n)));
    [done|by apply allocate_keys_tries|done| |].
  - intros. eexists. split; [done|by left].
  - intros q l s2 Hq. eexists. split; [done|]. right. by exists l.
Qed.

End Functions.

#[export] Hint Resolve simple_op_sound set_bulk_import_sound engine_new_sound engine_open_sound
  engine_open_ex_sound engine_put_sound put_bytes_sound put_kv_sound delete_sound delete_kv_sound
  batch_put_bytes_sound batch_delete_sound batch_put_kv_sound batch_delete_kv_sound
  get_sound get_bytes_sound get_kv_sound exists_sound scan_prefix_sound scan_prefix_kv_sound
  scan_prefix_keys_sound scan_prefix_keys_kv_sound scan_result_free_sound
  scan_result_kv_free_sound key_scan_result_free_sound string_free_quiet bytes_free_quiet : call.
