(* ===== verification/BindingFacts.v ===== *)
(** * Facts about the Go binding

    Each method on a live engine, as an equation: what it returns and the world
    it leaves, on every path.  The equations show that the lock is released and
    that every C allocation of the call is freed, since the world on the right is
    the old one up to the engine, the file system and the thread's last error. *)

From S2P Require Import Prelude Engine Utf8 Options Ffi Binding FfiFacts.

Section BindingFacts.
Context `{L : LsmEngine} {P : Platform} {POk : PlatformOk P} {G : GoRuntime}.
Implicit Types (w : World) (s : Proc) (g : lsm) (e : nat) (o : F4KVS).

(** [e] is an open engine whose handle is boxed engine [g], and no [Close] runs. *)
Record live w e o g : Prop := mkLive {
  live_obj : objs w !! e = Some o;
  live_handle : handle o ≠ 0;
  live_closed : closed o = false;
  live_writer : rw_writer (mu o) = false;
  live_engine : heap (proc w) !! handle o = Some (BEngine g)
}.

(** The state a library call runs in, and what [lastError] then sees. *)
Definition enter s : Proc := set_call (os_thread (calls s)) (S (calls s)) s.
Definition seen s : string := default "unknown error" (last_error s !! os_thread (calls s)).

(** ** The lock *)

Definition rlocked o : F4KVS := set_mu (mkRWMutex (S (rw_readers (mu o))) false) o.

Lemma load_some w e o : objs w !! e = Some o → load e w = Ret o w.
Proof. intros H. unfold load. by rewrite H. Qed.

Lemma alter_some {A} (f : A → A) (m : gmap nat A) i x :
  m !! i = Some x → alter f i m = <[i := f x]> m.
Proof.
  intros H. apply map_eq. intros j. rewrite lookup_alter, lookup_insert.
  case_decide; [|done]. subst. by rewrite H.
Qed.

Lemma RLock_some w e o :
  objs w !! e = Some o → rw_writer (mu o) = false →
  RLock e w = Ret tt (set_objs (<[e := rlocked o]> (objs w)) w).
Proof.
  intros H Hw. unfold RLock, bind. rewrite (load_some _ _ _ H), Hw.
  unfold store. by rewrite (alter_some _ _ _ _ H).
Qed.

Lemma RUnlock_some p m n e o :
  m !! e = Some o → rw_writer (mu o) = false →
  RUnlock e (mkWorld p (<[e := rlocked o]> m) n) = Ret tt (mkWorld p m n).
Proof.
  intros H Hw. unfold RUnlock, bind.
  rewrite (load_some _ _ (rlocked o)) by apply lookup_insert_eq. simpl.
  unfold store, set_objs. simpl. rewrite (alter_some _ _ _ (rlocked o)) by apply lookup_insert_eq.
  rewrite insert_insert_eq. do 2 f_equal. apply insert_id. rewrite H. f_equal.
  destruct o as [h [r wr] c]. simpl in Hw. by subst.
Qed.

Lemma rLockLive_live w e o g :
  live w e o g → rLockLive e w = Ret None (set_objs (<[e := rlocked o]> (objs w)) w).
Proof.
  intros [Ho Hh Hc Hw _]. unfold rLockLive, bind. rewrite (RLock_some _ _ _ Ho Hw).
  rewrite (load_some _ _ (rlocked o)) by apply lookup_insert_eq. simpl. rewrite Hc. simpl.
  by rewrite (proj2 (Z.eqb_neq _ _)).
Qed.

(** A closed engine: the lock is given back and [ErrClosed] returned. *)
Lemma rLockLive_closed w e o :
  objs w !! e = Some o → rw_writer (mu o) = false → closed o = true ∨ handle o = 0 →
  rLockLive e w = Ret (Some ErrClosed) w.
Proof.
  intros Ho Hw Hc. unfold rLockLive, bind. rewrite (RLock_some _ _ _ Ho Hw).
  rewrite (load_some _ _ (rlocked o)) by apply lookup_insert_eq. simpl.
  replace (closed o || (handle o =? 0)) with true
    by (destruct Hc as [-> | ->]; [done|by rewrite orb_true_r]).
  unfold set_objs. by rewrite (RUnlock_some _ _ _ _ _ Ho Hw).
Qed.

(** The body of a method, run between [rLockLive] and the deferred [RUnlock]. *)
Lemma locked_ret {B} w e o g (onerr : GoError → M World B) (body : M World B) r p n :
  live w e o g →
  body (mkWorld (proc w) (<[e := rlocked o]> (objs w)) (ranges w)) =
    Ret r (mkWorld p (<[e := rlocked o]> (objs w)) n) →
  (let! err := rLockLive e in
   match err with Some err => onerr err | None => defer! RUnlock e in body end) w =
  Ret r (mkWorld p (objs w) n).
Proof.
  intros Hl Hb. unfold bind. rewrite (rLockLive_live _ _ _ _ Hl). destruct Hl.
  eapply finally_ret; [exact Hb|]. by apply RUnlock_some.
Qed.

Lemma locked_panic {B} w e o g (onerr : GoError → M World B) (body : M World B) msg p n :
  live w e o g →
  body (mkWorld (proc w) (<[e := rlocked o]> (objs w)) (ranges w)) =
    Panic msg (mkWorld p (<[e := rlocked o]> (objs w)) n) →
  (let! err := rLockLive e in
   match err with Some err => onerr err | None => defer! RUnlock e in body end) w =
  Panic msg (mkWorld p (objs w) n).
Proof.
  intros Hl Hb. unfold bind. rewrite (rLockLive_live _ _ _ _ Hl). destruct Hl.
  eapply finally_panic; [exact Hb|]. by apply RUnlock_some.
Qed.

(** ** Memory held for the duration of a call *)

(** The state with the blocks [B] on top of the heap. *)
Definition add (B : gmap Z block) s : Proc := set_heap (B ∪ heap s) s.

Definition c_copy (str : string) : block := BMalloc (String.list_byte_of_string str ++ [x00]).

Lemma add_engine B a g s : B !! a = None → heap s !! a = Some (BEngine g) →
  heap (add B s) !! a = Some (BEngine g).
Proof. intros HB Ha. simpl. by rewrite lookup_union_r. Qed.

(** A library call does not notice the extra blocks, and leaves them. *)
Lemma after_add B a x s : B !! a = None → after a x (add B s) = add B (after a x s).
Proof.
  intros HB. destruct x as [[g d]|]; [|done].
  unfold after, with_engine, add. simpl. unfold set_heap, set_disk. simpl.
  by rewrite insert_union_r.
Qed.

Lemma after_lookup a b x s : a ≠ b → heap (after a x s) !! b = heap s !! b.
Proof. intros Hne. destruct x as [[g d]|]; [|done]. simpl. by rewrite lookup_insert_ne. Qed.

(** [C.free] of one of the extra blocks. *)
Lemma C_free_add B a l s m n :
  heap s !! a = None → B !! a = None → 1 < a →
  C_free a (mkWorld (add (<[a := BMalloc l]> B) s) m n) = Ret tt (mkWorld (add B s) m n).
Proof.
  intros Ha HB H1. unfold C_free, clib, c_free. simpl.
  rewrite (proj2 (Z.eqb_neq _ _)) by lia.
  rewrite (lookup_union_Some_l _ _ _ (BMalloc l)) by apply lookup_insert_eq.
  unfold set_proc, add, set_heap. simpl. do 3 f_equal.
  rewrite delete_union, (delete_id (heap s)) by done. by rewrite delete_insert_id.
Qed.

Lemma cstring_alloc str B s m n :
  CString str (mkWorld (add B s) m n) =
    let a := alloc_addr (B ∪ heap s) in
    Ret a (mkWorld (add (<[a := c_copy str]> B) s) m n).
Proof.
  unfold CString, clib, alloc, set_proc, add, set_heap, c_copy. simpl. by rewrite insert_union_l.
Qed.

Lemma add_empty s : add ∅ s = s.
Proof. unfold add. by rewrite (left_id_L ∅ (∪)). Qed.

Lemma C_free_singleton a str p m n :
  heap p !! a = None → 1 < a →
  C_free a (mkWorld (add {[a := c_copy str]} p) m n) = Ret tt (mkWorld p m n).
Proof.
  intros Ha H1. rewrite <-(add_empty p) at 2.
  apply (C_free_add ∅ a _ p m n Ha); [apply lookup_empty|done].
Qed.

(** A body run with the C copy of a Go string, freed on return and on a panic. *)
Lemma cstring_ret {B} w str (body : Z → M World B) r p m n :
  let a := alloc_addr (heap (proc w)) in
  body a (set_proc (add {[a := c_copy str]} (proc w)) w) =
    Ret r (mkWorld (add {[a := c_copy str]} p) m n) →
  heap p !! a = None →
  (let! ck := CString str in defer! C_free ck in body ck) w = Ret r (mkWorld p m n).
Proof.
  intros a Hb Ha. unfold bind. change w with (mkWorld (proc w) (objs w) (ranges w)) at 1.
  rewrite <-(add_empty (proc w)) at 1. rewrite cstring_alloc. cbv zeta.
  rewrite (left_id_L ∅ (∪)). fold a. eapply finally_ret; [exact Hb|].
  by apply C_free_singleton; [|apply alloc_above].
Qed.

Lemma cstring_panic {B} w str (body : Z → M World B) msg p n :
  let a := alloc_addr (heap (proc w)) in
  body a (set_proc (add {[a := c_copy str]} (proc w)) w) =
    Panic msg (mkWorld (add {[a := c_copy str]} p) (objs w) n) →
  heap p !! a = None →
  (let! ck := CString str in defer! C_free ck in body ck) w = Panic msg (mkWorld p (objs w) n).
Proof.
  intros a Hb Ha. unfold bind. change w with (mkWorld (proc w) (objs w) (ranges w)) at 1.
  rewrite <-(add_empty (proc w)) at 1. rewrite cstring_alloc. cbv zeta.
  rewrite (left_id_L ∅ (∪)). fold a. eapply finally_panic; [exact Hb|].
  by apply C_free_singleton; [|apply alloc_above].
Qed.

(** ** Reporting *)

(** What a method returns for the effect of its library call: nil, or the error
    built from the message [lastError] sees. *)
Definition finish {A} (fmt : string) (args : list string) (a : Z) (x : eff A) s
    : option GoError * Proc :=
  match x with
  | (inr _, y) => (None, after a y s)
  | (inl msg, y) =>
      let s' := err msg (after a y s) in
      (Some (Errorf fmt (args ++ [seen s'])), enter s')
  end.

Lemma finish_add {A} fmt args a (x : eff A) B s :
  B !! a = None →
  finish fmt args a x (add B s) = let '(r, s') := finish fmt args a x s in (r, add B s').
Proof. intros HB. destruct x as [[msg|] y]; simpl; by rewrite after_add. Qed.

Lemma finish_lookup {A} fmt args a b (x : eff A) s :
  a ≠ b → heap (finish fmt args a x s).2 !! b = heap s !! b.
Proof. intros Hne. destruct x as [[msg|] y]; simpl; by apply (after_lookup a b y s). Qed.

Lemma check_failure fmt args res w :
  res ≠ Success →
  check fmt args res w =
    Ret (Some (Errorf fmt (args ++ [seen (proc w)]))) (set_proc (enter (proc w)) w).
Proof.
  intros Hr. unfold check. rewrite bool_decide_eq_true_2 by done.
  unfold fail_with, lastError, cgo, clib, bind, f4kvs_get_last_error, seen. simpl.
  by destruct (last_error (proc w) !! _).
Qed.

Lemma code_of_failure y : code_of y ≠ Success ∧ code_of y ≠ ErrorNotFound.
Proof. by destruct y. Qed.

(** The library call of a method and the tail that reports it. *)
Lemma call_check {A} w (f : M Proc F4KvsResult) (tail : F4KvsResult → M World (option GoError))
    fmt args a (x : eff A) :
  (∀ res, res ≠ ErrorNotFound → tail res = check fmt args res) →
  f (enter (proc w)) = reply a x (enter (proc w)) →
  (let! res := cgo f in tail res) w =
    let '(r, s') := finish fmt args a x (enter (proc w)) in Ret r (set_proc s' w).
Proof.
  intros Ht Hf. unfold bind, cgo, clib. fold (enter (proc w)). rewrite Hf.
  destruct x as [[msg|x] y]; simpl.
  - rewrite Ht by apply code_of_failure. by rewrite check_failure by apply code_of_failure.
  - by rewrite Ht.
Qed.

(** ** Methods that take a key *)

Definition locked w e o : World := mkWorld (proc w) (<[e := rlocked o]> (objs w)) (ranges w).

Lemma keyed_method {A} w e o g key (f : Z → Z → M Proc F4KvsResult) tail fmt args (x : eff A) :
  live w e o g →
  (∀ res, res ≠ ErrorNotFound → tail res = check fmt args res) →
  (∀ ck s, ck ≠ 0 → heap s !! handle o = Some (BEngine g) → heap s !! ck = Some (c_copy key) →
     dsk s = dsk (proc w) → f (handle o) ck s = reply (handle o) x s) →
  (let! ckey := CString key in
   defer! C_free ckey in
   let! o := load e in
   let! res := cgo (f (handle o) ckey) in tail res) (locked w e o) =
  let '(r, s') := finish fmt args (handle o) x (enter (proc w)) in Ret r (set_proc s' (locked w e o)).
Proof.
  intros Hl Ht Hf.
  destruct (finish fmt args (handle o) x (enter (proc w))) as [r s'] eqn:Hfin.
  assert (Hne : handle o ≠ alloc_addr (heap (proc w))).
  { intros Heq. pose proof (alloc_fresh (heap (proc w))). rewrite <-Heq in *.
    by rewrite (live_engine _ _ _ _ Hl) in *. }
  set (a := alloc_addr (heap (proc w))) in *.
  apply (cstring_ret (locked w e o) key _ r s' _ (ranges w)).
  - simpl. fold a. erewrite bind_ret by (by apply load_some, lookup_insert_eq).
    change (handle (rlocked o)) with (handle o).
    assert (HB : ({[a := c_copy key]} : gmap Z block) !! handle o = None)
      by by apply lookup_singleton_ne.
    erewrite (call_check _ _ _ fmt args (handle o) x Ht).
    + simpl. change (enter (add ?B ?s)) with (add B (enter s)).
      rewrite finish_add by done. by rewrite Hfin.
    + simpl. change (enter (add ?B ?s)) with (add B (enter s)). apply Hf; [| |simpl|done].
      * pose proof (alloc_above (heap (proc w))). unfold a. lia.
      * by apply add_engine, Hl.
      * by rewrite lookup_union_l', lookup_singleton_eq by (by rewrite lookup_singleton_eq).
  - rewrite <-(f_equal snd Hfin : _ = s'), finish_lookup by done. apply alloc_fresh.
Qed.

(** Methods without a key. *)
Lemma plain_method {A} w e o g (f : Z → M Proc F4KvsResult) fmt args (x : eff A) :
  live w e o g →
  (∀ s, heap s !! handle o = Some (BEngine g) → dsk s = dsk (proc w) →
     f (handle o) s = reply (handle o) x s) →
  (let! o := load e in let! res := cgo (f (handle o)) in check fmt args res) (locked w e o) =
  let '(r, s') := finish fmt args (handle o) x (enter (proc w)) in Ret r (set_proc s' (locked w e o)).
Proof.
  intros Hl Hf. erewrite bind_ret by (by apply load_some, lookup_insert_eq).
  change (handle (rlocked o)) with (handle o).
  apply (call_check (locked w e o)); [done|]. apply Hf; [apply Hl|done].
Qed.

(** Between [rLockLive] and [RUnlock]. *)
Lemma locked_method w e o g (body : M World (option GoError)) (rs : option GoError * Proc) :
  live w e o g →
  body (locked w e o) = (let '(r, s') := rs in Ret r (set_proc s' (locked w e o))) →
  (let! err := rLockLive e in
   match err with Some err => mret (Some err) | None => defer! RUnlock e in body end) w =
  let '(r, s') := rs in Ret r (set_proc s' w).
Proof. intros Hl Hb. destruct rs as [r s']. by apply (locked_ret w e o g _ _ r s' (ranges w) Hl). Qed.

(** ** The methods, on a live engine *)

Lemma PutBytes_live w e o g key v :
  live w e o g →
  PutBytes e key v w =
    let '(r, s') := finish "f4kvs put %q: %s" [key] (handle o)
                      (put_eff key (slice_bytes v) g (dsk (proc w))) (enter (proc w)) in
    Ret r (set_proc s' w).
Proof.
  intros Hl. apply (locked_method _ _ _ _ _ _ Hl).
  apply (keyed_method _ _ _ g _ (λ h ck, f4kvs_engine_put_bytes h ck _ _) _ _ _ _ Hl); [done|].
  intros ck s Hck Hg Hk <-. apply put_bytes_live; [apply Hl|done..].
Qed.

Lemma Delete_live w e o g key :
  live w e o g →
  Delete e key w =
    let '(r, s') := finish "f4kvs delete %q: %s" [key] (handle o)
                      (delete_eff key g (dsk (proc w))) (enter (proc w)) in
    Ret r (set_proc s' w).
Proof.
  intros Hl. apply (locked_method _ _ _ _ _ _ Hl).
  apply (keyed_method _ _ _ g _ f4kvs_engine_delete
           (λ res, if bool_decide (res = ErrorNotFound) then mret None
                   else check "f4kvs delete %q: %s" [key] res) _ _ _ Hl).
  - intros res Hr. by rewrite bool_decide_eq_false_2.
  - intros ck s Hck Hg Hk <-. apply delete_live; [apply Hl|done..].
Qed.

Ltac plain_live Hl lem :=
  apply (locked_method _ _ _ _ _ _ Hl); apply (plain_method _ _ _ _ _ _ _ _ Hl);
  intros s Hg <-; apply lem; [apply Hl|done].

Lemma SetBulkImport_live w e o g on :
  live w e o g →
  SetBulkImport e on w =
    let '(r, s') := finish "f4kvs set bulk import: %s" [] (handle o)
                      (inr tt, Some (lsm_set_bulk_import on g, dsk (proc w))) (enter (proc w)) in
    Ret r (set_proc s' w).
Proof.
  intros Hl. apply (locked_method _ _ _ _ _ _ Hl).
  apply (plain_method w e o g (λ h, f4kvs_engine_set_bulk_import h (if on then 1 else 0)) _ _ _ Hl).
  intros s Hg <-. apply set_bulk_import_live; [apply Hl|done].
Qed.

Lemma Flush_live w e o g :
  live w e o g →
  Flush e w =
    let '(r, s') := finish "f4kvs flush: %s" [] (handle o)
                      (run_eff "Flush" lsm_flush g (dsk (proc w))) (enter (proc w)) in
    Ret r (set_proc s' w).
Proof. intros Hl. plain_live Hl simple_op_live. Qed.

Lemma FlushWAL_live w e o g :
  live w e o g →
  FlushWAL e w =
    let '(r, s') := finish "f4kvs flush wal: %s" [] (handle o)
                      (run_eff "Flush WAL" lsm_flush_wal g (dsk (proc w))) (enter (proc w)) in
    Ret r (set_proc s' w).
Proof. intros Hl. plain_live Hl simple_op_live. Qed.

Lemma Sync_live w e o g :
  live w e o g →
  Sync e w =
    let '(r, s') := finish "f4kvs sync: %s" [] (handle o)
                      (run_eff "Compact" lsm_compact g (dsk (proc w))) (enter (proc w)) in
    Ret r (set_proc s' w).
Proof. intros Hl. plain_live Hl simple_op_live. Qed.

(** ** GetBytes *)

(** What a Go slice of a stored value is: its bytes, cut at the 32-bit length
    [C.int] gives, or a panic when that length is negative. *)
Definition go_bytes (b : list byte) : option goslice :=
  if zlen b =? 0 then Some (Some [])
  else if to_int32 (zlen b) <? 0 then None
  else Some (Some (take (Z.to_nat (to_int32 (zlen b))) b)).

Definition get_outcome (key : string) (a : Z) (x : eff (option (Value json))) s
    : outcome Proc (GoError + goslice) :=
  match x with
  | (inl msg, y) =>
      let s' := err msg (after a y s) in
      Ret (inl (Errorf "f4kvs get %q: %s" [key; seen s'])) (enter s')
  | (inr None, y) => Ret (inl ErrNotFound) (after a y s)
  | (inr (Some v), y) =>
      match go_bytes (value_to_bytes v) with
      | Some b => Ret (inr b) (enter (after a y s))
      | None => Panic "gobytes: length out of range" (enter (after a y s))
      end
  end.

Lemma to_int32_le z : 0 ≤ z → to_int32 z ≤ z.
Proof.
  intros. unfold to_int32. pose proof (Z.mod_le z (2 ^ 32)). pose proof (Z.mod_pos_bound z (2 ^ 32)).
  case_match; lia.
Qed.

(** The value buffer: read into a Go slice, then given back to the library. *)
Lemma get_value_tail B s m n b (p : Z) :
  wf s → B !! p = None →
  p = (if zlen b =? 0 then 1 else alloc_addr (B ∪ heap s)) →
  let h := if zlen b =? 0 then B ∪ heap s else <[p := BBoxed b]> (B ∪ heap s) in
  let s1 := set_bytes (<[p := zlen b]> (bytes_allocations s)) (set_heap h s) in
  (defer! cgo (f4kvs_bytes_free p) in
   if (p =? 0) || (zlen b =? 0) then mret (inr (Some []))
   else let! l := GoBytes p (to_int32 (zlen b)) in mret (@inr GoError goslice (Some l))) (mkWorld s1 m n) =
  match go_bytes b with
  | Some v => Ret (inr v) (mkWorld (add B (enter s)) m n)
  | None => Panic "gobytes: length out of range" (mkWorld (add B (enter s)) m n)
  end.
Proof.
  intros Hwf HB Hp h s1.
  assert (Hfree : cgo (f4kvs_bytes_free p) (mkWorld s1 m n) = Ret tt (mkWorld (add B (enter s)) m n)).
  { unfold cgo, clib, f4kvs_bytes_free. simpl. rewrite lookup_insert_eq.
    assert (Hp0 : (p =? 0) = false)
      by (subst p; pose proof (alloc_above (B ∪ heap s)); case_match; lia).
    rewrite Hp0. unfold set_proc, add, enter, set_bytes, set_heap, set_call. simpl.
    destruct (zlen b =? 0) eqn:Hz.
    - rewrite delete_insert_id; [done|].
      by apply wf_bytes_None, wf_low_None; [..|lia].
    - unfold h. rewrite lookup_insert_eq, Z.eqb_refl. simpl.
      pose proof (alloc_fresh (B ∪ heap s)) as Hf. rewrite <-Hp in Hf.
      rewrite !delete_insert_id; try done.
      apply wf_bytes_None; [done|]. apply lookup_union_None in Hf. by destruct Hf. }
  unfold go_bytes. destruct (zlen b =? 0) eqn:Hz.
  - rewrite orb_true_r. by eapply finally_ret.
  - pose proof (alloc_above (B ∪ heap s)). rewrite orb_false_r.
    replace (p =? 0) with false by (subst p; lia).
    unfold GoBytes. destruct (to_int32 (zlen b) <? 0) eqn:Hneg.
    + by eapply finally_panic.
    + eapply finally_ret; [|done]. unfold bind, clib, read_buf. simpl. unfold h.
      rewrite lookup_insert_eq. rewrite (proj2 (Z.leb_le _ _)); [done|].
      apply to_int32_le, zlen_nonneg.
Qed.

Definition in_world {A} w (x : outcome Proc A) : outcome World A :=
  match x with
  | Ret r s => Ret r (set_proc s w)
  | Panic msg s => Panic msg (set_proc s w)
  | Stuck s => Stuck (set_proc s w)
  | Undefined => Undefined
  end.

(** [in_world] of a world with extra blocks held. *)
Definition in_held {A} (B : gmap Z block) w (x : outcome Proc A) : outcome World A :=
  match x with
  | Ret r s => Ret r (set_proc (add B s) w)
  | Panic msg s => Panic msg (set_proc (add B s) w)
  | Stuck s => Stuck (set_proc (add B s) w)
  | Undefined => Undefined
  end.

(** The part of [GetBytes] between allocating the key and freeing it. *)
Definition get_body e key ckey : M World (GoError + goslice) :=
  let! o := load e in
  let! r := cgo (f4kvs_engine_get_bytes (handle o) ckey (Some (0, 0))) in
  let res := r.1 in
  let '(out, outLen) := default (0, 0) r.2 in
  if bool_decide (res = ErrorNotFound) then mret (inl ErrNotFound)
  else if bool_decide (res ≠ Success) then
    let! err := fail_with "f4kvs get %q: %s" [key] in mret (inl err)
  else
    defer! cgo (f4kvs_bytes_free out) in
    if (out =? 0) || (outLen =? 0) then mret (inr (Some []))
    else let! l := GoBytes out (to_int32 outLen) in mret (inr (Some l)).

Lemma fail_with_spec fmt args w :
  fail_with fmt args w = Ret (Errorf fmt (args ++ [seen (proc w)])) (set_proc (enter (proc w)) w).
Proof.
  unfold fail_with, lastError, cgo, clib, bind, f4kvs_get_last_error, seen. simpl.
  by destruct (last_error (proc w) !! _).
Qed.

Lemma wf_after a x g s : wf s → heap s !! a = Some (BEngine g) → wf (after a x s).
Proof. intros Hwf Ha. destruct x as [[]|]; [|done]. by eapply wf_with_engine. Qed.

Lemma wf_enter s : wf s → wf (enter s).
Proof. by intros []. Qed.

Lemma get_body_live w e o g key ck B :
  objs w !! e = Some o → handle o ≠ 0 → heap (proc w) !! handle o = Some (BEngine g) →
  wf (proc w) → ck ≠ 0 → B !! handle o = None → (∀ a, a ≤ 1 → B !! a = None) →
  B !! ck = Some (c_copy key) →
  get_body e key ck (set_proc (add B (proc w)) w) =
    in_held B w (get_outcome key (handle o) (get_eff key g (dsk (proc w))) (enter (proc w))).
Proof.
  intros Ho Hh Hg Hwf Hck HB Hlow Hkey. unfold get_body.
  erewrite bind_ret by (by apply load_some).
  unfold bind at 1, cgo at 1, clib at 1.
  change (proc (set_proc (add B (proc w)) w)) with (add B (proc w)).
  change (set_call _ _ (add B (proc w))) with (add B (enter (proc w))).
  rewrite (get_bytes_live _ _ ck g key); [|done|done| |].
  2: by apply add_engine. 2: simpl; by apply lookup_union_Some_l.
  change (dsk (add B (enter (proc w)))) with (dsk (proc w)).
  destruct (get_eff key g (dsk (proc w))) as [[msg|[v|]] y]; rewrite after_add by done.
  - cbn [fst snd default]. pose proof (code_of_failure y) as [Hs Hn].
    rewrite (bool_decide_eq_false_2 _ Hn), (bool_decide_eq_true_2 _ Hs).
    unfold bind, id. cbv beta iota. by rewrite fail_with_spec.
  - cbv zeta. simpl. set (b := value_to_bytes v). set (s := after _ y (enter (proc w))).
    assert (Hwf' : wf s) by (eapply wf_after; [by apply wf_enter|done]).
    change (heap (add B s)) with (B ∪ heap s).
    pose proof (alloc_fresh (B ∪ heap s)) as Hf.
    etrans; [apply (get_value_tail B s (objs w) (ranges w) b _ Hwf'); [|done]|].
    + case_match; [by apply Hlow|]. apply lookup_union_None in Hf. by destruct Hf.
    + by destruct (go_bytes b).
  - done.
Qed.

Lemma singleton_low a x : 1 < a → ∀ b, b ≤ 1 → ({[a := x]} : gmap Z block) !! b = None.
Proof. intros ? b ?. apply lookup_singleton_ne. lia. Qed.

Lemma handle_not_fresh w e o g : live w e o g → handle o ≠ alloc_addr (heap (proc w)).
Proof.
  intros Hl Heq. pose proof (alloc_fresh (heap (proc w))). rewrite <-Heq in *.
  by rewrite (live_engine _ _ _ _ Hl) in *.
Qed.

Lemma get_outcome_heap key a x s b r s' :
  a ≠ b → get_outcome key a x s = Ret r s' ∨ (∃ msg, get_outcome key a x s = Panic msg s') →
  heap s' !! b = heap s !! b.
Proof.
  intros Hne. unfold get_outcome. rewrite <-(after_lookup a b x.2 s) by done.
  destruct x as [[msg|[v|]] y]; simpl; [naive_solver| |naive_solver].
  destruct (go_bytes _); naive_solver.
Qed.

Lemma GetBytes_live w e o g key :
  live w e o g → wf (proc w) →
  GetBytes e key w =
    in_world w (get_outcome key (handle o) (get_eff key g (dsk (proc w))) (enter (proc w))).
Proof.
  intros Hl Hwf. pose proof (handle_not_fresh _ _ _ _ Hl) as Hne.
  pose proof (alloc_above (heap (proc w))) as Hab. pose proof (alloc_fresh (heap (proc w))) as Hfr.
  set (a := alloc_addr (heap (proc w))) in *.
  pose proof (get_body_live (locked w e o) e (rlocked o) g key a {[a := c_copy key]}) as Hb.
  simpl in Hb. specialize (Hb (lookup_insert_eq _ _ _)).
  rewrite lookup_singleton_eq in Hb.
  specialize (Hb (live_handle _ _ _ _ Hl) (live_engine _ _ _ _ Hl) Hwf).
  specialize (Hb ltac:(lia) (lookup_singleton_ne _ _ _ (not_eq_sym Hne)) (singleton_low _ _ Hab) eq_refl).
  destruct (get_outcome _ _ _ _) as [r s'|msg s'|s'|] eqn:Hout; simpl in Hb |- *.
  - apply (locked_ret w e o g _ _ r s' (ranges w) Hl).
    apply (cstring_ret (locked w e o) key (get_body e key) r s' _ (ranges w)); [exact Hb|].
    exact (eq_trans (get_outcome_heap _ _ _ _ _ _ _ Hne (or_introl Hout)) Hfr).
  - apply (locked_panic w e o g _ _ msg s' (ranges w) Hl).
    apply (cstring_panic (locked w e o) key (get_body e key) msg s' (ranges w)); [exact Hb|].
    exact (eq_trans (get_outcome_heap _ _ _ _ _ (inl ErrClosed) _ Hne
                       (or_intror (ex_intro _ _ Hout))) Hfr).
  - unfold get_outcome in Hout. repeat case_match; done.
  - unfold get_outcome in Hout. repeat case_match; done.
Qed.

(** ** Freeing many blocks *)

Definition nonnull (l : list Z) : list Z := filter (λ a, a ≠ 0) l.

Lemma each_cons_ret {S A} (f : A → M S unit) x l (s s' : S) :
  f x s = Ret tt s' → each f (x :: l) s = each f l s'.
Proof. intros H. simpl. by rewrite (bind_ret _ _ _ _ _ H). Qed.

(** Blocks held: each address of [l] is of a [malloc] block of [B] only. *)
Definition held (B : gmap Z block) s (a : Z) : Prop :=
  1 < a ∧ heap s !! a = None ∧ ∃ b, B !! a = Some (BMalloc b).

(** Freeing the addresses of [l], null ones ignored. *)
Lemma free_each f l B s m n :
  (∀ a w, f a w = C_free a w) →
  NoDup (nonnull l) → (∀ a, a ∈ nonnull l → held B s a) →
  each f l (mkWorld (add B s) m n) =
    Ret tt (mkWorld (add (foldr delete B (nonnull l)) s) m n).
Proof.
  intros Hf. revert B. induction l as [|a l IH]; intros B Hnd Hin; [done|].
  unfold nonnull in *. rewrite filter_cons in *. destruct (decide (a ≠ 0)) as [Ha|Ha].
  - apply NoDup_cons in Hnd as [Hni Hnd].
    destruct (Hin a ltac:(set_solver)) as (H1 & Hh & b & Hb).
    rewrite (each_cons_ret _ _ _ _ (mkWorld (add (delete a B) s) m n)).
    + rewrite IH; [|done|].
      * simpl. by rewrite delete_foldr_delete.
      * intros a' Ha'. destruct (Hin a' ltac:(set_solver)) as (? & ? & b' & Hb').
        split_and!; [done..|]. exists b'. rewrite lookup_delete_ne; [done|]. intros ->. done.
    + rewrite Hf. rewrite <-(insert_delete_id B a (BMalloc b)) at 1 by done.
      by apply C_free_add; [|apply lookup_delete_eq|].
  - assert (a = 0) as -> by (destruct (decide (a = 0)); [done|tauto]).
    rewrite (each_cons_ret _ _ _ _ (mkWorld (add B s) m n)) by (by rewrite Hf). by apply IH.
Qed.

(** ** C strings for a list of keys *)

Lemma has_key_mono (B B' : gmap Z block) ck key :
  has_key B ck key → (∀ a, is_Some (B !! a) → B' !! a = B !! a) → has_key B' ck key.
Proof. intros [H0 Hk] HB. split; [done|]. rewrite HB; [done|]. by eexists. Qed.

(** The addresses added by an allocation loop: distinct, fresh, and the only
    change to the held blocks. *)
Record grown (B B' : gmap Z block) s (l : list Z) : Prop := mkGrown {
  grown_nodup : NoDup l;
  grown_new a : a ∈ l → held B' s a ∧ B !! a = None;
  grown_old a : a ∉ l → B' !! a = B !! a
}.

Lemma grown_mono B B' s l a : grown B B' s l → is_Some (B !! a) → B' !! a = B !! a.
Proof. intros [_ Hn Ho] [b Hb]. apply Ho. intros Hin. apply Hn in Hin as [_ ?]. congruence. Qed.

Lemma grown_refl B s : grown B B s [].
Proof. split; [constructor|set_solver|done]. Qed.

Lemma grown_step B s b :
  let a := alloc_addr (B ∪ heap s) in
  grown B (<[a := BMalloc b]> B) s [a].
Proof.
  intros a. pose proof (alloc_fresh (B ∪ heap s)) as Hf. pose proof (alloc_above (B ∪ heap s)).
  fold a in Hf. apply lookup_union_None in Hf as [HB Hh]. split.
  - apply NoDup_singleton.
  - intros a' ->%list_elem_of_singleton. split; [|done]. split_and!; [done..|].
    exists b. apply lookup_insert_eq.
  - intros a' Hne. rewrite lookup_insert_ne; [done|]. set_solver.
Qed.

Lemma grown_trans B1 B2 B3 s l1 l2 :
  grown B1 B2 s l1 → grown B2 B3 s l2 → grown B1 B3 s (l1 ++ l2).
Proof.
  intros H1 H2. split.
  - apply NoDup_app. split_and!; [apply H1| |apply H2].
    intros a Ha1 Ha2. apply H1 in Ha1 as [(_ & _ & b & Hb) _]. apply H2 in Ha2 as [_ ?]. congruence.
  - intros a [Ha|Ha]%elem_of_app.
    + apply H1 in Ha as [(? & ? & b & Hb) Hn]. split; [|done]. split_and!; [done..|].
      exists b. rewrite (grown_mono _ _ _ _ _ H2); [done|by eexists].
    + pose proof (grown_new _ _ _ _ H2 _ Ha) as [Hh Hn]. split; [done|].
      destruct (decide (a ∈ l1)) as [Hin|Hin].
      * apply H1 in Hin as [(_ & _ & b & Hb) _]. congruence.
      * by rewrite <-(grown_old _ _ _ _ H1 _ Hin).
  - intros a [Ha1 Ha2]%not_elem_of_app. rewrite (grown_old _ _ _ _ H2) by done. by apply H1.
Qed.

Lemma grown_perm B B' s l l' : grown B B' s l → l ≡ₚ l' → grown B B' s l'.
Proof.
  intros [Hd Hn Ho] Hp. split.
  - by rewrite <-Hp.
  - intros a. rewrite <-Hp. apply Hn.
  - intros a. rewrite <-Hp. apply Ho.
Qed.

Lemma nonnull_all l : (∀ a, a ∈ l → a ≠ 0) → nonnull l = l.
Proof.
  induction l as [|a l IH]; intros H; [done|]. unfold nonnull in *. rewrite filter_cons_True.
  - rewrite IH; set_solver.
  - set_solver.
Qed.

Lemma grown_nonnull B B' s l : grown B B' s l → nonnull l = l.
Proof. intros Hg. apply nonnull_all. intros a Ha. apply Hg in Ha as [(? & _) _]. lia. Qed.

(** Deleting what was added gives the blocks back. *)
Lemma grown_delete B B' s l : grown B B' s l → foldr delete B' l = B.
Proof.
  intros Hg. apply map_eq. intros a. destruct (decide (a ∈ l)) as [Ha|Ha].
  - rewrite lookup_foldr_delete by done. symmetry. by apply Hg in Ha as [_ ?].
  - rewrite lookup_foldr_delete_not_elem_of by done. by apply Hg.
Qed.

Lemma free_grown f l B s m n :
  (∀ a w, f a w = C_free a w) → grown ∅ B s l →
  each f l (mkWorld (add B s) m n) = Ret tt (mkWorld s m n).
Proof.
  intros Hf Hg. rewrite free_each; [|done|..].
  - by rewrite (grown_nonnull _ _ _ _ Hg), (grown_delete _ _ _ _ Hg), add_empty.
  - rewrite (grown_nonnull _ _ _ _ Hg). apply Hg.
  - rewrite (grown_nonnull _ _ _ _ Hg). intros a Ha. by apply Hg in Ha as [? _].
Qed.

Lemma c_strings_spec keys acc B s m n :
  ∃ cks B', c_strings keys acc (mkWorld (add B s) m n) = Ret (acc ++ cks) (mkWorld (add B' s) m n)
    ∧ grown B B' s cks ∧ Forall2 (has_key B') cks keys.
Proof.
  revert acc B. induction keys as [|key keys IH]; intros acc B; simpl.
  - exists [], B. rewrite app_nil_r. eauto using grown_refl.
  - erewrite bind_ret by apply cstring_alloc. simpl.
    pose proof (grown_step B s (String.list_byte_of_string key ++ [x00])) as Hs. cbv zeta in Hs.
    pose proof (alloc_above (B ∪ heap s)).
    set (a := alloc_addr (B ∪ heap s)) in *. fold (c_copy key) in Hs.
    destruct (IH (acc ++ [a]) (<[a := c_copy key]> B)) as (cks & B' & -> & Hg & Hk).
    exists (a :: cks), B'. rewrite <-app_assoc. split_and!; [done| |].
    + by apply (grown_trans _ _ _ _ [a] cks Hs).
    + constructor; [|done]. split; [lia|].
      rewrite (grown_mono _ _ _ _ _ Hg); [apply lookup_insert_eq|].
      rewrite lookup_insert_eq. by eexists.
Qed.

(** ** BatchDelete *)

Lemma has_key_add B s ck key : has_key B ck key → has_key (heap (add B s)) ck key.
Proof. intros [H0 Hk]. split; [done|]. by apply lookup_union_Some_l. Qed.

Lemma held_not_engine B B' s l a g :
  grown B B' s l → B !! a = None → heap s !! a = Some (BEngine g) → B' !! a = None.
Proof.
  intros Hg HB Ha. rewrite (grown_old _ _ _ _ Hg); [done|]. intros Hin.
  apply Hg in Hin as [(_ & Hn & _) _]. congruence.
Qed.

Lemma grown_finish {A} B B' s l fmt args a g (x : eff A) :
  grown B B' s l → heap s !! a = Some (BEngine g) →
  grown B B' (finish fmt args a x (enter s)).2 l.
Proof.
  intros [Hd Hn Ho] Ha. split; [done| |done].
  intros b Hb. destruct (Hn b Hb) as [(H1 & Hh & Hb') HB]. split; [|done].
  split_and!; [done| |done]. rewrite finish_lookup; [done|]. congruence.
Qed.

Lemma BatchDelete_live w e o g keys :
  live w e o g → keys ≠ [] →
  BatchDelete e keys w =
    let '(r, s') := finish "f4kvs batch delete: %s" [] (handle o)
                      (batch_delete_eff keys g (dsk (proc w))) (enter (proc w)) in
    Ret r (set_proc s' w).
Proof.
  intros Hl Hk. unfold BatchDelete. rewrite bool_decide_eq_false_2 by done.
  apply (locked_method _ _ _ _ _ _ Hl).
  destruct (c_strings_spec keys [] ∅ (proc w) (<[e := rlocked o]> (objs w)) (ranges w))
    as (cks & B & Hc & Hg & Hkeys).
  rewrite add_empty in Hc. simpl in Hc. rewrite (bind_ret _ _ _ _ _ Hc).
  set (x := batch_delete_eff keys g (dsk (proc w))).
  assert (HB : B !! handle o = None)
    by (eapply held_not_engine; [exact Hg|apply lookup_empty|apply Hl]).
  pose proof (finish_add "f4kvs batch delete: %s" [] (handle o) x B (enter (proc w)) HB) as Hfin.
  pose proof (grown_finish _ _ _ _ "f4kvs batch delete: %s" [] _ _ x Hg (live_engine _ _ _ _ Hl)) as Hg'.
  destruct (finish _ _ (handle o) x (enter (proc w))) as [r s'].
  eapply finally_ret; [|by apply free_grown].
  erewrite bind_ret by (by apply load_some, lookup_insert_eq).
  change (handle (rlocked o)) with (handle o).
  erewrite (call_check _ _ (check _ _) _ _ (handle o) x); [|done|].
  - simpl. change (enter (add B ?s)) with (add B (enter s)). by rewrite Hfin.
  - simpl. apply (batch_delete_live (add B (enter (proc w)))); [apply Hl|by apply add_engine, Hl|].
    eapply Forall2_impl; [exact Hkeys|]. intros ck key. apply (has_key_add B (enter (proc w))).
Qed.


(** ** BatchPutBytes *)

Definition plain_items (items : list (string * goslice)) : list (string * list byte) :=
  (λ kv, (kv.1, slice_bytes kv.2)) <$> items.

Lemma C_malloc_add z B s m n :
  C_malloc z (mkWorld (add B s) m n) = Ret 0 (mkWorld (add B s) m n) ∧
    malloc_fails (B ∪ heap s) z = true ∨
  (let a := alloc_addr (B ∪ heap s) in
   C_malloc z (mkWorld (add B s) m n) =
     Ret a (mkWorld (add (<[a := BMalloc (replicate (Z.to_nat z) x00)]> B) s) m n)).
Proof.
  unfold C_malloc, clib. simpl. destruct (malloc_fails (B ∪ heap s) z) eqn:E; [left|right]; [done|].
  unfold alloc, set_proc, add, set_heap. simpl. by rewrite insert_union_l.
Qed.

Lemma C_memcpy_add a l B s m n :
  C_memcpy a l (mkWorld (add (<[a := BMalloc (replicate (length l) x00)]> B) s) m n) =
    Ret tt (mkWorld (add (<[a := BMalloc l]> B) s) m n).
Proof.
  unfold C_memcpy, clib. simpl.
  rewrite (lookup_union_Some_l _ _ _ (BMalloc (replicate (length l) x00))) by apply lookup_insert_eq.
  unfold zlen. rewrite length_replicate, Z.leb_refl.
  rewrite drop_ge by (by rewrite length_replicate). rewrite app_nil_r.
  unfold set_proc, add, set_heap. simpl. by rewrite insert_union_l, insert_insert_eq.
Qed.

Lemma nonnull_app l1 l2 : nonnull (l1 ++ l2) = nonnull l1 ++ nonnull l2.
Proof. apply filter_app. Qed.

Lemma nonnull_zeros n : nonnull (replicate n 0) = [].
Proof.
  induction n; [done|]. unfold nonnull in *. rewrite replicate_S, filter_cons_False; [done|lia].
Qed.

Lemma nonnull_cons a l : nonnull (a :: l) = nonnull [a] ++ nonnull l.
Proof. apply (nonnull_app [a]). Qed.

Lemma nonnull_one a : 1 < a → nonnull [a] = [a].
Proof. intros. apply nonnull_all. intros ? ->%list_elem_of_singleton. lia. Qed.

Lemma has_value_mono B B' cv len v :
  has_value B cv len v → (∀ a, is_Some (B !! a) → B' !! a = B !! a) → has_value B' cv len v.
Proof. intros [-> [->|[H0 Hv]]] HB; (split; [done|]); [by left|right]. split; [done|]. rewrite HB; eauto. Qed.

(** Rows of the arrays filled so far, for one more key and value. *)
Lemma fill_row key v B s m n :
  (∃ ck cv B', grown B B' s (nonnull [ck] ++ nonnull [cv]) ∧ has_key B' ck key ∧
     has_value B' cv (zlen (slice_bytes v)) (slice_bytes v) ∧
     ∀ items a, fill_arrays ((key, v) :: items) a (mkWorld (add B s) m n) =
       fill_arrays items (mkArrays (cKeys a ++ [ck]) (cValues a ++ [cv])
                            (cLens a ++ [zlen (slice_bytes v)])) (mkWorld (add B' s) m n)) ∨
  (∃ ck B' h z, grown B B' s (nonnull [ck]) ∧ malloc_fails h z = true ∧
     ∀ items a, let nil := replicate (length items) 0 in
       fill_arrays ((key, v) :: items) a (mkWorld (add B s) m n) =
       Ret (Some (Errorf "f4kvs batch put: out of memory" []),
            mkArrays (cKeys a ++ ck :: nil) (cValues a ++ 0 :: nil)
              (cLens a ++ zlen (slice_bytes v) :: nil)) (mkWorld (add B' s) m n)).
Proof.
  pose proof (cstring_alloc key B s m n) as Hc. cbv zeta in Hc.
  pose proof (grown_step B s (String.list_byte_of_string key ++ [x00])) as Hg. cbv zeta in Hg.
  pose proof (alloc_above (B ∪ heap s)) as Hab.
  set (ck := alloc_addr (B ∪ heap s)) in *. fold (c_copy key) in Hg.
  set (B1 := <[ck := c_copy key]> B) in *.
  assert (Hk : has_key B1 ck key) by (split; [lia|apply lookup_insert_eq]).
  destruct (Z.eqb_spec (zlen (slice_bytes v)) 0) as [Hz|Hz].
  { left. exists ck, 0, B1. rewrite (nonnull_one _ Hab), Hz, app_nil_r. split_and!; [done..| |].
    - rewrite (zlen_nil_inv _ Hz). split; [done|by left].
    - intros items a. simpl. rewrite (bind_ret _ _ _ _ _ Hc). by rewrite Hz. }
  destruct (C_malloc_add (zlen (slice_bytes v)) B1 s m n) as [[Hm Hf]|Hm].
  { right. exists ck, B1, (B1 ∪ heap s), (zlen (slice_bytes v)). rewrite (nonnull_one _ Hab).
    split_and!; [done..|]. intros items a. simpl. rewrite (bind_ret _ _ _ _ _ Hc).
    rewrite (proj2 (Z.eqb_neq _ _)) by done. by rewrite (bind_ret _ _ _ _ _ Hm). }
  left. cbv zeta in Hm.
  replace (Z.to_nat (zlen (slice_bytes v))) with (length (slice_bytes v)) in Hm by (unfold zlen; lia).
  pose proof (alloc_above (B1 ∪ heap s)) as Hab2.
  pose proof (grown_step B1 s (slice_bytes v)) as Hg2. cbv zeta in Hg2.
  set (cv := alloc_addr (B1 ∪ heap s)) in *. set (B2 := <[cv := BMalloc (slice_bytes v)]> B1) in *.
  exists ck, cv, B2. rewrite (nonnull_one _ Hab), (nonnull_one _ Hab2). split_and!.
  - by eapply grown_trans.
  - eapply has_key_mono; [exact Hk|]. intros ? ?. by eapply grown_mono.
  - split; [done|right]. split; [lia|apply lookup_insert_eq].
  - intros items a. simpl. rewrite (bind_ret _ _ _ _ _ Hc).
    rewrite (proj2 (Z.eqb_neq (zlen (slice_bytes v)) 0)) by done. rewrite (bind_ret _ _ _ _ _ Hm).
    rewrite (proj2 (Z.eqb_neq cv 0)) by lia.
    by rewrite (bind_ret _ _ _ _ _ (C_memcpy_add _ _ _ _ _ _)).
Qed.

Lemma fill_arrays_spec items a B s m n :
  ∃ er nk nv nl B',
    fill_arrays items a (mkWorld (add B s) m n) =
      Ret (er, mkArrays (cKeys a ++ nk) (cValues a ++ nv) (cLens a ++ nl)) (mkWorld (add B' s) m n) ∧
    grown B B' s (nonnull nk ++ nonnull nv) ∧
    match er with
    | None => rows B' (plain_items items) nk nv nl
    | Some x => x = Errorf "f4kvs batch put: out of memory" [] ∧ ∃ h z, malloc_fails h z = true
    end.
Proof.
  revert a B. induction items as [|[key v] items IH]; intros a B.
  { exists None, [], [], [], B. rewrite !app_nil_r. destruct a.
    split_and!; [done|apply grown_refl|constructor]. }
  destruct (fill_row key v B s m n) as
    [(ck & cv & B1 & Hg1 & Hk & Hv & Heq)|(ck & B1 & h & z & Hg1 & Hm & Heq)].
  - destruct (IH (mkArrays (cKeys a ++ [ck]) (cValues a ++ [cv]) (cLens a ++ [zlen (slice_bytes v)])) B1)
      as (er & nk & nv & nl & B' & Hr & Hg & Hrows).
    exists er, (ck :: nk), (cv :: nv), (zlen (slice_bytes v) :: nl), B'. split_and!.
    + rewrite Heq, Hr. simpl. by rewrite <-!app_assoc.
    + eapply grown_perm; [by eapply grown_trans|]. rewrite (nonnull_cons ck nk), (nonnull_cons cv nv).
      solve_Permutation.
    + destruct er; [done|]. constructor; [| |done].
      * eapply has_key_mono; [exact Hk|]. intros ? ?. by eapply grown_mono.
      * eapply has_value_mono; [exact Hv|]. intros ? ?. by eapply grown_mono.
  - eexists _, (ck :: replicate (length items) 0), (0 :: replicate (length items) 0), _, B1.
    split; [apply Heq|]. split; [|split; [done|by exists h, z]].
    rewrite !(nonnull_cons _ (replicate _ _)), nonnull_zeros. change (nonnull [0]) with (@nil Z).
    by rewrite !app_nil_r.
Qed.
(** The deferred cleanup frees everything the loop allocated, also when it
    stopped half way. *)
Lemma free_arrays_grown nk nv nl B s m n :
  grown ∅ B s (nonnull nk ++ nonnull nv) →
  free_arrays (mkArrays nk nv nl) (mkWorld (add B s) m n) = Ret tt (mkWorld s m n).
Proof.
  intros Hg. pose proof (grown_nodup _ _ _ _ Hg) as (Hnk & Hdis & Hnv)%NoDup_app.
  assert (Hheld : ∀ a, a ∈ nonnull nk ++ nonnull nv → held B s a)
    by (intros a Ha; by apply Hg in Ha as [? _]).
  unfold free_arrays. simpl. erewrite bind_ret by (apply free_each; set_solver).
  rewrite free_each; [| |done|].
  - rewrite <-foldr_app. rewrite (grown_delete ∅ _ s); [by rewrite add_empty|].
    eapply grown_perm; [exact Hg|]. solve_Permutation.
  - intros a w. case_bool_decide as Ha; [done|].
    assert (a = 0) as -> by (destruct (decide (a = 0)); [done|tauto]). by destruct w as [[] ? ?].
  - intros a Ha. destruct (Hheld a ltac:(set_solver)) as (H1 & Hh & b & Hb).
    split_and!; [done..|]. exists b. rewrite lookup_foldr_delete_not_elem_of; [done|].
    intros Ha'. by eapply Hdis.
Qed.

Lemma rows_mono h h' items cks cvs lens :
  rows h items cks cvs lens → (∀ a, is_Some (h !! a) → h' !! a = h !! a) → rows h' items cks cvs lens.
Proof. induction 1; constructor; eauto using has_key_mono, has_value_mono. Qed.

Lemma zlen_plain_items items : zlen (plain_items items) = zlen items.
Proof. unfold zlen, plain_items. by rewrite length_fmap. Qed.

(** [BatchPutBytes] on a map that is not empty: the library call on the pairs in
    the order of the [range], unless [C.malloc] returned null. *)
Lemma BatchPutBytes_live w e o g (items : gmap string goslice) :
  live w e o g → size items ≠ O →
  (BatchPutBytes e items w =
    let '(r, s') := finish "f4kvs batch put: %s" [] (handle o)
      (batch_put_eff (plain_items (range_order (ranges w) items)) g (dsk (proc w)))
      (enter (proc w)) in
    Ret r (mkWorld s' (objs w) (S (ranges w)))) ∨
  (BatchPutBytes e items w =
     Ret (Some (Errorf "f4kvs batch put: out of memory" [])) (mkWorld (proc w) (objs w) (S (ranges w)))
   ∧ ∃ h z, malloc_fails h z = true).
Proof.
  intros Hl Hs. unfold BatchPutBytes. rewrite bool_decide_eq_false_2 by done.
  set (order := range_order (ranges w) items).
  destruct (fill_arrays_spec order (mkArrays [] [] []) ∅ (proc w)
              (<[e := rlocked o]> (objs w)) (S (ranges w)))
    as (er & nk & nv & nl & B & Hf & Hg & Her).
  rewrite add_empty in Hf. simpl in Hf.
  destruct er as [x|].
  { right. destruct Her as [-> Hm]. split; [|done].
    apply (locked_ret w e o g _ _ _ _ _ Hl). unfold bind at 1. simpl. fold order.
    rewrite (bind_ret _ _ _ _ _ Hf). simpl. eapply finally_ret; [done|]. by apply free_arrays_grown. }
  left. set (x := batch_put_eff (plain_items order) g (dsk (proc w))).
  assert (HB : B !! handle o = None)
    by (eapply held_not_engine; [exact Hg|apply lookup_empty|apply Hl]).
  pose proof (finish_add "f4kvs batch put: %s" [] (handle o) x B (enter (proc w)) HB) as Hfin.
  pose proof (grown_finish _ _ _ _ "f4kvs batch put: %s" [] _ _ x Hg (live_engine _ _ _ _ Hl)) as Hg'.
  destruct (finish _ _ (handle o) x (enter (proc w))) as [r s'].
  apply (locked_ret w e o g _ _ _ _ _ Hl). unfold bind at 1. simpl. fold order.
  rewrite (bind_ret _ _ _ _ _ Hf). simpl. eapply finally_ret; [|by apply free_arrays_grown].
  erewrite bind_ret by (by apply load_some, lookup_insert_eq).
  change (handle (rlocked o)) with (handle o).
  erewrite (call_check _ _ (check _ _) _ _ (handle o) x); [|done|].
  - simpl. change (enter (add B ?s)) with (add B (enter s)). by rewrite Hfin.
  - simpl. rewrite <-zlen_plain_items.
    apply (batch_put_bytes_live (add B (enter (proc w)))); [apply Hl|by apply add_engine, Hl|].
    eapply rows_mono; [exact Her|]. intros a [b Hb]. simpl. rewrite Hb. by apply lookup_union_Some_l.
Qed.

(** ** Prefix scans *)

Definition scan_outcome (a : Z) (x : eff (list string)) s : outcome Proc (option (list string)) :=
  match x with
  | (inl msg, y) => Ret None (err msg (after a y s))
  | (inr keys, y) =>
      match nul_key keys with
      | Some msg => Ret None (err msg (after a y s))
      | None =>
          if 2 ^ 30 <? zlen keys then Panic "slice bounds out of range" (enter (after a y s))
          else Ret (Some keys) (enter (after a y s))
      end
  end.

Lemma GoString_text p m n a k :
  heap p !! a = Some (c_text k) → nul_position (String.list_byte_of_string k) = None →
  GoString a (mkWorld p m n) = Ret k (mkWorld p m n).
Proof.
  intros Ha Hk. unfold GoString, bind, clib, read_c_str. simpl. rewrite Ha. simpl.
  rewrite until_nul_terminated, c_prefix_nul_free by (unfold nul_free; by rewrite Hk).
  unfold mret. by autorewrite with code.
Qed.

Lemma nul_key_None k keys :
  nul_key (k :: keys) = None →
  nul_position (String.list_byte_of_string k) = None ∧ nul_key keys = None.
Proof. simpl. by destruct (nul_position _). Qed.

Lemma go_strings_spec p m n l keys acc :
  Forall2 (λ a k, heap p !! a = Some (c_text k)) l keys → nul_key keys = None →
  go_strings l acc (mkWorld p m n) = Ret (acc ++ keys) (mkWorld p m n).
Proof.
  intros HF. revert acc. induction HF as [|a k l keys Ha _ IH]; intros acc Hn; simpl.
  - by rewrite app_nil_r.
  - apply nul_key_None in Hn as [Hk Hn].
    rewrite (bind_ret _ _ _ _ _ (GoString_text _ _ _ _ _ Ha Hk)), IH by done.
    by rewrite <-app_assoc.
Qed.

(** The Go slice of the keys, and the result given back afterwards. *)
Lemma scan_keys_tail C s l keys m n :
  strings_at C s l → Forall2 (λ a k, C !! a = Some (c_text k)) l keys → keys ≠ [] →
  nul_key keys = None →
  let pk := alloc_addr (C ∪ heap s) in
  let result := mkKeyScan pk (zlen keys) in
  (defer! (let! _ := cgo (f4kvs_key_scan_result_free result) in mret tt) in
   if bool_decide (ks_keys result ≠ 0) && (0 <? ks_count result) then
     let! slice := key_slice (ks_keys result) (ks_count result) in
     let! keys := go_strings slice [] in
     mret (Some keys)
   else mret (Some []))
    (mkWorld (add_strings C (set_heap (<[pk := BKeys l]> (heap s)) s)) m n) =
  if 2 ^ 30 <? zlen keys then Panic "slice bounds out of range" (mkWorld (enter s) m n)
  else Ret (Some keys) (mkWorld (enter s) m n).
Proof.
  intros HC HF Hk Hn pk result. pose proof (alloc_above (C ∪ heap s)) as Hab.
  pose proof (alloc_fresh (C ∪ heap s)) as Hf. fold pk in Hab, Hf.
  apply lookup_union_None in Hf as [HCpk Hpk].
  pose proof (Forall2_length _ _ _ HF) as Hlen.
  assert (Hz : zlen keys = zlen l) by (unfold zlen; by rewrite Hlen).
  set (s2 := add_strings C _).
  assert (Hfree : (let! _ := cgo (f4kvs_key_scan_result_free result) in mret tt) (mkWorld s2 m n)
                  = Ret tt (mkWorld (enter s) m n)).
  { unfold bind, cgo, clib. change (proc (mkWorld s2 m n)) with s2.
    fold (enter s2). unfold result. rewrite Hz.
    pose proof (key_scan_result_free_spec C (enter s) l pk) as Hr.
    change (enter s2) with (add_strings C (set_heap (<[pk := BKeys l]> (heap (enter s))) (enter s))).
    rewrite Hr; [done|by destruct HC|by destruct l, keys|lia|done|done]. }
  change (ks_keys result) with pk. change (ks_count result) with (zlen keys).
  rewrite (bool_decide_eq_true_2 (pk ≠ 0)) by lia.
  rewrite (proj2 (Z.ltb_lt 0 _)) by (destruct keys; [done|unfold zlen; simpl; lia]). simpl.
  unfold key_slice. destruct (2 ^ 30 <? zlen keys).
  - eapply finally_panic; [done|exact Hfree].
  - eapply finally_ret; [|exact Hfree]. unfold bind at 1, clib at 1. simpl.
    rewrite lookup_union_r, lookup_insert_eq, Hz, Z.leb_refl by done.
    unfold zlen. rewrite Nat2Z.id, firstn_all.
    change (set_proc _ _) with (mkWorld s2 m n).
    erewrite bind_ret; [done|]. apply (go_strings_spec s2 m n l keys []); [|done].
    eapply Forall2_impl; [exact HF|]. intros a k Ha. simpl. by apply lookup_union_Some_l.
Qed.

Definition scan_body e cprefix : M World (option (list string)) :=
  let! o := load e in
  let! r := cgo (f4kvs_engine_scan_prefix_keys (handle o) cprefix (Some (mkKeyScan 0 0))) in
  if bool_decide (r.1 ≠ Success) then mret None
  else
    let result := default (mkKeyScan 0 0) r.2 in
    defer! (let! _ := cgo (f4kvs_key_scan_result_free result) in mret tt) in
    if bool_decide (ks_keys result ≠ 0) && (0 <? ks_count result) then
      let! slice := key_slice (ks_keys result) (ks_count result) in
      let! keys := go_strings slice [] in
      mret (Some keys)
    else mret (Some []).

Lemma strings_live_add B s :
  wf s → ∀ a, a ∈ string_allocations (add B s) → is_Some (heap (add B s) !! a).
Proof.
  intros Hwf a Ha. destruct (wf_strings s Hwf a Ha) as [l Hl]. simpl. rewrite lookup_union, Hl.
  destruct (B !! a); by eexists.
Qed.

Lemma scan_body_live w e o g prefix ck B :
  objs w !! e = Some o → handle o ≠ 0 → heap (proc w) !! handle o = Some (BEngine g) →
  wf (proc w) → B !! handle o = None → has_key B ck prefix →
  scan_body e ck (set_proc (add B (proc w)) w) =
    in_held B w (scan_outcome (handle o) (scan_eff prefix g (dsk (proc w))) (enter (proc w))).
Proof.
  intros Ho Hh Hg Hwf HB Hkey. unfold scan_body.
  erewrite bind_ret by (by apply load_some).
  unfold bind at 1, cgo at 1, clib at 1.
  change (proc (set_proc (add B (proc w)) w)) with (add B (proc w)).
  change (set_call _ _ (add B (proc w))) with (add B (enter (proc w))).
  pose proof (scan_prefix_keys_live (add B (enter (proc w))) (handle o) ck g prefix Hh
    (add_engine B _ g (enter (proc w)) HB Hg) (has_key_add B (enter (proc w)) _ _ Hkey)) as Hscan.
  specialize (Hscan (strings_live_add B (enter (proc w)) (wf_enter _ Hwf))).
  cbv zeta in Hscan. change (dsk (add B (enter (proc w)))) with (dsk (proc w)) in Hscan.
  rewrite after_add in Hscan by done.
  destruct (scan_eff prefix g (dsk (proc w))) as [[msg|keys] y]; cbn [fst snd] in Hscan.
  - rewrite Hscan. cbn [fst]. by rewrite bool_decide_eq_true_2 by apply code_of_failure.
  - destruct keys as [|k keys]; [by rewrite Hscan|]. unfold scan_outcome.
    destruct (nul_key (k :: keys)) as [msg|] eqn:Hn.
    + rewrite Hscan. cbn [fst]. by rewrite bool_decide_eq_true_2.
    + destruct Hscan as (l & C & HC & HF & ->). cbn [fst snd default].
      rewrite bool_decide_eq_false_2 by (intros H; by apply H).
      etrans; [apply (scan_keys_tail C _ l (k :: keys) _ _ HC HF); done|].
      by destruct (2 ^ 30 <? zlen (k :: keys)).
Qed.

Lemma scan_outcome_heap a x s b s' :
  a ≠ b → (∃ r, scan_outcome a x s = Ret r s') ∨ (∃ msg, scan_outcome a x s = Panic msg s') →
  heap s' !! b = heap s !! b.
Proof.
  intros Hne. unfold scan_outcome. rewrite <-(after_lookup a b x.2 s) by done.
  destruct x as [[msg|keys] y]; simpl; [naive_solver|].
  destruct (nul_key keys); [naive_solver|]. case_match; naive_solver.
Qed.

Lemma ScanPrefixKeys_live w e o g prefix :
  live w e o g → wf (proc w) →
  ScanPrefixKeys e prefix w =
    in_world w (scan_outcome (handle o) (scan_eff prefix g (dsk (proc w))) (enter (proc w))).
Proof.
  intros Hl Hwf. pose proof (handle_not_fresh _ _ _ _ Hl) as Hne.
  pose proof (alloc_above (heap (proc w))) as Hab. pose proof (alloc_fresh (heap (proc w))) as Hfr.
  set (a := alloc_addr (heap (proc w))) in *.
  pose proof (scan_body_live (locked w e o) e (rlocked o) g prefix a {[a := c_copy prefix]}
    (lookup_insert_eq _ _ _) (live_handle _ _ _ _ Hl) (live_engine _ _ _ _ Hl) Hwf
    (lookup_singleton_ne _ _ _ (not_eq_sym Hne))) as Hb.
  specialize (Hb ltac:(split; [lia|apply lookup_singleton_eq])).
  change (handle (rlocked o)) with (handle o) in Hb. change (proc (locked w e o)) with (proc w) in Hb.
  unfold ScanPrefixKeys. destruct Hl as [Ho Hh Hc Hw Hg].
  rewrite (bind_ret _ _ _ _ _ (RLock_some _ _ _ Ho Hw)).
  change (set_objs _ w) with (locked w e o).
  assert (Hload : ∀ k : F4KVS → M World (option (list string)),
    bind (load e) k (locked w e o) = k (rlocked o) (locked w e o)).
  { intros k. by rewrite (bind_ret _ _ _ _ _ (load_some _ _ _ (lookup_insert_eq _ _ _))). }
  destruct (scan_outcome _ _ _) as [r s'|msg s'|s'|] eqn:Hout; simpl in Hb |- *.
  - eapply finally_ret; [|by apply RUnlock_some].
    rewrite Hload. simpl. rewrite Hc, (proj2 (Z.eqb_neq _ _) Hh). simpl.
    apply (cstring_ret (locked w e o) prefix (scan_body e) r s' _ (ranges w)); [exact Hb|].
    exact (eq_trans (scan_outcome_heap _ _ _ _ _ Hne (or_introl (ex_intro _ _ Hout))) Hfr).
  - eapply finally_panic; [|by apply RUnlock_some].
    rewrite Hload. simpl. rewrite Hc, (proj2 (Z.eqb_neq _ _) Hh). simpl.
    apply (cstring_panic (locked w e o) prefix (scan_body e) msg s' (ranges w)); [exact Hb|].
    exact (eq_trans (scan_outcome_heap _ _ _ _ _ Hne (or_intror (ex_intro _ _ Hout))) Hfr).
  - unfold scan_outcome in Hout. repeat case_match; done.
  - unfold scan_outcome in Hout. repeat case_match; done.
Qed.

(** ** Close *)

(** Shutting down: the engine flushed, its box freed; a failure is only visible as
    the thread's last error. *)
Definition shut (a : Z) (x : eff unit) s : Proc :=
  let s1 := match x with (inr _, y) => after a y (enter s) | (inl msg, y) => err msg (after a y (enter s)) end in
  set_heap (delete a (heap s)) (enter s1).

Definition closed_object : F4KVS := mkF4KVS 0 unlocked true.

Lemma Lock_some w e o :
  objs w !! e = Some o → mu o = unlocked →
  Lock e w = Ret tt (set_objs (<[e := set_mu (mkRWMutex 0 true) o]> (objs w)) w).
Proof.
  intros H Hm. unfold Lock, bind. rewrite (load_some _ _ _ H), Hm. simpl.
  unfold store. by rewrite (alter_some _ _ _ _ H).
Qed.

Lemma Unlock_some p m n e o :
  Unlock e (mkWorld p (<[e := set_mu (mkRWMutex 0 true) o]> m) n) =
    Ret tt (mkWorld p (<[e := set_mu unlocked o]> m) n).
Proof.
  unfold Unlock, bind. rewrite (load_some _ _ _ (lookup_insert_eq _ _ _)). simpl.
  unfold store, set_objs. simpl. rewrite (alter_some _ _ _ _ (lookup_insert_eq _ _ _)).
  by rewrite insert_insert_eq.
Qed.

Lemma shut_after a x s :
  heap (match x with (inr _, y) => after a y s | (inl msg, y) => err msg (after a y s) end) = heap (after a (x : eff unit).2 s).
Proof. by destruct x as [[] ?]. Qed.

Lemma engine_free_after a y s g :
  a ≠ 0 → heap s !! a = Some (BEngine g) →
  ∀ s1, heap s1 = heap (after a y s) →
  f4kvs_engine_free a s1 = Ret tt (set_heap (delete a (heap s)) s1).
Proof.
  intros Ha Hg s1 Hs1. unfold f4kvs_engine_free. rewrite (proj2 (Z.eqb_neq _ _)) by done.
  rewrite Hs1. destruct y as [[g' d']|]; simpl.
  - rewrite lookup_insert_eq. by rewrite delete_insert_eq.
  - by rewrite Hg.
Qed.

Lemma Close_live w e o g :
  live w e o g → rw_readers (mu o) = O →
  Close e w = Ret tt (mkWorld (shut (handle o) (run_eff "Close" lsm_shutdown g (dsk (proc w))) (proc w))
                        (<[e := closed_object]> (objs w)) (ranges w)).
Proof.
  intros [Ho Hh Hc Hw Hg] Hr.
  assert (Hmu : mu o = unlocked) by (destruct (mu o); simpl in *; by subst).
  unfold Close. rewrite (bind_ret _ _ _ _ _ (Lock_some _ _ _ Ho Hmu)).
  eapply finally_ret; [|].
  - rewrite (bind_ret _ _ _ _ _ (load_some _ _ _ (lookup_insert_eq _ _ _))).
    change (handle (set_mu _ o)) with (handle o). rewrite (proj2 (Z.eqb_neq _ _)) by done.
    unfold bind at 1, cgo at 1, clib at 1. change (proc (set_objs _ w)) with (proc w).
    fold (enter (proc w)). unfold f4kvs_engine_close. rewrite (simple_op_live (enter (proc w)) _ g "Close" lsm_shutdown) by done.
    change (dsk (enter (proc w))) with (dsk (proc w)).
    set (x := run_eff "Close" lsm_shutdown g (dsk (proc w))).
    set (s1 := match x with (inr _, y) => after (handle o) y (enter (proc w))
               | (inl msg, y) => err msg (after (handle o) y (enter (proc w))) end).
    replace (reply (handle o) x (enter (proc w)))
      with (Ret (match x with (inr _, _) => Success | (inl _, y) => code_of y end) s1)
      by (unfold s1; by destruct x as [[] ?]).
    unfold bind at 1, cgo at 1, clib at 1. simpl. fold (enter s1).
    rewrite (engine_free_after (handle o) x.2 (enter (proc w)) g Hh Hg (enter s1)
               (shut_after (handle o) x (enter (proc w)))).
    unfold bind, store, set_objs, set_proc. simpl.
    rewrite !(alter_some _ _ _ _ (lookup_insert_eq _ _ _)), !insert_insert_eq. simpl.
    change (set_closed true (set_handle 0 (set_mu (mkRWMutex 0 true) o)))
      with (set_mu (mkRWMutex 0 true) closed_object). reflexivity.
  - apply (Unlock_some _ (objs w) (ranges w) e closed_object).
Qed.

(** Closing again does nothing. *)
Lemma Close_closed w e o :
  objs w !! e = Some o → handle o = 0 → mu o = unlocked → Close e w = Ret tt w.
Proof.
  intros Ho Hh Hmu. unfold Close. rewrite (bind_ret _ _ _ _ _ (Lock_some _ _ _ Ho Hmu)).
  eapply finally_ret.
  - rewrite (bind_ret _ _ _ _ _ (load_some _ _ _ (lookup_insert_eq _ _ _))).
    change (handle (set_mu _ o)) with (handle o). by rewrite Hh.
  - etrans; [apply Unlock_some|].
    assert (<[e := set_mu unlocked o]> (objs w) = objs w) as Hid
      by (apply insert_id; rewrite Ho, <-Hmu; done).
    by rewrite Hid.
Qed.

End BindingFacts.
