(* ===== verification/Session.v ===== *)
(** * Sessions of the Go binding

    What every method of an open [F4KVS] leaves alone, and sequences of methods:
    from opening an engine to closing it.  [framed] says of an outcome that it is
    a return or a Go panic (never undefined behaviour or a deadlock) in a world
    that differs from the one before only in the engine itself, the file system
    and the error bookkeeping: the lock is back, every C allocation is freed. *)

From S2P Require Import Prelude Engine Utf8 Options Ffi Binding FfiFacts BindingFacts.

Section Session.
Context `{L : LsmEngine} {P : Platform} {POk : PlatformOk P} {G : GoRuntime} {GOk : GoRuntimeOk G}.
Implicit Types (w : World) (s : Proc) (g : lsm) (e : nat) (o : F4KVS).

(** ** Frames *)

(** Between [s] and [s'] only the engine at [a] changed. *)
Record only_engine s s' (a : Z) (g' : lsm) : Prop := mkOnly {
  oe_heap : heap s' = <[a := BEngine g']> (heap s);
  oe_strings : string_allocations s' = string_allocations s;
  oe_bytes : bytes_allocations s' = bytes_allocations s;
  oe_counter : engine_counter s' = engine_counter s
}.

Lemma only_engine_refl s a g : heap s !! a = Some (BEngine g) → only_engine s s a g.
Proof. intros H. split; [by rewrite insert_id|done..]. Qed.

Lemma only_engine_trans s1 s2 s3 a g g' :
  only_engine s1 s2 a g → only_engine s2 s3 a g' → only_engine s1 s3 a g'.
Proof.
  intros [H1 ? ? ?] [H2 ? ? ?]. split; [|congruence..]. by rewrite H2, H1, insert_insert_eq.
Qed.

Lemma only_engine_enter s s' a g : only_engine s s' a g → only_engine s (enter s') a g.
Proof. by intros []. Qed.

Lemma only_engine_err msg s s' a g : only_engine s s' a g → only_engine s (err msg s') a g.
Proof. by intros []. Qed.

Lemma only_engine_after s a g y :
  heap s !! a = Some (BEngine g) →
  ∃ g', only_engine s (after a y (enter s)) a g' ∧ g' = match y with Some (g', _) => g' | None => g end.
Proof.
  intros Hg. destruct y as [[g' d']|].
  - by exists g'.
  - exists g. split; [|done]. by apply only_engine_enter, only_engine_refl.
Qed.

Lemma only_engine_wf s s' a g g' :
  heap s !! a = Some (BEngine g) → wf s → only_engine s s' a g' → wf s'.
Proof.
  intros Hg Hwf [Hh Hs Hb Hc]. destruct (wf_with_engine a g g' (dsk s) s Hwf Hg) as [W1 W2 W3].
  simpl in *. split; rewrite ?Hh, ?Hs, ?Hb; done.
Qed.

(** The same for worlds: the Go objects are untouched too. *)
Definition frame w w' (a : Z) (g' : lsm) : Prop :=
  objs w' = objs w ∧ only_engine (proc w) (proc w') a g'.

Lemma frame_live w w' e o g g' :
  live w e o g → frame w w' (handle o) g' → live w' e o g'.
Proof.
  intros [Ho Hh Hc Hw Hg] [Hobj [Hheap _ _ _]]. split; rewrite ?Hobj; try done.
  by rewrite Hheap, lookup_insert_eq.
Qed.

Lemma frame_wf w w' e o g g' :
  live w e o g → wf (proc w) → frame w w' (handle o) g' → wf (proc w').
Proof. intros Hl Hwf [_ Hf]. eapply only_engine_wf; [apply Hl|done..]. Qed.

Lemma frame_trans w1 w2 w3 a g g' : frame w1 w2 a g → frame w2 w3 a g' → frame w1 w3 a g'.
Proof. intros [H1 F1] [H2 F2]. split; [congruence|]. by eapply only_engine_trans. Qed.

Lemma frame_refl w e o g : live w e o g → frame w w (handle o) g.
Proof. intros Hl. split; [done|]. apply only_engine_refl, Hl. Qed.

Definition framed {A} w (a : Z) (x : outcome World A) : Prop :=
  match x with
  | Ret _ w' | Panic _ w' => ∃ g', frame w w' a g'
  | _ => False
  end.

(** Running one framed method after another. *)
Lemma framed_bind {A B} w e o g (m : M World A) (k : A → M World B) :
  live w e o g → wf (proc w) → framed w (handle o) (m w) →
  (∀ r w' g', m w = Ret r w' → live w' e o g' → wf (proc w') → framed w' (handle o) (k r w')) →
  framed w (handle o) (bind m k w).
Proof.
  intros Hl Hwf Hm Hk. unfold bind. destruct (m w) as [r w'|msg w'|w'|]; simpl in Hm; try done.
  destruct Hm as [g' Hf]. specialize (Hk r w' g' eq_refl).
  specialize (Hk (frame_live _ _ _ _ _ _ Hl Hf) (frame_wf _ _ _ _ _ _ Hl Hwf Hf)).
  destruct (k r w') as [? ?|? ?|?|]; simpl in Hk |- *; try done;
    destruct Hk as [g'' Hf']; exists g''; by eapply frame_trans.
Qed.

Lemma framed_ret {A} w e o g (r : A) : live w e o g → framed w (handle o) (mret r w).
Proof. intros Hl. exists g. by eapply frame_refl. Qed.

(** ** Every method is framed *)

Lemma finish_only {A} fmt args a (x : eff A) s g :
  heap s !! a = Some (BEngine g) →
  ∃ g', only_engine s (finish fmt args a x (enter s)).2 a g' ∧
        g' = match x.2 with Some (g', _) => g' | None => g end.
Proof.
  intros Hg. destruct x as [[msg|r] y]; simpl; destruct (only_engine_after s a g y Hg) as (g' & H & ->).
  - eexists; split; [|done]. by apply only_engine_enter, only_engine_err.
  - eexists; by split.
Qed.

Lemma finish_framed {A} fmt args w e o g (x : eff A) n :
  live w e o g →
  framed w (handle o)
    (let '(r, s') := finish fmt args (handle o) x (enter (proc w)) in Ret r (mkWorld s' (objs w) n)).
Proof.
  intros Hl. destruct (finish_only fmt args (handle o) x (proc w) g (live_engine _ _ _ _ Hl)) as (g' & H & _).
  destruct (finish _ _ _ _ _) as [r s']. by exists g'.
Qed.

Lemma PutBytes_framed w e o g key v : live w e o g → framed w (handle o) (PutBytes e key v w).
Proof. intros Hl. rewrite (PutBytes_live _ _ _ _ _ _ Hl). by eapply finish_framed. Qed.

Lemma Delete_framed w e o g key : live w e o g → framed w (handle o) (Delete e key w).
Proof. intros Hl. rewrite (Delete_live _ _ _ _ _ Hl). by eapply finish_framed. Qed.

Lemma SetBulkImport_framed w e o g on : live w e o g → framed w (handle o) (SetBulkImport e on w).
Proof. intros Hl. rewrite (SetBulkImport_live _ _ _ _ _ Hl). by eapply finish_framed. Qed.

Lemma Flush_framed w e o g : live w e o g → framed w (handle o) (Flush e w).
Proof. intros Hl. rewrite (Flush_live _ _ _ _ Hl). by eapply finish_framed. Qed.

Lemma FlushWAL_framed w e o g : live w e o g → framed w (handle o) (FlushWAL e w).
Proof. intros Hl. rewrite (FlushWAL_live _ _ _ _ Hl). by eapply finish_framed. Qed.

Lemma Sync_framed w e o g : live w e o g → framed w (handle o) (Sync e w).
Proof. intros Hl. rewrite (Sync_live _ _ _ _ Hl). by eapply finish_framed. Qed.

Lemma BatchDelete_framed w e o g keys : live w e o g → framed w (handle o) (BatchDelete e keys w).
Proof.
  intros Hl. destruct (decide (keys = [])) as [->|Hk]; [by eapply framed_ret|].
  rewrite (BatchDelete_live _ _ _ _ _ Hl Hk). by eapply finish_framed.
Qed.

Lemma BatchPutBytes_framed w e o g items : live w e o g → framed w (handle o) (BatchPutBytes e items w).
Proof.
  intros Hl. destruct (decide (size items = O)) as [H0|H0].
  { unfold BatchPutBytes. rewrite bool_decide_eq_true_2 by done. by eapply framed_ret. }
  destruct (BatchPutBytes_live _ _ _ _ _ Hl H0) as [->|[-> _]]; [by eapply finish_framed|].
  exists g. split; [done|]. apply only_engine_refl, Hl.
Qed.

Lemma GetBytes_framed w e o g key :
  live w e o g → wf (proc w) → framed w (handle o) (GetBytes e key w).
Proof.
  intros Hl Hwf. rewrite (GetBytes_live _ _ _ _ _ Hl Hwf). unfold get_outcome.
  pose proof (only_engine_after (proc w) (handle o) g) as Hoe.
  destruct (get_eff _ _ _) as [[msg|[v|]] y]; destruct (Hoe y (live_engine _ _ _ _ Hl)) as (g' & H & _).
  - exists g'. split; [done|]. by apply only_engine_enter, only_engine_err.
  - destruct (go_bytes _); exists g'; (split; [done|]); by apply only_engine_enter.
  - by exists g'.
Qed.

Lemma ScanPrefixKeys_framed w e o g prefix :
  live w e o g → wf (proc w) → framed w (handle o) (ScanPrefixKeys e prefix w).
Proof.
  intros Hl Hwf. rewrite (ScanPrefixKeys_live _ _ _ _ _ Hl Hwf). unfold scan_outcome.
  pose proof (only_engine_after (proc w) (handle o) g) as Hoe.
  destruct (scan_eff _ _ _) as [[msg|keys] y]; destruct (Hoe y (live_engine _ _ _ _ Hl)) as (g' & H & _).
  - exists g'. split; [done|]. by apply only_engine_err.
  - destruct (nul_key keys).
    + exists g'. split; [done|]. by apply only_engine_err.
    + case_match; exists g'; (split; [done|]); by apply only_engine_enter.
Qed.

Lemma Get_framed w e o g key : live w e o g → wf (proc w) → framed w (handle o) (Get e key w).
Proof.
  intros Hl Hwf. eapply framed_bind; [done..|by eapply GetBytes_framed|].
  intros [err|v] w' g' _ Hl' _; by eapply framed_ret.
Qed.

Lemma put_each_framed w e o g items : live w e o g → wf (proc w) → framed w (handle o) (put_each e items w).
Proof.
  revert w g. induction items as [|[k v] items IH]; intros w g Hl Hwf; cbn [put_each]; [by eapply framed_ret|].
  eapply framed_bind; [done..|by eapply PutBytes_framed|].
  intros [err|] w' g' _ Hl' Hwf'; [by eapply framed_ret|by eapply IH].
Qed.

Lemma get_each_framed {V} (getter : string → M World (GoError + V)) w e o g keys acc :
  (∀ k w g, live w e o g → wf (proc w) → framed w (handle o) (getter k w)) →
  live w e o g → wf (proc w) → framed w (handle o) (get_each getter keys acc w).
Proof.
  intros Hget. revert w g acc. induction keys as [|k keys IH]; intros w g acc Hl Hwf; cbn [get_each];
    [by eapply framed_ret|].
  eapply framed_bind; [done..|by eapply Hget|].
  intros [err|v] w' g' _ Hl' Hwf'; [by eapply framed_ret|by eapply IH].
Qed.

Lemma framed_ranges {A} w n (a : Z) (x : outcome World A) :
  framed (mkWorld (proc w) (objs w) n) a x → framed w a x.
Proof. by destruct x. Qed.

Lemma live_ranges w e o g n : live w e o g → live (mkWorld (proc w) (objs w) n) e o g.
Proof. by intros []. Qed.

Lemma BatchPut_framed w e o g items :
  live w e o g → wf (proc w) → framed w (handle o) (BatchPut e items w).
Proof.
  intros Hl Hwf. unfold BatchPut. erewrite bind_ret by done.
  eapply framed_ranges, put_each_framed; [by apply live_ranges|done].
Qed.

(** ** Calls *)

(** The methods of [F4KVS] other than [Close], with their arguments. *)
Inductive call :=
| CallGet (key : string)
| CallGetBytes (key : string)
| CallPut (key value : string)
| CallPutBytes (key : string) (value : goslice)
| CallDelete (key : string)
| CallScanPrefixKeys (prefix : string)
| CallGetAllKeys
| CallBatchPut (items : gmap string string)
| CallBatchGetValues (keys : list string)
| CallBatchGetBytes (keys : list string)
| CallBatchPutBytes (items : gmap string goslice)
| CallBatchDelete (keys : list string)
| CallSetBulkImport (on : bool)
| CallFlush
| CallFlushWAL
| CallSync.

(** What a call returned. *)
Inductive answer :=
| AnsError (err : option GoError)
| AnsString (r : GoError + string)
| AnsBytes (r : GoError + goslice)
| AnsKeys (r : option (list string))
| AnsStrings (r : GoError + gmap string string)
| AnsSlices (r : GoError + gmap string goslice).

#[global] Instance answer_eq_dec : EqDecision answer.
Proof. solve_decision. Defined.

Definition mmap {S A B} (f : A → B) (m : M S A) : M S B := let! a := m in mret (f a).

Definition run_call e (c : call) : M World answer :=
  match c with
  | CallGet key => mmap AnsString (Get e key)
  | CallGetBytes key => mmap AnsBytes (GetBytes e key)
  | CallPut key value => mmap AnsError (Put e key value)
  | CallPutBytes key value => mmap AnsError (PutBytes e key value)
  | CallDelete key => mmap AnsError (Delete e key)
  | CallScanPrefixKeys prefix => mmap AnsKeys (ScanPrefixKeys e prefix)
  | CallGetAllKeys => mmap AnsKeys (GetAllKeys e)
  | CallBatchPut items => mmap AnsError (BatchPut e items)
  | CallBatchGetValues keys => mmap AnsStrings (BatchGetValues e keys)
  | CallBatchGetBytes keys => mmap AnsSlices (BatchGetBytes e keys)
  | CallBatchPutBytes items => mmap AnsError (BatchPutBytes e items)
  | CallBatchDelete keys => mmap AnsError (BatchDelete e keys)
  | CallSetBulkImport on => mmap AnsError (SetBulkImport e on)
  | CallFlush => mmap AnsError (Flush e)
  | CallFlushWAL => mmap AnsError (FlushWAL e)
  | CallSync => mmap AnsError (Sync e)
  end.

Fixpoint run_calls e (cs : list call) : M World (list answer) :=
  match cs with
  | [] => mret []
  | c :: cs =>
      let! r := run_call e c in
      let! rs := run_calls e cs in
      mret (r :: rs)
  end.

Lemma mmap_framed {A B} w e o g (f : A → B) (m : M World A) :
  live w e o g → wf (proc w) → framed w (handle o) (m w) → framed w (handle o) (mmap f m w).
Proof. intros Hl Hwf Hm. eapply framed_bind; [done..|]. intros. by eapply framed_ret. Qed.

Lemma call_framed w e o g c :
  live w e o g → wf (proc w) → framed w (handle o) (run_call e c w).
Proof.
  intros Hl Hwf. destruct c; cbn [run_call]; (eapply mmap_framed; [done..|]);
    eauto using Get_framed, GetBytes_framed, PutBytes_framed, Delete_framed, ScanPrefixKeys_framed,
      BatchPut_framed, BatchPutBytes_framed, BatchDelete_framed, SetBulkImport_framed,
      Flush_framed, FlushWAL_framed, Sync_framed, get_each_framed.
Qed.

Lemma calls_framed w e o g cs :
  live w e o g → wf (proc w) → framed w (handle o) (run_calls e cs w).
Proof.
  revert w g. induction cs as [|c cs IH]; intros w g Hl Hwf; cbn [run_calls]; [by eapply framed_ret|].
  eapply framed_bind; [done..|by eapply call_framed|]. intros r w1 g1 _ Hl1 Hwf1.
  eapply framed_bind; [done..|by eapply IH|]. intros. by eapply framed_ret.
Qed.

(** ** Opening *)

(** Why a data directory is refused, or the path the engine is opened at. *)
Definition check_dir (path : string) : string + string :=
  match from_utf8 (c_prefix (String.list_byte_of_string path)) with
  | inl e => inl ("Invalid UTF-8 in data_dir: " +:+ Utf8Error_display e)
  | inr dir => if bool_decide (dir = "") then inl "Invalid argument: data_dir is empty" else inr dir
  end.

Lemma validate_data_dir_live s a path :
  a ≠ 0 → heap s !! a = Some (c_copy path) →
  validate_data_dir a s =
    match check_dir path with
    | inl msg => Ret (inl ErrorInvalidArgument) (err msg s)
    | inr dir => Ret (inr dir) s
    end.
Proof.
  intros Ha Hp. unfold validate_data_dir, check_dir. rewrite (proj2 (Z.eqb_neq _ _)) by done.
  unfold bind at 1. rewrite (read_c_str_malloc _ _ _ Hp).
  destruct (from_utf8 _) as [e|dir]; [done|]. by case_bool_decide.
Qed.

(** Both [f4kvs_engine_open] and [f4kvs_engine_open_ex] on a C copy of [path]. *)
Definition opened s path (opts : option F4KvsOpenOptions) : outcome Proc Z :=
  match check_dir path with
  | inl msg => Ret 0 (err msg s)
  | inr dir =>
      match lsm_new (open_config dir opts) (dsk s) with
      | (inl e, d) =>
          Ret 0 (err "Failed to open engine: ErrorStorage"
                   (err ("Failed to open LSM engine: " +:+ e) (set_disk d s)))
      | (inr g, d) =>
          let a := alloc_addr (heap s) in Ret a (set_heap (<[a := BEngine g]> (heap s)) (set_disk d s))
      end
  end.

Lemma open_boxed s dir opts :
  (let! r := open_lsm_engine dir opts in box_engine "Failed to open engine: " r) s =
  match lsm_new (open_config dir opts) (dsk s) with
  | (inl e, d) =>
      Ret 0 (err "Failed to open engine: ErrorStorage"
               (err ("Failed to open LSM engine: " +:+ e) (set_disk d s)))
  | (inr g, d) =>
      let a := alloc_addr (heap s) in Ret a (set_heap (<[a := BEngine g]> (heap s)) (set_disk d s))
  end.
Proof. unfold bind, open_lsm_engine. by destruct (lsm_new _ _) as [[e|g] d]. Qed.

(** The fields of the Go options are of their Go types. *)
Definition go_options_fit (o : OpenOptions) : Prop := options_fit (copts o).

Definition open_call (opts : option OpenOptions) (cpath : Z) : M Proc Z :=
  match opts with
  | None => f4kvs_engine_open cpath
  | Some o => f4kvs_engine_open_ex cpath
                (Some (encode_options [x00; x00; x00] [x00] [x00; x00; x00] (copts o)))
  end.

Lemma open_call_live s a path opts :
  a ≠ 0 → heap s !! a = Some (c_copy path) → (∀ po, opts = Some po → go_options_fit po) →
  open_call opts a s = opened s path (copts <$> opts).
Proof.
  intros Ha Hp Hfit. unfold opened. destruct opts as [o|]; cbn [open_call].
  - unfold f4kvs_engine_open_ex, bind at 1. rewrite (validate_data_dir_live _ _ _ Ha Hp).
    destruct (check_dir path); [done|].
    rewrite read_open_options_full; [apply open_boxed|done|by apply Hfit|done].
  - unfold f4kvs_engine_open, bind at 1. rewrite (validate_data_dir_live _ _ _ Ha Hp).
    destruct (check_dir path); [done|apply open_boxed].
Qed.

Definition open_failed path s n m : outcome World (GoError + nat) :=
  Ret (inl (Errorf "f4kvs open %s: %s" [path; seen s])) (mkWorld (enter s) m n).

(** Opening, on every path: the error, or a new object whose handle is the boxed
    engine opened with the configuration the options give. *)
Lemma Open_spec w path opts :
  (∀ po, opts = Some po → go_options_fit po) →
  NewPersistentEngineWithOptions path opts w =
    let s := enter (proc w) in
    match check_dir path with
    | inl msg => open_failed path (err msg s) (ranges w) (objs w)
    | inr dir =>
        match lsm_new (open_config dir (copts <$> opts)) (dsk s) with
        | (inl e, d) =>
            open_failed path (err "Failed to open engine: ErrorStorage"
              (err ("Failed to open LSM engine: " +:+ e) (set_disk d s))) (ranges w) (objs w)
        | (inr g, d) =>
            let c := alloc_addr (heap s) in
            let a := alloc_addr ({[c := c_copy path]} ∪ heap s) in
            let e := fresh (dom (objs w)) in
            Ret (inr e) (mkWorld (set_heap (<[a := BEngine g]> (heap s)) (set_disk d s))
                           (<[e := mkF4KVS a unlocked false]> (objs w)) (ranges w))
        end
    end.
Proof.
  intros Hfit. cbv zeta. set (c := alloc_addr (heap (enter (proc w)))).
  assert (Hc : 1 < c) by apply alloc_above.
  set (tail := λ h, if h =? 0 then let! er := fail_with "f4kvs open %s: %s" [path] in mret (inl er)
                    else let! e := new_object h in mret (inr e)).
  assert (Hcode : NewPersistentEngineWithOptions path opts =
    let! cpath := CString path in defer! C_free cpath in
    let! h := cgo (open_call opts cpath) in tail h) by (by destruct opts).
  assert (Hcall : (let! h := cgo (open_call opts c) in tail h)
      (set_proc (add {[c := c_copy path]} (proc w)) w) =
    match opened (enter (add {[c := c_copy path]} (proc w))) path (copts <$> opts) with
    | Ret h s => tail h (set_proc s w) | Panic m s => Panic m (set_proc s w)
    | Stuck s => Stuck (set_proc s w) | Undefined => Undefined end).
  { unfold bind, cgo, clib. fold (enter (proc (set_proc (add {[c := c_copy path]} (proc w)) w))).
    rewrite <-open_call_live with (a := c); [|lia| |done].
    - by destruct (open_call opts c _).
    - apply lookup_union_Some_l, lookup_singleton_eq. }
  rewrite Hcode. unfold opened in Hcall. unfold open_failed.
  assert (Hfresh : heap (proc w) !! c = None) by apply alloc_fresh.
  destruct (check_dir path) as [msg|dir]; [by apply cstring_ret|].
  change (dsk (enter (add _ (proc w)))) with (dsk (enter (proc w))) in Hcall.
  destruct (lsm_new _ _) as [[e|g] d]; [by apply cstring_ret|].
  pose proof (alloc_above ({[c := c_copy path]} ∪ heap (proc w))) as Hab.
  pose proof (alloc_fresh ({[c := c_copy path]} ∪ heap (proc w))) as Hf.
  apply lookup_union_None in Hf as [Hne _].
  set (a := alloc_addr _) in *. apply lookup_singleton_None in Hne.
  apply cstring_ret; [|simpl; by rewrite lookup_insert_ne].
  etrans; [exact Hcall|]. cbv zeta.
  change (heap (enter (add {[c := c_copy path]} (proc w)))) with ({[c := c_copy path]} ∪ heap (proc w)).
  fold a. unfold tail. rewrite (proj2 (Z.eqb_neq _ _)) by lia.
  unfold bind, new_object, mret, add, set_objs, set_proc, set_heap. simpl.
  rewrite insert_union_r by (by apply lookup_singleton_ne). reflexivity.
Qed.

(** ** After [Close] *)

(** What a method of a closed engine answers: empty batches and empty key lists
    are answered before the lock is taken. *)
Definition closed_answer (c : call) : answer :=
  let unless_empty (b : bool) := AnsError (if b then None else Some ErrClosed) in
  match c with
  | CallGet _ => AnsString (inl ErrClosed)
  | CallGetBytes _ => AnsBytes (inl ErrClosed)
  | CallScanPrefixKeys _ | CallGetAllKeys => AnsKeys None
  | CallBatchPut items => unless_empty (bool_decide (items = ∅))
  | CallBatchPutBytes items => unless_empty (bool_decide (items = ∅))
  | CallBatchDelete keys => unless_empty (bool_decide (keys = []))
  | CallBatchGetValues keys => AnsStrings (if bool_decide (keys = []) then inr ∅ else inl ErrClosed)
  | CallBatchGetBytes keys => AnsSlices (if bool_decide (keys = []) then inr ∅ else inl ErrClosed)
  | _ => AnsError (Some ErrClosed)
  end.

Section Closed.
Context (w : World) (e : nat) (o : F4KVS).
Hypothesis Ho : objs w !! e = Some o.
Hypothesis Hw : rw_writer (mu o) = false.
Hypothesis Hc : closed o = true ∨ handle o = 0.

Lemma guarded_closed {A} (onerr : GoError → M World A) (body : M World A) :
  (let! er := rLockLive e in
   match er with Some er => onerr er | None => defer! RUnlock e in body end) w = onerr ErrClosed w.
Proof. by rewrite (bind_ret _ _ _ _ _ (rLockLive_closed _ _ _ Ho Hw Hc)). Qed.

Lemma ScanPrefixKeys_closed prefix : ScanPrefixKeys e prefix w = Ret None w.
Proof.
  unfold ScanPrefixKeys. rewrite (bind_ret _ _ _ _ _ (RLock_some _ _ _ Ho Hw)).
  eapply finally_ret; [|by apply (RUnlock_some (proc w) (objs w) (ranges w) e o)].
  rewrite (bind_ret _ _ _ _ _ (load_some _ _ _ (lookup_insert_eq _ _ _))). simpl.
  replace (closed o || (handle o =? 0)) with true; [done|].
  destruct Hc as [-> | ->]; [done|by rewrite orb_true_r].
Qed.

Lemma GetBytes_closed key : GetBytes e key w = Ret (inl ErrClosed) w.
Proof. apply guarded_closed. Qed.

Lemma PutBytes_closed key v : PutBytes e key v w = Ret (Some ErrClosed) w.
Proof. apply guarded_closed. Qed.

Lemma call_closed c :
  ∃ n, run_call e c w = Ret (closed_answer c) (mkWorld (proc w) (objs w) n).
Proof.
  assert (Hget : ∀ key, Get e key w = Ret (inl ErrClosed) w)
    by (intros key; unfold Get; by rewrite (bind_ret _ _ _ _ _ (GetBytes_closed key))).
  destruct c; cbn [run_call closed_answer]; unfold mmap;
    try (exists (ranges w); erewrite bind_ret; [done|];
         first [apply Hget|apply guarded_closed|apply ScanPrefixKeys_closed]).
  - exists (S (ranges w)). erewrite bind_ret; [done|]. unfold BatchPut. erewrite bind_ret by done.
    case_bool_decide as Hi.
    + subst. pose proof (range_perm _ (ranges w) (∅ : gmap string string)) as Hp.
      rewrite map_to_list_empty in Hp. by apply Permutation_nil_r in Hp as ->.
    + destruct (range_order (ranges w) items) as [|[k v] l] eqn:E.
      * pose proof (range_perm _ (ranges w) items) as Hp. rewrite E in Hp.
        by apply Permutation_nil, map_to_list_empty_iff in Hp.
      * pose proof (rLockLive_closed (mkWorld (proc w) (objs w) (S (ranges w))) e o Ho Hw Hc) as Hlock.
        cbn [put_each]. unfold Put, PutBytes. rewrite bind_assoc. by rewrite (bind_ret _ _ _ _ _ Hlock).
  - exists (ranges w). destruct keys as [|k keys]; [done|]. erewrite bind_ret; [done|].
    unfold BatchGetValues. cbn [get_each]. by rewrite (bind_ret _ _ _ _ _ (Hget k)).
  - exists (ranges w). destruct keys as [|k keys]; [done|]. erewrite bind_ret; [done|].
    unfold BatchGetBytes. cbn [get_each]. by rewrite (bind_ret _ _ _ _ _ (GetBytes_closed k)).
  - exists (ranges w). erewrite bind_ret; [done|]. unfold BatchPutBytes.
    rewrite (bool_decide_ext (size items = 0%nat) (items = ∅)) by apply map_size_empty_iff.
    case_bool_decide; [done|]. apply guarded_closed.
  - exists (ranges w). destruct keys as [|k keys]; [done|]. erewrite bind_ret; [done|].
    apply guarded_closed.
Qed.

End Closed.

(** ** Whole sessions *)

(** A client: open, [defer e.Close()], a sequence of calls. *)
Definition session (path : string) (opts : option OpenOptions) (cs : list call)
    : M World (GoError + list answer) :=
  let! r := NewPersistentEngineWithOptions path opts in
  match r with
  | inl er => mret (inl er)
  | inr e => defer! Close e in let! rs := run_calls e cs in mret (inr rs)
  end.

Definition same_memory s s' : Prop :=
  heap s' = heap s ∧ string_allocations s' = string_allocations s ∧
  bytes_allocations s' = bytes_allocations s.

Lemma open_handle_fresh s path :
  let a := alloc_addr ({[alloc_addr (heap s) := c_copy path]} ∪ heap s) in
  1 < a ∧ heap s !! a = None.
Proof.
  intros a. split; [apply alloc_above|].
  pose proof (alloc_fresh ({[alloc_addr (heap s) := c_copy path]} ∪ heap s)) as Hf.
  by apply lookup_union_None in Hf as [_ ?].
Qed.

Lemma live_opened s path g d m n e :
  let a := alloc_addr ({[alloc_addr (heap s) := c_copy path]} ∪ heap s) in
  live (mkWorld (set_heap (<[a := BEngine g]> (heap s)) (set_disk d s))
          (<[e := mkF4KVS a unlocked false]> m) n) e (mkF4KVS a unlocked false) g.
Proof.
  intros a. pose proof (open_handle_fresh s path) as [Ha _]. fold a in Ha.
  split; simpl; rewrite ?lookup_insert_eq; try done. lia.
Qed.

Lemma wf_new_engine s a g d :
  wf s → 1 < a → heap s !! a = None → wf (set_heap (<[a := BEngine g]> (heap s)) (set_disk d s)).
Proof.
  intros [Hl Hs Hb] Ha Hf. split; simpl.
  - intros a' b. rewrite lookup_insert. case_decide; naive_solver.
  - intros a' Hin. destruct (Hs a' Hin) as [l Hl']. exists l. rewrite lookup_insert_ne; congruence.
  - intros a' n Hn. destruct (Hb a' n Hn) as (l & Hl' & ?). exists l.
    rewrite lookup_insert_ne; [done|]. congruence.
Qed.

Lemma finally_Close {A} w0 w1 e a g (m : M World A) :
  live w1 e (mkF4KVS a unlocked false) g → framed w1 a (m w1) →
  heap (proc w1) = <[a := BEngine g]> (heap (proc w0)) → heap (proc w0) !! a = None →
  string_allocations (proc w1) = string_allocations (proc w0) →
  bytes_allocations (proc w1) = bytes_allocations (proc w0) →
  match finally m (Close e) w1 with
  | Ret _ w' | Panic _ w' => same_memory (proc w0) (proc w') ∧ objs w' = <[e := closed_object]> (objs w1)
  | _ => False
  end.
Proof.
  intros Hl Hf Hh Ha Hs Hb. unfold finally.
  assert (Hclose : ∀ w', (∃ g', frame w1 w' a g') → ∃ s', Close e w' =
    Ret tt (mkWorld s' (<[e := closed_object]> (objs w1)) (ranges w')) ∧ same_memory (proc w0) s').
  { intros w' [g' Hf']. pose proof (frame_live _ _ _ _ _ _ Hl Hf') as Hl'.
    destruct Hf' as [Hobj [Hheap Hs' Hb' _]].
    rewrite (Close_live _ _ _ _ Hl' eq_refl), Hobj. eexists; split; [done|].
    unfold shut, same_memory. cbn [handle].
    destruct (run_eff _ _ _ _) as [[?|?] [[? ?]|]]; simpl;
      rewrite ?Hheap, ?Hs', ?Hb', ?Hs, ?Hb, Hh, insert_insert_eq, delete_insert_id by done; done. }
  destruct (m w1) as [r w'|msg w'|w'|]; try done;
    destruct (Hclose w' Hf) as (s' & -> & Hsame); by split.
Qed.

End Session.
