(* ===== verification/Semantics.v ===== *)
(** * What the binding promises: a key-value map

    The abstract specification of [F4KVS] is a map from texts to values.
    [kv_step m c ans m'] says that call [c] on a map [m] may answer [ans] and leave
    [m'].  The binding refines it: a call on an open engine that reports success is
    such a step on the contents of the engine behind the handle, through the lock,
    the C strings, the argument checks and the engine's contract. *)

From S2P Require Import Prelude Engine Utf8 Options Ffi Binding FfiFacts BindingFacts Session.

(** Keys a C string can carry whole. *)
Definition plain_key (key : string) : Prop := nul_free (String.list_byte_of_string key) = true.

#[global] Instance plain_key_dec key : Decision (plain_key key) := bool_eq_dec _ _.

Section Semantics.
Context `{L : LsmEngine} {Laws : LsmLaws L}.
Context {P : Platform} {POk : PlatformOk P} {G : GoRuntime} {GOk : GoRuntimeOk G}.
Implicit Types (w : World) (s : Proc) (g : lsm) (e : nat) (o : F4KVS).
Implicit Types (m : gmap string (Value json)).

(** ** Texts of keys *)

(** The text the engine is given for a Go string, when it is given one. *)
Definition text_of (r : string + string) : option string :=
  match r with inl _ => None | inr k => Some k end.
Definition key_text (key : string) : option string := text_of (check_key key).
Definition prefix_text (prefix : string) : option string :=
  text_of (check_text "prefix" MAX_KEY_LENGTH (c_prefix (String.list_byte_of_string prefix))).

(** The conditions on a key: after the cut at its first NUL it has at most
    1 MiB and is UTF-8. *)
Definition key_fits (key : string) : Prop :=
  let l := c_prefix (String.list_byte_of_string key) in
  zlen l ≤ MAX_KEY_LENGTH ∧ utf8_valid l = true.

Lemma text_of_check field max l :
  text_of (check_text field max l) =
    if (zlen l <=? max) && utf8_valid l then Some (String.string_of_list_byte l) else None.
Proof.
  unfold check_text, utf8_valid, from_utf8.
  destruct (Z.ltb_spec max (zlen l)), (Z.leb_spec (zlen l) max); try lia; [done|].
  by destruct (utf8_scan 0 l).
Qed.

Lemma key_text_Some key k : key_text key = Some k ↔ key_fits key ∧ k = c_string key.
Proof.
  unfold key_text, check_key, key_fits, c_string. rewrite text_of_check.
  set (l := c_prefix _). destruct (Z.leb_spec (zlen l) MAX_KEY_LENGTH), (utf8_valid l); simpl;
    (split; [intros; simplify_eq|intros [[]]]; naive_solver lia).
Qed.

Lemma key_text_check key k : check_key key = inr k → key_text key = Some k.
Proof. unfold key_text. by intros ->. Qed.

(** ** The specification *)

(** The texts and values a batch of Go pairs stands for. *)
Definition texts_of (items : list (string * list byte)) (l : list (string * Value json)) : Prop :=
  Forall2 (λ kv tv, key_text kv.1 = Some tv.1 ∧ zlen kv.2 ≤ MAX_VALUE_LENGTH ∧ tv.2 = VBytes kv.2)
    items l.

Definition keys_with_prefix m (p : string) (ks : list string) : Prop :=
  NoDup ks ∧ ∀ k, k ∈ ks ↔ is_Some (m !! k) ∧ String.prefix p k = true.

(** Looking a Go key up. *)
Definition kv_get m (key : string) (r : GoError + goslice) : Prop :=
  ∃ k, key_text key = Some k ∧
    match m !! k with
    | None => r = inl ErrNotFound
    | Some v => ∃ b, go_bytes (value_to_bytes v) = Some b ∧ r = inr b
    end.

Definition kv_get_all m {V} (conv : goslice → V) (keys : list string) (r : gmap string V) : Prop :=
  ∃ bs, Forall2 (λ key b, kv_get m key (inr b)) keys bs ∧
        r = insert_all (zip keys (conv <$> bs)) ∅.

Inductive kv_step m : call → answer → gmap string (Value json) → Prop :=
| kv_get_bytes key r : kv_get m key r → kv_step m (CallGetBytes key) (AnsBytes r) m
| kv_get_string key b :
    kv_get m key (inr b) → kv_step m (CallGet key) (AnsString (inr (string_of_slice b))) m
| kv_get_string_missing key :
    kv_get m key (inl ErrNotFound) → kv_step m (CallGet key) (AnsString (inl ErrNotFound)) m
| kv_put_bytes key v k :
    key_text key = Some k → zlen (slice_bytes v) ≤ MAX_VALUE_LENGTH →
    kv_step m (CallPutBytes key v) (AnsError None) (<[k := VBytes (slice_bytes v)]> m)
| kv_put key v k :
    key_text key = Some k → zlen (String.list_byte_of_string v) ≤ MAX_VALUE_LENGTH →
    kv_step m (CallPut key v) (AnsError None) (<[k := VBytes (String.list_byte_of_string v)]> m)
| kv_delete key k :
    key_text key = Some k → kv_step m (CallDelete key) (AnsError None) (delete k m)
| kv_scan prefix p ks :
    prefix_text prefix = Some p → keys_with_prefix m p ks →
    kv_step m (CallScanPrefixKeys prefix) (AnsKeys (Some ks)) m
| kv_all ks :
    keys_with_prefix m "" ks → kv_step m CallGetAllKeys (AnsKeys (Some ks)) m
| kv_batch_put items order l :
    order ≡ₚ map_to_list items →
    texts_of (prod_map id String.list_byte_of_string <$> order) l →
    kv_step m (CallBatchPut items) (AnsError None) (insert_all l m)
| kv_batch_put_bytes items order l :
    order ≡ₚ map_to_list items → texts_of (prod_map id slice_bytes <$> order) l →
    kv_step m (CallBatchPutBytes items) (AnsError None) (insert_all l m)
| kv_batch_delete keys ks :
    Forall2 (λ key k, key_text key = Some k) keys ks →
    kv_step m (CallBatchDelete keys) (AnsError None) (delete_all ks m)
| kv_batch_get keys r :
    kv_get_all m string_of_slice keys r → kv_step m (CallBatchGetValues keys) (AnsStrings (inr r)) m
| kv_batch_get_bytes keys r :
    kv_get_all m id keys r → kv_step m (CallBatchGetBytes keys) (AnsSlices (inr r)) m
| kv_bulk on : kv_step m (CallSetBulkImport on) (AnsError None) m
| kv_flush : kv_step m CallFlush (AnsError None) m
| kv_flush_wal : kv_step m CallFlushWAL (AnsError None) m
| kv_sync : kv_step m CallSync (AnsError None) m.

(** The answers that report success; [ErrNotFound] is an answer to a get. *)
Definition succeeded (a : answer) : Prop :=
  match a with
  | AnsError er => er = None
  | AnsString (inl er) => er = ErrNotFound
  | AnsBytes (inl er) => er = ErrNotFound
  | AnsKeys r => r ≠ None
  | AnsStrings (inl _) | AnsSlices (inl _) => False
  | _ => True
  end.

(** A value below 2 GiB comes back whole. *)
Lemma go_bytes_small b : zlen b < 2 ^ 31 → go_bytes b = Some (Some b).
Proof.
  intros Hz. unfold go_bytes. destruct (Z.eqb_spec (zlen b) 0) as [H0|H0].
  - by rewrite (zlen_nil_inv _ H0).
  - rewrite to_int32_small by (pose proof (zlen_nonneg b); lia).
    rewrite (proj2 (Z.ltb_ge _ _)) by apply zlen_nonneg. unfold zlen. by rewrite Nat2Z.id, firstn_all.
Qed.

(** ** Effects that succeed *)

Definition engine_after g (y : option (lsm * disk)) : lsm :=
  match y with Some (g', _) => g' | None => g end.

Lemma run_eff_inr {A} what (op : LsmOp lsm disk A) g d r y :
  run_eff what op g d = (inr r, y) → ∃ g' d', op g d = (inr r, (g', d')) ∧ y = Some (g', d').
Proof. unfold run_eff. destruct (op g d) as [[] [g' d']]; intros; simplify_eq; eauto. Qed.

Lemma key_eff_inr {A} key (f : string → eff A) r y :
  key_eff key f = (inr r, y) → ∃ k, key_text key = Some k ∧ f k = (inr r, y).
Proof.
  unfold key_eff. destruct (check_key key) eqn:E; [done|]. intros. eauto using key_text_check.
Qed.

Lemma put_eff_inr key v g d r y :
  put_eff key v g d = (inr r, y) →
  ∃ k, key_text key = Some k ∧ zlen v ≤ MAX_VALUE_LENGTH ∧
       contents (engine_after g y) = <[k := VBytes v]> (contents g).
Proof.
  unfold put_eff. intros (k & Hk & H)%key_eff_inr.
  destruct (Z.ltb_spec MAX_VALUE_LENGTH (zlen v)); [done|].
  apply run_eff_inr in H as (g' & d' & H & ->). destruct r. eauto using put_ok.
Qed.

Lemma delete_eff_inr key g d r y :
  delete_eff key g d = (inr r, y) →
  ∃ k, key_text key = Some k ∧ contents (engine_after g y) = delete k (contents g).
Proof.
  intros (k & Hk & (g' & d' & H & ->)%run_eff_inr)%key_eff_inr. destruct r. eauto using delete_ok.
Qed.

Lemma get_eff_inr key g d r y :
  get_eff key g d = (inr r, y) →
  ∃ k, key_text key = Some k ∧ r = contents g !! k ∧ contents (engine_after g y) = contents g.
Proof.
  intros (k & Hk & (g' & d' & H & ->)%run_eff_inr)%key_eff_inr. apply get_ok in H as [? ?]. eauto.
Qed.

Lemma count_eff_inr n g x r y :
  count_eff n g x = (inr r, y) → n ≤ max_batch_size (lsm_config g) ∧ x = (inr r, y).
Proof. unfold count_eff. destruct (Z.ltb_spec (max_batch_size (lsm_config g)) n); [done|]. auto. Qed.

Lemma batch_check_inr i items l : batch_check i items = inr l → texts_of items l.
Proof.
  revert i l. induction items as [|[key v] items IH]; intros i l; simpl.
  - intros. simplify_eq. constructor.
  - destruct (check_key key) as [|k] eqn:Hk; [done|].
    destruct (Z.ltb_spec MAX_VALUE_LENGTH (zlen v)); [done|].
    destruct (batch_check (S i) items) eqn:Hb; [done|]. intros. simplify_eq.
    constructor; [by eauto using key_text_check|by eapply IH].
Qed.

Lemma keys_check_inr keys l : keys_check keys = inr l → Forall2 (λ key k, key_text key = Some k) keys l.
Proof.
  revert l. induction keys as [|key keys IH]; intros l; simpl.
  - intros. simplify_eq. constructor.
  - destruct (check_key key) as [|k] eqn:Hk; [done|].
    destruct (keys_check keys) eqn:Hb; [done|]. intros. simplify_eq.
    constructor; [by eauto using key_text_check|by eapply IH].
Qed.

Lemma batch_put_eff_inr items g d r y :
  batch_put_eff items g d = (inr r, y) →
  zlen items ≤ max_batch_size (lsm_config g) ∧
  ∃ l, texts_of items l ∧ contents (engine_after g y) = insert_all l (contents g).
Proof.
  intros [Hn H]%count_eff_inr. split; [done|].
  destruct (batch_check 0 items) as [|l] eqn:Hb; [done|]. exists l.
  split; [by eapply batch_check_inr|].
  apply run_eff_inr in H as (g' & d' & H & ->). destruct r. eauto using batch_put_ok.
Qed.

Lemma batch_delete_eff_inr keys g d r y :
  batch_delete_eff keys g d = (inr r, y) →
  zlen keys ≤ max_batch_size (lsm_config g) ∧
  ∃ ks, Forall2 (λ key k, key_text key = Some k) keys ks ∧
        contents (engine_after g y) = delete_all ks (contents g).
Proof.
  intros [Hn H]%count_eff_inr. split; [done|].
  destruct (keys_check keys) as [|l] eqn:Hb; [done|]. exists l.
  split; [by eapply keys_check_inr|].
  apply run_eff_inr in H as (g' & d' & H & ->). destruct r. eauto using batch_delete_ok.
Qed.

Lemma scan_eff_inr prefix g d ks y :
  scan_eff prefix g d = (inr ks, y) →
  ∃ p, prefix_text prefix = Some p ∧ keys_with_prefix (contents g) p ks ∧
       contents (engine_after g y) = contents g.
Proof.
  unfold scan_eff, prefix_text. destruct (check_text _ _ _) as [|p]; [done|].
  intros (g' & d' & (? & ? & ?)%scan_ok & ->)%run_eff_inr. by exists p.
Qed.

(** ** Methods that succeed *)

(** A method left the world as a step of its engine to [g'] does. *)
Definition stepped w' e o g' : Prop := live w' e o g' ∧ wf (proc w').

Lemma stepped_only w e o g s' g' n :
  live w e o g → wf (proc w) → only_engine (proc w) s' (handle o) g' →
  stepped (mkWorld s' (objs w) n) e o g'.
Proof.
  intros Hl Hwf H. split; [by eapply frame_live|]. eapply only_engine_wf; [apply Hl|done..].
Qed.

Lemma stepped_after w e o g y n :
  live w e o g → wf (proc w) →
  stepped (mkWorld (after (handle o) y (enter (proc w))) (objs w) n) e o (engine_after g y) ∧
  stepped (mkWorld (enter (after (handle o) y (enter (proc w)))) (objs w) n) e o (engine_after g y).
Proof.
  intros Hl Hwf. destruct (only_engine_after (proc w) (handle o) g y (live_engine _ _ _ _ Hl)) as (g' & H & Hg').
  replace (engine_after g y) with g' by done.
  split; apply (stepped_only w e o g); try done. by apply only_engine_enter.
Qed.

Lemma finish_success {A} fmt args w e o g (x : eff A) n w' :
  live w e o g → wf (proc w) →
  (let '(r, s') := finish fmt args (handle o) x (enter (proc w)) in
   Ret r (mkWorld s' (objs w) n)) = Ret None w' →
  ∃ r y, x = (inr r, y) ∧ stepped w' e o (engine_after g y).
Proof.
  intros Hl Hwf. destruct x as [[msg|r] y]; simpl; intros; simplify_eq.
  exists r, y. split; [done|]. by apply (stepped_after w e o g y n).
Qed.

Ltac finished Hl Hwf lem :=
  let H := fresh in intros H; rewrite lem in H;
  apply (finish_success _ _ _ _ _ _ _ _ _ Hl Hwf) in H as (r & y & H & Hs);
  eexists; split; [exact Hs|].

Lemma PutBytes_ok w e o g key v w' :
  live w e o g → wf (proc w) → PutBytes e key v w = Ret None w' →
  ∃ g', stepped w' e o g' ∧ ∃ k, key_text key = Some k ∧ zlen (slice_bytes v) ≤ MAX_VALUE_LENGTH ∧
        contents g' = <[k := VBytes (slice_bytes v)]> (contents g).
Proof.
  intros Hl Hwf. finished Hl Hwf (PutBytes_live _ _ _ _ key v Hl). by eapply put_eff_inr.
Qed.

Lemma Delete_ok w e o g key w' :
  live w e o g → wf (proc w) → Delete e key w = Ret None w' →
  ∃ g', stepped w' e o g' ∧ ∃ k, key_text key = Some k ∧ contents g' = delete k (contents g).
Proof.
  intros Hl Hwf. finished Hl Hwf (Delete_live _ _ _ _ key Hl). by eapply delete_eff_inr.
Qed.

Lemma BatchDelete_ok w e o g keys w' :
  live w e o g → wf (proc w) → BatchDelete e keys w = Ret None w' →
  ∃ g', stepped w' e o g' ∧ ∃ ks, Forall2 (λ key k, key_text key = Some k) keys ks ∧
        contents g' = delete_all ks (contents g).
Proof.
  intros Hl Hwf. destruct (decide (keys = [])) as [->|Hk].
  - unfold BatchDelete, mret. simpl. intros. simplify_eq. exists g. split; [by split|].
    exists []. by split; [constructor|].
  - finished Hl Hwf (BatchDelete_live _ _ _ _ keys Hl Hk). by eapply batch_delete_eff_inr.
Qed.

Lemma BatchPutBytes_ok w e o g items w' :
  live w e o g → wf (proc w) → BatchPutBytes e items w = Ret None w' →
  ∃ g', stepped w' e o g' ∧ ∃ order l, order ≡ₚ map_to_list items ∧
        texts_of (prod_map id slice_bytes <$> order) l ∧
        contents g' = insert_all l (contents g).
Proof.
  intros Hl Hwf. destruct (decide (size items = O)) as [H0|H0].
  - unfold BatchPutBytes. rewrite bool_decide_eq_true_2 by done. unfold mret. intros. simplify_eq.
    exists g. split; [by split|]. apply map_size_empty_inv in H0 as ->. exists [], [].
    rewrite map_to_list_empty. by repeat split; constructor.
  - destruct (BatchPutBytes_live _ _ _ _ items Hl H0) as [H|[H _]]; rewrite H; [|done].
    intros Hf. apply (finish_success _ _ _ _ _ _ _ _ _ Hl Hwf) in Hf as (r & y & Hf & Hs).
    exists (engine_after g y). split; [done|].
    apply batch_put_eff_inr in Hf as (_ & l & Ht & Hc).
    exists (range_order (ranges w) items), l. by split; [apply range_perm|].
Qed.

Lemma SetBulkImport_ok w e o g on w' :
  live w e o g → wf (proc w) → SetBulkImport e on w = Ret None w' →
  ∃ g', stepped w' e o g' ∧ contents g' = contents g.
Proof.
  intros Hl Hwf. finished Hl Hwf (SetBulkImport_live _ _ _ _ on Hl). simplify_eq. apply set_bulk_ok.
Qed.

Ltac maintenance Hl Hwf lem ok :=
  finished Hl Hwf lem;
  match goal with H : run_eff _ _ _ _ = _ |- _ => apply run_eff_inr in H as (g' & d' & H & ->) end;
  match goal with u : unit |- _ => destruct u end; by eapply ok.

Lemma Flush_ok w e o g w' :
  live w e o g → wf (proc w) → Flush e w = Ret None w' →
  ∃ g', stepped w' e o g' ∧ contents g' = contents g.
Proof. intros Hl Hwf. maintenance Hl Hwf (Flush_live _ _ _ _ Hl) flush_ok. Qed.

Lemma FlushWAL_ok w e o g w' :
  live w e o g → wf (proc w) → FlushWAL e w = Ret None w' →
  ∃ g', stepped w' e o g' ∧ contents g' = contents g.
Proof. intros Hl Hwf. maintenance Hl Hwf (FlushWAL_live _ _ _ _ Hl) flush_wal_ok. Qed.

Lemma Sync_ok w e o g w' :
  live w e o g → wf (proc w) → Sync e w = Ret None w' →
  ∃ g', stepped w' e o g' ∧ contents g' = contents g.
Proof. intros Hl Hwf. maintenance Hl Hwf (Sync_live _ _ _ _ Hl) compact_ok. Qed.

Lemma GetBytes_ok w e o g key r w' :
  live w e o g → wf (proc w) → GetBytes e key w = Ret r w' → succeeded (AnsBytes r) →
  ∃ g', stepped w' e o g' ∧ kv_get (contents g) key r ∧ contents g' = contents g.
Proof.
  intros Hl Hwf. rewrite (GetBytes_live _ _ _ _ _ Hl Hwf). unfold get_outcome, kv_get.
  pose proof (stepped_after w e o g) as Hs.
  destruct (get_eff _ _ _) as [[msg|v] y] eqn:Hx; [by intros; simplify_eq/=|].
  apply get_eff_inr in Hx as (k & Hk & -> & Hc). destruct (Hs y (ranges w) Hl Hwf) as [Hs1 Hs2].
  destruct (contents g !! k) as [v|] eqn:Hv.
  - destruct (go_bytes (value_to_bytes v)) as [b|] eqn:Hb; [|done]. intros. simplify_eq/=.
    eexists; split; [done|]. split; [|done]. exists k. split; [done|]. rewrite Hv. eauto.
  - intros. simplify_eq/=. eexists; split; [done|]. split; [|done]. exists k. by rewrite Hv.
Qed.

Lemma Get_ok w e o g key r w' :
  live w e o g → wf (proc w) → Get e key w = Ret r w' → succeeded (AnsString r) →
  ∃ g' r', stepped w' e o g' ∧ kv_get (contents g) key r' ∧
    r = match r' with inl er => inl er | inr b => inr (string_of_slice b) end ∧
    contents g' = contents g.
Proof.
  intros Hl Hwf. unfold Get, bind. destruct (GetBytes e key w) as [r' w1| | |] eqn:H1; try done.
  pose proof (GetBytes_ok _ _ _ _ _ _ _ Hl Hwf H1) as Hok.
  destruct r' as [er|b]; intros; unfold mret in *; simplify_eq/=; edestruct Hok as (g' & ? & ? & ?); eauto 10.
Qed.

Lemma ScanPrefixKeys_ok w e o g prefix ks w' :
  live w e o g → wf (proc w) → ScanPrefixKeys e prefix w = Ret (Some ks) w' →
  ∃ g' p, stepped w' e o g' ∧ prefix_text prefix = Some p ∧ keys_with_prefix (contents g) p ks ∧
    contents g' = contents g.
Proof.
  intros Hl Hwf. rewrite (ScanPrefixKeys_live _ _ _ _ _ Hl Hwf). unfold scan_outcome.
  pose proof (stepped_after w e o g) as Hs.
  destruct (scan_eff _ _ _) as [[msg|keys] y] eqn:Hx; [done|].
  apply scan_eff_inr in Hx as (p & Hp & Hk & Hc). destruct (Hs y (ranges w) Hl Hwf) as [_ Hs2].
  destruct (nul_key keys); [done|]. case_match; [done|]. intros. simplify_eq/=. eauto 10.
Qed.

(** ** Keys without NUL *)

(** A batch of pairs with such keys: its texts are the keys themselves, and its
    effect does not depend on the order of the range. *)
Lemma plain_texts_of (order : list (string * goslice)) l :
  Forall (λ kv, plain_key kv.1) order → texts_of (prod_map id slice_bytes <$> order) l →
  l = prod_map id (λ v, VBytes (slice_bytes v)) <$> order.
Proof.
  intros Hn. revert l. induction Hn as [|[key v] order Hk Hn IH]; csimpl; intros l Ht;
    inversion Ht as [|? [t tv] ? l' (Hkt & _ & Htv) Ht']; simplify_eq/=; [done|].
  apply key_text_Some in Hkt as [_ ->]. rewrite c_string_nul_free by done. f_equal. by apply IH.
Qed.

Lemma plain_keys_of keys ks :
  Forall plain_key keys → Forall2 (λ key k, key_text key = Some k) keys ks → ks = keys.
Proof.
  intros Hp HF. induction HF as [|key k keys ks Hk HF IH]; [done|].
  apply Forall_cons in Hp as [Hkey Hp]. apply key_text_Some in Hk as [_ ->].
  by rewrite c_string_nul_free, IH.
Qed.

Lemma BatchPutBytes_union w e o g (items : gmap string goslice) w' :
  live w e o g → wf (proc w) → BatchPutBytes e items w = Ret None w' →
  (∀ key, is_Some (items !! key) → plain_key key) →
  ∃ g', stepped w' e o g' ∧
    contents g' = ((λ v, VBytes (slice_bytes v)) <$> items) ∪ contents g.
Proof.
  intros Hl Hwf H Hplain.
  destruct (BatchPutBytes_ok _ _ _ _ _ _ Hl Hwf H) as (g' & Hs & order & l & Hp & Ht & Hc).
  exists g'. split; [done|]. rewrite Hc.
  assert (Hl2 : l = prod_map id (λ v, VBytes (slice_bytes v)) <$> order).
  { apply plain_texts_of; [|done]. apply Forall_forall. intros [key v] Hin. apply Hplain. exists v.
    apply elem_of_map_to_list. by rewrite <-Hp. }
  assert (Hfst : l.*1 ≡ₚ (map_to_list items).*1).
  { rewrite Hl2, <-list_fmap_compose. rewrite <-Hp. done. }
  assert (Hnd : NoDup l.*1) by (rewrite Hfst; apply NoDup_fst_map_to_list).
  rewrite insert_all_union by done. f_equal.
  rewrite <-(list_to_map_to_list (_ <$> items)). apply list_to_map_proper; [done|].
  by rewrite Hl2, map_to_list_fmap, Hp.
Qed.

(** ** Loops *)

Lemma put_each_ok w e o g items w' :
  live w e o g → wf (proc w) → put_each e items w = Ret None w' →
  ∃ g' l, stepped w' e o g' ∧ texts_of (prod_map id String.list_byte_of_string <$> items) l ∧
    contents g' = insert_all l (contents g).
Proof.
  revert w g. induction items as [|[k v] items IH]; intros w g Hl Hwf; cbn [put_each].
  - unfold mret. intros. simplify_eq. exists g, []. split; [by split|]. by split; [constructor|].
  - unfold Put, bind. destruct (PutBytes e k _ w) as [[er|] w1| | |] eqn:Hp; try done.
    apply (PutBytes_ok _ _ _ _ _ _ _ Hl Hwf) in Hp as (g1 & [Hl1 Hwf1] & t & Ht & Hv & Hc).
    intros (g' & l & Hs & Htx & Hc')%(IH w1 g1 Hl1 Hwf1).
    exists g', ((t, VBytes (String.list_byte_of_string v)) :: l).
    split; [done|]. split; [by constructor|]. by rewrite Hc', Hc.
Qed.

Lemma get_each_ok {V} (conv : goslice → V) (getter : string → M World (GoError + V)) w e o g keys acc r w' :
  (∀ key w g v w', live w e o g → wf (proc w) → getter key w = Ret (inr v) w' →
     ∃ g' b, stepped w' e o g' ∧ kv_get (contents g) key (inr b) ∧ v = conv b ∧
             contents g' = contents g) →
  live w e o g → wf (proc w) → get_each getter keys acc w = Ret (inr r) w' →
  ∃ g' bs, stepped w' e o g' ∧ Forall2 (λ key b, kv_get (contents g) key (inr b)) keys bs ∧
    r = insert_all (zip keys (conv <$> bs)) acc ∧ contents g' = contents g.
Proof.
  intros Hget. revert w g acc. induction keys as [|k keys IH]; intros w g acc Hl Hwf; cbn [get_each].
  - unfold mret. intros. simplify_eq. exists g, []. split; [by split|]. by split; [constructor|].
  - unfold bind. destruct (getter k w) as [[er|v] w1| | |] eqn:Hk; try done.
    apply (Hget _ _ _ _ _ Hl Hwf) in Hk as (g1 & b & [Hl1 Hwf1] & Hb & -> & Hc).
    intros (g' & bs & Hs & HF & -> & Hc')%(IH w1 g1 _ Hl1 Hwf1).
    rewrite Hc in HF, Hc'. exists g', (b :: bs). split; [done|]. by split; [constructor|].
Qed.

Lemma Get_conv e o key w g v w' :
  live w e o g → wf (proc w) → Get e key w = Ret (inr v) w' →
  ∃ g' b, stepped w' e o g' ∧ kv_get (contents g) key (inr b) ∧ v = string_of_slice b ∧
          contents g' = contents g.
Proof.
  intros Hl Hwf H. destruct (Get_ok _ _ _ _ _ _ _ Hl Hwf H I) as (g' & [er|b] & ? & ? & ? & ?);
    simplify_eq; eauto 10.
Qed.

Lemma GetBytes_conv e o key w g v w' :
  live w e o g → wf (proc w) → GetBytes e key w = Ret (inr v) w' →
  ∃ g' b, stepped w' e o g' ∧ kv_get (contents g) key (inr b) ∧ v = id b ∧ contents g' = contents g.
Proof.
  intros Hl Hwf H. destruct (GetBytes_ok _ _ _ _ _ _ _ Hl Hwf H I) as (g' & ? & ? & ?); eauto 10.
Qed.

Lemma GetAllKeys_text : prefix_text "" = Some "".
Proof. done. Qed.

(** ** The refinement *)

Lemma mmap_ret {A B} (f : A → B) (m : M World A) w b w' :
  mmap f m w = Ret b w' → ∃ a, m w = Ret a w' ∧ b = f a.
Proof. unfold mmap, bind, mret. destruct (m w); intros; simplify_eq; eauto. Qed.

Ltac refined g' Hc := exists g'; split; [done|]; rewrite Hc; by eauto using kv_step.

Lemma call_refines w e o g c ans w' :
  live w e o g → wf (proc w) → run_call e c w = Ret ans w' → succeeded ans →
  ∃ g', stepped w' e o g' ∧ kv_step (contents g) c ans (contents g').
Proof.
  intros Hl Hwf. destruct c; cbn [run_call]; intros (r & H & ->)%mmap_ret Hs; simpl in Hs; subst.
  - destruct (Get_ok _ _ _ _ _ _ _ Hl Hwf H Hs) as (g' & [er|b] & ? & ? & -> & Hc);
      simpl in Hs; subst; refined g' Hc.
  - destruct (GetBytes_ok _ _ _ _ _ _ _ Hl Hwf H Hs) as (g' & ? & ? & Hc); refined g' Hc.
  - destruct (PutBytes_ok _ _ _ _ _ _ _ Hl Hwf H) as (g' & ? & k & ? & ? & Hc); refined g' Hc.
  - destruct (PutBytes_ok _ _ _ _ _ _ _ Hl Hwf H) as (g' & ? & k & ? & ? & Hc); refined g' Hc.
  - destruct (Delete_ok _ _ _ _ _ _ Hl Hwf H) as (g' & ? & k & ? & Hc); refined g' Hc.
  - destruct r as [ks|]; [|done].
    destruct (ScanPrefixKeys_ok _ _ _ _ _ _ _ Hl Hwf H) as (g' & p & ? & ? & ? & Hc); refined g' Hc.
  - destruct r as [ks|]; [|done].
    destruct (ScanPrefixKeys_ok _ _ _ _ _ _ _ Hl Hwf H) as (g' & p & ? & Hp & ? & Hc).
    rewrite GetAllKeys_text in Hp. simplify_eq. refined g' Hc.
  - unfold BatchPut, bind, range in H. 
    apply (put_each_ok _ e o g) in H as (g' & l & ? & ? & Hc); [|by apply live_ranges|done].
    exists g'. split; [done|]. rewrite Hc. econstructor; [apply (range_perm _ (ranges w))|done].
  - destruct r as [|r]; [done|].
    destruct (get_each_ok string_of_slice _ _ _ _ _ _ _ _ _ (Get_conv e o) Hl Hwf H)
      as (g' & bs & ? & ? & -> & Hc).
    exists g'. split; [done|]. rewrite Hc. constructor. by exists bs.
  - destruct r as [|r]; [done|].
    destruct (get_each_ok id _ _ _ _ _ _ _ _ _ (GetBytes_conv e o) Hl Hwf H)
      as (g' & bs & ? & ? & -> & Hc).
    exists g'. split; [done|]. rewrite Hc. constructor. by exists bs.
  - destruct (BatchPutBytes_ok _ _ _ _ _ _ Hl Hwf H) as (g' & ? & order & l & ? & ? & Hc);
      refined g' Hc.
  - destruct (BatchDelete_ok _ _ _ _ _ _ Hl Hwf H) as (g' & ? & ks & ? & Hc); refined g' Hc.
  - destruct (SetBulkImport_ok _ _ _ _ _ _ Hl Hwf H) as (g' & ? & Hc); refined g' Hc.
  - destruct (Flush_ok _ _ _ _ _ Hl Hwf H) as (g' & ? & Hc); refined g' Hc.
  - destruct (FlushWAL_ok _ _ _ _ _ Hl Hwf H) as (g' & ? & Hc); refined g' Hc.
  - destruct (Sync_ok _ _ _ _ _ Hl Hwf H) as (g' & ? & Hc); refined g' Hc.
Qed.

(** Sequences of calls. *)
Inductive kv_steps : gmap string (Value json) → list call → list answer → gmap string (Value json) → Prop :=
| kv_done m : kv_steps m [] [] m
| kv_more m c ans m1 cs answers m2 :
    kv_step m c ans m1 → kv_steps m1 cs answers m2 → kv_steps m (c :: cs) (ans :: answers) m2.

Lemma run_calls_refine w e o g cs answers w' :
  live w e o g → wf (proc w) → run_calls e cs w = Ret answers w' → Forall succeeded answers →
  ∃ g', stepped w' e o g' ∧ kv_steps (contents g) cs answers (contents g').
Proof.
  revert w g answers. induction cs as [|c cs IH]; intros w g answers Hl Hwf; cbn [run_calls].
  - unfold mret. intros. simplify_eq. exists g. split; [by split|]. constructor.
  - unfold bind. destruct (run_call e c w) as [ans w1| | |] eqn:Hc; try done.
    destruct (run_calls e cs w1) as [rs w2| | |] eqn:Hcs; try done.
    unfold mret. intros H HF. simplify_eq. apply Forall_cons in HF as [H1 HF].
    destruct (call_refines _ _ _ _ _ _ _ Hl Hwf Hc H1) as (g1 & [Hl1 Hwf1] & Hs1).
    destruct (IH _ _ _ Hl1 Hwf1 Hcs HF) as (g2 & Hs2 & Hks). exists g2. split; [done|].
    by econstructor.
Qed.

(** ** The configuration does not change *)

Lemma run_eff_config {A} what (op : LsmOp lsm disk A) g d :
  lsm_config (op g d).2.1 = lsm_config g → lsm_config (engine_after g (run_eff what op g d).2) = lsm_config g.
Proof. unfold run_eff. by destruct (op g d) as [? [? ?]]. Qed.

Lemma batch_put_eff_config items g d :
  lsm_config (engine_after g (batch_put_eff items g d).2) = lsm_config g.
Proof.
  unfold batch_put_eff, count_eff. case_match; [done|].
  destruct (batch_check 0 items); [done|]. apply run_eff_config, batch_put_config.
Qed.

(** The engine a live object has after a method is the one the method left. *)
Lemma finish_config {A} fmt args w e o g (x : eff A) n r w' g' :
  live w e o g →
  (let '(r, s') := finish fmt args (handle o) x (enter (proc w)) in Ret r (mkWorld s' (objs w) n)) = Ret r w' →
  live w' e o g' → lsm_config (engine_after g x.2) = lsm_config g → lsm_config g' = lsm_config g.
Proof.
  intros Hl Hfin Hl' Hc.
  destruct (finish_only fmt args (handle o) x (proc w) g (live_engine _ _ _ _ Hl)) as (g1 & Hoe & Hg1).
  destruct (finish _ _ _ _ _) as [r1 s']. simplify_eq. simpl in Hoe. destruct Hoe as [Hh _ _ _].
  pose proof (live_engine _ _ _ _ Hl') as H'. simpl in H'. rewrite Hh, lookup_insert_eq in H'.
  simplify_eq. done.
Qed.

Lemma BatchPutBytes_config w e o g items r w' g' :
  live w e o g → BatchPutBytes e items w = Ret r w' → live w' e o g' → lsm_config g' = lsm_config g.
Proof.
  intros Hl H Hl'. destruct (decide (size items = O)) as [H0|H0].
  - unfold BatchPutBytes in H. rewrite bool_decide_eq_true_2 in H by done. unfold mret in H.
    simplify_eq. pose proof (live_engine _ _ _ _ Hl). pose proof (live_engine _ _ _ _ Hl'). by simplify_eq.
  - destruct (BatchPutBytes_live _ _ _ _ items Hl H0) as [Hrun|[Hrun _]]; rewrite Hrun in H.
    + apply (finish_config _ _ _ _ _ _ _ _ _ _ _ Hl H Hl'), batch_put_eff_config.
    + simplify_eq. pose proof (live_engine _ _ _ _ Hl). pose proof (live_engine _ _ _ _ Hl').
      simpl in *. by simplify_eq.
Qed.

Lemma GetBytes_config w e o g key r w' g' :
  live w e o g → wf (proc w) → GetBytes e key w = Ret r w' → live w' e o g' → lsm_config g' = lsm_config g.
Proof.
  intros Hl Hwf H Hl'. apply live_engine in Hl'. rewrite (GetBytes_live _ _ _ _ _ Hl Hwf) in H.
  assert (Hc : lsm_config (engine_after g (get_eff key g (dsk (proc w))).2) = lsm_config g).
  { unfold get_eff, key_eff. destruct (check_key key); [done|]. apply run_eff_config, get_config. }
  assert (Hh : heap (after (handle o) (get_eff key g (dsk (proc w))).2 (enter (proc w))) !! handle o =
               Some (BEngine (engine_after g (get_eff key g (dsk (proc w))).2))).
  { destruct (get_eff key g (dsk (proc w))).2 as [[g1 d1]|]; [apply lookup_insert_eq|apply (live_engine _ _ _ _ Hl)]. }
  unfold get_outcome, in_world in H. destruct (get_eff key g (dsk (proc w))) as [[msg|[v|]] y];
    [|destruct (go_bytes _)|]; simplify_eq; simpl in *; congruence.
Qed.

Lemma SetBulkImport_config w e o g on r w' g' :
  live w e o g → SetBulkImport e on w = Ret r w' → live w' e o g' → lsm_config g' = lsm_config g.
Proof.
  intros Hl H Hl'. rewrite (SetBulkImport_live _ _ _ _ _ Hl) in H. unfold set_proc in H.
  apply (finish_config (A := unit) "f4kvs set bulk import: %s" [] w e o g
    (inr tt, Some (lsm_set_bulk_import on g, dsk (proc w))) (ranges w) r w' g' Hl H Hl'), set_bulk_config.
Qed.

Lemma FlushWAL_config w e o g r w' g' :
  live w e o g → FlushWAL e w = Ret r w' → live w' e o g' → lsm_config g' = lsm_config g.
Proof.
  intros Hl H Hl'. rewrite (FlushWAL_live _ _ _ _ Hl) in H. unfold set_proc in H.
  apply (finish_config _ _ _ _ _ _ _ (ranges w) _ _ _ Hl H Hl'), run_eff_config, flush_wal_config.
Qed.

(** ** Methods as steps that always end *)

(** A framed method whose answers of kind [Ok] have an effect: it ends, in a world
    whose engine is live, and when the answer is of that kind the effect holds. *)
Lemma ends_stepped {A} w e o g (x : outcome World A) (Ok : A → Prop) (Q : A → lsm → Prop)
    `{∀ r, Decision (Ok r)} :
  live w e o g → wf (proc w) → framed w (handle o) x →
  (∀ r w', x = Ret r w' → Ok r → ∃ g', stepped w' e o g' ∧ Q r g') →
  ends (λ r w', ∃ g', stepped w' e o g' ∧ (Ok r → Q r g')) (λ _, True) x.
Proof.
  intros Hl Hwf Hf Hq. destruct x as [r w'| | |]; simpl in *; try done.
  destruct (decide (Ok r)) as [Hok|Hno].
  - destruct (Hq r w' eq_refl Hok) as (g' & Hs & HQ). eauto.
  - destruct Hf as [g' Hf]. exists g'. split; [|done].
    split; [by eapply frame_live|by eapply frame_wf].
Qed.

(** The same with the configuration, for methods that return nil or an error. *)
Lemma ends_configured w e o g (x : outcome World (option GoError)) (Q : lsm → Prop) :
  live w e o g → wf (proc w) → framed w (handle o) x →
  (∀ w', x = Ret None w' → ∃ g', stepped w' e o g' ∧ Q g') →
  (∀ r w' g', x = Ret r w' → live w' e o g' → lsm_config g' = lsm_config g) →
  (∃ r w', x = Ret r w') →
  ends (λ r w', ∃ g', stepped w' e o g' ∧ lsm_config g' = lsm_config g ∧ (r = None → Q g'))
       (λ _, False) x.
Proof.
  intros Hl Hwf Hf HQ Hc Hr. eapply ends_returns; [|exact Hr]. eapply ends_eq.
  - apply (ends_stepped w e o g x (λ r, r = None) (λ _ g', Q g') Hl Hwf Hf).
    intros r w' Hx ->. by apply HQ.
  - intros r w' Hx (g' & [Hl' Hwf'] & Hg'). exists g'. split; [done|]. split; [by eapply Hc|done].
Qed.

Lemma finish_returns {A} fmt args a (x : eff A) s n (ob : gmap nat F4KVS) :
  ∃ r w', (let '(r, s') := finish fmt args a x s in Ret r (mkWorld s' ob n)) = Ret r w'.
Proof. destruct x as [[msg|r] y]; simpl; eauto. Qed.

Lemma BatchPutBytes_returns w e o g items : live w e o g → ∃ r w', BatchPutBytes e items w = Ret r w'.
Proof.
  intros Hl. destruct (decide (size items = O)) as [H0|H0].
  - unfold BatchPutBytes. rewrite bool_decide_eq_true_2 by done. by eexists _, _.
  - destruct (BatchPutBytes_live _ _ _ _ items Hl H0) as [-> | [-> _]]; [apply finish_returns|by eexists _, _].
Qed.

Lemma BatchPutBytes_ends w e o g items :
  live w e o g → wf (proc w) → (∀ key, is_Some (items !! key) → plain_key key) →
  ends (λ r w', ∃ g', stepped w' e o g' ∧ lsm_config g' = lsm_config g ∧
          (r = None → contents g' = ((λ v, VBytes (slice_bytes v)) <$> items) ∪ contents g))
       (λ _, False) (BatchPutBytes e items w).
Proof.
  intros Hl Hwf Hp. apply (ends_configured w e o g); try done.
  - by eapply BatchPutBytes_framed.
  - intros w' H. by eapply BatchPutBytes_union.
  - intros r w' g' H. by eapply BatchPutBytes_config.
  - by eapply BatchPutBytes_returns.
Qed.

Lemma SetBulkImport_ends w e o g on :
  live w e o g → wf (proc w) →
  ends (λ r w', ∃ g', stepped w' e o g' ∧ lsm_config g' = lsm_config g ∧
          (r = None → contents g' = contents g))
       (λ _, False) (SetBulkImport e on w).
Proof.
  intros Hl Hwf. apply (ends_configured w e o g); try done.
  - by eapply SetBulkImport_framed.
  - intros w' H. by eapply SetBulkImport_ok.
  - intros r w' g' H. by eapply SetBulkImport_config.
  - rewrite (SetBulkImport_live _ _ _ _ _ Hl). unfold set_proc. simpl. by eexists _, _.
Qed.

Lemma FlushWAL_ends w e o g :
  live w e o g → wf (proc w) →
  ends (λ r w', ∃ g', stepped w' e o g' ∧ lsm_config g' = lsm_config g ∧
          (r = None → contents g' = contents g))
       (λ _, False) (FlushWAL e w).
Proof.
  intros Hl Hwf. apply (ends_configured w e o g); try done.
  - by eapply FlushWAL_framed.
  - intros w' H. by eapply FlushWAL_ok.
  - intros r w' g' H. by eapply FlushWAL_config.
  - rewrite (FlushWAL_live _ _ _ _ Hl). unfold set_proc. apply finish_returns.
Qed.

Lemma ScanPrefixKeys_ends w e o g prefix :
  live w e o g → wf (proc w) →
  ends (λ r w', ∃ g', stepped w' e o g' ∧
          (r ≠ None → ∃ ks p, r = Some ks ∧ prefix_text prefix = Some p ∧
             keys_with_prefix (contents g) p ks ∧ contents g' = contents g))
       (λ _, True) (ScanPrefixKeys e prefix w).
Proof.
  intros Hl Hwf. apply (ends_stepped w e o g _ (λ r, r ≠ None) (λ r g', _)); try done.
  - by eapply ScanPrefixKeys_framed.
  - intros [ks|] w' H Hr; [|done].
    destruct (ScanPrefixKeys_ok _ _ _ _ _ _ _ Hl Hwf H) as (g' & p & ? & ? & ? & ?). eauto 10.
Qed.

End Semantics.
