(* ===== verification/Concrete.v ===== *)
(** * A concrete process to run the model in

    [MapEngine]'s engine, an allocator that takes the next address above all live
    blocks, one thread (or a goroutine that changes thread at every call), and a
    world with one open engine.  Witnesses and examples evaluate here. *)

From S2P Require Import Prelude Engine Utf8 Options Ffi Binding FfiFacts BindingFacts.
Import MapEngine.

Definition above {B} (h : gmap Z B) : Z := foldr Z.max 1 (map_to_list h).*1 + 1.

Lemma above_spec {B} (h : gmap Z B) a b : h !! a = Some b → a < above h.
Proof.
  intros Ha. unfold above. assert (Hin : a ∈ (map_to_list h).*1).
  { apply list_elem_of_fmap. exists (a, b). split; [done|]. by apply elem_of_map_to_list. }
  clear Ha. revert Hin. generalize (map_to_list h).*1. intros l Hin.
  induction Hin as [x l|x y l _ IH]; cbn [foldr]; lia.
Qed.

Lemma foldr_max_ge l : 1 ≤ foldr Z.max 1 l.
Proof. induction l; simpl; lia. Qed.

(** [tid] says on which thread the n-th library call runs. *)
Definition platform `{L : LsmEngine} (tid : nat → nat) (oom : bool) : Platform := {|
  alloc_addr := above;
  malloc_fails _ _ := oom;
  os_thread := tid;
  temp_dir := "/tmp";
  process_id := 4242
|}.

#[global] Instance platform_ok `{L : LsmEngine} tid oom : PlatformOk (platform tid oom).
Proof.
  split; simpl; intros h.
  - destruct (h !! above h) eqn:E; [|done]. apply above_spec in E. lia.
  - unfold above. pose proof (foldr_max_ge (map_to_list h).*1). lia.
Qed.

Definition one_thread : @Platform map_engine := platform (λ _, O) false.
Definition migrating : @Platform map_engine := platform (λ n, n) false.

#[export] Instance go_runtime : GoRuntime := {| range_order V n m := map_to_list m |}.
#[export] Instance go_runtime_ok : GoRuntimeOk go_runtime.
Proof. by split. Qed.

(** An engine holding [m], with a schedule of injected faults. *)
Definition demo_engine (m : gmap string (Value unit)) (fs : list (option string)) : state :=
  mkState m default_config false fs.

Definition demo_object : F4KVS := mkF4KVS 2 unlocked false.

Definition demo_proc (g : state) : @Proc map_engine :=
  @mkProc map_engine {[2 := @BEngine map_engine g]} ∅ ∅ ∅ 0 ∅ O O.

Definition demo_world (g : state) : @World map_engine :=
  @mkWorld map_engine (demo_proc g) {[O := demo_object]} O.

Definition empty_world : @World map_engine :=
  @mkWorld map_engine (@mkProc map_engine ∅ ∅ ∅ ∅ 0 ∅ O O) ∅ O.

Lemma demo_live g : @live map_engine (demo_world g) O demo_object g.
Proof. by split. Qed.

Lemma demo_wf g : @wf map_engine (demo_proc g).
Proof.
  split; simpl.
  - intros a b H. apply lookup_singleton_Some in H as [<- _]. lia.
  - intros a H. by apply elem_of_empty in H.
  - intros a n H. by rewrite lookup_empty in H.
Qed.

Lemma empty_wf : @wf map_engine (proc empty_world).
Proof.
  split; simpl; [intros a b H|intros a H|intros a n H];
    [by rewrite lookup_empty in H|by apply elem_of_empty in H|by rewrite lookup_empty in H].
Qed.

(** What a run returned and the world it left. *)
Definition world_of {A} (x : outcome (@World map_engine) A) : @World map_engine :=
  match x with Ret _ w | Panic _ w | Stuck w => w | Undefined => empty_world end.

Definition returns {A} `{EqDecision A} (r : A) (x : outcome (@World map_engine) A) : bool :=
  match x with Ret a _ => bool_decide (a = r) | _ => false end.

Lemma returns_ok {A} `{EqDecision A} (r : A) x : returns r x = true → x = Ret r (world_of x).
Proof. destruct x; simpl; try done. by intros <-%bool_decide_eq_true_1. Qed.

(** Running a closed computation to its answer. *)
Ltac run := apply returns_ok; vm_compute; reflexivity.
