(* ===== verification/Clients.v ===== *)
(** * Clients of the C ABI

    The C interface of [lib.rs] as one type of calls, indexed by what a call
    answers, with the condition on its arguments that the safety comments of the
    source ask for.  A call whose arguments meet it ends: no undefined behaviour,
    no abort; it keeps the library well formed and reports its failures. *)

From S2P Require Import Prelude Engine EngineScan Utf8 Options Ffi Cabi Cursor FfiFacts Sound Calls Concrete.

(** ** The library with its cursors *)

Section Library.
Context `{L : LsmEngine} {SC : LsmScan L} {P : Platform} {POk : PlatformOk P}.
Implicit Types (l : Lib) (c : F4KvsCursor).

Definition arc_live (e : Arc) (l : Lib) : Prop :=
  match e with
  | Boxed a => is_engine (heap (lib_proc l)) a
  | Orphan n => is_Some (orphans l !! n)
  end.

(** The boxed cursors are the open ones, the engine of each is alive, and an
    engine without a handle is alive only because of a cursor. *)
Record lib_wf (l : Lib) : Prop := mkLibWf {
  lib_cwf : cwf (lib_proc l);
  lib_cursor a : heap (lib_proc l) !! a = Some BCursor ↔ is_Some (cursors l !! a);
  lib_arc a c : cursors l !! a = Some c → arc_live (cur_engine c) l;
  lib_orphan n : is_Some (orphans l !! n) →
    (n < next_orphan l)%nat ∧ ∃ a c, cursors l !! a = Some c ∧ cur_engine c = Orphan n
}.

Definition lib_told (failed : bool) (l l' : Lib) : Prop := told failed (lib_proc l) (lib_proc l').

Definition lib_sound {A} (failed : A → bool) (Q : A → Lib → Prop) (m : M Lib A) (l : Lib) : Prop :=
  ends (λ x l', lib_wf l' ∧ lib_told (failed x) l l' ∧ Q x l') (λ _, False) (m l).

(** What a call on the process alone does to the rest. *)
Lemma lib_wf_proc l s :
  lib_wf l → cwf s → keeps (lib_proc l) s → lib_wf (set_proc s l).
Proof.
  intros [Hs Hc Ha Ho] Hs' [He Hk]. split; simpl; [done| | |done].
  - intros a. by rewrite Hk.
  - intros a c Hl. specialize (Ha a c Hl). destruct (cur_engine c); [by apply He|done].
Qed.

Lemma in_proc_sound {A} (failed : A → bool) (Q : A → Proc → Prop) (m : M Proc A) l :
  lib_wf l → sound failed Q m (lib_proc l) →
  lib_sound failed (λ x l', Q x (lib_proc l') ∧ cursors l' = cursors l) (in_proc m) l.
Proof.
  intros Hl Hm. apply ends_lift. eapply ends_impl; [exact Hm|].
  intros x s (Hs & Hk & Ht & HQ). split_and!; [by apply lib_wf_proc|done..].
Qed.

Lemma lib_sound_impl {A} (failed : A → bool) (Q Q' : A → Lib → Prop) (m : M Lib A) l :
  lib_sound failed Q m l → (∀ x l', lib_wf l' → Q x l' → Q' x l') → lib_sound failed Q' m l.
Proof. intros Hm HQ. eapply ends_impl; [exact Hm|]. naive_solver. Qed.

Lemma lib_ret {A} (failed : A → bool) (Q : A → Lib → Prop) x l :
  lib_wf l → failed x = false → Q x l → lib_sound failed Q (mret x) l.
Proof.
  intros Hl Hx HQ. unfold lib_sound, mret, ends, lib_told, told. rewrite Hx. by split_and!.
Qed.

Lemma lib_told_trans l1 l2 l3 b : lib_told false l1 l2 → lib_told b l2 l3 → lib_told b l1 l3.
Proof.
  intros [Ht He] [Ht2 He2]. split; [by rewrite Ht2|]. destruct b; [|by rewrite He2].
  destruct He2 as (msg & ? & ->). exists msg. by rewrite Ht, He.
Qed.

(** A first step that reports nothing. *)
Lemma lib_bind {A B} (failed : A → bool) (Q : A → Lib → Prop) R (m : M Lib B) (k : B → M Lib A) l :
  lib_sound (λ _, false) R m l →
  (∀ y l', lib_wf l' → R y l' → lib_sound failed Q (k y) l') → lib_sound failed Q (bind m k) l.
Proof.
  intros Hm Hk. eapply ends_bind; [exact Hm|]. intros y l1 (Hl & Ht & HR).
  eapply ends_impl; [by apply (Hk y l1)|]. intros x l2 (? & ? & ?).
  split_and!; [done|by eapply lib_told_trans|done].
Qed.

(** A first step that may refuse. *)
Definition lib_tries {B} (R : B → Lib → Prop) : M Lib (F4KvsResult + B) → Lib → Prop :=
  lib_sound (λ x, if x is inl _ then true else false)
    (λ x l', match x with inl e => failing e = true | inr y => R y l' end).

Lemma lib_bind_tries {A B} (failed : A → bool) (Q : A → Lib → Prop) R
    (m : M Lib (F4KvsResult + B)) (k : F4KvsResult + B → M Lib A) (onerr : F4KvsResult → A) l :
  lib_tries R m l → (∀ e, k (inl e) = mret (onerr e)) →
  (∀ e l', failing e = true → failed (onerr e) = true ∧ Q (onerr e) l') →
  (∀ y l', lib_wf l' → R y l' → lib_sound failed Q (k (inr y)) l') → lib_sound failed Q (bind m k) l.
Proof.
  intros Hm Hk Hf Hy. eapply ends_bind; [exact Hm|]. intros [e|y] l1 (Hl & Ht & HR).
  - rewrite Hk. destruct (Hf e l1 HR) as [Hfe HQ]. unfold mret, ends. by rewrite Hfe.
  - eapply ends_impl; [by apply Hy|]. intros x l2 (? & ? & ?).
    split_and!; [done|by eapply lib_told_trans|done].
Qed.

Lemma in_proc_fail {A} (failed : A → bool) (Q : A → Lib → Prop) x msg l :
  lib_wf l → msg ≠ "" → failed x = true → (∀ l', cursors l' = cursors l → Q x l') →
  lib_sound failed Q (run! in_proc (set_last_error msg) in mret x) l.
Proof.
  intros Hl Hm Hx HQ. unfold lib_sound, bind, in_proc, lift, set_last_error, mret, ends.
  unfold lib_told, told. rewrite Hx. split_and!; [|done| |by apply HQ].
  - apply lib_wf_proc; [done|apply (cwf_err msg), Hl|by split].
  - exists (escape_nul msg). split; [by apply escape_nul_nonempty|done].
Qed.

(** ** Cursors *)

Lemma cursor_at_ret l a c : lib_wf l → cursors l !! a = Some c → cursor_at a l = Ret c l.
Proof.
  intros Hl Hc. unfold cursor_at. rewrite Hc.
  by rewrite (proj2 (lib_cursor l Hl a)) by (by eexists).
Qed.

(** Updating the fields of a cursor, its engine apart. *)
Lemma update_cursor_wf l a f :
  lib_wf l → (∀ c, cur_engine (f c) = cur_engine c) →
  lib_wf (set_cursors (alter f a (cursors l)) l).
Proof.
  intros [Hs Hc Ha Ho] Hf. split; simpl; [done| | |].
  - intros b. rewrite Hc. destruct (decide (a = b)) as [->|Hne].
    + by rewrite lookup_alter_eq, fmap_is_Some.
    + by rewrite lookup_alter_ne.
  - intros b c Hb. apply lookup_alter_Some in Hb as [(<- & c' & Hb & ->)|[_ Hb]].
    + rewrite Hf. exact (Ha _ _ Hb).
    + exact (Ha _ _ Hb).
  - intros n Hn. destruct (Ho n Hn) as (? & b & c & Hb & He). split; [done|].
    destruct (decide (a = b)) as [->|Hne].
    + exists b, (f c). by rewrite lookup_alter_eq, Hb, Hf.
    + exists b, c. by rewrite lookup_alter_ne.
Qed.

Lemma update_cursor_sound l a f :
  lib_wf l → (∀ c, cur_engine (f c) = cur_engine c) →
  lib_sound (λ _, false) (λ _ l', cursors l' = alter f a (cursors l)) (update_cursor a f) l.
Proof. intros Hl Hf. split_and!; [by apply update_cursor_wf|done|done]. Qed.

Lemma arc_run_sound {B} (e : Arc) (op : lsm → disk → B * (lsm * disk)) l :
  lib_wf l → arc_live e l →
  lib_sound (λ _, false) (λ _ l', cursors l' = cursors l) (arc_run e op) l.
Proof.
  intros Hl He. destruct e as [a|n]; simpl in *.
  - eapply lib_sound_impl; [apply (in_proc_sound _ (λ _ _, True)); [done|]|naive_solver].
    eapply sound_quietly; [by apply quietly_engine, He; apply Hl|done].
  - destruct He as [g Hg]. unfold lib_sound. rewrite Hg. destruct (op g _) as [r [g' d']].
    destruct Hl as [Hs Hc Ha Ho]. split_and!; [|done|done]. split; simpl.
    + by destruct Hs.
    + done.
    + intros a c Hl. specialize (Ha a c Hl). destruct (cur_engine c) as [|m]; [done|]. simpl.
      rewrite lookup_insert. case_decide; [by eexists|done].
    + intros m Hm. apply Ho. rewrite lookup_insert in Hm. case_decide; [by subst; eexists|done].
Qed.

Lemma cursor_bind {A} (failed : A → bool) (Q : A → Lib → Prop) a (k : F4KvsCursor → M Lib A) l :
  lib_wf l → is_Some (cursors l !! a) →
  (∀ c, cursors l !! a = Some c → arc_live (cur_engine c) l → lib_sound failed Q (k c) l) →
  lib_sound failed Q (bind (cursor_at a) k) l.
Proof.
  intros Hl [c Hc] Hk. unfold lib_sound. rewrite (bind_ret _ _ _ _ _ (cursor_at_ret l a c Hl Hc)).
  apply Hk; [done|by eapply lib_arc].
Qed.

Definition started (a : Z) (l : Lib) : Prop := ∃ c st, cursors l !! a = Some c ∧ cur_state c = Some st.

Lemma ensure_state_tries l a :
  lib_wf l → is_Some (cursors l !! a) → lib_tries (λ _, started a) (cursor_ensure_state a) l.
Proof.
  intros Hl Hopen. apply cursor_bind; [done..|]. intros c Hc He.
  destruct (cur_state c) as [st|] eqn:Hst.
  { apply lib_ret; [done..|]. by exists c, st. }
  eapply lib_bind; [by apply arc_run_sound|]. intros r l1 Hl1 Hc1. cbv beta in Hc1.
  destruct r as [e|st]; [by apply in_proc_fail|].
  eapply lib_bind; [by apply update_cursor_sound|]. intros u l2 Hl2 Hc2. cbv beta in Hc2.
  apply lib_ret; [done..|]. exists (set_state (Some st) c), st.
  by rewrite Hc2, lookup_alter_eq, Hc1, Hc.
Qed.

Lemma pull_page_tries l a max :
  lib_wf l → is_Some (cursors l !! a) →
  lib_tries (λ _ l', is_Some (cursors l' !! a)) (cursor_pull_page a max) l.
Proof.
  intros Hl Hopen. eapply (lib_bind_tries _ _ _ _ _ inl); [by apply ensure_state_tries|done|done|].
  intros u l1 Hl1 (c & st & Hc & Hst). cbn beta iota. apply cursor_bind; [done|by eexists|].
  intros c' Hc' He. replace c' with c in * by congruence. rewrite Hst.
  eapply lib_bind; [by apply update_cursor_sound|]. intros u2 l2 Hl2 Hc2. cbv beta in Hc2.
  assert (cursors l2 !! a = Some (set_state None c)) as Ha2.
  { by rewrite Hc2, lookup_alter_eq, Hc. }
  pose proof (lib_arc l2 Hl2 a _ Ha2) as He2. simpl in He2.
  eapply lib_bind; [by apply arc_run_sound|]. intros [[e|[items eof]] st'] l3 Hl3 Hc3; cbv beta in Hc3.
  - eapply lib_bind; [by apply update_cursor_sound|]. intros u3 l4 Hl4 _. by apply in_proc_fail.
  - eapply (lib_bind _ _ (λ _ l', is_Some (cursors l' !! a))).
    + destruct eof; [apply lib_ret; [done..|]; rewrite Hc3, Ha2; by eexists|].
      eapply lib_sound_impl; [by apply update_cursor_sound|]. intros u4 l4 _ ->.
      rewrite lookup_alter_eq, Hc3, Ha2. by eexists.
    + intros u4 l4 Hl4 Hop. by apply lib_ret.
Qed.

(** A page, for a way of filling it. *)
Definition lib_filled {A} (ok : A → Proc → Prop) (r : F4KvsResult * option A) (l : Lib) : Prop :=
  filled_opt ok r (lib_proc l).

Lemma cursor_page_sound {A} (fill : list (string * Value json) → A → M Proc (F4KvsResult * A))
    (ok : A → Proc → Prop) empty a max out l :
  lib_wf l → a = 0 ∨ is_Some (cursors l !! a) → (∀ s, ok empty s) →
  (∀ items x s, cwf s → sound failing1 (filled ok) (fill items x) s) →
  lib_sound failing1 (lib_filled ok) (cursor_page fill empty a max out) l.
Proof.
  intros Hl Ha Hempty Hfill. unfold cursor_page. destruct out as [out|]; [|by apply in_proc_fail].
  destruct (Z.eqb_spec a 0) as [->|H0]; [by apply in_proc_fail|]. destruct Ha as [|Ha]; [done|].
  apply cursor_bind; [done..|]. intros c Hc He.
  case_match; [apply lib_ret; [done..|]; intros _; by eexists|].
  eapply (lib_bind_tries _ _ _ _ _ (λ e, (e, Some out))); [by apply pull_page_tries|done| |].
  { intros e l' Hf. split; [done|]. intros Hs. simpl in Hs. by subst. }
  intros [items eof] l1 Hl1 Hop. cbn beta iota.
  eapply lib_bind; [by apply update_cursor_sound|]. intros u l2 Hl2 _.
  eapply ends_bind; [apply (in_proc_sound failing1 (filled ok)); [done|apply Hfill, Hl2]|].
  intros [r x] l3 (Hl3 & Ht & Hf & _). split_and!; [done|done|]. intros Hr. eexists.
  split; [done|by apply Hf].
Qed.

(** *** Opening and closing cursors *)

Lemma lib_check {A B} (failed : A → bool) (Q : A → Lib → Prop) R
    (m : M Proc (F4KvsResult + B)) (k : F4KvsResult + B → M Lib A) (onerr : F4KvsResult → A) l :
  lib_wf l → checks R m (lib_proc l) → (∀ e, k (inl e) = mret (onerr e)) →
  (∀ e l', failing e = true → failed (onerr e) = true ∧ Q (onerr e) l') →
  (∀ y, R y → lib_sound failed Q (k (inr y)) l) → lib_sound failed Q (bind (in_proc m) k) l.
Proof.
  intros Hl Hm Hk Hf Hy.
  eapply (lib_bind_tries _ _ (λ y l', l' = l ∧ R y)); [|done|done|by intros y l' _ [-> HR]; apply Hy].
  eapply ends_lift, ends_impl; [exact Hm|]. intros [e|y] s (Hs & Hkeep & Ht & HR).
  - split_and!; [by apply lib_wf_proc|done|done].
  - destruct HR as [-> HR]. split_and!; [by apply lib_wf_proc|done| |done]. by destruct l.
Qed.

Lemma cursor_box_wf l g a p :
  lib_wf l → heap (lib_proc l) !! a = Some (BEngine g) →
  let s := lib_proc l in let b := alloc_addr (heap s) in
  lib_wf (set_cursors (<[b := mkCursor (Boxed a) None p false]> (cursors l))
            (set_proc (set_heap (<[b := BCursor]> (heap s)) s) l)).
Proof.
  intros [Hs Hc Ha Ho] Hg s b. pose proof (alloc_fresh (heap s)) as Hf. fold b in Hf.
  pose proof (alloc_above (heap s)) as Hb. fold b in Hb.
  assert (cursors l !! b = None) as Hcb.
  { apply eq_None_not_Some. intros Hx%Hc. fold s in Hx. congruence. }
  split; simpl.
  - destruct Hs as [Hlow Hst Hby]. split; simpl.
    + intros x bx. rewrite lookup_insert. case_decide; [by subst|]. apply Hlow.
    + intros x [y Hx]%Hst. exists y. rewrite lookup_insert_ne; [done|]. intros <-. fold s in Hx. congruence.
    + intros x n Hx. destruct (Hby x n Hx) as [|(y & Hy & ?)]; [by left|right]. exists y.
      rewrite lookup_insert_ne; [done|]. intros <-. fold s in Hy. congruence.
  - intros x. rewrite !lookup_insert. case_decide; [|apply Hc]. split; [by eexists|done].
  - assert (∀ x, is_engine (heap s) x → is_engine (<[b:=BCursor]> (heap s)) x) as Hkeep.
    { intros x [y Hy]. exists y. rewrite lookup_insert_ne; [done|congruence]. }
    intros x c. rewrite lookup_insert. case_decide; intros Hx; simplify_eq/=.
    + apply Hkeep. by exists g.
    + specialize (Ha x c Hx). destruct (cur_engine c); [by apply Hkeep|done].
  - intros n Hn. destruct (Ho n Hn) as (? & x & c & Hx & ?). split; [done|]. exists x, c.
    rewrite lookup_insert_ne; [done|congruence].
Qed.

Definition cursor_handle (a : Z) (l : Lib) : Prop := a = 0 ∨ is_Some (cursors l !! a).

Lemma cursor_open_sound l a p n :
  lib_wf l → engine_arg (heap (lib_proc l)) a → buf_arg (lib_proc l) p n →
  lib_sound (λ a, a =? 0) cursor_handle (f4kvs_engine_cursor_open a p n) l.
Proof.
  intros Hl Ha Hp. pose proof (lib_cwf l Hl) as Hs.
  eapply (lib_check _ _ _ _ _ (λ _, 0));
    [done|by apply validate_engine_checks|done|by split; [|left]|].
  intros g Hg. cbv beta in Hg. cbn beta iota.
  eapply (lib_check _ _ _ _ _ (λ _, 0));
    [done|by apply key_from_raw_checks|done|by split; [|left]|].
  intros prefix _. pose proof (cursor_box_wf l g a prefix Hl Hg) as Hwf. cbv zeta in Hwf.
  pose proof (alloc_above (heap (lib_proc l))) as Hb.
  unfold lib_sound, bind, in_proc, lift, alloc, modify, mret, ends. simpl. split_and!; [exact Hwf| |].
  - unfold lib_told, told. rewrite (proj2 (Z.eqb_neq _ _)) by lia. done.
  - right. simpl. rewrite lookup_insert_eq. by eexists.
Qed.

Lemma kept_spec e l : kept e l = true ↔ ∃ a c, cursors l !! a = Some c ∧ cur_engine c = e.
Proof.
  unfold kept. rewrite existsb_exists. split.
  - intros (c & Hin & Hc). apply bool_decide_eq_true in Hc. apply list_elem_of_In in Hin.
    apply list_elem_of_fmap in Hin as ([a c'] & -> & Hin). apply elem_of_map_to_list in Hin.
    by exists a, c'.
  - intros (a & c & Ha & Hc). exists c. split; [|by apply bool_decide_eq_true].
    apply list_elem_of_In, list_elem_of_fmap. exists (a, c). by rewrite elem_of_map_to_list.
Qed.

(** Removing a block that is no buffer. *)
Lemma cwf_delete s a b :
  cwf s → heap s !! a = Some b → (∀ t, b ≠ BCString t) → (∀ t, b ≠ BBoxed t) →
  cwf (set_heap (delete a (heap s)) s).
Proof.
  intros [Hl Hs Hb] Ha H1 H2. split; simpl.
  - intros x bx. rewrite lookup_delete_Some. naive_solver.
  - intros x Hx. destruct (Hs x Hx) as [y Hy]. exists y. rewrite lookup_delete_ne; [done|].
    intros <-. rewrite Ha in Hy. by eapply H1; simplify_eq.
  - intros x n Hx. destruct (Hb x n Hx) as [|(y & Hy & ?)]; [by left|right]. exists y.
    rewrite lookup_delete_ne; [done|]. intros <-. rewrite Ha in Hy. by eapply H2; simplify_eq.
Qed.

Lemma is_engine_delete h a b x :
  h !! a = Some b → (∀ g, b ≠ BEngine g) → is_engine h x → is_engine (delete a h) x.
Proof.
  intros Ha Hb [g Hx]. exists g. rewrite lookup_delete_ne; [done|]. intros <-.
  rewrite Ha in Hx. by eapply Hb; simplify_eq.
Qed.

Lemma cursor_unbox_wf l a c :
  lib_wf l → cursors l !! a = Some c → 
  let s := lib_proc l in
  lib_wf (drop_arc (cur_engine c)
            (set_cursors (delete a (cursors l)) (set_proc (set_heap (delete a (heap s)) s) l))).
Proof.
  intros Hl Hc s. pose proof (proj2 (lib_cursor l Hl a) ltac:(by eexists)) as Hbox. fold s in Hbox.
  destruct Hl as [Hs Hcur Ha Ho]. set (l1 := set_cursors _ _).
  assert (cwf (lib_proc l1)) as Hs1 by (by eapply cwf_delete).
  assert (∀ x, heap (lib_proc l1) !! x = Some BCursor ↔ is_Some (cursors l1 !! x)) as Hc1.
  { intros x. subst l1. simpl. destruct (decide (a = x)) as [->|].
    - rewrite !lookup_delete_eq. split; [done|by intros [? ?]].
    - rewrite !lookup_delete_ne by done. apply Hcur. }
  assert (∀ x c', cursors l1 !! x = Some c' → arc_live (cur_engine c') l1) as Ha1.
  { subst l1. intros x c' Hx. simpl in Hx. apply lookup_delete_Some in Hx as [_ Hx]. specialize (Ha x c' Hx).
    destruct (cur_engine c'); [by eapply is_engine_delete|done]. }
  assert (∀ n, is_Some (orphans l1 !! n) → (n < next_orphan l1)%nat ∧
    ((∃ x c', cursors l1 !! x = Some c' ∧ cur_engine c' = Orphan n) ∨ cur_engine c = Orphan n)) as Ho1.
  { subst l1. intros n Hn. destruct (Ho n Hn) as (? & x & c' & Hx & He). split; [done|].
    destruct (decide (a = x)) as [->|Hne]; [right; congruence|left].
    exists x, c'. simpl. by rewrite lookup_delete_ne. }
  destruct (cur_engine c) as [b|n] eqn:Hec; simpl.
  { split; [done..|]. intros m Hm. destruct (Ho1 m Hm) as (? & [?|?]); done. }
  destruct (kept (Orphan n) l1) eqn:Hk.
  { split; [done..|]. intros m Hm. destruct (Ho1 m Hm) as (? & [?|[= ->]]); [done|].
    split; [done|by apply kept_spec]. }
  split; [done|done| |]; simpl.
  - intros x c' Hx. specialize (Ha1 x c' Hx). destruct (cur_engine c') as [|m] eqn:Hm; [done|].
    simpl in *. rewrite lookup_delete_ne; [done|]. intros ->.
    by rewrite (proj2 (kept_spec (Orphan m) l1)) in Hk by (by exists x, c').
  - intros m [g Hm]. apply lookup_delete_Some in Hm as [Hne Hm].
    destruct (Ho1 m ltac:(by eexists)) as (? & [?|?]); [done|congruence].
Qed.

Lemma cursor_free_sound l a :
  lib_wf l → cursor_handle a l → lib_sound (λ _, false) (λ _ _, True) (f4kvs_engine_cursor_free a) l.
Proof.
  intros Hl [->|Ha]; [by apply lib_ret|]. unfold f4kvs_engine_cursor_free.
  case_match; [by apply lib_ret|]. apply cursor_bind; [done..|]. intros c Hc _.
  split_and!; [by apply cursor_unbox_wf| |done].
  unfold drop_arc. by repeat case_match.
Qed.

(** *** Freeing an engine *)

Lemma engine_moved_wf l a g :
  lib_wf l → heap (lib_proc l) !! a = Some (BEngine g) → kept (Boxed a) l = true →
  let s := lib_proc l in
  let move c := if refers (Boxed a) c then set_arc (Orphan (next_orphan l)) c else c in
  lib_wf (mkLib (set_heap (delete a (heap s)) s) (move <$> cursors l)
            (<[next_orphan l := g]> (orphans l)) (S (next_orphan l))).
Proof.
  intros [Hs Hcur Ha Ho] Hg Hk s move. split; simpl.
  - by eapply cwf_delete.
  - intros x. rewrite lookup_fmap, fmap_is_Some, <-Hcur, lookup_delete_Some. fold s.
    split; [naive_solver|]. intros Hx. split; [|done]. intros ->. fold s in Hg. congruence.
  - intros x c. rewrite lookup_fmap_Some. intros (c' & <- & Hx). specialize (Ha x c' Hx).
    unfold move, refers. case_bool_decide as Hc.
    + simpl. rewrite lookup_insert_eq. by eexists.
    + destruct (cur_engine c') as [b|n]; simpl in *.
      * destruct Ha as [g' Hg']. exists g'. rewrite lookup_delete_ne; [done|congruence].
      * rewrite lookup_insert. case_decide; [by eexists|done].
  - intros n Hn. destruct (decide (n = next_orphan l)) as [->|Hne].
    + split; [lia|]. apply kept_spec in Hk as (x & c & Hx & Hc). exists x, (move c).
      rewrite lookup_fmap, Hx. split; [done|]. unfold move, refers. by rewrite bool_decide_true.
    + rewrite lookup_insert_ne in Hn by done. destruct (Ho n Hn) as (? & x & c & Hx & Hc).
      split; [lia|]. exists x, (move c). rewrite lookup_fmap, Hx. split; [done|].
      unfold move, refers. by rewrite bool_decide_false by congruence.
Qed.

Lemma engine_dropped_wf l a g :
  lib_wf l → heap (lib_proc l) !! a = Some (BEngine g) → kept (Boxed a) l = false →
  lib_wf (set_proc (set_heap (delete a (heap (lib_proc l))) (lib_proc l)) l).
Proof.
  intros [Hs Hcur Ha Ho] Hg Hk. split; simpl; [by eapply cwf_delete| | |done].
  - intros x. rewrite <-Hcur, lookup_delete_Some.
    split; [naive_solver|]. intros Hx. split; [|done]. intros ->. congruence.
  - intros x c Hx. specialize (Ha x c Hx). destruct (cur_engine c) as [b|n] eqn:Hc; [|done].
    simpl in *. destruct Ha as [g' Hg']. exists g'. rewrite lookup_delete_ne; [done|]. intros <-.
    by rewrite (proj2 (kept_spec (Boxed a) l)) in Hk by (by exists x, c).
Qed.

Lemma engine_free_sound l a :
  lib_wf l → engine_arg (heap (lib_proc l)) a →
  lib_sound (λ _, false) (λ _ _, True) (engine_free a) l.
Proof.
  intros Hl Ha. destruct (Z.eqb_spec a 0) as [->|H0].
  { unfold lib_sound, engine_free. rewrite (proj2 (eq_None_not_Some _)).
    - split_and!; [|done|done]. by destruct l.
    - intros [b Hb]. apply (cwf_low _ (lib_cwf l Hl)) in Hb. lia. }
  destruct Ha as [|[g Hg]]; [done|]. unfold lib_sound, engine_free. rewrite Hg.
  destruct (kept (Boxed a) l) eqn:Hk; unfold in_proc, lift, f4kvs_engine_free;
    rewrite (proj2 (Z.eqb_neq _ _)) by done; simpl; rewrite Hg; split_and!; try done.
  - by apply engine_moved_wf.
  - by apply (engine_dropped_wf l a g).
Qed.

(** ** The interface as one type *)

Inductive c_call : Type → Type :=
| CMalloc (data : list byte) : c_call Z
| CMemFree (p : Z) : c_call unit
| CEngineNew : c_call Z
| CEngineOpen (dir : Z) : c_call Z
| CEngineOpenEx (dir : Z) (options : option (list byte)) : c_call Z
| CEngineClose (e : Z) : c_call F4KvsResult
| CEngineCompact (e : Z) : c_call F4KvsResult
| CEngineFlush (e : Z) : c_call F4KvsResult
| CEngineFlushWal (e : Z) : c_call F4KvsResult
| CEngineSetBulkImport (e enabled : Z) : c_call F4KvsResult
| CEngineFree (e : Z) : c_call unit
| CPut (e key value : Z) : c_call F4KvsResult
| CPutBytes (e key : Z) (value : bufptr) (len : Z) : c_call F4KvsResult
| CBatchPutBytes (e : Z) (keys values lens : option (list Z)) (count : Z) : c_call F4KvsResult
| CGet (e key : Z) (out : option Z) : c_call (F4KvsResult * option Z)
| CGetBytes (e key : Z) (outs : option (Z * Z)) : c_call (F4KvsResult * option (Z * Z))
| CDelete (e key : Z) : c_call F4KvsResult
| CBatchDelete (e : Z) (keys : option (list Z)) (count : Z) : c_call F4KvsResult
| CExists (e key : Z) (out : option Z) : c_call (F4KvsResult * option Z)
| CScanPrefix (e prefix : Z) (out : option F4KvsScanResult) : c_call (F4KvsResult * option F4KvsScanResult)
| CScanPrefixKeys (e prefix : Z) (out : option F4KvsKeyScanResult)
    : c_call (F4KvsResult * option F4KvsKeyScanResult)
| CGetKv (e : Z) (key : bufptr) (n : Z) (outs : option (Z * Z)) : c_call (F4KvsResult * option (Z * Z))
| CPutKv (e : Z) (key : bufptr) (n : Z) (value : bufptr) (len : Z) : c_call F4KvsResult
| CDeleteKv (e : Z) (key : bufptr) (n : Z) : c_call F4KvsResult
| CBatchPutKv (e : Z) (keys key_lens values lens : option (list Z)) (count : Z) : c_call F4KvsResult
| CBatchDeleteKv (e : Z) (keys key_lens : option (list Z)) (count : Z) : c_call F4KvsResult
| CScanPrefixKv (e : Z) (prefix : bufptr) (n : Z) (out : option F4KvsScanResult)
    : c_call (F4KvsResult * option F4KvsScanResult)
| CScanPrefixKeysKv (e : Z) (prefix : bufptr) (n : Z) (out : option F4KvsKeyScanResult)
    : c_call (F4KvsResult * option F4KvsKeyScanResult)
| CCursorOpen (e : Z) (prefix : bufptr) (n : Z) : c_call Z
| CCursorNextN (cur max : Z) (out : option F4KvsScanResult) : c_call (F4KvsResult * option F4KvsScanResult)
| CCursorNextNKv (cur max : Z) (out : option F4KvsScanResultKv)
    : c_call (F4KvsResult * option F4KvsScanResultKv)
| CCursorFree (cur : Z) : c_call unit
| CScanResultFree (r : option F4KvsScanResult) : c_call (option F4KvsScanResult)
| CScanResultKvFree (r : option F4KvsScanResultKv) : c_call (option F4KvsScanResultKv)
| CKeyScanResultFree (r : F4KvsKeyScanResult) : c_call F4KvsKeyScanResult
| CStringFree (p : Z) : c_call unit
| CBytesFree (p : Z) : c_call unit
| CGetLastError : c_call (option string).

Definition exec {A} (c : c_call A) : M Lib A :=
  match c with
  | CMalloc data => in_proc (alloc (BMalloc data))
  | CMemFree p => in_proc (c_free p)
  | CEngineNew => in_proc f4kvs_engine_new
  | CEngineOpen dir => in_proc (f4kvs_engine_open dir)
  | CEngineOpenEx dir options => in_proc (f4kvs_engine_open_ex dir options)
  | CEngineClose e => in_proc (f4kvs_engine_close e)
  | CEngineCompact e => in_proc (f4kvs_engine_compact e)
  | CEngineFlush e => in_proc (f4kvs_engine_flush e)
  | CEngineFlushWal e => in_proc (f4kvs_engine_flush_wal e)
  | CEngineSetBulkImport e enabled => in_proc (f4kvs_engine_set_bulk_import e enabled)
  | CEngineFree e => engine_free e
  | CPut e key value => in_proc (f4kvs_engine_put e key value)
  | CPutBytes e key value len => in_proc (f4kvs_engine_put_bytes e key value len)
  | CBatchPutBytes e keys values lens count =>
      in_proc (f4kvs_engine_batch_put_bytes e keys values lens count)
  | CGet e key out => in_proc (f4kvs_engine_get e key out)
  | CGetBytes e key outs => in_proc (f4kvs_engine_get_bytes e key outs)
  | CDelete e key => in_proc (f4kvs_engine_delete e key)
  | CBatchDelete e keys count => in_proc (f4kvs_engine_batch_delete e keys count)
  | CExists e key out => in_proc (f4kvs_engine_exists e key out)
  | CScanPrefix e prefix out => in_proc (f4kvs_engine_scan_prefix e prefix out)
  | CScanPrefixKeys e prefix out => in_proc (f4kvs_engine_scan_prefix_keys e prefix out)
  | CGetKv e key n outs => in_proc (f4kvs_engine_get_kv e key n outs)
  | CPutKv e key n value len => in_proc (f4kvs_engine_put_kv e key n value len)
  | CDeleteKv e key n => in_proc (f4kvs_engine_delete_kv e key n)
  | CBatchPutKv e keys key_lens values lens count =>
      in_proc (f4kvs_engine_batch_put_kv e keys key_lens values lens count)
  | CBatchDeleteKv e keys key_lens count => in_proc (f4kvs_engine_batch_delete_kv e keys key_lens count)
  | CScanPrefixKv e prefix n out => in_proc (f4kvs_engine_scan_prefix_kv e prefix n out)
  | CScanPrefixKeysKv e prefix n out => in_proc (f4kvs_engine_scan_prefix_keys_kv e prefix n out)
  | CCursorOpen e prefix n => f4kvs_engine_cursor_open e prefix n
  | CCursorNextN cur max out => f4kvs_engine_cursor_next_n cur max out
  | CCursorNextNKv cur max out => f4kvs_engine_cursor_next_n_kv cur max out
  | CCursorFree cur => f4kvs_engine_cursor_free cur
  | CScanResultFree r => in_proc (f4kvs_scan_result_free r)
  | CScanResultKvFree r => in_proc (f4kvs_scan_result_kv_free r)
  | CKeyScanResultFree r => in_proc (f4kvs_key_scan_result_free r)
  | CStringFree p => in_proc (f4kvs_string_free p)
  | CBytesFree p => in_proc (f4kvs_bytes_free p)
  | CGetLastError => in_proc f4kvs_get_last_error
  end.

(** What the caller owes: handles that are null or live, terminated strings,
    readable buffers, arrays with their rows, results as the library filled them.
    Pointers given to [f4kvs_string_free] and [f4kvs_bytes_free] may be any. *)
Definition valid {A} (c : c_call A) (l : Lib) : Prop :=
  let s := lib_proc l in
  let engine := engine_arg (heap s) in
  let text := text_arg (heap s) in
  match c with
  | CMalloc _ | CEngineNew | CGetLastError | CStringFree _ | CBytesFree _ => True
  | CMemFree p => p = 0 ∨ ∃ data, heap s !! p = Some (BMalloc data)
  | CEngineOpen dir => text dir
  | CEngineOpenEx dir options => text dir ∧ read_open_options options ≠ None
  | CEngineClose e | CEngineCompact e | CEngineFlush e | CEngineFlushWal e
  | CEngineSetBulkImport e _ | CEngineFree e => engine e
  | CPut e key value => engine e ∧ text key ∧ text value
  | CPutBytes e key value len => engine e ∧ text key ∧ buf_arg s value len
  | CBatchPutBytes e keys values lens count =>
      engine e ∧ batch_arg (item_arg s keys values lens) count
  | CGet e key _ | CGetBytes e key _ | CDelete e key | CExists e key _ 
  | CScanPrefix e key _ | CScanPrefixKeys e key _ => engine e ∧ text key
  | CBatchDelete e keys count => engine e ∧ batch_arg (λ i, elem_ok keys i text) count
  | CGetKv e key n _ | CDeleteKv e key n | CScanPrefixKv e key n _ | CScanPrefixKeysKv e key n _
  | CCursorOpen e key n => engine e ∧ buf_arg s key n
  | CPutKv e key n value len => engine e ∧ buf_arg s key n ∧ buf_arg s value len
  | CBatchPutKv e keys key_lens values lens count =>
      engine e ∧ batch_arg (item_arg_kv s keys key_lens values lens) count
  | CBatchDeleteKv e keys key_lens count => engine e ∧ batch_arg (key_arg_kv s keys key_lens) count
  | CCursorNextN cur _ _ | CCursorNextNKv cur _ _ | CCursorFree cur => cursor_handle cur l
  | CScanResultFree r => ∀ x, r = Some x → scan_ok x s
  | CScanResultKvFree r => ∀ x, r = Some x → scan_kv_ok x s
  | CKeyScanResultFree r => keys_ok r s
  end.

(** Whether the answer is a failure: a code other than success and not found, or
    a null handle. *)
Definition failed {A} (c : c_call A) : A → bool :=
  match c with
  | CEngineNew | CEngineOpen _ | CEngineOpenEx _ _ | CCursorOpen _ _ _ => λ a, a =? 0
  | CEngineClose _ | CEngineCompact _ | CEngineFlush _ | CEngineFlushWal _
  | CEngineSetBulkImport _ _ | CPut _ _ _ | CPutBytes _ _ _ _ | CBatchPutBytes _ _ _ _ _
  | CDelete _ _ | CBatchDelete _ _ _ | CPutKv _ _ _ _ _ | CDeleteKv _ _ _
  | CBatchPutKv _ _ _ _ _ _ | CBatchDeleteKv _ _ _ _ => failing
  | CGet _ _ _ | CGetBytes _ _ _ | CExists _ _ _ | CScanPrefix _ _ _ | CScanPrefixKeys _ _ _
  | CGetKv _ _ _ _ | CScanPrefixKv _ _ _ _ | CScanPrefixKeysKv _ _ _ _
  | CCursorNextN _ _ _ | CCursorNextNKv _ _ _ => failing1
  | CMalloc _ | CMemFree _ | CEngineFree _ | CCursorFree _ | CScanResultFree _
  | CScanResultKvFree _ | CKeyScanResultFree _ | CStringFree _ | CBytesFree _ | CGetLastError =>
      λ _, false
  end.

(** What the answer can be used for: handles are live, results can be freed. *)
Definition answers {A} (c : c_call A) : A → Lib → Prop :=
  match c with
  | CMalloc data => λ p l, heap (lib_proc l) !! p = Some (BMalloc data)
  | CEngineNew | CEngineOpen _ | CEngineOpenEx _ _ => λ e l, engine_arg (heap (lib_proc l)) e
  | CCursorOpen _ _ _ => cursor_handle
  | CScanPrefix _ _ _ | CScanPrefixKv _ _ _ _ | CCursorNextN _ _ _ => lib_filled scan_ok
  | CCursorNextNKv _ _ _ => lib_filled scan_kv_ok
  | CScanPrefixKeys _ _ _ | CScanPrefixKeysKv _ _ _ _ => lib_filled keys_ok
  | _ => λ _ _, True
  end.

Lemma c_free_quiet p s :
  cwf s → p = 0 ∨ (∃ data, heap s !! p = Some (BMalloc data)) → gives_back (c_free p) s.
Proof.
  intros Hs Hp. unfold gives_back, quietly, c_free. destruct (Z.eqb_spec p 0).
  { split; [by apply silent_refl|done]. }
  destruct Hp as [|[data Hd]]; [done|]. rewrite Hd. split; [|by apply delete_subseteq].
  pose proof (silent_free s p (BMalloc data) (string_allocations s) (bytes_allocations s)) as Hfree.
  apply Hfree; [done..| |].
  - intros x Hx. split; [done|]. intros ->. destruct (cwf_strings s Hs p Hx). congruence.
  - intros x k Hx. split; [done|]. intros ->.
    destruct (cwf_bytes s Hs p k Hx) as [[-> _]|(y & Hy & _)]; [|congruence].
    apply (cwf_low s Hs) in Hd. lia.
Qed.

(** A call of the process, in the library. *)
Lemma exec_in_proc {A} (f : A → bool) (Q : A → Proc → Prop) (Q' : A → Lib → Prop) (m : M Proc A) l :
  lib_wf l → sound f Q m (lib_proc l) → (∀ x l', Q x (lib_proc l') → Q' x l') →
  lib_sound f Q' (in_proc m) l.
Proof. intros Hl Hm HQ. eapply lib_sound_impl; [by apply in_proc_sound|]. naive_solver. Qed.

Lemma back_sound (m : M Proc unit) s : gives_back m s → sound (λ _, false) (λ _ _, True) m s.
Proof. intros Hm. by eapply sound_quietly. Qed.

Hint Resolve back_sound c_free_quiet cursor_open_sound cursor_free_sound engine_free_sound : call.

Lemma call_sound {A} (c : c_call A) l :
  lib_wf l → valid c l → lib_sound (failed c) (answers c) (exec c) l.
Proof.
  intros Hl Hv. pose proof (lib_cwf l Hl) as Hs.
  destruct c; cbn [valid] in Hv; cbv zeta in Hv; cbn [failed answers exec]; destruct_and?.
  all: try (eapply exec_in_proc; [done|by eauto with call|done]).
  all: try (by eauto with call).
  all: try (eapply exec_in_proc; [done|by apply simple_op_sound|done]).
  - apply (exec_in_proc _ (λ p s, heap s !! p = Some (BMalloc data))); [done| |done].
    eapply sound_quietly; [by apply quietly_alloc|]. by intros p s' [_ Hp].
  - apply cursor_page_sound; [done..|by left|]. intros. by apply fill_scan_result_sound.
  - apply cursor_page_sound; [done..|by left|]. intros. by apply fill_scan_result_kv_sound.
  - apply (exec_in_proc _ (λ _ _, True)); [done| |done]. by apply (sound_ret _ _ (last_error _ !! _)).
Qed.

(** ** Everything a C program can reach *)

Definition start (d : disk) : Lib := mkLib (mkProc ∅ ∅ ∅ ∅ 0 d O O) ∅ ∅ O.

(** The next call is made by thread [t]. *)
Definition on_thread (t : nat) (l : Lib) : Lib := set_proc (set_call t (calls (lib_proc l)) (lib_proc l)) l.

Inductive reachable : Lib → Prop :=
| reach_start d : reachable (start d)
| reach_thread t l : reachable l → reachable (on_thread t l)
| reach_call {A} (c : c_call A) l x l' :
    reachable l → valid c l → exec c l = Ret x l' → reachable l'.

Lemma start_wf d : lib_wf (start d).
Proof.
  split; simpl.
  - split; simpl; [intros a b H|intros a H|intros a n H];
      [by rewrite lookup_empty in H|by apply elem_of_empty in H|by rewrite lookup_empty in H].
  - intros a. rewrite !lookup_empty. split; [done|by intros [? ?]].
  - intros a c. by rewrite lookup_empty.
  - intros n. rewrite lookup_empty. by intros [? ?].
Qed.

Lemma reachable_wf l : reachable l → lib_wf l.
Proof.
  induction 1 as [d|t l _ IH|A c l x l' _ IH Hv He]; [apply start_wf| |].
  - destruct IH as [[Hl Hs Hb] Hc Ha Ho]. by split.
  - pose proof (call_sound c l IH Hv) as Hs. unfold lib_sound in Hs. rewrite He in Hs. by destruct Hs.
Qed.

(** C3: a C program that keeps to the safety comments cannot go wrong: whatever
    calls it made before, a call with valid arguments returns (it neither is
    undefined behaviour nor aborts), and the handles and results it answers are
    fit for the calls that take them. *)
Theorem c_calls_typed {A} (c : c_call A) l :
  reachable l → valid c l → ∃ x l', exec c l = Ret x l' ∧ reachable l' ∧ answers c x l'.
Proof.
  intros Hr Hv. pose proof (call_sound c l (reachable_wf l Hr) Hv) as Hs. unfold lib_sound in Hs.
  destruct (exec c l) as [x l'| | |] eqn:He; try done. destruct Hs as (_ & _ & Ha).
  exists x, l'. split_and!; [done| |done]. by eapply reach_call.
Qed.

(** C23: every failure is explained, and nothing else is: after a call that
    answers a null handle or a code other than success and not found, the last
    error of the calling thread is a new nonempty text; after any other call it is
    what it was.  The texts of other threads stay. *)
Theorem c_failures_reported {A} (c : c_call A) l x l' :
  reachable l → valid c l → exec c l = Ret x l' →
  let s := lib_proc l in
  if failed c x then
    ∃ msg, msg ≠ "" ∧ last_error (lib_proc l') = <[thread s := msg]> (last_error s)
  else last_error (lib_proc l') = last_error s.
Proof.
  intros Hr Hv He s. pose proof (call_sound c l (reachable_wf l Hr) Hv) as Hs.
  unfold lib_sound in Hs. rewrite He in Hs. by destruct Hs as (_ & [_ Ht] & _).
Qed.

End Library.

(** ** A session *)

Section Session.
Import MapEngine MapScan.
#[local] Existing Instance one_thread.

Definition lib_after {A} (x : outcome (@Lib map_engine map_scan) A) : @Lib map_engine map_scan :=
  match x with Ret _ l | Panic _ l | Stuck l => l | Undefined => start ∅ end.

Definition ended {A} `{EqDecision A} (r : A) (x : outcome (@Lib map_engine map_scan) A) : bool :=
  match x with Ret a _ => bool_decide (a = r) | _ => false end.

Lemma ended_ok {A} `{EqDecision A} (r : A) x : ended r x = true → x = Ret r (lib_after x).
Proof. destruct x; simpl; try done. by intros ->%bool_decide_eq_true_1. Qed.

Lemma engine_at (h : gmap Z (@block map_engine)) a :
  match h !! a with Some (BEngine _) => true | _ => false end = true → is_engine h a.
Proof. destruct (h !! a) as [[]|] eqn:E; try done. intros _. by eexists. Qed.

Lemma text_at (h : gmap Z (@block map_engine)) a :
  match h !! a with
  | Some (BMalloc l) => bool_decide (is_Some (until_nul l))
  | _ => false
  end = true → is_text h a.
Proof.
  destruct (h !! a) as [[]|] eqn:E; try done. intros [r Hr]%bool_decide_eq_true_1.
  exists l, r. split; [by left|done].
Qed.

Lemma open_at (c : gmap Z (@F4KvsCursor map_engine map_scan)) a :
  (if c !! a is Some _ then true else false) = true → is_Some (c !! a).
Proof. destruct (c !! a); [by eexists|done]. Qed.

(** Running a closed call. *)
Ltac ended := apply ended_ok; vm_compute; reflexivity.

(** The directory's name, the engine opened in it, a cursor, the handle freed. *)
Definition dir_name : list byte := [x64; x00].
Definition session1 : Lib := lib_after (exec (CMalloc dir_name) (start ∅)).
Definition session2 : Lib := lib_after (exec (CEngineOpen 2) session1).
Definition session3 : Lib := lib_after (exec (CPutKv 3 (GoMem [x61]) 1 (GoMem [x62]) 1) session2).
Definition session4 : Lib := lib_after (exec (CCursorOpen 3 NullPtr 0) session3).
Definition session5 : Lib := lib_after (exec (CEngineFree 3) session4).

Lemma session4_reachable : reachable session4.
Proof.
  apply (reach_call (CCursorOpen 3 NullPtr 0) session3 4); [| |ended].
  2:{ split; [right; by apply engine_at|by split; [|left]]. }
  apply (reach_call (CPutKv 3 (GoMem [x61]) 1 (GoMem [x62]) 1) session2 Success); [| |ended].
  2:{ split_and!; [right; by apply engine_at| |]; (split; [done|]); right; right; by eexists. }
  apply (reach_call (CEngineOpen 2) session1 3); [|right; by apply text_at|ended].
  apply (reach_call (CMalloc dir_name) (start ∅) 2); [apply reach_start|done|ended].
Qed.

Lemma session_reachable : reachable session5.
Proof.
  apply (reach_call (CEngineFree 3) session4 tt);
    [apply session4_reachable|right; by apply engine_at|ended].
Qed.

Definition null_get : c_call (F4KvsResult * option (Z * Z)) := CGetKv 0 NullPtr 0 (Some (0, 0)).
Definition page : c_call (F4KvsResult * option F4KvsScanResultKv) :=
  CCursorNextNKv 4 10 (Some (mkScanKv 0 0)).

Lemma c_calls_typed_witness :
  ∃ x l', exec page session5 = Ret x l' ∧ reachable l' ∧ answers page x l'.
Proof.
  apply (c_calls_typed page session5); [apply session_reachable|right; by apply open_at].
Defined.

Lemma c_failures_reported_witness :
  let l' := lib_after (exec null_get session5) in
  exec null_get session5 = Ret (ErrorInvalidArgument, Some (0, 0)) l' ∧
  ∃ msg, msg ≠ "" ∧ last_error (lib_proc l') =
    <[thread (lib_proc session5) := msg]> (last_error (lib_proc session5)).
Proof.
  intros l'.
  assert (exec null_get session5 = Ret (ErrorInvalidArgument, Some (0, 0)) l') as He by ended.
  split; [exact He|].
  refine (c_failures_reported null_get session5 _ l' session_reachable _ He).
  by split; [left|split; [|left]].
Defined.

End Session.
