(* ===== verification/Buffers.v ===== *)
(** * Buffers the library hands out

    The strings and byte slices a scan allocates, as a set of blocks laid over the
    process ([lend]): allocating adds a block to it, freeing takes one away, so
    that what is given back leaves the process as it was.  Only the entry of empty
    slices, which share the dangling address 1, may come or go. *)

From S2P Require Import Prelude Engine Utf8 Options Ffi Cabi FfiFacts Sound.

Section Buffers.
Context `{L : LsmEngine} {P : Platform} {POk : PlatformOk P}.
Implicit Types (s : Proc) (C : gmap Z block) (o : option Z).

(** ** Blocks laid over a process *)

Definition is_c_string (b : block) : bool := match b with BCString _ => true | _ => false end.
Definition strings_of (C : gmap Z block) : gset Z := dom (filter (λ ab, is_c_string ab.2 = true) C).
Definition lengths_of (C : gmap Z block) : gmap Z Z :=
  omap (λ b, match b with BBoxed l => Some (zlen l) | _ => None end) C.

(** [o] is the entry of the dangling address. *)
Definition lend (C : gmap Z block) (o : option Z) (s : Proc) : Proc :=
  set_bytes (partial_alter (λ _, o) 1 (lengths_of C ∪ bytes_allocations s))
    (set_strings (strings_of C ∪ string_allocations s) (set_heap (C ∪ heap s) s)).

Definition settled (o : option Z) (s : Proc) : Proc :=
  set_bytes (partial_alter (λ _, o) 1 (bytes_allocations s)) s.

Lemma lend_empty o s : lend ∅ o s = settled o s.
Proof.
  unfold lend, settled, lengths_of, strings_of. rewrite omap_empty, map_filter_empty, dom_empty_L.
  by rewrite !(left_id_L ∅ (∪)).
Qed.

Lemma settled_self s : settled (bytes_allocations s !! 1) s = s.
Proof. unfold settled. by rewrite partial_alter_self. Qed.

Lemma lend_err C o msg s : err msg (lend C o s) = lend C o (err msg s).
Proof. done. Qed.

(** A place for a new block. *)
Record fresh_at (s : Proc) (C : gmap Z block) (a : Z) : Prop := mkFresh {
  fa_above : 1 < a;
  fa_heap : heap s !! a = None;
  fa_set : C !! a = None
}.

Lemma alloc_fresh_at s C : fresh_at s C (alloc_addr (C ∪ heap s)).
Proof.
  pose proof (alloc_fresh (C ∪ heap s)) as Hf. apply lookup_union_None in Hf as [? ?].
  split; [apply alloc_above|done..].
Qed.

Lemma strings_of_text C a l : strings_of (<[a := BCString l]> C) = {[a]} ∪ strings_of C.
Proof.
  unfold strings_of. rewrite map_filter_insert_True by done. by rewrite dom_insert_L.
Qed.

Lemma strings_of_bytes C a l : C !! a = None → strings_of (<[a := BBoxed l]> C) = strings_of C.
Proof.
  intros Ha. unfold strings_of. rewrite map_filter_insert_False by done.
  by rewrite delete_id.
Qed.

Lemma lengths_of_text C a l : C !! a = None → lengths_of (<[a := BCString l]> C) = lengths_of C.
Proof.
  intros Ha. unfold lengths_of. rewrite omap_insert_None by done.
  rewrite delete_id; [done|]. by rewrite lookup_omap, Ha.
Qed.

Lemma lengths_of_bytes C a l : lengths_of (<[a := BBoxed l]> C) = <[a := zlen l]> (lengths_of C).
Proof. unfold lengths_of. by erewrite omap_insert_Some. Qed.

Lemma strings_of_notin C a : C !! a = None → a ∉ strings_of C.
Proof.
  intros Ha Hin. unfold strings_of in Hin. apply elem_of_dom in Hin as [b Hb]. apply map_lookup_filter_Some in Hb as [? _].
  congruence.
Qed.

Lemma partial_alter_insert {A} (f : option A → option A) i j (x : A) (m : gmap Z A) :
  i ≠ j → partial_alter f i (<[j := x]> m) = <[j := x]> (partial_alter f i m).
Proof. intros. unfold insert, map_insert. by rewrite partial_alter_partial_alter_ne. Qed.

(** ** Allocating and freeing *)

Lemma lend_text C o s k :
  nul_position (String.list_byte_of_string k) = None →
  let a := alloc_addr (C ∪ heap s) in
  allocate_c_string k (lend C o s) = Ret (inr a) (lend (<[a := c_text k]> C) o s).
Proof.
  intros Hk a. destruct (alloc_fresh_at s C) as [_ _ HC]. fold a in HC.
  unfold allocate_c_string. rewrite Hk. unfold bind. simpl. fold (c_text k) a.
  unfold modify, mret, lend, set_bytes, set_strings, set_heap. simpl. unfold c_text.
  rewrite strings_of_text, lengths_of_text by done. f_equal. f_equal.
  - by rewrite insert_union_l.
  - by rewrite (assoc_L (∪)).
Qed.

Lemma lend_text_nul C o s k pos :
  nul_position (String.list_byte_of_string k) = Some pos →
  allocate_c_string k (lend C o s) =
    Ret (inl ErrorStorage)
      (lend C o (err ("Failed to create C string: " +:+ NulError_display pos) s)).
Proof. intros Hk. unfold allocate_c_string. by rewrite Hk. Qed.

(** Where a slice goes and the entry of the dangling address afterwards. *)
Definition slice_addr (C : gmap Z block) (s : Proc) (v : list byte) : Z :=
  if zlen v =? 0 then 1 else alloc_addr (C ∪ heap s).
Definition slice_set (C : gmap Z block) (a : Z) (v : list byte) : gmap Z block :=
  if zlen v =? 0 then C else <[a := BBoxed v]> C.
Definition slice_entry (o : option Z) (v : list byte) : option Z :=
  if zlen v =? 0 then Some 0 else o.

Lemma lend_bytes C o s v :
  let a := slice_addr C s v in
  allocate_bytes v (lend C o s) =
    Ret (inr (a, zlen v)) (lend (slice_set C a v) (slice_entry o v) s).
Proof.
  unfold slice_addr, slice_set, slice_entry, allocate_bytes.
  destruct (Z.eqb_spec (zlen v) 0) as [H0|H0]; unfold bind, modify, mret; simpl.
  - rewrite H0. f_equal. unfold lend, set_bytes. simpl. f_equal. 
    unfold insert, map_insert. by rewrite partial_alter_partial_alter_eq.
  - destruct (alloc_fresh_at s C) as [Ha _ HC]. set (a := alloc_addr (C ∪ heap s)) in *.
    unfold lend, set_bytes, set_strings, set_heap. simpl.
    rewrite strings_of_bytes, lengths_of_bytes by done. f_equal. f_equal.
    + by rewrite insert_union_l.
    + rewrite <-insert_union_l. by rewrite partial_alter_insert by lia.
Qed.

(** The tables of the process itself know nothing of a fresh address. *)
Lemma fresh_tables s C a : cwf s → fresh_at s C a →
  (a ∉ string_allocations s) ∧ bytes_allocations s !! a = None.
Proof.
  intros Hs [Ha Hh HC]. split.
  - intros Hin. destruct (cwf_strings s Hs a Hin). congruence.
  - destruct (bytes_allocations s !! a) as [n|] eqn:E; [|done].
    destruct (cwf_bytes s Hs a n E) as [[-> _]|(l & ? & _)]; [lia|congruence].
Qed.

Lemma free_text C o s a l :
  cwf s → fresh_at s C a →
  f4kvs_string_free a (lend (<[a := BCString l]> C) o s) = Ret tt (lend C o s).
Proof.
  intros Hs Hf. destruct (fresh_tables s C a Hs Hf) as [Hst _]. destruct Hf as [Ha Hh HC].
  unfold f4kvs_string_free. rewrite (proj2 (Z.eqb_neq _ _)) by lia.
  unfold lend. rewrite strings_of_text, lengths_of_text by done. simpl.
  rewrite bool_decide_eq_true_2 by set_solver.
  rewrite (lookup_union_Some_l _ _ _ (BCString l)) by apply lookup_insert_eq.
  unfold set_bytes, set_strings, set_heap. simpl. f_equal. f_equal.
  - rewrite delete_union, (delete_id (heap s)) by done. by rewrite delete_insert_id.
  - apply strings_of_notin in HC. set_solver.
Qed.

Lemma free_slice C o s a v :
  cwf s → fresh_at s C a → v ≠ [] →
  f4kvs_bytes_free a (lend (<[a := BBoxed v]> C) o s) = Ret tt (lend C o s).
Proof.
  intros Hs Hf Hv. destruct (fresh_tables s C a Hs Hf) as [_ Hb]. destruct Hf as [Ha Hh HC].
  assert (zlen v ≠ 0) as H0 by (intros H; by apply zlen_nil_inv in H).
  unfold f4kvs_bytes_free. rewrite (proj2 (Z.eqb_neq a 0)) by lia.
  unfold lend. rewrite strings_of_bytes, lengths_of_bytes by done. simpl.
  rewrite <-insert_union_l, partial_alter_insert, lookup_insert_eq by lia.
  rewrite (proj2 (Z.eqb_neq _ _)) by done. 
  rewrite (lookup_union_Some_l _ _ _ (BBoxed v)) by apply lookup_insert_eq.
  rewrite Z.eqb_refl. unfold set_bytes, set_strings, set_heap. simpl. f_equal. f_equal.
  - rewrite delete_union, (delete_id (heap s)) by done. by rewrite delete_insert_id.
  - rewrite delete_insert_id; [done|]. rewrite lookup_partial_alter_ne by lia.
    apply lookup_union_None. split; [|done]. unfold lengths_of. by rewrite lookup_omap, HC.
Qed.

Lemma free_dangling C o s :
  o = None ∨ o = Some 0 → f4kvs_bytes_free 1 (lend C o s) = Ret tt (lend C None s).
Proof.
  intros Ho. unfold f4kvs_bytes_free, lend. simpl. rewrite lookup_partial_alter_eq.
  destruct Ho as [-> | ->]; [done|]. simpl. f_equal. unfold set_bytes. simpl. f_equal.
  unfold delete, map_delete. by rewrite partial_alter_partial_alter_eq.
Qed.

(** ** Lists of buffers *)

(** [l] lists the buffers of [C] with what is in them. *)
Inductive owned (s : Proc) : list (Z * block) → gmap Z block → Prop :=
| owned_nil : owned s [] ∅
| owned_dangling l C : owned s l C → owned s ((1, BBoxed []) :: l) C
| owned_text a t l C :
    fresh_at s C a → owned s l C → owned s ((a, BCString t) :: l) (<[a := BCString t]> C)
| owned_slice a v l C :
    fresh_at s C a → v ≠ [] → owned s l C → owned s ((a, BBoxed v) :: l) (<[a := BBoxed v]> C).

Definition free_buffer (ab : Z * block) : M Proc unit :=
  match ab.2 with BCString _ => f4kvs_string_free ab.1 | _ => f4kvs_bytes_free ab.1 end.

Definition entry_ok (o : option Z) : Prop := o = None ∨ o = Some 0.

Lemma cwf_entry s : cwf s → entry_ok (bytes_allocations s !! 1).
Proof.
  intros Hs. destruct (bytes_allocations s !! 1) as [n|] eqn:E; [|by left].
  destruct (cwf_bytes s Hs 1 n E) as [[_ ->]|(l & Hl & _)]; [by right|].
  apply (cwf_low s Hs) in Hl. lia.
Qed.

(** Freeing them all, in order, leaves the process. *)
Lemma free_owned s l C o :
  cwf s → owned s l C → entry_ok o →
  ∃ o', entry_ok o' ∧ each free_buffer l (lend C o s) = Ret tt (settled o' s).
Proof.
  intros Hs Hl. revert o. induction Hl as [|l C _ IH|a t l C Hf _ IH|a v l C Hf Hv _ IH]; intros o Ho;
    cbn [each].
  - exists o. split; [done|]. unfold mret. by rewrite lend_empty.
  - rewrite (bind_ret _ _ _ _ _ (free_dangling C o s Ho)). apply IH. by left.
  - rewrite (bind_ret _ _ _ _ _ (free_text C o s a t Hs Hf)). by apply IH.
  - rewrite (bind_ret _ _ _ _ _ (free_slice C o s a v Hs Hf Hv)). by apply IH.
Qed.

Lemma fresh_at_insert s C a a1 (b1 : block) :
  fresh_at s (<[a1 := b1]> C) a → fresh_at s C a ∧ a ≠ a1.
Proof.
  intros [H1 H2 H3]. apply lookup_insert_None in H3 as [H3 Hne]. split; [by split|done].
Qed.

Lemma fresh_insert_at s C a a1 (b : block) :
  fresh_at s C a1 → a ≠ a1 → fresh_at s (<[a := b]> C) a1.
Proof. intros [? ? ?] Hne. split; [done..|]. by rewrite lookup_insert_ne. Qed.

Lemma owned_snoc_text s l C a t :
  owned s l C → fresh_at s C a → owned s (l ++ [(a, BCString t)]) (<[a := BCString t]> C).
Proof.
  intros Hl. revert a. induction Hl as [|l C _ IH|a1 t1 l C Hf1 _ IH|a1 v1 l C Hf1 Hv _ IH];
    intros a Hf; simpl.
  - apply owned_text; [done|constructor].
  - apply owned_dangling. by apply IH.
  - apply fresh_at_insert in Hf as [Hf Hne]. rewrite insert_insert_ne by done.
    apply owned_text; [by apply fresh_insert_at|by apply IH].
  - apply fresh_at_insert in Hf as [Hf Hne]. rewrite insert_insert_ne by done.
    apply owned_slice; [by apply fresh_insert_at|done|by apply IH].
Qed.

Lemma owned_snoc_slice s l C v :
  owned s l C → let a := slice_addr C s v in owned s (l ++ [(a, BBoxed v)]) (slice_set C a v).
Proof.
  intros Hl a. unfold slice_set. destruct (Z.eqb_spec (zlen v) 0) as [H0|H0].
  - assert (a = 1) as -> by (subst a; unfold slice_addr; by rewrite H0).
    rewrite (zlen_nil_inv v) by done. clear H0 v. induction Hl; simpl;
      [apply owned_dangling, owned_nil|by apply owned_dangling|by apply owned_text|by apply owned_slice].
  - assert (fresh_at s C a) as Hf.
    { subst a. unfold slice_addr. rewrite (proj2 (Z.eqb_neq _ _)) by done. apply alloc_fresh_at. }
    clearbody a. assert (v ≠ []) as Hv by (by intros ->).
    revert a Hf. induction Hl as [|l C _ IH|a1 t1 l C Hf1 _ IH|a1 v1 l C Hf1 Hv1 _ IH];
      intros a Hf; simpl.
    + apply owned_slice; [done|done|constructor].
    + apply owned_dangling. by apply IH.
    + apply fresh_at_insert in Hf as [Hf Hne]. rewrite insert_insert_ne by done.
      apply owned_text; [by apply fresh_insert_at|by apply IH].
    + apply fresh_at_insert in Hf as [Hf Hne]. rewrite insert_insert_ne by done.
      apply owned_slice; [by apply fresh_insert_at|done|by apply IH].
Qed.

(** The blocks are there. *)
Lemma owned_lookup s l C a b :
  owned s l C → (a, b) ∈ l → C !! a = Some b ∨ a = 1 ∧ b = BBoxed [].
Proof.
  intros Hl. induction Hl as [|l C _ IH|a1 t1 l C Hf1 _ IH|a1 v1 l C Hf1 Hv1 _ IH]; intros Hin.
  - by apply not_elem_of_nil in Hin.
  - apply elem_of_cons in Hin as [[= -> ->]|Hin]; [by right|by apply IH].
  - apply elem_of_cons in Hin as [[= -> ->]|Hin]; [left; by rewrite lookup_insert_eq|].
    destruct (IH Hin) as [Hb|?]; [left|by right]. rewrite lookup_insert_ne; [done|].
    destruct Hf1. congruence.
  - apply elem_of_cons in Hin as [[= -> ->]|Hin]; [left; by rewrite lookup_insert_eq|].
    destruct (IH Hin) as [Hb|?]; [left|by right]. rewrite lookup_insert_ne; [done|].
    destruct Hf1. congruence.
Qed.

Lemma owned_err s l C msg : owned s l C → owned (err msg s) l C.
Proof.
  induction 1 as [|l C _ IH|a t l C [] _ IH|a v l C [] ? _ IH];
    [apply owned_nil|by apply owned_dangling|by apply owned_text|by apply owned_slice].
Qed.

Lemma cwf_settled o s : cwf s → entry_ok o → cwf (settled o s).
Proof.
  intros [Hl Hs Hb] Ho. split; [done..|]. unfold settled, set_bytes. cbn [bytes_allocations heap].
  intros a n Hn. destruct (decide (a = 1)) as [->|Hne].
  - rewrite lookup_partial_alter_eq in Hn. destruct Ho as [-> | ->]; by simplify_eq; left.
  - rewrite lookup_partial_alter_ne in Hn by done. by apply Hb.
Qed.

End Buffers.
