(* ===== verification/ScanFacts.v ===== *)
(** * What scans hand out, and giving it back

    [fill_scan_result] and [fill_scan_result_kv] of [lib.rs] on any list of pairs:
    the array they box describes exactly these pairs, or nothing stays allocated;
    and freeing a result leaves the process as it was. *)

From S2P Require Import Prelude Engine EngineScan Utf8 Options Ffi Cabi FfiFacts Sound Calls Buffers.

Section ScanFacts.
Context `{L : LsmEngine} {P : Platform} {POk : PlatformOk P}.
Implicit Types (s : Proc) (C : gmap Z block) (o : option Z).

(** ** Arrays over buffers *)

(** The process with an array of pointers on top. *)
Definition with_array (p : Z) (b : block) (s : Proc) : Proc := set_heap (<[p := b]> (heap s)) s.

Lemma lend_array C o s p b :
  C !! p = None → with_array p b (lend C o s) = lend C o (with_array p b s).
Proof.
  intros Hp. unfold with_array, lend, set_heap, set_bytes, set_strings. simpl.
  by rewrite insert_union_r.
Qed.

Lemma owned_array s l C p b :
  owned s l C → C !! p = None → owned (with_array p b s) l C.
Proof.
  induction 1 as [|l C _ IH|a t l C Hf _ IH|a v l C Hf Hv _ IH]; intros Hp.
  - apply owned_nil.
  - by apply owned_dangling, IH.
  - apply lookup_insert_None in Hp as [Hp Hne]. apply owned_text; [|by apply IH].
    destruct Hf. split; [done| |done]. simpl. by rewrite lookup_insert_ne.
  - apply lookup_insert_None in Hp as [Hp Hne]. apply owned_slice; [|done|by apply IH].
    destruct Hf. split; [done| |done]. simpl. by rewrite lookup_insert_ne.
Qed.

Lemma cwf_array s p b : cwf s → 1 < p → heap s !! p = None → cwf (with_array p b s).
Proof.
  intros [Hl Hs Hb] Hp Hn. split; simpl.
  - intros a x. rewrite lookup_insert. case_decide; [by subst|apply Hl].
  - intros a Ha. destruct (Hs a Ha) as [x ?]. exists x. rewrite lookup_insert_ne; congruence.
  - intros a n Ha. destruct (Hb a n Ha) as [|(x & ? & ?)]; [by left|right]. exists x.
    rewrite lookup_insert_ne; [done|congruence].
Qed.

(** Giving back the buffers and then the array. *)
Lemma free_array s l C o p b (m : M Proc unit) :
  cwf s → owned s l C → entry_ok o → fresh_at s C p →
  (∀ s', m s' = each free_buffer l s') →
  ∃ o', entry_ok o' ∧
    (run! m in modify (λ s, set_heap (delete p (heap s)) s)) (with_array p b (lend C o s)) =
      Ret tt (settled o' s).
Proof.
  intros Hs Hl Ho [Hp Hh HC] Hm.
  destruct (free_owned (with_array p b s) l C o) as (o' & Ho' & Hfree);
    [by apply cwf_array|by apply owned_array|done|].
  exists o'. split; [done|]. rewrite lend_array by done. unfold bind. rewrite Hm, Hfree.
  unfold modify, settled, set_bytes, set_heap. simpl. f_equal. f_equal. by apply delete_insert_id.
Qed.

Lemma slice_entry_ok o v : entry_ok o → entry_ok (slice_entry o v).
Proof. intros Ho. unfold slice_entry. destruct (_ =? 0); [by right|done]. Qed.

(** ** C-string keys *)

Definition pair_buffers (p : F4KvsKVPair) (kv : string * Value json) : list (Z * block) :=
  [(pair_key p, c_text kv.1); (pair_value p, BBoxed (value_to_bytes kv.2))].

Definition buffers (ps : list F4KvsKVPair) (items : list (string * Value json)) : list (Z * block) :=
  concat (zip_with pair_buffers ps items).

Definition measured (p : F4KvsKVPair) (kv : string * Value json) : Prop :=
  pair_value_len p = zlen (value_to_bytes kv.2).

Lemma free_pairs_buffers ps items s :
  length ps = length items → each free_pair ps s = each free_buffer (buffers ps items) s.
Proof.
  revert items s. induction ps as [|p ps IH]; intros [|kv items] s Hlen; try done.
  unfold buffers. simpl. unfold free_pair, free_buffer at 1. simpl. rewrite bind_assoc.
  unfold bind. destruct (f4kvs_string_free _ s); [|done..]. unfold free_buffer at 1. simpl.
  destruct (f4kvs_bytes_free _ _); [|done..]. apply IH. simpl in Hlen. lia.
Qed.

Lemma buffers_snoc ps items p kv :
  length ps = length items → buffers (ps ++ [p]) (items ++ [kv]) = buffers ps items ++ pair_buffers p kv.
Proof.
  intros Hlen. unfold buffers. rewrite zip_with_app by done. by rewrite concat_app.
Qed.

Lemma fill_pairs_spec items s :
  cwf s → ∀ ps done C o, entry_ok o → owned s (buffers ps done) C → Forall2 measured ps done →
  match nul_key items.*1 with
  | Some msg => ∃ o', entry_ok o' ∧
      fill_pairs items ps (lend C o s) = Ret (inl ErrorStorage) (settled o' (err msg s))
  | None => ∃ ps' C' o', entry_ok o' ∧ fill_pairs items ps (lend C o s) = Ret (inr ps') (lend C' o' s) ∧
      owned s (buffers ps' (done ++ items)) C' ∧ Forall2 measured ps' (done ++ items)
  end.
Proof.
  intros Hs. induction items as [|[k v] items IH]; intros ps ds C o Ho HC Hps; csimpl.
  { exists ps, C, o. by rewrite (right_id_L [] (++)). }
  destruct (nul_position (String.list_byte_of_string k)) as [pos|] eqn:Hpos.
  - rewrite (bind_ret _ _ _ _ _ (lend_text_nul C o s k pos Hpos)). unfold bind, mret.
    rewrite (free_pairs_buffers ps ds) by (by eapply Forall2_length).
    set (msg := "Failed to create C string: " +:+ NulError_display pos).
    destruct (free_owned (err msg s) _ C o (cwf_err msg s Hs) (owned_err _ _ _ msg HC) Ho) as (o' & ? & Hf).
    exists o'. by rewrite Hf.
  - rewrite (bind_ret _ _ _ _ _ (lend_text C o s k Hpos)). cbv zeta.
    pose proof (alloc_fresh_at s C) as Hf. set (a := alloc_addr (C ∪ heap s)) in *.
    rewrite (bind_ret _ _ _ _ _ (lend_bytes (<[a := c_text k]> C) o s (value_to_bytes v))). cbv zeta.
    pose proof (owned_snoc_slice s _ _ (value_to_bytes v)
      (owned_snoc_text s _ _ a (String.list_byte_of_string k ++ [x00]) HC Hf)) as HC'.
    cbv zeta in HC'. set (b := slice_addr _ _ _) in *.
    rewrite <-(app_assoc (buffers ps ds)) in HC'.
    specialize (IH (ps ++ [mkPair a b (zlen (value_to_bytes v))]) (ds ++ [(k, v)])
      (slice_set (<[a := c_text k]> C) b (value_to_bytes v)) (slice_entry o (value_to_bytes v))).
    rewrite buffers_snoc in IH by (by eapply Forall2_length). rewrite <-(app_assoc ds) in IH.
    apply IH; [| exact HC' |by apply Forall2_app; [|repeat constructor]].
    by apply slice_entry_ok.
Qed.

(** What a result in memory says. *)
Definition holds_pair (h : gmap Z block) (p : F4KvsKVPair) (kv : string * Value json) : Prop :=
  let v := value_to_bytes kv.2 in
  h !! pair_key p = Some (c_text kv.1) ∧ pair_value_len p = zlen v ∧
  (v = [] ∨ h !! pair_value p = Some (BBoxed v)).

Definition holds_scan (h : gmap Z block) (r : F4KvsScanResult) (items : list (string * Value json)) : Prop :=
  sr_count r = zlen items ∧
  (items = [] ∨ ∃ ps, h !! sr_pairs r = Some (BPairs ps) ∧ Forall2 (holds_pair h) ps items).

Lemma owned_holds s ps items C h :
  owned s (buffers ps items) C → C ⊆ h → Forall2 measured ps items → Forall2 (holds_pair h) ps items.
Proof.
  intros HC Hsub Hm.
  assert (∀ a b, (a, b) ∈ buffers ps items → h !! a = Some b ∨ b = BBoxed []) as Hh.
  { intros a b Hab. destruct (owned_lookup s _ C a b HC Hab) as [Hb|[_ ->]]; [left|by right].
    by eapply lookup_weaken. }
  clear HC Hsub. unfold buffers in Hh. induction Hm as [|p kv ps items Hv _ IH]; constructor.
  - split_and!; [|done|].
    + destruct (Hh (pair_key p) (c_text kv.1)) as [?|?]; [|done|done]. simpl. apply list_elem_of_here.
    + destruct (Hh (pair_value p) (BBoxed (value_to_bytes kv.2))) as [?|[= ->]]; [|by right|by left].
      simpl. apply list_elem_of_further, list_elem_of_here.
  - apply IH. intros a b Hab. apply Hh. simpl. by do 2 apply list_elem_of_further.
Qed.

(** The process as [s], the entry of the dangling address apart. *)
Definition given_back (s s' : Proc) : Prop := ∃ o, entry_ok o ∧ s' = settled o s.

Lemma array_sub C p b s o :
  C !! p = None → C ⊆ heap (with_array p b (lend C o s)).
Proof.
  intros HC. simpl. apply map_subseteq_spec. intros a x Ha.
  rewrite lookup_insert_ne by congruence. by apply lookup_union_Some_l.
Qed.

Lemma zlen_pos {A} (x : A) l : (zlen (x :: l) =? 0) = false ∧ (0 <? zlen (x :: l)) = true.
Proof. unfold zlen. cbn [length]. split; [apply Z.eqb_neq|apply Z.ltb_lt]; lia. Qed.

(** Nothing of the process is overwritten. *)
Lemma owned_sub s l C o p b :
  owned s l C → fresh_at s C p → heap s ⊆ heap (with_array p b (lend C o s)).
Proof.
  intros HC Hp. simpl. etrans; [|apply insert_subseteq].
  - apply map_union_subseteq_r. induction HC as [|l C _ IH|a t l C Hf _ IH|a v l C Hf Hv _ IH].
    + apply map_disjoint_empty_l.
    + by apply IH.
    + apply fresh_at_insert in Hp as [Hp _]. apply map_disjoint_insert_l. destruct Hf. auto.
    + apply fresh_at_insert in Hp as [Hp _]. apply map_disjoint_insert_l. destruct Hf. auto.
  - destruct Hp. by apply lookup_union_None.
Qed.

(** A filled result: the pairs it describes, and what freeing it leaves. *)
Definition fills (s : Proc) (items : list (string * Value json)) (r : F4KvsScanResult) (s' : Proc) : Prop :=
  holds_scan (heap s') r items ∧ heap s ⊆ heap s' ∧
  ∃ s'', f4kvs_scan_result_free (Some r) s' = Ret (Some (mkScan 0 0)) s'' ∧ given_back s s''.

Lemma fill_scan_result_spec items out s :
  cwf s →
  match nul_key items.*1 with
  | Some msg => ∃ s', fill_scan_result items out s = Ret (ErrorStorage, out) s' ∧ given_back (err msg s) s'
  | None => ∃ r s', fill_scan_result items out s = Ret (Success, r) s' ∧ fills s items r s'
  end.
Proof.
  intros Hs. pose proof (cwf_entry s Hs) as Ho. destruct items as [|kv items].
  { exists (mkScan 0 0), s. split; [done|]. split; [by split; [|left]|]. split; [done|]. exists s.
    split; [done|]. exists (bytes_allocations s !! 1). by rewrite settled_self. }
  set (its := kv :: items) in *. destruct (zlen_pos kv items) as [Hz1 Hz2]. fold its in Hz1, Hz2.
  unfold fill_scan_result. rewrite Hz1. cbv zeta.
  pose proof (fill_pairs_spec its s Hs [] [] ∅ _ Ho (owned_nil s) (List.Forall2_nil _)) as Hfill.
  rewrite lend_empty, settled_self in Hfill. destruct (nul_key its.*1) as [msg|].
  { destruct Hfill as (o' & ? & Hf). rewrite (bind_ret _ _ _ _ _ Hf).
    exists (settled o' (err msg s)). split; [done|by exists o']. }
  destruct Hfill as (ps & C & o' & Ho' & Hf & HC & Hm). rewrite (bind_ret _ _ _ _ _ Hf).
  simpl app in HC, Hm. pose proof (alloc_fresh_at s C) as Hp. set (p := alloc_addr (C ∪ heap s)) in *.
  exists (mkScan p (zlen its)), (with_array p (BPairs ps) (lend C o' s)).
  pose proof (Forall2_length _ _ _ Hm) as Hlen. split; [done|]. split.
  - split; [done|right]. exists ps. split; [apply lookup_insert_eq|].
    eapply owned_holds; [done|apply array_sub, Hp|done].
  - split; [by eapply owned_sub|].
    destruct (free_array s (buffers ps its) C o' p (BPairs ps) (each free_pair ps)) as (o2 & Ho2 & Hfree);
      [done..|by intros; apply free_pairs_buffers|].
    exists (settled o2 s). split; [|by exists o2].
    unfold f4kvs_scan_result_free. simpl. rewrite Hz2, bool_decide_eq_true_2 by (destruct Hp; lia).
    unfold bind at 1, drop_pairs. simpl. rewrite lookup_insert_eq.
    rewrite (proj2 (Z.eqb_eq _ _)) by (unfold zlen; lia). by rewrite Hfree.
Qed.

(** ** Length-prefixed keys *)

Definition pair_buffers_kv (p : F4KvsKVPairKv) (kv : string * Value json) : list (Z * block) :=
  [(kv_key p, BBoxed (String.list_byte_of_string kv.1)); (kv_value p, BBoxed (value_to_bytes kv.2))].

Definition buffers_kv (ps : list F4KvsKVPairKv) (items : list (string * Value json)) : list (Z * block) :=
  concat (zip_with pair_buffers_kv ps items).

Definition measured_kv (p : F4KvsKVPairKv) (kv : string * Value json) : Prop :=
  kv_key_len p = zlen (String.list_byte_of_string kv.1) ∧ kv_value_len p = zlen (value_to_bytes kv.2).

Lemma free_pairs_kv_buffers ps items s :
  length ps = length items → each free_pair_kv ps s = each free_buffer (buffers_kv ps items) s.
Proof.
  revert items s. induction ps as [|p ps IH]; intros [|kv items] s Hlen; try done.
  unfold buffers_kv. simpl. unfold free_pair_kv, free_buffer at 1. simpl. rewrite bind_assoc.
  unfold bind. destruct (f4kvs_bytes_free _ s); [|done..]. unfold free_buffer at 1. simpl.
  destruct (f4kvs_bytes_free _ _); [|done..]. apply IH. simpl in Hlen. lia.
Qed.

Lemma buffers_kv_snoc ps items p kv :
  length ps = length items →
  buffers_kv (ps ++ [p]) (items ++ [kv]) = buffers_kv ps items ++ pair_buffers_kv p kv.
Proof. intros Hlen. unfold buffers_kv. rewrite zip_with_app by done. by rewrite concat_app. Qed.

(** Unlike the C strings, these are made of any key. *)
Lemma fill_pairs_kv_spec items s :
  cwf s → ∀ ps ds C o, entry_ok o → owned s (buffers_kv ps ds) C → Forall2 measured_kv ps ds →
  ∃ ps' C' o', entry_ok o' ∧ fill_pairs_kv items ps (lend C o s) = Ret (inr ps') (lend C' o' s) ∧
    owned s (buffers_kv ps' (ds ++ items)) C' ∧ Forall2 measured_kv ps' (ds ++ items).
Proof.
  intros Hs. induction items as [|[k v] items IH]; intros ps ds C o Ho HC Hps; csimpl.
  { exists ps, C, o. by rewrite (right_id_L [] (++)). }
  set (kb := String.list_byte_of_string k). set (vb := value_to_bytes v).
  rewrite (bind_ret _ _ _ _ _ (lend_bytes C o s kb)). cbv zeta.
  pose proof (owned_snoc_slice s _ _ kb HC) as HC1. cbv zeta in HC1. set (a := slice_addr C s kb) in *.
  rewrite (bind_ret _ _ _ _ _ (lend_bytes (slice_set C a kb) (slice_entry o kb) s vb)). cbv zeta.
  pose proof (owned_snoc_slice s _ _ vb HC1) as HC2. cbv zeta in HC2.
  set (b := slice_addr (slice_set C a kb) s vb) in *.
  rewrite <-(app_assoc (buffers_kv ps ds)) in HC2.
  specialize (IH (ps ++ [mkPairKv a (zlen kb) b (zlen vb)]) (ds ++ [(k, v)])
    (slice_set (slice_set C a kb) b vb) (slice_entry (slice_entry o kb) vb)).
  rewrite buffers_kv_snoc in IH by (by eapply Forall2_length). rewrite <-(app_assoc ds) in IH.
  apply IH; [by do 2 apply slice_entry_ok|exact HC2|by apply Forall2_app; [|repeat constructor]].
Qed.

Definition holds_pair_kv (h : gmap Z block) (p : F4KvsKVPairKv) (kv : string * Value json) : Prop :=
  let k := String.list_byte_of_string kv.1 in
  let v := value_to_bytes kv.2 in
  kv_key_len p = zlen k ∧ (k = [] ∨ h !! kv_key p = Some (BBoxed k)) ∧
  kv_value_len p = zlen v ∧ (v = [] ∨ h !! kv_value p = Some (BBoxed v)).

Definition holds_scan_kv (h : gmap Z block) (r : F4KvsScanResultKv) (items : list (string * Value json))
    : Prop :=
  srk_count r = zlen items ∧
  (items = [] ∨ ∃ ps, h !! srk_pairs r = Some (BPairsKv ps) ∧ Forall2 (holds_pair_kv h) ps items).

Lemma owned_slice_lookup s l C h a v :
  owned s l C → C ⊆ h → (a, BBoxed v) ∈ l → v = [] ∨ h !! a = Some (BBoxed v).
Proof.
  intros HC Hsub Hin. destruct (owned_lookup s l C a _ HC Hin) as [Hb|[_ [= ->]]]; [right|by left].
  by eapply lookup_weaken.
Qed.

Lemma owned_holds_kv s ps items C h :
  owned s (buffers_kv ps items) C → C ⊆ h → Forall2 measured_kv ps items →
  Forall2 (holds_pair_kv h) ps items.
Proof.
  intros HC Hsub Hm.
  assert (∀ ab, ab ∈ buffers_kv ps items → ∀ v, ab.2 = BBoxed v → v = [] ∨ h !! ab.1 = Some (BBoxed v)) as Hh.
  { intros [a b] Hab v ?. simplify_eq/=. by eapply owned_slice_lookup. }
  clear HC Hsub. unfold buffers_kv in Hh. induction Hm as [|p kv ps items [Hk Hv] _ IH]; constructor.
  - split_and!; [done| |done|].
    + apply (Hh (kv_key p, BBoxed (String.list_byte_of_string kv.1))); [|done]. simpl. apply list_elem_of_here.
    + apply (Hh (kv_value p, BBoxed (value_to_bytes kv.2))); [|done]. simpl. apply list_elem_of_further, list_elem_of_here.
  - apply IH. intros ab Hab. apply Hh. simpl. by do 2 apply list_elem_of_further.
Qed.

Definition fills_kv (s : Proc) (items : list (string * Value json)) (r : F4KvsScanResultKv) (s' : Proc)
    : Prop :=
  holds_scan_kv (heap s') r items ∧ heap s ⊆ heap s' ∧
  ∃ s'', f4kvs_scan_result_kv_free (Some r) s' = Ret (Some (mkScanKv 0 0)) s'' ∧ given_back s s''.

Lemma fill_scan_result_kv_spec items out s :
  cwf s → ∃ r s', fill_scan_result_kv items out s = Ret (Success, r) s' ∧ fills_kv s items r s'.
Proof.
  intros Hs. pose proof (cwf_entry s Hs) as Ho. destruct items as [|kv items].
  { exists (mkScanKv 0 0), s. split; [done|]. split; [by split; [|left]|]. split; [done|]. exists s.
    split; [done|]. exists (bytes_allocations s !! 1). by rewrite settled_self. }
  set (its := kv :: items) in *. destruct (zlen_pos kv items) as [Hz1 Hz2]. fold its in Hz1, Hz2.
  unfold fill_scan_result_kv. rewrite Hz1. cbv zeta.
  pose proof (fill_pairs_kv_spec its s Hs [] [] ∅ _ Ho (owned_nil s) (List.Forall2_nil _)) as Hfill.
  rewrite lend_empty, settled_self in Hfill.
  destruct Hfill as (ps & C & o' & Ho' & Hf & HC & Hm). rewrite (bind_ret _ _ _ _ _ Hf).
  simpl app in HC, Hm. pose proof (alloc_fresh_at s C) as Hp. set (p := alloc_addr (C ∪ heap s)) in *.
  exists (mkScanKv p (zlen its)), (with_array p (BPairsKv ps) (lend C o' s)).
  pose proof (Forall2_length _ _ _ Hm) as Hlen. split; [done|]. split.
  - split; [done|right]. exists ps. split; [apply lookup_insert_eq|].
    eapply owned_holds_kv; [done|apply array_sub, Hp|done].
  - split; [by eapply owned_sub|].
    destruct (free_array s (buffers_kv ps its) C o' p (BPairsKv ps) (each free_pair_kv ps))
      as (o2 & Ho2 & Hfree); [done..|by intros; apply free_pairs_kv_buffers|].
    exists (settled o2 s). split; [|by exists o2].
    unfold f4kvs_scan_result_kv_free. simpl. rewrite Hz2, bool_decide_eq_true_2 by (destruct Hp; lia).
    unfold bind at 1, drop_pairs_kv. simpl. rewrite lookup_insert_eq.
    rewrite (proj2 (Z.eqb_eq _ _)) by (unfold zlen; lia). by rewrite Hfree.
Qed.

End ScanFacts.
