(* ===== verification/CabiFacts.v ===== *)
(** * What the functions outside the Go binding do

    The length-prefixed functions as equations, what they write and read back; scans with values; the text
    [f4kvs_engine_get] answers. *)

From S2P Require Import Prelude Engine EngineScan Utf8 Options Ffi Cabi FfiFacts Sound Calls Buffers ScanFacts.

Section CabiFacts.
Context `{L : LsmEngine} {SC : LsmScan L} {P : Platform} {POk : PlatformOk P}.
Implicit Types (s : Proc) (g : lsm) (a : Z).

(** A buffer argument that holds [l]. *)
Definition holds (s : Proc) (p : bufptr) (n : Z) (l : list byte) : Prop :=
  n = zlen l ∧ (l = [] ∨ is_null p = false ∧ read_buf p n s = Ret l s).

Definition check_raw (field : string) (l : list byte) : string + string :=
  check_text field MAX_KEY_LENGTH l.

Lemma holds_go s l : holds s (GoMem l) (zlen l) l.
Proof.
  split; [done|right]. split; [done|]. unfold read_buf. rewrite Z.leb_refl.
  unfold zlen. by rewrite Nat2Z.id, firstn_all.
Qed.

Lemma key_from_raw_holds s p n l field :
  holds s p n l →
  key_from_raw p n field s =
    match check_raw field l with
    | inl msg => Ret (inl ErrorInvalidArgument) (err msg s)
    | inr k => Ret (inr k) s
    end.
Proof.
  intros [-> Hp]. unfold key_from_raw. destruct (Z.eqb_spec (zlen l) 0) as [H0|H0].
  { by rewrite (zlen_nil_inv l). }
  destruct Hp as [->|[Hn Hr]]; [done|]. rewrite Hn, (bind_ret _ _ _ _ _ Hr).
  unfold key_from_bytes, check_raw, check_text. case_match; [done|]. by destruct (from_utf8 l).
Qed.

Definition raw_eff {A} (field : string) (l : list byte) (f : string → eff A) : eff A :=
  match check_raw field l with inl msg => (inl msg, None) | inr k => f k end.

Definition value_eff (v : list byte) (x : eff unit) : eff unit :=
  if MAX_VALUE_LENGTH <? zlen v then
    (inl ("Invalid argument: value exceeds maximum length of "
          +:+ pretty MAX_VALUE_LENGTH +:+ " bytes"), None)
  else x.

Definition put_kv_eff (what : string) (key v : list byte) (g : lsm) (d : disk) : eff unit :=
  raw_eff "key" key (λ k, value_eff v (run_eff what (lsm_put k (VBytes v)) g d)).

Definition delete_kv_eff (what : string) (key : list byte) (g : lsm) (d : disk) : eff unit :=
  raw_eff "key" key (λ k, run_eff what (lsm_delete k) g d).

Section Live.
Context (s : Proc) (a : Z) (g : lsm) (p : bufptr) (n : Z) (key : list byte).
Hypothesis Ha : a ≠ 0.
Hypothesis Hg : heap s !! a = Some (BEngine g).
Hypothesis Hkey : holds s p n key.

Lemma raw_call {B} field (onerr : F4KvsResult → M Proc B) (k : string → M Proc B) :
  (let! e := validate_engine a in
   match e with
   | inl e => onerr e
   | inr _ =>
       let! key_str := key_from_raw p n field in
       match key_str with inl e => onerr e | inr key_str => k key_str end
   end) s =
  match check_raw field key with
  | inl msg => onerr ErrorInvalidArgument (err msg s)
  | inr key_str => k key_str s
  end.
Proof.
  unfold bind. rewrite (validate_engine_live _ _ _ Ha Hg).
  rewrite (key_from_raw_holds _ _ _ _ _ Hkey). by destruct (check_raw _ _).
Qed.

(** The value of a write and the write. *)
Lemma value_call what q m v (op : list byte → LsmOp lsm disk unit) :
  holds s q m v →
  (if MAX_VALUE_LENGTH <? m then
     run! set_last_error ("Invalid argument: value exceeds maximum length of "
                          +:+ pretty MAX_VALUE_LENGTH +:+ " bytes") in mret ErrorInvalidArgument
   else if (0 <? m) && is_null q then
     run! set_last_error "Invalid argument: value is null" in mret ErrorInvalidArgument
   else let! bytes := (if m =? 0 then mret [] else read_buf q m) in
        let! r := engine_op a (op bytes) in report what r) s =
  reply a (value_eff v (run_eff what (op v) g (dsk s))) s.
Proof.
  intros [-> Hq]. unfold value_eff. case_match; [done|].
  destruct (Z.eqb_spec (zlen v) 0) as [H0|H0].
  { rewrite (zlen_nil_inv v) by done. by apply op_report. }
  destruct Hq as [->|[Hn Hr]]; [done|]. rewrite Hn, andb_false_r.
  rewrite (bind_ret _ _ _ _ _ Hr). by apply op_report.
Qed.

Lemma put_kv_live q m v :
  holds s q m v → f4kvs_engine_put_kv a p n q m s = reply a (put_kv_eff "Put kv" key v g (dsk s)) s.
Proof.
  intros Hv. unfold f4kvs_engine_put_kv, put_kv_eff, raw_eff. rewrite raw_call.
  destruct (check_raw "key" key) as [msg|k]; [done|].
  by apply (value_call _ _ _ _ (λ b, lsm_put k (VBytes b))).
Qed.

Lemma delete_kv_live :
  f4kvs_engine_delete_kv a p n s = reply a (delete_kv_eff "Delete kv" key g (dsk s)) s.
Proof.
  unfold f4kvs_engine_delete_kv, delete_kv_eff, raw_eff. rewrite raw_call.
  destruct (check_raw "key" key) as [msg|k]; [done|]. by apply op_report.
Qed.

(** The buffer of a value that was read. *)
Definition give (v : Value json) (o : Z * Z) (s : Proc) : outcome Proc (F4KvsResult * option (Z * Z)) :=
  (let! r := allocate_bytes (value_to_bytes v) in
   match r with
   | inr (ptr, len) => mret (Success, Some (ptr, len))
   | inl e => mret (e, Some o)
   end) s.

Definition get_reply (what : string) (o : Z * Z) (x : (string + option (Value json)) * (lsm * disk)) :
    outcome Proc (F4KvsResult * option (Z * Z)) :=
  let '(r, (g', d')) := x in
  let s' := with_engine a g' d' s in
  match r with
  | inl e => Ret (ErrorStorage, Some o) (err (what +:+ e) s')
  | inr None => Ret (ErrorNotFound, Some (0, 0)) s'
  | inr (Some v) => give v o s'
  end.

Lemma get_kv_live o :
  f4kvs_engine_get_kv a p n (Some o) s =
    match check_raw "key" key with
    | inl msg => Ret (ErrorInvalidArgument, Some o) (err msg s)
    | inr k => get_reply "Get kv failed: " o
                 (or_block_on (lsm_try_get_sync k) (lsm_get k) g (dsk s))
    end.
Proof.
  unfold f4kvs_engine_get_kv. rewrite raw_call.
  destruct (check_raw "key" key) as [msg|k]; [done|].
  unfold bind at 1, engine_run, get_reply. rewrite Hg.
  by destruct (or_block_on _ _ g (dsk s)) as [[e|[v|]] [g' d']].
Qed.

End Live.

(** The C-string function gives the same kind of reply. *)
Lemma get_bytes_reply s a g ck key o :
  a ≠ 0 → heap s !! a = Some (BEngine g) → has_key (heap s) ck key →
  f4kvs_engine_get_bytes a ck (Some o) s =
    match check_key key with
    | inl msg => Ret (ErrorInvalidArgument, Some o) (err msg s)
    | inr k => get_reply s a "Get bytes failed: " o (lsm_get k g (dsk s))
    end.
Proof.
  intros Ha Hg [Hck Hkey]. unfold f4kvs_engine_get_bytes. rewrite (keyed_call s a ck g key Ha Hck Hg Hkey).
  destruct (check_key key) as [msg|k]; [done|]. unfold bind at 1. rewrite (engine_op_live _ _ _ _ Hg).
  by destruct (lsm_get k g (dsk s)) as [[e|[w|]] [g' d']].
Qed.

(** ** What is written is read back *)

Context {LL : LsmLaws L} {SL : LsmScanLaws L LL SC}.

(** The out pointers after a read of [r]. *)
Definition answered (r : option (Value json)) (code : F4KvsResult) (out : option (Z * Z)) (s : Proc) : Prop :=
  match r with
  | None => code = ErrorNotFound ∧ out = Some (0, 0)
  | Some w =>
      let b := value_to_bytes w in
      code = Success ∧ ∃ ptr, out = Some (ptr, zlen b) ∧ (b = [] ∨ heap s !! ptr = Some (BBoxed b))
  end.

Lemma or_block_on_get k g d r g' d' :
  or_block_on (lsm_try_get_sync k) (lsm_get k) g d = (inr r, (g', d')) →
  r = contents g !! k ∧ contents g' = contents g.
Proof.
  unfold or_block_on. destruct (lsm_try_get_sync k g d) as [[t|] [g1 d1]] eqn:Ht; intros H.
  - simplify_eq. by apply try_get_ok in Ht.
  - apply try_get_none in Ht. apply get_ok in H as [-> ->]. by rewrite Ht.
Qed.

(** A reply that gives what was read. *)
Lemma get_reply_answered a what o r g' d' s code out s' :
  get_reply s a what o (inr r, (g', d')) = Ret (code, out) s' → answered r code out s'.
Proof.
  unfold get_reply. destruct r as [w|]; [|by intros [= <- <- <-]].
  unfold give, allocate_bytes, bind. intros Hget.
  destruct (Z.eqb_spec (zlen (value_to_bytes w)) 0) as [H0|H0]; unfold modify, mret in Hget;
    simpl in Hget; injection Hget as <- <- <-; (split; [done|]); eexists; (split; [done|]).
  - left. by apply zlen_nil_inv.
  - right. simpl. apply lookup_insert_eq.
Qed.

(** A read answers from the stored pairs, unless the engine fails. *)
Lemma get_kv_stored s a g p n key k o code out s' :
  a ≠ 0 → heap s !! a = Some (BEngine g) → holds s p n key → check_raw "key" key = inr k →
  f4kvs_engine_get_kv a p n (Some o) s = Ret (code, out) s' → code ≠ ErrorStorage →
  answered (contents g !! k) code out s'.
Proof.
  intros Ha Hg Hp Hk Hget Hcode. rewrite (get_kv_live s a g p n key Ha Hg Hp), Hk in Hget.
  destruct (or_block_on _ _ g (dsk s)) as [[e|r] [g' d']] eqn:Hop; [simpl in Hget; by simplify_eq|].
  apply or_block_on_get in Hop as [<- _]. by eapply get_reply_answered.
Qed.

(** The same of a read through the C-string function. *)
Lemma get_bytes_stored s a g ck key k o code out s' :
  a ≠ 0 → heap s !! a = Some (BEngine g) → has_key (heap s) ck key → check_key key = inr k →
  f4kvs_engine_get_bytes a ck (Some o) s = Ret (code, out) s' → code ≠ ErrorStorage →
  answered (contents g !! k) code out s'.
Proof.
  intros Ha Hg Hck Hk Hget Hcode. rewrite (get_bytes_reply s a g ck key o Ha Hg Hck), Hk in Hget.
  destruct (lsm_get k g (dsk s)) as [[e|r] [g' d']] eqn:Hop; [simpl in Hget; by simplify_eq|].
  apply get_ok in Hop as [<- _]. by eapply get_reply_answered.
Qed.

(** C9: after a length-prefixed put that succeeds, a length-prefixed get of any key
    that does not fail answers the written bytes for exactly that key and what was
    there for every other: keys are compared whole, a NUL byte or the empty key
    included. *)
Theorem kv_roundtrip s a g p n key q m v s1 p' n' key' k' o code out s2 :
  a ≠ 0 → heap s !! a = Some (BEngine g) → holds s p n key → holds s q m v →
  f4kvs_engine_put_kv a p n q m s = Ret Success s1 →
  holds s1 p' n' key' → check_raw "key" key' = inr k' →
  f4kvs_engine_get_kv a p' n' (Some o) s1 = Ret (code, out) s2 → code ≠ ErrorStorage →
  answered (if decide (key' = key) then Some (VBytes v) else contents g !! k') code out s2.
Proof.
  intros Ha Hg Hp Hq Hput Hp' Hk' Hget Hcode. rewrite (put_kv_live s a g p n key Ha Hg Hp q m v Hq) in Hput.
  unfold put_kv_eff, raw_eff in Hput. destruct (check_raw "key" key) as [msg|k] eqn:Hk; [done|].
  unfold value_eff in Hput. destruct (MAX_VALUE_LENGTH <? zlen v); [done|]. unfold run_eff in Hput.
  destruct (lsm_put k (VBytes v) g (dsk s)) as [[e|[]] [g' d']] eqn:Hop; [done|].
  simpl in Hput. injection Hput as <-. apply put_ok in Hop.
  assert (heap (with_engine a g' d' s) !! a = Some (BEngine g')) as Hg' by apply lookup_insert_eq.
  pose proof (get_kv_stored _ a g' p' n' key' k' o code out s2 Ha Hg' Hp' Hk' Hget Hcode) as Hans.
  rewrite Hop, lookup_insert in Hans.
  apply check_text_inr in Hk, Hk'. case_decide as Hd; case_decide as Hd2; try done.
  - exfalso. apply Hd2. rewrite Hk, Hk' in Hd.
    apply (f_equal String.list_byte_of_string) in Hd. by autorewrite with code in Hd.
  - subst key'. congruence.
Qed.

(** ** Scans with values *)

(** Once the prefix is accepted. *)
Definition scan_tail (what : string) (a : Z) (pre : string) (out : F4KvsScanResult)
    : M Proc (F4KvsResult * F4KvsScanResult) :=
  let! r := engine_op a (lsm_scan_prefix_with_values pre) in
  match r with
  | inr items => fill_scan_result items out
  | inl e => run! set_last_error (what +:+ e) in mret (ErrorStorage, out)
  end.

(** How a scan of a prefix can end: with exactly the pairs under it, whose memory
    freeing the result gives back, or with nothing allocated. *)
Definition scanned (s : Proc) (a : Z) (g : lsm) (pre : string) (out : F4KvsScanResult)
    (x : outcome Proc (F4KvsResult * option F4KvsScanResult)) : Prop :=
  ∃ code r s' g' d', x = Ret (code, Some r) s' ∧
    let m := with_engine a g' d' s in
    match code with
    | Success => ∃ items, pairs_of pre (contents g) items ∧ nul_key items.*1 = None ∧ fills m items r s'
    | ErrorStorage => r = out ∧ ∃ msg, given_back (err msg m) s'
    | _ => False
    end.

Lemma scan_tail_ends what s a g pre out :
  cwf s → heap s !! a = Some (BEngine g) →
  scanned s a g pre out ((let! r := scan_tail what a pre out in mret (r.1, Some r.2)) s).
Proof.
  intros Hs Hg. unfold scan_tail, scanned. rewrite bind_assoc. unfold bind at 1.
  rewrite (engine_op_live _ _ _ _ Hg).
  destruct (lsm_scan_prefix_with_values pre g (dsk s)) as [[e|items] [g' d']] eqn:Hop.
  - exists ErrorStorage, out, (err (what +:+ e) (with_engine a g' d' s)), g', d'.
    split; [done|]. split; [done|]. exists (what +:+ e).
    pose proof (silent_engine a g g' d' s Hs Hg) as [Hs' _].
    eexists. split; [by apply (cwf_entry _ (cwf_err (what +:+ e) _ Hs'))|]. by rewrite settled_self.
  - apply scan_values_ok in Hop as [Hitems Hc].
    pose proof (silent_engine a g g' d' s Hs Hg) as [Hs' _].
    pose proof (fill_scan_result_spec items out _ Hs') as Hfill. destruct (nul_key items.*1) as [msg|] eqn:Hnul.
    + destruct Hfill as (s2 & Hf & Hback). exists ErrorStorage, out, s2, g', d'.
      unfold bind. rewrite Hf. split; [done|]. split; [done|by exists msg].
    + destruct Hfill as (r & s2 & Hf & Hfills). exists Success, r, s2, g', d'.
      unfold bind. rewrite Hf. split; [done|]. by exists items.
Qed.

(** The two scans, once their prefix is checked. *)
Lemma scan_prefix_run s a g ck prefix out :
  a ≠ 0 → heap s !! a = Some (BEngine g) → has_key (heap s) ck prefix →
  f4kvs_engine_scan_prefix a ck (Some out) s =
    match check_text "prefix" MAX_KEY_LENGTH (c_prefix (String.list_byte_of_string prefix)) with
    | inl msg => Ret (ErrorInvalidArgument, Some out) (err msg s)
    | inr k => (let! r := scan_tail "Scan prefix failed: " a k out in mret (r.1, Some r.2)) s
    end.
Proof.
  intros Ha Hg [Hck Hkey]. unfold f4kvs_engine_scan_prefix, with_out. rewrite bind_assoc.
  rewrite (bind_ret _ _ _ _ _ (validate_engine_live _ _ _ Ha Hg)). cbv iota beta.
  rewrite bind_assoc. unfold bind at 1. rewrite (validate_c_string_malloc _ _ _ _ _ Hck Hkey).
  by destruct (check_text _ _ _).
Qed.

Lemma scan_prefix_kv_run s a g p n prefix out :
  a ≠ 0 → heap s !! a = Some (BEngine g) → holds s p n prefix →
  f4kvs_engine_scan_prefix_kv a p n (Some out) s =
    match check_raw "prefix" prefix with
    | inl msg => Ret (ErrorInvalidArgument, Some out) (err msg s)
    | inr k => (let! r := scan_tail "Scan prefix kv failed: " a k out in mret (r.1, Some r.2)) s
    end.
Proof.
  intros Ha Hg Hp. unfold f4kvs_engine_scan_prefix_kv, with_out. rewrite bind_assoc.
  rewrite (bind_ret _ _ _ _ _ (validate_engine_live _ _ _ Ha Hg)). cbv iota beta.
  rewrite bind_assoc. unfold bind at 1. rewrite (key_from_raw_holds _ _ _ _ _ Hp).
  by destruct (check_raw _ _).
Qed.

(** C10: a prefix scan with values ends with exactly the pairs whose key has the
    prefix, each once, and freeing the result leaves the process as it was before
    the array was built; or it ends with an error and nothing stays allocated.
    This holds of the C-string and of the length-prefixed scan. *)
Theorem scan_pairs_roundtrip s a g ck p n prefix out :
  cwf s → a ≠ 0 → heap s !! a = Some (BEngine g) → has_key (heap s) ck prefix →
  holds s p n (String.list_byte_of_string prefix) →
  (∀ k, check_text "prefix" MAX_KEY_LENGTH (c_prefix (String.list_byte_of_string prefix)) = inr k →
     scanned s a g k out (f4kvs_engine_scan_prefix a ck (Some out) s)) ∧
  (∀ k, check_raw "prefix" (String.list_byte_of_string prefix) = inr k →
     scanned s a g k out (f4kvs_engine_scan_prefix_kv a p n (Some out) s)).
Proof.
  intros Hs Ha Hg Hck Hp. split; intros k Hk.
  - rewrite (scan_prefix_run s a g ck prefix out), Hk by done. by apply scan_tail_ends.
  - rewrite (scan_prefix_kv_run s a g p n _ out Ha Hg Hp), Hk. by apply scan_tail_ends.
Qed.

(** A key with a NUL byte under the prefix makes the whole scan fail, also the
    length-prefixed one. *)
Lemma scan_nul_fails s a g pre out x k v :
  scanned s a g pre out x → contents g !! k = Some v → String.prefix pre k = true →
  nul_free (String.list_byte_of_string k) = false →
  ∃ s', x = Ret (ErrorStorage, Some out) s'.
Proof.
  intros (code & r & s' & g' & d' & -> & Hcode) Hk Hp Hnul. simpl in Hcode.
  destruct code; try done; [exfalso|destruct Hcode as [-> _]; by exists s'].
  destruct Hcode as (items & [_ Hitems] & Hnone & _).
  assert (k ∈ items.*1) as Hin.
  { apply list_elem_of_fmap. exists (k, v). split; [done|]. by apply Hitems. }
  clear Hitems. induction items.*1 as [|k' ks IH]; [by apply not_elem_of_nil in Hin|].
  simpl in Hnone. unfold nul_free in *.
  destruct (nul_position (String.list_byte_of_string k')) eqn:E; [done|].
  apply elem_of_cons in Hin as [->|Hin]; [by rewrite E in Hnul|by apply IH].
Qed.

(** ** Values as text *)

(** What [f4kvs_engine_get] answers for a stored value. *)
Lemma engine_get_live s a g ck key o k :
  a ≠ 0 → heap s !! a = Some (BEngine g) → has_key (heap s) ck key → check_key key = inr k →
  f4kvs_engine_get a ck (Some o) s =
    let '(r, (g', d')) := lsm_get k g (dsk s) in
    let s' := with_engine a g' d' s in
    match r with
    | inl e => Ret (ErrorStorage, Some o) (err ("Get failed: " +:+ e) s')
    | inr None => Ret (ErrorNotFound, Some 0) s'
    | inr (Some w) =>
        (let! r := allocate_c_string (value_to_string w) in
         match r with inr ptr => mret (Success, Some ptr) | inl e => mret (e, Some o) end) s'
    end.
Proof.
  intros Ha Hg [Hck Hkey] Hk. unfold f4kvs_engine_get.
  rewrite (keyed_call s a ck g key Ha Hck Hg Hkey), Hk. unfold bind at 1.
  rewrite (engine_op_live _ _ _ _ Hg). by destruct (lsm_get k g (dsk s)) as [[e|[w|]] [g' d']].
Qed.

(** The string [f4kvs_engine_get] answers is the stored value as text: bytes
    that are UTF-8 come back as they are, others with U+FFFD in the place of each
    invalid sequence and always as UTF-8; a stored string comes back unchanged.
    What was put with [f4kvs_engine_put] is read back, and text with a NUL byte
    makes the read fail. *)
Lemma get_text s a g ck key o k w g' d' :
  a ≠ 0 → heap s !! a = Some (BEngine g) → has_key (heap s) ck key → check_key key = inr k →
  lsm_get k g (dsk s) = (inr (Some w), (g', d')) →
  let text := String.list_byte_of_string (value_to_string w) in
  (∀ b, w = VBytes b → utf8_valid text = true ∧ (utf8_valid b = true → text = b)) ∧
  (∀ t, w = VString t → value_to_string w = t) ∧
  match nul_position text with
  | None => ∃ ptr s', f4kvs_engine_get a ck (Some o) s = Ret (Success, Some ptr) s' ∧
      heap s' !! ptr = Some (BCString (text ++ [x00])) ∧ contents g !! k = Some w
  | Some _ => ∃ s', f4kvs_engine_get a ck (Some o) s = Ret (ErrorStorage, Some o) s' ∧
      heap s' = <[a := BEngine g']> (heap s)
  end.
Proof.
  intros Ha Hg Hck Hk Hop text. split_and!.
  - intros b ->. unfold text. simpl. autorewrite with code. split; [apply lossy_valid|].
    intros Hb. by apply lossy_id.
  - by intros t ->.
  - rewrite (engine_get_live s a g ck key o k Ha Hg Hck Hk), Hop. cbv zeta iota beta.
    apply get_ok in Hop as [Hw _]. unfold allocate_c_string. fold text.
    destruct (nul_position text) as [pos|]; unfold bind; simpl.
    + eexists. split; [done|]. done.
    + eexists _, _. split; [done|]. split; [apply lookup_insert_eq|done].
Qed.

End CabiFacts.
