(* ===== verification/Agree.v ===== *)
(** * The length-prefixed functions beside the C-string functions

    On keys without a NUL byte the two families of the C ABI do the same.
    [same_but_text] says so of two runs: the same answer, out values, engine,
    memory and tables, up to the wording of the last errors; [kv_agrees] proves it
    for writes, deletes, batches and scans, and says how reads compare, where the
    length-prefixed function first asks the engine for an answer at once. *)

From S2P Require Import Prelude Engine EngineScan Utf8 Options Ffi Cabi FfiFacts Sound Calls Buffers ScanFacts CabiFacts.

Section Agree.
Context `{L : LsmEngine} {SC : LsmScan L} {P : Platform} {POk : PlatformOk P}.
Implicit Types (s : Proc) (g : lsm) (a : Z).

(** ** Agreement with the C-string functions *)

(** Two processes that differ in the texts of last errors only. *)
Definition text_apart (s1 s2 : Proc) : Prop :=
  set_errors ∅ s1 = set_errors ∅ s2 ∧ dom (last_error s1) = dom (last_error s2).

#[export] Instance text_apart_equiv : Equivalence text_apart.
Proof.
  split; [by split|intros s1 s2 [? ?]; by split|].
  intros s1 s2 s3 [? ?] [? ?]. split; by etrans.
Qed.

(** Runs that answer the same and leave the same, but for such texts. *)
Definition same_but_text {A} (x y : outcome Proc A) : Prop :=
  match x, y with
  | Ret r1 s1, Ret r2 s2 => r1 = r2 ∧ text_apart s1 s2
  | _, _ => False
  end.

Lemma err_apart msg1 msg2 s : text_apart (err msg1 s) (err msg2 s).
Proof. split; [done|]. simpl. by rewrite !dom_insert_L. Qed.

(** One result, two messages. *)
Definition eff_apart {A} (x y : eff A) : Prop :=
  x.2 = y.2 ∧ match x.1, y.1 with inl _, inl _ => True | inr a, inr b => a = b | _, _ => False end.

Lemma reply_apart {A} a (x y : eff A) s : eff_apart x y → same_but_text (reply a x s) (reply a y s).
Proof.
  destruct x as [[m1|u1] gd1], y as [[m2|u2] gd2]; intros [H1 H2]; simpl in *; subst; try done.
  split; [done|apply err_apart].
Qed.

Lemma run_eff_apart {A} w1 w2 (op : LsmOp lsm disk A) g d : eff_apart (run_eff w1 op g d) (run_eff w2 op g d).
Proof. unfold run_eff. by destruct (op g d) as [[] []]. Qed.

Lemma value_eff_apart v x y : eff_apart x y → eff_apart (value_eff v x) (value_eff v y).
Proof. unfold value_eff. by case_match. Qed.

Lemma check_key_raw key :
  nul_free (String.list_byte_of_string key) = true →
  check_key key = check_raw "key" (String.list_byte_of_string key).
Proof. intros Hk. unfold check_key, check_raw. by rewrite c_prefix_nul_free. Qed.

Lemma give_apart a v o g d s : same_but_text (give v o (with_engine a g d s)) (give v o (with_engine a g d s)).
Proof.
  unfold give, allocate_bytes, bind. by destruct (zlen _ =? 0).
Qed.


(** A run that answers agrees with itself. *)
Lemma same_refl {A} (x : outcome Proc A) r s : x = Ret r s → same_but_text x x.
Proof. by intros ->. Qed.

Lemma check_prefix_raw key :
  nul_free (String.list_byte_of_string key) = true →
  check_text "prefix" MAX_KEY_LENGTH (c_prefix (String.list_byte_of_string key)) =
    check_raw "prefix" (String.list_byte_of_string key).
Proof. intros Hk. by rewrite c_prefix_nul_free. Qed.

(** ** Once the prefix of a scan is accepted *)

Lemma scan_tail_run what s a g pre out :
  heap s !! a = Some (BEngine g) →
  (let! r := CabiFacts.scan_tail what a pre out in mret (r.1, Some r.2)) s =
    match lsm_scan_prefix_with_values pre g (dsk s) with
    | (inl e, (g', d')) => Ret (ErrorStorage, Some out) (err (what +:+ e) (with_engine a g' d' s))
    | (inr items, (g', d')) =>
        (let! r := fill_scan_result items out in mret (r.1, Some r.2)) (with_engine a g' d' s)
    end.
Proof.
  intros Hg. unfold CabiFacts.scan_tail. rewrite bind_assoc. unfold bind at 1. rewrite (engine_op_live _ _ _ _ Hg).
  by destruct (lsm_scan_prefix_with_values pre g (dsk s)) as [[e|items] [g' d']].
Qed.

Lemma scan_tail_apart s a g what1 what2 pre out :
  cwf s → heap s !! a = Some (BEngine g) →
  same_but_text ((let! r := CabiFacts.scan_tail what1 a pre out in mret (r.1, Some r.2)) s)
                ((let! r := CabiFacts.scan_tail what2 a pre out in mret (r.1, Some r.2)) s).
Proof.
  intros Hs Hg. rewrite !(scan_tail_run _ s a g) by done.
  destruct (lsm_scan_prefix_with_values pre g (dsk s)) as [[e|items] [g' d']]; [split; [done|apply err_apart]|].
  pose proof (silent_engine a g g' d' s Hs Hg) as [Hs' _].
  pose proof (fill_scan_result_spec items out _ Hs') as Hfill.
  destruct (nul_key items.*1); [destruct Hfill as (s2 & Hf & _)|destruct Hfill as (r & s2 & Hf & _)];
    (eapply same_refl; by rewrite (bind_ret _ _ _ _ _ Hf)).
Qed.

Lemma key_tail_returns s keys : cwf s → ∃ r s', FfiFacts.scan_tail keys s = Ret r s'.
Proof.
  intros Hs. unfold FfiFacts.scan_tail. case_match; [by eexists _, _|].
  pose proof (allocate_keys_spec keys s (λ a Ha, let '(ex_intro _ l Hl) := cwf_strings s Hs a Ha in mk_is_Some _ _ Hl) ∅ [] [] (strings_at_nil _) (List.Forall2_nil _)) as Hal.
  rewrite add_strings_empty in Hal. destruct (nul_key keys) as [msg|].
  - rewrite (bind_ret _ _ _ _ _ Hal). by eexists _, _.
  - destruct Hal as (l & C & Hal & _). rewrite (bind_ret _ _ _ _ _ Hal). by eexists _, _.
Qed.

Lemma scan_keys_kv_run s a g p n prefix :
  a ≠ 0 → heap s !! a = Some (BEngine g) → holds s p n prefix →
  f4kvs_engine_scan_prefix_keys_kv a p n (Some (mkKeyScan 0 0)) s =
    match check_raw "prefix" prefix with
    | inl msg => Ret (ErrorInvalidArgument, Some (mkKeyScan 0 0)) (err msg s)
    | inr k =>
        match lsm_scan_prefix k g (dsk s) with
        | (inl e, (g', d')) =>
            Ret (ErrorStorage, Some (mkKeyScan 0 0)) (err ("Scan prefix keys kv failed: " +:+ e) (with_engine a g' d' s))
        | (inr keys, (g', d')) => FfiFacts.scan_tail keys (with_engine a g' d' s)
        end
    end.
Proof.
  intros Ha Hg Hp. unfold f4kvs_engine_scan_prefix_keys_kv, with_out. rewrite bind_assoc.
  rewrite (bind_ret _ _ _ _ _ (validate_engine_live _ _ _ Ha Hg)). cbv iota beta.
  rewrite bind_assoc. unfold bind at 1. rewrite (key_from_raw_holds _ _ _ _ _ Hp).
  destruct (check_raw "prefix" prefix) as [msg|k]; [done|]. rewrite bind_assoc.
  unfold bind at 1. rewrite (engine_op_live _ _ _ _ Hg).
  destruct (lsm_scan_prefix k g (dsk s)) as [[e|keys] [g' d']]; [done|]. simpl.
  unfold FfiFacts.scan_tail. case_match; [done|]. unfold bind.
  by destruct (allocate_keys keys [] _) as [[e|l] s1| | |].
Qed.

Lemma key_tail_apart s a g g' d' keys :
  cwf s → heap s !! a = Some (BEngine g) →
  same_but_text (FfiFacts.scan_tail keys (with_engine a g' d' s)) (FfiFacts.scan_tail keys (with_engine a g' d' s)).
Proof.
  intros Hs Hg. pose proof (silent_engine a g g' d' s Hs Hg) as [Hs' _].
  destruct (key_tail_returns _ keys Hs') as (r & s2 & Hr). by eapply same_refl.
Qed.

(** ** One key *)

Section Key.
Context (s : Proc) (a : Z) (g : lsm) (ck : Z) (key : string) (p : bufptr) (n : Z).
Hypothesis Ha : a ≠ 0.
Hypothesis Hg : heap s !! a = Some (BEngine g).
Hypothesis Hkey : has_key (heap s) ck key.
Hypothesis Hnul : nul_free (String.list_byte_of_string key) = true.
Hypothesis Hp : holds s p n (String.list_byte_of_string key).

Lemma put_agrees q m v :
  holds s q m v → same_but_text (f4kvs_engine_put_kv a p n q m s) (f4kvs_engine_put_bytes a ck q m s).
Proof.
  intros Hq. rewrite (put_kv_live s a g p n _ Ha Hg Hp q m v Hq). unfold f4kvs_engine_put_bytes.
  rewrite (keyed_call s a ck g key Ha (proj1 Hkey) Hg (proj2 Hkey)), check_key_raw by done.
  unfold put_kv_eff, raw_eff. destruct (check_raw _ _) as [msg|k]; [split; [done|apply err_apart]|].
  rewrite (value_call s a g Hg "Put bytes" q m v (λ b, lsm_put k (VBytes b)) Hq).
  apply reply_apart, value_eff_apart, run_eff_apart.
Qed.

Lemma delete_agrees : same_but_text (f4kvs_engine_delete_kv a p n s) (f4kvs_engine_delete a ck s).
Proof.
  rewrite (delete_kv_live s a g p n _ Ha Hg Hp). unfold f4kvs_engine_delete.
  rewrite (keyed_call s a ck g key Ha (proj1 Hkey) Hg (proj2 Hkey)), check_key_raw by done.
  unfold delete_kv_eff, raw_eff. destruct (check_raw _ _) as [msg|k]; [split; [done|apply err_apart]|].
  rewrite (op_report _ _ _ _ _ Hg). apply reply_apart, run_eff_apart.
Qed.

Lemma get_agrees_declined o :
  lsm_try_get_sync key g (dsk s) = (None, (g, dsk s)) →
  same_but_text (f4kvs_engine_get_kv a p n (Some o) s) (f4kvs_engine_get_bytes a ck (Some o) s).
Proof.
  intros Htry. rewrite (get_kv_live s a g p n _ Ha Hg Hp), (get_bytes_reply s a g ck key o Ha Hg Hkey).
  rewrite check_key_raw by done. destruct (check_raw _ _) as [msg|k] eqn:Hk; [split; [done|apply err_apart]|].
  apply check_text_inr in Hk. autorewrite with code in Hk. subst k.
  unfold or_block_on. rewrite Htry. unfold get_reply.
  destruct (lsm_get key g (dsk s)) as [[e|[w|]] [g' d']]; [|apply give_apart|done].
  split; [done|apply err_apart].
Qed.

Lemma scan_agrees out :
  cwf s → same_but_text (f4kvs_engine_scan_prefix_kv a p n (Some out) s) (f4kvs_engine_scan_prefix a ck (Some out) s).
Proof.
  intros Hs. rewrite (scan_prefix_run s a g ck key out), (scan_prefix_kv_run s a g p n _ out Ha Hg Hp) by done.
  rewrite check_prefix_raw by done. destruct (check_raw _ _) as [msg|pre]; [split; [done|apply err_apart]|].
  by apply (scan_tail_apart s a g).
Qed.

Lemma scan_keys_agrees :
  cwf s → let out := Some (mkKeyScan 0 0) in
  same_but_text (f4kvs_engine_scan_prefix_keys_kv a p n out s) (f4kvs_engine_scan_prefix_keys a ck out s).
Proof.
  intros Hs out. unfold out. rewrite (scan_prefix_keys_run s a ck g key), (scan_keys_kv_run s a g p n _ Ha Hg Hp) by done.
  unfold scan_eff. rewrite check_prefix_raw by done.
  destruct (check_raw _ _) as [msg|pre]; [split; [done|apply err_apart]|]. unfold run_eff.
  destruct (lsm_scan_prefix pre g (dsk s)) as [[e|keys] [g' d']]; [split; [done|apply err_apart]|].
  by apply (key_tail_apart s a g).
Qed.

End Key.

(** ** Batches *)

(** The four arrays hold the pairs, keys by length. *)
Inductive rows_kv (s : Proc) : list (string * list byte) → list Z → list Z → list Z → list Z → Prop :=
| rows_kv_nil : rows_kv s [] [] [] [] []
| rows_kv_cons key v items kp kps kl kls vp vps vl vls :
    holds s (AtAddr kp) kl (String.list_byte_of_string key) → holds s (AtAddr vp) vl v →
    rows_kv s items kps kls vps vls →
    rows_kv s ((key, v) :: items) (kp :: kps) (kl :: kls) (vp :: vps) (vl :: vls).

Lemma value_from_raw_holds s p n v :
  holds s p n v → ((0 <? n) && is_null p) = false ∧ value_from_raw p n s = Ret v s.
Proof.
  intros [-> Hp]. unfold value_from_raw. destruct (Z.eqb_spec (zlen v) 0) as [H0|H0].
  { rewrite (zlen_nil_inv v) by done. done. }
  destruct Hp as [->|[Hn Hr]]; [done|]. by rewrite Hn, andb_false_r.
Qed.

(** The run [x] of a loop collects after [acc] what the check [r] lets through, or
    refuses, perhaps in other words. *)
Definition collects {A} (r : string + list A) (acc : list A) (s : Proc) (x : outcome Proc (F4KvsResult + list A)) : Prop :=
  match r with
  | inl _ => ∃ msg, x = Ret (inl ErrorInvalidArgument) (err msg s)
  | inr l => x = Ret (inr (acc ++ l)) s
  end.

(** The loop refuses exactly the batches the C-string loop refuses, perhaps in
    other words, and collects the same pairs. *)
Lemma collect_items_kv_rows s items kps kls vps vls :
  rows_kv s items kps kls vps vls → Forall (λ kv, nul_free (String.list_byte_of_string kv.1) = true) items →
  ∀ j pk pl pv pvl acc, length pl = length pk → length pv = length pk → length pvl = length pk →
  collects (batch_check j items) acc s
    (collect_items_kv (Some (pk ++ kps)) (Some (pl ++ kls)) (Some (pv ++ vps)) (Some (pvl ++ vls))
       (length pk) (length items) acc s).
Proof.
  induction 1 as [|key v items kp kps kl kls vp vps vl vls Hk Hv _ IH]; intros Hnul j pk pl pv pvl acc Hpl Hpv Hpvl; simpl.
  - unfold collects. by rewrite app_nil_r.
  - apply Forall_cons in Hnul as [Hnul Hrest]. simpl in Hnul.
    erewrite bind_ret by (rewrite <-Hpl; apply elem_at_mid). erewrite bind_ret by apply elem_at_mid.
    unfold bind at 1. rewrite (key_from_raw_holds _ _ _ _ _ Hk), check_key_raw by done.
    destruct (check_raw "key" _) as [msg|k]; [by exists msg|].
    erewrite bind_ret by (rewrite <-Hpvl; apply elem_at_mid).
    destruct (value_from_raw_holds _ _ _ _ Hv) as [Hnull Hread]. assert (vl = zlen v) as -> by apply Hv.
    destruct (MAX_VALUE_LENGTH <? zlen v); [by eexists|].
    erewrite bind_ret by (rewrite <-Hpv; apply elem_at_mid). simpl in Hnull.
    rewrite Hnull, (bind_ret _ _ _ _ _ Hread).
    rewrite (snoc_app pk), (snoc_app pl), (snoc_app pv), (snoc_app pvl).
    specialize (IH Hrest (S j) (pk ++ [kp]) (pl ++ [kl]) (pv ++ [vp]) (pvl ++ [zlen v]) (acc ++ [(k, VBytes v)])).
    rewrite !length_snoc in IH.
    specialize (IH ltac:(lia) ltac:(lia) ltac:(lia)).
    destruct (batch_check (S j) items); [done|]. unfold collects in *. by rewrite IH, <-app_assoc.
Qed.

Lemma collect_keys_kv_rows s keys kps kls :
  Forall2 (λ '(kp, kl) key, holds s (AtAddr kp) kl (String.list_byte_of_string key)) (zip kps kls) keys →
  length kls = length kps → Forall (λ key, nul_free (String.list_byte_of_string key) = true) keys →
  ∀ pk pl acc, length pl = length pk →
  collects (keys_check keys) acc s
    (collect_keys_kv (Some (pk ++ kps)) (Some (pl ++ kls)) (length pk) (length keys) acc s).
Proof.
  revert kps kls. induction keys as [|key keys IH]; intros kps kls Hk Hlen Hnul pk pl acc Hpl; simpl.
  - unfold collects. by rewrite app_nil_r.
  - destruct kps as [|kp kps], kls as [|kl kls]; try (by inversion Hk); try done.
    apply Forall2_cons in Hk as [Hk Hks]. apply Forall_cons in Hnul as [Hnul Hrest].
    erewrite bind_ret by apply elem_at_mid. erewrite bind_ret by (rewrite <-Hpl; apply elem_at_mid).
    unfold bind at 1. rewrite (key_from_raw_holds _ _ _ _ _ Hk), check_key_raw by done.
    destruct (check_raw "key" _) as [msg|k]; [by exists msg|].
    rewrite (snoc_app pk), (snoc_app pl).
    specialize (IH kps kls Hks ltac:(simpl in Hlen; lia) Hrest (pk ++ [kp]) (pl ++ [kl]) (acc ++ [k])).
    rewrite !length_snoc in *. specialize (IH ltac:(lia)).
    destruct (keys_check keys); [done|]. unfold collects in *. by rewrite IH, <-app_assoc.
Qed.

Section Batch.
Context (s : Proc) (a : Z) (g : lsm).
Hypothesis Ha : a ≠ 0.
Hypothesis Hg : heap s !! a = Some (BEngine g).

Lemma batch_put_agrees items cks cvs lens kps kls vps vls :
  rows (heap s) items cks cvs lens → rows_kv s items kps kls vps vls →
  Forall (λ kv, nul_free (String.list_byte_of_string kv.1) = true) items →
  same_but_text
    (f4kvs_engine_batch_put_kv a (Some kps) (Some kls) (Some vps) (Some vls) (zlen items) s)
    (f4kvs_engine_batch_put_bytes a (Some cks) (Some cvs) (Some lens) (zlen items) s).
Proof.
  intros Hr Hkv Hnul. rewrite (batch_put_bytes_live s a g items) by done. unfold batch_put_eff, count_eff.
  unfold f4kvs_engine_batch_put_kv. rewrite (bind_ret _ _ _ _ _ (validate_engine_live _ _ _ Ha Hg)).
  unfold reject_batch_count. case_match; [split; [done|apply err_apart]|].
  erewrite bind_ret by reflexivity. rewrite !bool_decide_eq_false_2 by done. rewrite andb_false_r.
  unfold bind at 1. unfold zlen at 1. rewrite Nat2Z.id.
  pose proof (collect_items_kv_rows s items kps kls vps vls Hkv Hnul 0 [] [] [] [] [] eq_refl eq_refl eq_refl) as Hc.
  simpl in Hc. destruct (batch_check 0 items) as [msg|l].
  - destruct Hc as [msg' ->]. split; [done|apply err_apart].
  - rewrite Hc. rewrite (op_report _ _ _ _ _ Hg). apply reply_apart, run_eff_apart.
Qed.

Lemma batch_delete_agrees keys cks kps kls :
  Forall2 (has_key (heap s)) cks keys →
  Forall2 (λ '(kp, kl) key, holds s (AtAddr kp) kl (String.list_byte_of_string key)) (zip kps kls) keys →
  length kls = length kps → Forall (λ key, nul_free (String.list_byte_of_string key) = true) keys →
  same_but_text
    (f4kvs_engine_batch_delete_kv a (Some kps) (Some kls) (zlen keys) s)
    (f4kvs_engine_batch_delete a (Some cks) (zlen keys) s).
Proof.
  intros Hr Hkv Hlen Hnul. rewrite (batch_delete_live s a g keys) by done. unfold batch_delete_eff, count_eff.
  unfold f4kvs_engine_batch_delete_kv. rewrite (bind_ret _ _ _ _ _ (validate_engine_live _ _ _ Ha Hg)).
  unfold reject_batch_count. case_match; [split; [done|apply err_apart]|].
  erewrite bind_ret by reflexivity. rewrite !bool_decide_eq_false_2 by done. rewrite andb_false_r.
  unfold bind at 1. unfold zlen at 1. rewrite Nat2Z.id.
  pose proof (collect_keys_kv_rows s keys kps kls Hkv Hlen Hnul [] [] [] eq_refl) as Hc.
  simpl in Hc. destruct (keys_check keys) as [msg|l].
  - destruct Hc as [msg' ->]. split; [done|apply err_apart].
  - rewrite Hc. rewrite (op_report _ _ _ _ _ Hg). apply reply_apart, run_eff_apart.
Qed.

End Batch.

(** ** The two families *)

Context {LL : LsmLaws L} {SL : LsmScanLaws L LL SC}.

(** What the two reads of a key answer. *)
Lemma get_agrees_stored s a g ck key p n o code out s1 code' out' s2 :
  a ≠ 0 → heap s !! a = Some (BEngine g) → has_key (heap s) ck key →
  nul_free (String.list_byte_of_string key) = true → holds s p n (String.list_byte_of_string key) →
  f4kvs_engine_get_kv a p n (Some o) s = Ret (code, out) s1 → code ≠ ErrorStorage →
  f4kvs_engine_get_bytes a ck (Some o) s = Ret (code', out') s2 → code' ≠ ErrorStorage →
  (code = ErrorInvalidArgument ∧ code' = ErrorInvalidArgument ∧ out = Some o ∧ out' = Some o) ∨
  (answered (contents g !! key) code out s1 ∧ answered (contents g !! key) code' out' s2).
Proof.
  intros Ha Hg Hck Hnul Hp H1 Hc1 H2 Hc2. destruct (check_raw "key" (String.list_byte_of_string key)) as [msg|k] eqn:Hk.
  - left. rewrite (get_kv_live s a g p n _ Ha Hg Hp), Hk in H1.
    rewrite (get_bytes_reply s a g ck key o Ha Hg Hck), check_key_raw, Hk in H2 by done. by simplify_eq.
  - right. assert (k = key) as ->.
    { apply check_text_inr in Hk. by autorewrite with code in Hk. }
    split; [by eapply get_kv_stored|]. eapply get_bytes_stored; [done..| |done|done]. by rewrite check_key_raw.
Qed.

(** C22: on keys without a NUL byte the length-prefixed functions do what the
    C-string functions do.  Puts, deletes, scans of a prefix (with values or keys
    only) and batches of puts or deletes give the same code, out values, engine
    call and memory; only the wording of the last error differs.  A length-prefixed
    read first asks the engine for an answer at once: when the engine declines, it
    too is the same in all this; in any case the two reads, unless the engine
    fails, both refuse the key or both answer what is stored under it. *)
Theorem kv_agrees s a g :
  cwf s → a ≠ 0 → heap s !! a = Some (BEngine g) →
  (∀ ck key p n, has_key (heap s) ck key → nul_free (String.list_byte_of_string key) = true →
     holds s p n (String.list_byte_of_string key) →
     (∀ q m v, holds s q m v →
        same_but_text (f4kvs_engine_put_kv a p n q m s) (f4kvs_engine_put_bytes a ck q m s)) ∧
     same_but_text (f4kvs_engine_delete_kv a p n s) (f4kvs_engine_delete a ck s) ∧
     (∀ out, same_but_text (f4kvs_engine_scan_prefix_kv a p n (Some out) s)
                           (f4kvs_engine_scan_prefix a ck (Some out) s)) ∧
     same_but_text (f4kvs_engine_scan_prefix_keys_kv a p n (Some (mkKeyScan 0 0)) s)
                   (f4kvs_engine_scan_prefix_keys a ck (Some (mkKeyScan 0 0)) s) ∧
     (∀ o, lsm_try_get_sync key g (dsk s) = (None, (g, dsk s)) →
        same_but_text (f4kvs_engine_get_kv a p n (Some o) s) (f4kvs_engine_get_bytes a ck (Some o) s)) ∧
     (∀ o code out s1 code' out' s2,
        f4kvs_engine_get_kv a p n (Some o) s = Ret (code, out) s1 → code ≠ ErrorStorage →
        f4kvs_engine_get_bytes a ck (Some o) s = Ret (code', out') s2 → code' ≠ ErrorStorage →
        (code = ErrorInvalidArgument ∧ code' = ErrorInvalidArgument ∧ out = Some o ∧ out' = Some o) ∨
        (answered (contents g !! key) code out s1 ∧ answered (contents g !! key) code' out' s2))) ∧
  (∀ items cks cvs lens kps kls vps vls,
     rows (heap s) items cks cvs lens → rows_kv s items kps kls vps vls →
     Forall (λ kv, nul_free (String.list_byte_of_string kv.1) = true) items →
     same_but_text
       (f4kvs_engine_batch_put_kv a (Some kps) (Some kls) (Some vps) (Some vls) (zlen items) s)
       (f4kvs_engine_batch_put_bytes a (Some cks) (Some cvs) (Some lens) (zlen items) s)) ∧
  (∀ keys cks kps kls,
     Forall2 (has_key (heap s)) cks keys →
     Forall2 (λ '(kp, kl) key, holds s (AtAddr kp) kl (String.list_byte_of_string key)) (zip kps kls) keys →
     length kls = length kps → Forall (λ key, nul_free (String.list_byte_of_string key) = true) keys →
     same_but_text
       (f4kvs_engine_batch_delete_kv a (Some kps) (Some kls) (zlen keys) s)
       (f4kvs_engine_batch_delete a (Some cks) (zlen keys) s)).
Proof.
  intros Hs Ha Hg. split_and!.
  - intros ck key p n Hck Hnul Hp. split_and!.
    + intros. by eapply put_agrees.
    + by eapply delete_agrees.
    + intros. by eapply scan_agrees.
    + by eapply scan_keys_agrees.
    + intros. by eapply get_agrees_declined.
    + intros. by eapply get_agrees_stored.
  - intros. by eapply batch_put_agrees.
  - intros. by eapply batch_delete_agrees.
Qed.

End Agree.
