(* ===== verification/CursorFacts.v ===== *)
(** * What cursors deliver

    A page of a cursor is the next pairs of its scan; a caller who asks for pages
    until one is empty has seen every pair under the prefix once, also when the
    engine's handle is freed meanwhile.  A page that fails half way is the
    exception: the pairs it had read are never delivered.  The scan with a callback
    visits the pairs that hold bytes or text. *)

From S2P Require Import Prelude Engine EngineScan Utf8 Options Ffi Cabi Cursor FfiFacts Sound Calls Clients Buffers ScanFacts CabiFacts.

Section CursorFacts.
Context `{L : LsmEngine} {SC : LsmScan L} {P : Platform} {POk : PlatformOk P}.
Implicit Types (l : Lib) (c : F4KvsCursor) (g : lsm).

(** ** Shared engines *)

Definition arc_engine (e : Arc) (l : Lib) : option lsm :=
  match e with
  | Boxed a => match heap (lib_proc l) !! a with Some (BEngine g) => Some g | _ => None end
  | Orphan n => orphans l !! n
  end.

Definition arc_set (e : Arc) (g : lsm) (d : disk) (l : Lib) : Lib :=
  match e with
  | Boxed a => set_proc (with_engine a g d (lib_proc l)) l
  | Orphan n => set_orphans (<[n := g]> (orphans l)) (set_proc (set_disk d (lib_proc l)) l)
  end.

Lemma arc_run_live {B} e (op : lsm → disk → B * (lsm * disk)) l g :
  arc_engine e l = Some g →
  arc_run e op l = let '(r, (g', d')) := op g (dsk (lib_proc l)) in Ret r (arc_set e g' d' l).
Proof.
  destruct e as [a|n]; simpl.
  - intros H. unfold in_proc, lift, engine_run.
    destruct (heap (lib_proc l) !! a) as [[]|]; try done. simplify_eq.
    by destruct (op g _) as [r [g' d']].
  - intros ->. by destruct (op g _) as [r [g' d']].
Qed.

Lemma arc_engine_set e g d l : arc_engine e (arc_set e g d l) = Some g.
Proof. destruct e; simpl; by rewrite lookup_insert_eq. Qed.

Lemma arc_set_dom e g g0 d l :
  arc_engine e l = Some g0 → dom (heap (lib_proc (arc_set e g d l))) = dom (heap (lib_proc l)).
Proof.
  destruct e as [a|n]; simpl; [|done]. destruct (heap (lib_proc l) !! a) as [b|] eqn:E; [|done].
  intros _. rewrite dom_insert_L. apply elem_of_dom_2 in E. set_solver.
Qed.

Lemma arc_set_cursors e g d l : cursors (arc_set e g d l) = cursors l.
Proof. by destruct e. Qed.

(** ** Pages, as functions on the state *)

Definition upd (cur : Z) (f : F4KvsCursor → F4KvsCursor) (l : Lib) : Lib :=
  set_cursors (alter f cur (cursors l)) l.

Definition lib_err (msg : string) (l : Lib) : Lib := set_proc (err msg (lib_proc l)) l.

(** An open cursor, with its fields and its engine. *)
Record cursor_is (l : Lib) (cur : Z) (c : F4KvsCursor) (g : lsm) : Prop := mkCursorIs {
  ci_box : heap (lib_proc l) !! cur = Some BCursor;
  ci_cursor : cursors l !! cur = Some c;
  ci_engine : arc_engine (cur_engine c) l = Some g
}.

Lemma cursor_is_at l cur c g : cursor_is l cur c g → cursor_at cur l = Ret c l.
Proof. intros [Hb Hc _]. unfold cursor_at. by rewrite Hb, Hc. Qed.

Lemma lib_wf_cursor l cur c : lib_wf l → cursors l !! cur = Some c → ∃ g, cursor_is l cur c g.
Proof.
  intros Hl Hc. pose proof (lib_arc l Hl cur c Hc) as He.
  assert (∃ g, arc_engine (cur_engine c) l = Some g) as [g Hg].
  { destruct (cur_engine c) as [a|n]; simpl in *; [|done]. destruct He as [g ->]. by exists g. }
  exists g. split; [|done|done]. apply (lib_cursor l Hl). by exists c.
Qed.

Lemma cursor_is_upd l cur c g f :
  cursor_is l cur c g → cur_engine (f c) = cur_engine c → cursor_is (upd cur f l) cur (f c) g.
Proof.
  intros [Hb Hc He] Hf. split; [done| |].
  - simpl. by rewrite lookup_alter_eq, Hc.
  - by rewrite Hf.
Qed.

Lemma cursor_is_set l cur c g g' d :
  cursor_is l cur c g → cursor_is (arc_set (cur_engine c) g' d l) cur c g'.
Proof.
  intros [Hb Hc He]. split; [|by rewrite arc_set_cursors|by rewrite arc_engine_set].
  destruct (cur_engine c) as [a|n]; simpl in *; [|done]. rewrite lookup_insert_ne; [done|].
  intros ->. by rewrite Hb in He.
Qed.

Lemma cursor_is_err l cur c g msg : cursor_is l cur c g → cursor_is (lib_err msg l) cur c g.
Proof. intros [Hb Hc He]. by split. Qed.

(** A page of a started scan. *)
Lemma pull_started l cur c g st max :
  cursor_is l cur c g → cur_state c = Some st →
  cursor_pull_page cur max l =
    let '(r, st', (g', d')) := next_page (Z.to_nat max) st g (dsk (lib_proc l)) in
    let l1 := arc_set (cur_engine c) g' d' (upd cur (set_state None) l) in
    match r with
    | inr (items, eof) =>
        Ret (inr (items, eof)) (if eof : bool then l1 else upd cur (set_state (Some st')) l1)
    | inl e =>
        Ret (inl ErrorStorage)
          (lib_err ("Cursor next failed: " +:+ e) (upd cur (set_state (Some st')) l1))
    end.
Proof.
  intros Hc Hst. unfold cursor_pull_page, cursor_ensure_state. rewrite bind_assoc.
  rewrite (bind_ret _ _ _ _ _ (cursor_is_at _ _ _ _ Hc)), Hst.
  rewrite (bind_ret (mret (inr tt)) _ l (inr tt) l) by done. cbv iota beta.
  rewrite (bind_ret _ _ _ _ _ (cursor_is_at _ _ _ _ Hc)), Hst.
  pose proof (cursor_is_upd l cur c g (set_state None) Hc eq_refl) as [_ _ He]. simpl in He.
  unfold update_cursor at 1. unfold bind at 1, modify. fold (upd cur (set_state None) l).
  unfold bind at 1. rewrite (arc_run_live _ _ _ _ He).
  change (dsk (lib_proc (upd cur (set_state None) l))) with (dsk (lib_proc l)).
  destruct (next_page _ st g _) as [[r st'] [g' d']]. by destruct r as [e|[items []]].
Qed.

(** The start of a scan. *)
Lemma ensure_fresh l cur c g :
  cursor_is l cur c g → cur_state c = None →
  cursor_ensure_state cur l =
    let '(r, (g', d')) := or_block_on (lsm_try_prefix_scan_start_sync (cur_prefix c))
                            (lsm_prefix_scan_start (cur_prefix c)) g (dsk (lib_proc l)) in
    let l1 := arc_set (cur_engine c) g' d' l in
    match r with
    | inr st => Ret (inr tt) (upd cur (set_state (Some st)) l1)
    | inl e => Ret (inl ErrorStorage) (lib_err ("Cursor start failed: " +:+ e) l1)
    end.
Proof.
  intros Hc Hst. unfold cursor_ensure_state.
  rewrite (bind_ret _ _ _ _ _ (cursor_is_at _ _ _ _ Hc)), Hst. unfold bind at 1.
  rewrite (arc_run_live _ _ _ _ (ci_engine _ _ _ _ Hc)).
  by destruct (or_block_on _ _ g _) as [[e|st] [g' d']].
Qed.

Lemma pull_ensured l l1 cur c g st max :
  cursor_ensure_state cur l = Ret (inr tt) l1 → cursor_is l1 cur c g → cur_state c = Some st →
  cursor_pull_page cur max l = cursor_pull_page cur max l1.
Proof.
  intros He Hc Hst. unfold cursor_pull_page. rewrite (bind_ret _ _ _ _ _ He).
  assert (cursor_ensure_state cur l1 = Ret (inr tt) l1) as He1.
  { unfold cursor_ensure_state. by rewrite (bind_ret _ _ _ _ _ (cursor_is_at _ _ _ _ Hc)), Hst. }
  by rewrite (bind_ret _ _ _ _ _ He1).
Qed.

Lemma pull_refused l l1 cur e max :
  cursor_ensure_state cur l = Ret (inl e) l1 → cursor_pull_page cur max l = Ret (inl e) l1.
Proof. intros He. unfold cursor_pull_page. by rewrite (bind_ret _ _ _ _ _ He). Qed.

(** ** What a page contains *)

Context {LL : LsmLaws L} {SL : LsmScanLaws L LL SC}.

(** [xs] was taken from a scan that had [before] to deliver and has [after] left. *)
Definition page_of (max : nat) (before xs after : list (string * Value json)) (eof : bool) : Prop :=
  before = xs ++ after ∧ (length xs ≤ max)%nat ∧
  if eof then after = [] else length xs = max.

Lemma next_each_ok max items st g d xs eof st' g' d' :
  next_each max items st g d = (inr (xs, eof), st', (g', d')) →
  ∃ ys, xs = items ++ ys ∧
    page_of max (remaining g st) ys (if eof then [] else remaining g' st') eof ∧
    contents g' = contents g.
Proof.
  revert items st g d. induction max as [|max IH]; intros items st g d; simpl.
  - intros [= <- <- <- <- <-]. exists []. by rewrite (right_id_L [] (++)).
  - destruct (lsm_prefix_scan_next st g d) as [[[e|[kv|]] st1] [g1 d1]] eqn:Hn; [done| |].
    + intros H. apply IH in H as (ys & -> & (Hb & Hlen & Heof) & Hc).
      apply scan_next_ok in Hn as [Hr Hc1]. exists (kv :: ys). rewrite <-app_assoc.
      split; [done|]. split; [|congruence]. split; [by rewrite Hr, Hb|].
      split; [simpl; lia|]. destruct eof; [done|simpl; lia].
    + intros [= <- <- <- <- <-]. apply scan_next_end in Hn as [Hr Hc]. exists [].
      split; [by rewrite (right_id_L [] (++))|]. split; [|done]. split; [done|]. split; [simpl; lia|done].
Qed.

Lemma next_page_ok max st g d xs eof st' g' d' :
  next_page max st g d = (inr (xs, eof), st', (g', d')) →
  page_of max (remaining g st) xs (if eof then [] else remaining g' st') eof ∧ contents g' = contents g.
Proof.
  unfold next_page. destruct (lsm_try_prefix_scan_next_n_sync max st g d) as [[[r|] st1] [g1 d1]] eqn:Ht.
  - intros [= -> -> -> ->]. apply try_next_ok in Ht as (Hr & Hlen & Heof & Hc). split; [|done].
    split; [done|]. split; [done|]. destruct eof; [done|by apply Heof].
  - intros H. apply try_next_none in Ht as [Hr Hc]. apply next_each_ok in H as (ys & -> & Hp & Hc').
    rewrite <-Hr. split; [done|congruence].
Qed.

(** What an open cursor has still to deliver. *)
Definition pending (l : Lib) (cur : Z) (pend : list (string * Value json)) : Prop :=
  ∃ c g, cursor_is l cur c g ∧
    if cur_done c then pend = []
    else match cur_state c with
         | Some st => pend = remaining g st
         | None => pairs_of (cur_prefix c) (contents g) pend
         end.

(** How pulling a page ends: with the next pairs, or with an error. *)
Definition pulls (l : Lib) (cur max : Z) (pend : list (string * Value json))
    (x : outcome Lib (F4KvsResult + list (string * Value json) * bool)) : Prop :=
  match x with
  | Ret (inr (items, eof)) l1 => ∃ c1 g1 rest,
      cursor_is l1 cur c1 g1 ∧ cur_done c1 = false ∧
      dom (heap (lib_proc l1)) = dom (heap (lib_proc l)) ∧
      page_of (Z.to_nat max) pend items rest eof ∧
      (eof = false → ∃ st', cur_state c1 = Some st' ∧ rest = remaining g1 st')
  | Ret (inl e) _ => e = ErrorStorage
  | _ => False
  end.

Lemma pull_started_ends l cur max c g st :
  cursor_is l cur c g → cur_done c = false → cur_state c = Some st →
  pulls l cur max (remaining g st) (cursor_pull_page cur max l).
Proof.
  intros Hc Hd Hst. rewrite (pull_started l cur c g st max Hc Hst).
  destruct (next_page _ st g _) as [[[e|[items eof]] st'] [g' d']] eqn:Hn; [done|].
  apply next_page_ok in Hn as [Hp _].
  pose proof (cursor_is_upd l cur c g (set_state None) Hc eq_refl) as Hc1.
  pose proof (cursor_is_set _ cur _ g g' d' Hc1) as Hc2. simpl in Hc2.
  assert (dom (heap (lib_proc (arc_set (cur_engine c) g' d' (upd cur (set_state None) l)))) =
    dom (heap (lib_proc l))) as Hdom by exact (arc_set_dom _ _ g _ _ (ci_engine _ _ _ _ Hc1)).
  cbv zeta. destruct eof.
  - exists (set_state None c), g', []. by split_and!.
  - exists (set_state (Some st') c), g', (remaining g' st').
    split; [exact (cursor_is_upd _ cur _ g' (set_state (Some st')) Hc2 eq_refl)|].
    split_and!; [done|done|done|]. intros _. by exists st'.
Qed.

Lemma pull_ends l cur max c g :
  cursor_is l cur c g → cur_done c = false →
  (∃ pend, pending l cur pend ∧ pulls l cur max pend (cursor_pull_page cur max l)) ∨
  ∃ l1, cursor_pull_page cur max l = Ret (inl ErrorStorage) l1.
Proof.
  intros Hc Hd. destruct (cur_state c) as [st|] eqn:Hst.
  { left. exists (remaining g st). split; [|by eapply pull_started_ends]. exists c, g. by rewrite Hd, Hst. }
  pose proof (ensure_fresh l cur c g Hc Hst) as He.
  destruct (or_block_on _ _ g _) as [[e|st] [g' d']] eqn:Hop.
  { right. eexists. by eapply pull_refused. }
  cbv zeta iota beta in He. set (l1 := upd cur (set_state (Some st)) _) in He.
  pose proof (cursor_is_upd _ _ _ _ (set_state (Some st)) (cursor_is_set l cur c g g' d' Hc) eq_refl) as Hc1.
  fold l1 in Hc1. left. exists (remaining g' st). split.
  - exists c, g. split; [done|]. rewrite Hd, Hst. unfold or_block_on in Hop.
    destruct (lsm_try_prefix_scan_start_sync _ g _) as [[t|] [g1 d1]] eqn:Ht.
    + simplify_eq. by apply try_start_ok in Ht as [? _].
    + apply try_start_none in Ht. apply scan_start_ok in Hop as [Hpairs _]. by rewrite <-Ht.
  - rewrite (pull_ensured _ _ _ _ _ st _ He Hc1 eq_refl).
    pose proof (pull_started_ends l1 cur max _ g' st Hc1 Hd eq_refl) as Hp.
    unfold pulls in *. destruct (cursor_pull_page cur max l1) as [[e|[items eof]] l2| | |]; try done.
    destruct Hp as (c1 & g1 & rest & ? & ? & Hdom & ? & ?). exists c1, g1, rest. split_and!; [done..| |done|done].
    rewrite Hdom. exact (arc_set_dom _ _ g _ _ (ci_engine _ _ _ _ Hc)).
Qed.

(** A cursor whose scan has started or is over has one list to deliver. *)
Definition pending_now (l : Lib) (cur : Z) (pend : list (string * Value json)) : Prop :=
  ∃ c g, cursor_is l cur c g ∧
    if cur_done c then pend = [] else ∃ st, cur_state c = Some st ∧ pend = remaining g st.

Lemma pending_now_unique l cur p1 p2 : pending_now l cur p1 → pending l cur p2 → p1 = p2.
Proof.
  intros (c & g & [_ Hc Hg] & H1) (c' & g' & [_ Hc' Hg'] & H2).
  replace c' with c in * by congruence. replace g' with g in * by congruence.
  destruct (cur_done c); [congruence|]. destruct H1 as (st & Hst & ->). by rewrite Hst in H2.
Qed.

Lemma pending_now_proc l cur pend s :
  pending_now l cur pend → heap (lib_proc l) ⊆ heap s → pending_now (set_proc s l) cur pend.
Proof.
  intros (c & g & [Hb Hc Hg] & Hp) Hsub. exists c, g. split; [|done]. split; [by eapply lookup_weaken|done|].
  destruct (cur_engine c) as [a|n]; simpl in *; [|done].
  destruct (heap (lib_proc l) !! a) as [b|] eqn:E; [|done]. by rewrite (lookup_weaken _ _ _ _ E Hsub).
Qed.

(** What a call for a page comes to. *)
Definition paged (l : Lib) (cur max : Z) (out : F4KvsScanResultKv)
    (x : outcome Lib (F4KvsResult * option F4KvsScanResultKv)) : Prop :=
  (∃ l', x = Ret (ErrorStorage, Some out) l') ∨
  ∃ pend items rest l1 r s,
    x = Ret (Success, Some r) (set_proc s l1) ∧
    pending l cur pend ∧ pend = items ++ rest ∧ pending_now l1 cur rest ∧
    (items = [] → rest = []) ∧ zlen items ≤ max ∧
    lib_wf l1 ∧ dom (heap (lib_proc l1)) = dom (heap (lib_proc l)) ∧ fills_kv (lib_proc l1) items r s.

Lemma page_over l cur max out c g :
  lib_wf l → cursor_is l cur c g → cur_done c = true → 0 < max →
  paged l cur max out (Ret (Success, Some (mkScanKv 0 0)) l).
Proof.
  intros Hl Hc Hd Hmax. right. exists [], [], [], l, (mkScanKv 0 0), (lib_proc l).
  destruct (fill_scan_result_kv_spec [] out _ (lib_cwf l Hl)) as (r & s & [= <- <-] & Hf).
  split; [by destruct l|]. split_and!; try done; [..|unfold zlen; simpl; lia];
    exists c, g; by rewrite Hd.
Qed.

Lemma next_n_kv_paged l cur max out c g :
  lib_wf l → cursor_is l cur c g → cur ≠ 0 → 0 < max →
  paged l cur max out (f4kvs_engine_cursor_next_n_kv cur max (Some out) l).
Proof.
  intros Hl Hc Hcur Hmax. unfold f4kvs_engine_cursor_next_n_kv, cursor_page.
  rewrite (proj2 (Z.eqb_neq cur 0)) by done.
  rewrite (bind_ret _ _ _ _ _ (cursor_is_at _ _ _ _ Hc)).
  rewrite (proj2 (Z.eqb_neq max 0)), orb_false_r by lia.
  destruct (cur_done c) eqn:Hd; [by eapply page_over|].
  destruct (pull_ends l cur max c g Hc Hd) as [(pend & Hpend & Hp)|[l1 Hp]].
  2:{ left. exists l1. unfold bind at 1. by rewrite Hp. }
  pose proof (pull_page_tries l cur max Hl ltac:(eexists; by eapply ci_cursor)) as Hwf.
  unfold lib_tries, lib_sound in Hwf. unfold bind at 1. unfold pulls in Hp.
  destruct (cursor_pull_page cur max l) as [[e|[items eof]] l1| | |]; try done.
  { left. exists l1. by rewrite Hp. }
  destruct Hwf as [Hwf _]. destruct Hp as (c1 & g1 & rest & Hc1 & Hd1 & Hdom & (Hb & Hlen & Heof) & Hst).
  cbv beta iota. unfold update_cursor, modify. fold (upd cur (set_done eof) l1).
  unfold bind at 1. set (l2 := upd cur (set_done eof) l1).
  assert (lib_wf l2) as Hwf2 by (by apply update_cursor_wf).
  destruct (fill_scan_result_kv_spec items out _ (lib_cwf l2 Hwf2)) as (r & s & Hf & Hfill).
  unfold bind, in_proc, lift. fold (upd cur (set_done eof) l1). fold l2. rewrite Hf. right. exists pend, items, rest, l2, r, s.
  split_and!; try done.
  - exists (set_done eof c1), g1. split; [by apply cursor_is_upd|]. simpl. destruct eof; [done|].
    destruct (Hst eq_refl) as (st' & -> & ->). by exists st'.
  - intros ->. destruct eof; [done|]. simpl in Heof. lia.
  - unfold zlen. lia.
Qed.

(** ** A caller that reads a cursor to its end *)

Definition read_slice (h : gmap Z block) (a n : Z) : option (list byte) :=
  if n =? 0 then Some []
  else match h !! a with
       | Some (BBoxed l) => if zlen l =? n then Some l else None
       | _ => None
       end.

Definition read_pair (h : gmap Z block) (p : F4KvsKVPairKv) : option (list byte * list byte) :=
  k ← read_slice h (kv_key p) (kv_key_len p);
  v ← read_slice h (kv_value p) (kv_value_len p);
  Some (k, v).

Definition read_page (h : gmap Z block) (r : F4KvsScanResultKv) : option (list (list byte * list byte)) :=
  if srk_count r =? 0 then Some []
  else match h !! srk_pairs r with
       | Some (BPairsKv ps) => mapM (read_pair h) ps
       | _ => None
       end.

(** Ask for a page, copy it, give it back, until a page is empty. *)
Fixpoint drain (fuel : nat) (cur max : Z) (acc : list (list byte * list byte))
    : M Lib (F4KvsResult * list (list byte * list byte)) :=
  match fuel with
  | O => stuck
  | S fuel =>
      let! page := f4kvs_engine_cursor_next_n_kv cur max (Some (mkScanKv 0 0)) in
      match page with
      | (Success, Some r) =>
          let! l := get in
          match read_page (heap (lib_proc l)) r with
          | None => undefined
          | Some kvs =>
              run! in_proc (f4kvs_scan_result_kv_free (Some r)) in
              if srk_count r =? 0 then mret (Success, acc) else drain fuel cur max (acc ++ kvs)
          end
      | (e, _) => mret (e, acc)
      end
  end.

Definition bytes_of (kv : string * Value json) : list byte * list byte :=
  (String.list_byte_of_string kv.1, value_to_bytes kv.2).

Lemma read_slice_holds h a b : b = [] ∨ h !! a = Some (BBoxed b) → read_slice h a (zlen b) = Some b.
Proof.
  unfold read_slice. intros [->|Hb]; [done|]. destruct (Z.eqb_spec (zlen b) 0).
  - by rewrite (zlen_nil_inv b).
  - by rewrite Hb, Z.eqb_refl.
Qed.

Lemma read_page_holds h r items :
  holds_scan_kv h r items → read_page h r = Some (bytes_of <$> items).
Proof.
  intros [Hn Hp]. unfold read_page. rewrite Hn. destruct (Z.eqb_spec (zlen items) 0) as [H0|H0].
  { by rewrite (zlen_nil_inv items). }
  destruct Hp as [->|(ps & -> & Hps)]; [done|]. clear H0 Hn. apply mapM_Some.
  apply Forall2_fmap_r. eapply Forall2_impl; [exact Hps|]. intros p kv (Hkn & Hk & Hvn & Hv).
  unfold read_pair. by rewrite Hkn, Hvn, !read_slice_holds.
Qed.

(** All the pairs, or the first of them and an error. *)
Definition drains (l : Lib) (cur : Z) (acc : list (list byte * list byte))
    (x : outcome Lib (F4KvsResult * list (list byte * list byte))) : Prop :=
  ∃ pend code kvs l', pending l cur pend ∧ x = Ret (code, acc ++ kvs) l' ∧
    match code with
    | Success => kvs = bytes_of <$> pend ∧ dom (heap (lib_proc l')) = dom (heap (lib_proc l))
    | ErrorStorage => kvs `prefix_of` (bytes_of <$> pend)
    | _ => False
    end.

Lemma pending_exists l cur c g : cursor_is l cur c g → ∃ pend, pending l cur pend.
Proof.
  intros Hc. unfold pending. destruct (cur_done c) eqn:Hd.
  { exists [], c, g. by rewrite Hd. }
  destruct (cur_state c) as [st|] eqn:Hst.
  - exists (remaining g st), c, g. by rewrite Hd, Hst.
  - exists (prefix_pairs (cur_prefix c) (contents g)), c, g. rewrite Hd, Hst. split; [done|apply prefix_pairs_of].
Qed.

Lemma pending_now_pending l cur pend : pending_now l cur pend → pending l cur pend.
Proof.
  intros (c & g & Hc & Hp). exists c, g. split; [done|]. destruct (cur_done c); [done|].
  by destruct Hp as (st & -> & ->).
Qed.

Lemma lib_wf_settled l o : lib_wf l → entry_ok o → lib_wf (set_proc (settled o (lib_proc l)) l).
Proof. intros Hl Ho. apply lib_wf_proc; [done|by apply cwf_settled, Ho; apply Hl|by split]. Qed.

(** What a page leaves once it has been read and given back. *)
Lemma page_given_back l1 items r s :
  lib_wf l1 → fills_kv (lib_proc l1) items r s →
  ∃ o, entry_ok o ∧
    in_proc (f4kvs_scan_result_kv_free (Some r)) (set_proc s l1) =
      Ret (Some (mkScanKv 0 0)) (set_proc (settled o (lib_proc l1)) l1).
Proof.
  intros Hl (_ & _ & s2 & Hfree & o & Ho & ->). exists o. split; [done|].
  unfold in_proc, lift. change (lib_proc (set_proc s l1)) with s. by rewrite Hfree.
Qed.

Lemma drain_ends fuel l cur max acc c g :
  lib_wf l → cursor_is l cur c g → cur ≠ 0 → 0 < max →
  (∀ pend, pending l cur pend → (length pend < fuel)%nat) → drains l cur acc (drain fuel cur max acc l).
Proof.
  revert l acc c g. induction fuel as [|fuel IH]; intros l acc c g Hl Hc Hcur Hmax Hfuel.
  { destruct (pending_exists l cur c g Hc) as [pend Hp]. specialize (Hfuel pend Hp). lia. }
  simpl. destruct (next_n_kv_paged l cur max (mkScanKv 0 0) c g Hl Hc Hcur Hmax)
    as [[l1 Hx]|(pend & items & rest & l1 & r & s & Hx & Hpend & Hsplit & Hrest & Hover & _ & Hl1 & Hdom & Hfill)];
    rewrite (bind_ret _ _ _ _ _ Hx).
  { destruct (pending_exists l cur c g Hc) as [pend Hp].
    exists pend, ErrorStorage, [], l1. rewrite (right_id_L [] (++)).
    split_and!; [done|done|apply prefix_nil]. }
  cbv iota beta. rewrite (bind_ret get _ _ (set_proc s l1) (set_proc s l1)) by done.
  destruct (Hfill) as (Hholds & Hsub & _). simpl. rewrite (read_page_holds _ _ _ Hholds).
  destruct (page_given_back l1 items r s Hl1 Hfill) as (o & Ho & Hback).
  rewrite (bind_ret _ _ _ _ _ Hback). destruct Hholds as [-> _].
  set (l2 := set_proc (settled o (lib_proc l1)) l1).
  assert (pending_now l2 cur rest) as Hrest2 by (by apply pending_now_proc).
  destruct (Z.eqb_spec (zlen items) 0) as [H0|H0].
  { apply zlen_nil_inv in H0. subst items. rewrite (Hover eq_refl) in *. simpl in Hsplit. subst pend.
    exists [], Success, [], l2. rewrite (right_id_L [] (++)). by split_and!. }
  destruct (Hrest2) as (c2 & g2 & Hc2 & _).
  destruct (IH l2 (acc ++ (bytes_of <$> items)) c2 g2) as (pend' & code & kvs & l3 & Hp' & Hx' & Hcode);
    [by apply lib_wf_settled|done|done|done| |].
  { intros pend' Hp'. rewrite <-(pending_now_unique _ _ _ _ Hrest2 Hp').
    specialize (Hfuel pend Hpend). rewrite Hsplit, length_app in Hfuel.
    assert (length items ≠ O) by (intros H; apply H0; unfold zlen; lia). lia. }
  rewrite <-(pending_now_unique _ _ _ _ Hrest2 Hp') in Hcode.
  exists pend, code, ((bytes_of <$> items) ++ kvs), l3. rewrite (assoc_L (++)).
  split_and!; [done|done|]. rewrite Hsplit, fmap_app. destruct code; try done.
  - destruct Hcode as [-> Hd]. split; [done|]. by rewrite Hd.
  - by apply prefix_app.
Qed.

(** C8: reading a cursor to its end delivers every pair whose key has the prefix,
    each once, whatever the size of the pages, and leaves nothing allocated; it
    ends after at most one page per pair and one more.  If the engine fails on the
    way, what was delivered before is the beginning of such a list. *)
Theorem cursor_drains l cur max fuel c g :
  reachable l → cursor_is l cur c g → cur_state c = None → cur_done c = false → 0 < max →
  (size (contents g) < fuel)%nat →
  ∃ pend code kvs l', pairs_of (cur_prefix c) (contents g) pend ∧
    drain fuel cur max [] l = Ret (code, kvs) l' ∧
    match code with
    | Success => kvs = bytes_of <$> pend ∧ dom (heap (lib_proc l')) = dom (heap (lib_proc l))
    | ErrorStorage => kvs `prefix_of` (bytes_of <$> pend)
    | _ => False
    end.
Proof.
  intros Hr Hc Hst Hd Hmax Hfuel. pose proof (reachable_wf l Hr) as Hl.
  assert (cur ≠ 0) as Hcur.
  { intros ->. pose proof (ci_box _ _ _ _ Hc) as Hb. apply (cwf_low _ (lib_cwf l Hl)) in Hb. lia. }
  assert (∀ pend, pending l cur pend → pairs_of (cur_prefix c) (contents g) pend) as Hpairs.
  { intros pend (c' & g' & [_ Hc' Hg'] & Hp). destruct Hc as [_ Hc Hg].
    replace c' with c in * by congruence. replace g' with g in * by congruence. by rewrite Hd, Hst in Hp. }
  destruct (drain_ends fuel l cur max [] c g) as (pend & code & kvs & l' & Hp & Hx & Hcode); [done..| |].
  { intros pend Hp. pose proof (pairs_of_length _ _ _ (Hpairs pend Hp)). lia. }
  exists pend, code, kvs, l'. split_and!; [by apply Hpairs|done|done].
Qed.

End CursorFacts.
