(* ===== verification/CursorEdges.v ===== *)
(** * Cursors at the edges, and the scan with a callback

    A cursor outlives the handle of its engine.  A page that fails after it has
    read some pairs loses them, although the header says a later call resumes
    after the last key that was returned.  The scan with a callback visits the
    pairs whose value is bytes or a string, and no others. *)

From S2P Require Import Prelude Engine EngineScan Utf8 Options Ffi Cabi Cursor FfiFacts Sound Calls Clients Buffers ScanFacts CabiFacts CursorFacts Concrete.

Section Edges.
Context `{L : LsmEngine} {SC : LsmScan L} {P : Platform} {POk : PlatformOk P}.
Implicit Types (l : Lib) (c : F4KvsCursor) (g : lsm).

(** ** Freeing the engine under a cursor *)

(** C24: freeing an engine's handle takes the handle and nothing a cursor needs:
    every open cursor keeps its prefix, its place and an engine with the same
    contents, only no longer through the handle, so its pages are what they would
    have been. *)
Theorem cursor_survives_free l a g cur c g' :
  reachable l → heap (lib_proc l) !! a = Some (BEngine g) → cursor_is l cur c g' →
  ∃ l' c', engine_free a l = Ret tt l' ∧ heap (lib_proc l') !! a = None ∧
    cursor_is l' cur c' g' ∧ cur_state c' = cur_state c ∧ cur_prefix c' = cur_prefix c ∧
    cur_done c' = cur_done c ∧ cur_engine c' ≠ Boxed a ∧
    (∀ e, e ≠ Boxed a → cur_engine c = e → cur_engine c' = e).
Proof.
  intros Hr Hg Hc. pose proof (reachable_wf l Hr) as Hl.
  assert (a ≠ 0) as Ha0 by (apply (cwf_low _ (lib_cwf l Hl)) in Hg; lia).
  assert (a ≠ cur) as Hne by (intros ->; pose proof (ci_box _ _ _ _ Hc); congruence).
  unfold engine_free. rewrite Hg. unfold in_proc, lift, f4kvs_engine_free.
  rewrite (proj2 (Z.eqb_neq a 0)) by done. destruct Hc as [Hb Hc He].
  destruct (kept (Boxed a) l) eqn:Hk; simpl; rewrite Hg.
  - set (move := λ c, if refers (Boxed a) c then set_arc (Orphan (next_orphan l)) c else c).
    exists (set_proc (set_heap (delete a (heap (lib_proc l))) (lib_proc l))
      (mkLib (lib_proc l) (move <$> cursors l) (<[next_orphan l:=g]> (orphans l)) (S (next_orphan l)))),
      (move c).
    split; [done|]. simpl. split; [apply lookup_delete_eq|].
    assert (arc_engine (cur_engine (move c)) (set_proc (set_heap (delete a (heap (lib_proc l))) (lib_proc l))
      (mkLib (lib_proc l) (move <$> cursors l) (<[next_orphan l:=g]> (orphans l)) (S (next_orphan l)))) =
      Some g') as He'.
    { unfold move, refers. case_bool_decide as Hx; simpl.
      - rewrite lookup_insert_eq. rewrite Hx in He. simpl in He. rewrite Hg in He. congruence.
      - destruct (cur_engine c) as [b|n] eqn:Hce; simpl in *.
        + rewrite lookup_delete_ne by congruence. done.
        + destruct (lib_orphan l Hl n ltac:(by eexists)) as [Hn _].
          rewrite lookup_insert_ne by lia. done. }
    split; [split; [simpl; by rewrite lookup_delete_ne|simpl; by rewrite lookup_fmap, Hc|exact He']|].
    unfold move, refers. case_bool_decide; simpl; split_and!; try done. congruence.
  - exists (set_proc (set_heap (delete a (heap (lib_proc l))) (lib_proc l)) l), c.
    split; [done|]. simpl. split; [apply lookup_delete_eq|].
    assert (cur_engine c ≠ Boxed a) as Hx.
    { intros Hx. by rewrite (proj2 (kept_spec (Boxed a) l)) in Hk by (by exists cur, c). }
    split_and!; try done. split; [simpl; by rewrite lookup_delete_ne|done|].
    destruct (cur_engine c) as [b|n] eqn:Hce; simpl in *; [|done].
    rewrite lookup_delete_ne by congruence. done.
Qed.

(** ** Failures inside a page *)

Context {LL : LsmLaws L} {SL : LsmScanLaws L LL SC}.

(** [n] pairs read one by one. *)
Fixpoint nexts (n : nat) (st : scan_state) (g : lsm) (d : disk)
    : option (list (string * Value json) * scan_state * (lsm * disk)) :=
  match n with
  | O => Some ([], st, (g, d))
  | S n =>
      match lsm_prefix_scan_next st g d with
      | (inr (Some kv), st, (g, d)) =>
          '(items, st, gd) ← nexts n st g d; Some (kv :: items, st, gd)
      | _ => None
      end
  end.

Lemma nexts_remaining n st g d items st1 g1 d1 :
  nexts n st g d = Some (items, st1, (g1, d1)) → remaining g st = items ++ remaining g1 st1.
Proof.
  revert st g d items. induction n as [|n IH]; intros st g d items; simpl.
  - by intros [= <- <- <- <-].
  - destruct (lsm_prefix_scan_next st g d) as [[[e|[kv|]] st2] [g2 d2]] eqn:Hn; try done.
    destruct (nexts n st2 g2 d2) as [[[items' st3] [g3 d3]]|] eqn:Hs; simpl; [|done].
    intros [= <- <- <- <-]. apply scan_next_ok in Hn as [-> _]. by rewrite (IH _ _ _ _ Hs).
Qed.

Lemma next_each_fails n max acc st g d items st1 g1 d1 e st2 g2 d2 :
  nexts n st g d = Some (items, st1, (g1, d1)) → (n < max)%nat →
  lsm_prefix_scan_next st1 g1 d1 = (inl e, st2, (g2, d2)) →
  next_each max acc st g d = (inl e, st2, (g2, d2)).
Proof.
  revert max acc st g d items. induction n as [|n IH]; intros [|max] acc st g d items Hs Hlt Hf;
    simpl in *; try lia.
  - injection Hs as <- <- <- <-. by rewrite Hf.
  - destruct (lsm_prefix_scan_next st g d) as [[[e'|[kv|]] st3] [g3 d3]]; try done.
    destruct (nexts n st3 g3 d3) as [[[items' st4] [g4 d4]]|] eqn:Hs'; simpl in Hs; [|done].
    injection Hs as <- <- <- <-. eapply IH; [done|lia|done].
Qed.

(** C26: when the engine fails after a page has read [n] pairs, the call reports the
    error and hands out nothing, but the cursor has moved: the next page starts
    where the failure happened, and the [n] pairs, which were next to deliver and
    which no call has returned, are lost. *)
Theorem cursor_error_skips l cur max out c g st n items st1 g1 d1 e st2 g2 d2 :
  cursor_is l cur c g → cur ≠ 0 → cur_done c = false → cur_state c = Some st → Z.of_nat n < max →
  (∀ m, lsm_try_prefix_scan_next_n_sync m st g (dsk (lib_proc l)) = (None, st, (g, dsk (lib_proc l)))) →
  nexts n st g (dsk (lib_proc l)) = Some (items, st1, (g1, d1)) →
  lsm_prefix_scan_next st1 g1 d1 = (inl e, st2, (g2, d2)) →
  remaining g2 st2 = remaining g1 st1 →
  ∃ l' rest, f4kvs_engine_cursor_next_n_kv cur max (Some out) l = Ret (ErrorStorage, Some out) l' ∧
    pending_now l cur (items ++ rest) ∧ pending_now l' cur rest.
Proof.
  intros Hc Hcur Hd Hst Hmax Htry Hs Hf Hkeep. 
  assert (next_page (Z.to_nat max) st g (dsk (lib_proc l)) = (inl e, st2, (g2, d2))) as Hpage.
  { unfold next_page. rewrite Htry. eapply next_each_fails; [done|lia|done]. }
  pose proof (pull_started l cur c g st max Hc Hst) as Hp. rewrite Hpage in Hp. cbv zeta iota beta in Hp.
  set (l1 := lib_err _ _) in Hp. exists l1, (remaining g1 st1). split_and!.
  - unfold f4kvs_engine_cursor_next_n_kv, cursor_page. rewrite (proj2 (Z.eqb_neq cur 0)) by done.
    rewrite (bind_ret _ _ _ _ _ (cursor_is_at _ _ _ _ Hc)).
    rewrite Hd, (proj2 (Z.eqb_neq max 0)) by lia. simpl. by rewrite (bind_ret _ _ _ _ _ Hp).
  - exists c, g. split; [done|]. rewrite Hd. exists st. split; [done|].
    by rewrite (nexts_remaining _ _ _ _ _ _ _ _ Hs).
  - pose proof (cursor_is_upd l cur c g (set_state None) Hc eq_refl) as Hc1.
    pose proof (cursor_is_set _ cur _ g g2 d2 Hc1) as Hc2.
    pose proof (cursor_is_upd _ cur _ g2 (set_state (Some st2)) Hc2 eq_refl) as Hc3.
    exists (set_state (Some st2) (set_state None c)), g2. split; [by apply cursor_is_err|].
    simpl. rewrite Hd. exists st2. by rewrite Hkeep.
Qed.

(** The C-string page loses its pairs when one of their keys holds a NUL byte. *)
Lemma cursor_nul_skips l cur max out c g st items eof st' g' d' msg :
  lib_wf l → cursor_is l cur c g → cur ≠ 0 → cur_done c = false → cur_state c = Some st → 0 < max →
  next_page (Z.to_nat max) st g (dsk (lib_proc l)) = (inr (items, eof), st', (g', d')) →
  nul_key items.*1 = Some msg →
  ∃ l' rest, f4kvs_engine_cursor_next_n cur max (Some out) l = Ret (ErrorStorage, Some out) l' ∧
    pending_now l cur (items ++ rest) ∧ pending_now l' cur rest.
Proof.
  intros Hl Hc Hcur Hd Hst Hmax Hn Hnul.
  pose proof (pull_started l cur c g st max Hc Hst) as Hp. rewrite Hn in Hp. cbv zeta iota beta in Hp.
  pose proof (pull_page_tries l cur max Hl ltac:(eexists; by eapply ci_cursor)) as Hwf.
  pose proof (pull_started_ends l cur max c g st Hc Hd Hst) as Hpull.
  unfold lib_tries, lib_sound in Hwf. rewrite Hp in Hwf, Hpull. destruct Hwf as [Hwf _].
  destruct Hpull as (c1 & g1 & rest & Hc1 & Hd1 & _ & (Hsplit & _ & Heof) & Hst1).
  set (l1 := if eof then _ else _) in *. set (l2 := upd cur (set_done eof) l1).
  assert (lib_wf l2) as Hwf2 by (by apply update_cursor_wf).
  pose proof (fill_scan_result_spec items out _ (lib_cwf l2 Hwf2)) as Hfill. rewrite Hnul in Hfill.
  destruct Hfill as (s & Hf & o & _ & ->).
  exists (set_proc (settled o (err msg (lib_proc l2))) l2), rest. split_and!.
  - unfold f4kvs_engine_cursor_next_n, cursor_page. rewrite (proj2 (Z.eqb_neq cur 0)) by done.
    rewrite (bind_ret _ _ _ _ _ (cursor_is_at _ _ _ _ Hc)).
    rewrite Hd, (proj2 (Z.eqb_neq max 0)) by lia. change (false || false) with false. cbv iota.
    rewrite (bind_ret _ _ _ _ _ Hp). cbv iota beta.
    unfold update_cursor, modify. fold (upd cur (set_done eof) l1). unfold bind at 1.
    unfold bind, in_proc, lift. fold (upd cur (set_done eof) l1). fold l2. by rewrite Hf.
  - exists c, g. split; [done|]. rewrite Hd. exists st. by rewrite <-Hsplit.
  - apply pending_now_proc; [|done]. exists (set_done eof c1), g1. split; [by apply cursor_is_upd|].
    simpl. destruct eof; [done|]. destruct (Hst1 eq_refl) as (st1 & ? & ->). by exists st1.
Qed.

(** ** The scan with a callback *)

Section Visits.
Context {U : Type} (cb : Callback (U := U)) (user : Z).

(** The callback on the pairs that hold bytes or text, until it asks to stop. *)
Fixpoint visit_list (items : list (string * Value json)) (u : U) : U :=
  match items with
  | [] => u
  | (k, v) :: items =>
      match payload v with
      | None => visit_list items u
      | Some b =>
          let '(go_on, u) := visit cb user (String.list_byte_of_string k) b u in
          if go_on then visit_list items u else u
      end
  end.

(** How the loop ends: through the whole list, or at a failure after part of it. *)
Definition visited (pend : list (string * Value json)) (u : U) (x : outcome (Proc * U) F4KvsResult) : Prop :=
  ∃ code s' u', x = Ret code (s', u') ∧
    match code with
    | Success => u' = visit_list pend u
    | ErrorStorage => ∃ part, part `prefix_of` pend ∧ u' = visit_list part u
    | _ => False
    end.

Lemma visit_rest_ends fuel s a g st u :
  heap s !! a = Some (BEngine g) → (length (remaining g st) < fuel)%nat →
  visited (remaining g st) u (visit_rest fuel a cb user st (s, u)).
Proof.
  revert s g st u. induction fuel as [|fuel IH]; intros s g st u Hg Hfuel; [lia|]. simpl.
  unfold bind at 1, cb_proc, lift. simpl. unfold engine_run. rewrite Hg.
  destruct (lsm_prefix_scan_next st g (dsk s)) as [[r st1] [g1 d1]] eqn:Hn.
  fold (with_engine a g1 d1 s). set (s1 := with_engine a g1 d1 s).
  assert (heap s1 !! a = Some (BEngine g1)) as Hg1 by apply lookup_insert_eq.
  destruct r as [e|[[k v]|]].
  - exists ErrorStorage, (err ("Scan prefix cb failed: " +:+ e) s1), u. split; [done|].
    exists []. split; [apply prefix_nil|done].
  - apply scan_next_ok in Hn as [Hr _]. rewrite Hr in Hfuel |- *. simpl in Hfuel.
    unfold visited. simpl. destruct (payload v) as [b|] eqn:Hv; simpl.
    + destruct (visit cb user _ b u) as [[] u1] eqn:Hvis; [|by exists Success, s1, u1].
      destruct (IH s1 g1 st1 u1 Hg1 ltac:(lia)) as (code & s2 & u2 & Hx & Hcode).
      exists code, s2, u2. split; [exact Hx|]. destruct code; try done.
      destruct Hcode as (part & Hpart & ->). exists ((k, v) :: part).
      split; [by apply prefix_cons|]. simpl. by rewrite Hv, Hvis.
    + destruct (IH s1 g1 st1 u Hg1 ltac:(lia)) as (code & s2 & u2 & Hx & Hcode).
      exists code, s2, u2. split; [exact Hx|]. destruct code; try done.
      destruct Hcode as (part & Hpart & ->). exists ((k, v) :: part).
      split; [by apply prefix_cons|]. simpl. by rewrite Hv.
  - apply scan_next_end in Hn as [Hr _]. rewrite Hr. by exists Success, s1, u.
Qed.

(** C25: the scan with a callback.  The engine is first asked to traverse the prefix
    itself; when it does, its answer is the whole result, the state the callback
    was left in by it included.  When it declines, the loop of the function ends,
    after at most one round per pair and one more, and calls back exactly for the
    pairs under the prefix whose value is bytes or a string, in the order of the
    scan, until the callback asks to stop; a failure of the engine ends it after
    part of them.  Pairs with any other value are passed over there, although the
    comment says every live pair is visited. *)
Theorem cb_visits fuel s a g p n prefix pre u :
  a ≠ 0 → heap s !! a = Some (BEngine g) → holds s p n prefix → check_raw "prefix" prefix = inr pre →
  (size (contents g) < fuel)%nat →
  let x := f4kvs_engine_scan_prefix_cb fuel a p n (Some cb) user (s, u) in
  match lsm_try_prefix_scan_foreach_sync pre (visit cb user) u g (dsk s) with
  | (Some (inr _), u1, (g1, d1)) => x = Ret Success (with_engine a g1 d1 s, u1)
  | (Some (inl e), u1, (g1, d1)) =>
      x = Ret ErrorStorage (err ("Scan prefix cb failed: " +:+ e) (with_engine a g1 d1 s), u1)
  | (None, _, _) => ∃ pend, pairs_of pre (contents g) pend ∧ visited pend u x
  end.
Proof.
  intros Ha Hg Hp Hpre Hfuel x. unfold x, f4kvs_engine_scan_prefix_cb. clear x.
  assert (cb_proc (validate_engine a) (s, u) = Ret (inr g) (s, u)) as He.
  { unfold cb_proc, lift. simpl. by rewrite (validate_engine_live _ _ _ Ha Hg). }
  rewrite (bind_ret _ _ _ _ _ He). cbv iota beta.
  assert (cb_proc (key_from_raw p n "prefix") (s, u) = Ret (inr pre) (s, u)) as Hk.
  { unfold cb_proc, lift. simpl. by rewrite (key_from_raw_holds _ _ _ _ _ Hp), Hpre. }
  rewrite (bind_ret _ _ _ _ _ Hk). cbv iota beta.
  destruct (lsm_try_prefix_scan_foreach_sync pre (visit cb user) u g (dsk s)) as [[tried u1] [g1 d1]] eqn:Htry.
  assert (foreach_sync a pre (visit cb user) (s, u) = Ret tried (with_engine a g1 d1 s, u1)) as Hfe.
  { unfold foreach_sync, engine_run. simpl. by rewrite Hg, Htry. }
  rewrite (bind_ret _ _ _ _ _ Hfe). cbv iota beta. destruct tried as [[e|[]]|]; [done..|].
  apply try_foreach_none in Htry as [-> Hsame]. set (s0 := with_engine a g1 d1 s).
  unfold bind at 1, cb_proc, lift. change (fst (s0, u)) with s0.
  rewrite (engine_op_live s0 a g1) by apply lookup_insert_eq. change (dsk s0) with d1. rewrite <-Hsame.
  destruct (lsm_prefix_scan_start pre g1 d1) as [[e|st] [g2 d2]] eqn:Hs.
  - exists (prefix_pairs pre (contents g1)). split; [apply prefix_pairs_of|].
    exists ErrorStorage, (err ("Scan prefix cb start failed: " +:+ e) (with_engine a g2 d2 s0)), u.
    split; [done|]. exists []. split; [apply prefix_nil|done].
  - apply scan_start_ok in Hs as [Hpairs Hc]. exists (remaining g2 st). split; [done|].
    apply visit_rest_ends; [apply lookup_insert_eq|].
    pose proof (pairs_of_length _ _ _ Hpairs). rewrite <-Hsame in Hfuel. lia.
Qed.

End Visits.
End Edges.
