(* ===== verification/CabiRuns.v ===== *)
(** * Runs of the C ABI

    The theorems on the functions outside the Go binding at concrete processes:
    the engine of [MapEngine] at handle 2, keys with a NUL byte, failures injected
    into a page, a callback that counts. *)

From S2P Require Import Prelude Engine EngineScan Utf8 Options Ffi Cabi Cursor FfiFacts Sound Calls Clients Buffers ScanFacts CabiFacts Agree CursorFacts CursorEdges Concrete.
Import MapEngine MapScan.
#[local] Existing Instance one_thread.

(** ** Processes *)

Abbreviation mblock := (@block map_engine).

(** An engine at 2 and the C string of a key at 5. *)
Definition keyed_proc (g : state) (key : string) : @Proc map_engine :=
  @mkProc map_engine
    (<[2 := @BEngine map_engine g]> {[5 := @BMalloc map_engine (String.list_byte_of_string key ++ [x00])]})
    ∅ ∅ ∅ 0 ∅ O O.

Lemma keyed_wf g key : @cwf map_engine (keyed_proc g key).
Proof.
  split; simpl.
  - intros a b Ha. apply lookup_insert_Some in Ha as [[<- _]|[_ Ha]]; [lia|].
    apply lookup_singleton_Some in Ha as [<- _]. lia.
  - intros a Ha. by apply elem_of_empty in Ha.
  - intros a n Ha. by rewrite lookup_empty in Ha.
Qed.

Lemma keyed_engine g key : heap (keyed_proc g key) !! 2 = Some (@BEngine map_engine g).
Proof. apply lookup_insert_eq. Qed.

Lemma keyed_key g key : has_key (heap (keyed_proc g key)) 5 key.
Proof. split; [done|]. simpl. rewrite lookup_insert_ne by done. by rewrite lookup_singleton_eq. Qed.

Definition proc_after {A} (x : outcome (@Proc map_engine) A) : @Proc map_engine :=
  match x with Ret _ s | Panic _ s | Stuck s => s | Undefined => keyed_proc (demo_engine ∅ []) "" end.

Definition coded {A} `{EqDecision A} (r : A) (x : outcome (@Proc map_engine) A) : bool :=
  match x with Ret a _ => bool_decide (a = r) | _ => false end.

Lemma coded_ok {A} `{EqDecision A} (r : A) x : coded r x = true → x = Ret r (proc_after x).
Proof. destruct x; simpl; try done. by intros ->%bool_decide_eq_true_1. Qed.

Ltac coded := apply coded_ok; vm_compute; reflexivity.

(** ** Length-prefixed keys *)

Lemma keyed_holds g : holds (keyed_proc g "k") (AtAddr 5) 1 [x6b].
Proof. split; [done|right]. split; [done|]. reflexivity. Qed.

(** A put, a batch of one, and a read that the engine answers at once. *)
Lemma kv_agrees_witness :
  let g := demo_engine {["k" := VBytes [x76]]} [] in
  let s := keyed_proc g "k" in
  let x := f4kvs_engine_get_kv 2 (AtAddr 5) 1 (Some (0, 0)) s in
  let y := f4kvs_engine_get_bytes 2 5 (Some (0, 0)) s in
  same_but_text (f4kvs_engine_put_kv 2 (AtAddr 5) 1 (GoMem [x77]) 1 s)
                (f4kvs_engine_put_bytes 2 5 (GoMem [x77]) 1 s) ∧
  same_but_text (f4kvs_engine_batch_put_kv 2 (Some [5]) (Some [1]) (Some [0]) (Some [0]) 1 s)
                (f4kvs_engine_batch_put_bytes 2 (Some [5]) (Some [0]) (Some [0]) 1 s) ∧
  @answered map_engine (Some (VBytes [x76])) Success (Some (6, 1)) (proc_after x) ∧
  @answered map_engine (Some (VBytes [x76])) Success (Some (6, 1)) (proc_after y).
Proof.
  intros g s x y.
  destruct (kv_agrees s 2 g (keyed_wf g "k") ltac:(done) (keyed_engine g "k")) as (Hkey & Hbatch & _).
  destruct (Hkey 5 "k" (AtAddr 5) 1 (keyed_key g "k") eq_refl (keyed_holds g)) as (Hput & _ & _ & _ & _ & Hget).
  split_and!.
  - apply (Hput (GoMem [x77]) 1 [x77]), (holds_go s [x77]).
  - apply (Hbatch [("k", [])] [5] [0] [0] [5] [1] [0] [0]); [| |by repeat constructor].
    + constructor; [apply keyed_key|by split; [|left]|constructor].
    + constructor; [apply keyed_holds|by split; [|left]|constructor].
  - destruct (Hget (0, 0) Success (Some (6, 1)) (proc_after x) Success (Some (6, 1)) (proc_after y))
      as [(? & _)|[H _]]; [coded|done|coded|done|done|exact H].
  - destruct (Hget (0, 0) Success (Some (6, 1)) (proc_after x) Success (Some (6, 1)) (proc_after y))
      as [(? & _)|[_ H]]; [coded|done|coded|done|done|exact H].
Defined.

(** Two keys that a C string would not tell apart. *)
Definition key1 : list byte := [x61; x00; x62].
Definition key2 : list byte := [x61; x00; x63].
Definition put1 : @Proc map_engine :=
  proc_after (f4kvs_engine_put_kv 2 (GoMem key1) 3 (GoMem [x76]) 1 (keyed_proc (demo_engine ∅ []) "")).

Lemma kv_roundtrip_witness :
  let out := f4kvs_engine_get_kv 2 (GoMem key2) 3 (Some (0, 0)) put1 in
  @answered map_engine None ErrorNotFound (Some (0, 0)) (proc_after out).
Proof.
  intros out. set (s := keyed_proc (demo_engine ∅ []) "").
  change (@answered map_engine
    (if decide (key2 = key1) then Some (VBytes [x76])
     else @contents map_engine map_engine_laws (demo_engine ∅ []) !! String.string_of_list_byte key2)
    ErrorNotFound (Some (0, 0)) (proc_after out)).
  apply (kv_roundtrip s 2 (demo_engine ∅ []) (GoMem key1) 3 key1 (GoMem [x76]) 1 [x76] put1
    (GoMem key2) 3 key2 (String.string_of_list_byte key2) (0, 0) ErrorNotFound (Some (0, 0)) (proc_after out)).
  - done.
  - apply keyed_engine.
  - apply (holds_go s key1).
  - apply (holds_go s [x76]).
  - coded.
  - apply (holds_go put1 key2).
  - reflexivity.
  - coded.
  - done.
Defined.

Lemma scan_pairs_roundtrip_witness :
  let g := demo_engine {["pa" := VBytes [x76]]} [] in
  scanned (keyed_proc g "p") 2 g "p" (mkScan 0 0)
    (f4kvs_engine_scan_prefix_kv 2 (GoMem [x70]) 1 (Some (mkScan 0 0)) (keyed_proc g "p")).
Proof.
  intros g. set (s := keyed_proc g "p").
  destruct (scan_pairs_roundtrip s 2 g 5 (GoMem [x70]) 1 "p" (mkScan 0 0)) as [_ Hkv];
    [apply keyed_wf|done|apply keyed_engine|apply keyed_key|apply (holds_go s [x70])|].
  by apply (Hkv "p").
Defined.

Lemma get_text_witness :
  let g := demo_engine {["k" := VBytes [x61; xff; x62]]} [] in
  let text := String.list_byte_of_string (@value_to_string map_engine (VBytes [x61; xff; x62])) in
  utf8_valid text = true ∧ text = [x61; xef; xbf; xbd; x62].
Proof.
  intros g text. split; [|reflexivity].
  destruct (get_text (keyed_proc g "k") 2 g 5 "k" 0 "k" (VBytes [x61; xff; x62]) (pop g) ∅)
    as (Hb & _ & _); [done|apply keyed_engine|apply keyed_key|reflexivity|reflexivity|].
  exact (proj1 (Hb _ eq_refl)).
Defined.

(** ** Cursors *)

(** A cursor that has not been asked for a page. *)
Definition untouched (l : @Lib map_engine map_scan) (cur : Z) : bool :=
  match cursors l !! cur with
  | Some c => match cur_state c with None => negb (cur_done c) | Some _ => false end
  | None => false
  end.

Lemma untouched_spec l cur : untouched l cur = true →
  ∃ c, cursors l !! cur = Some c ∧ cur_state c = None ∧ cur_done c = false.
Proof.
  unfold untouched. destruct (cursors l !! cur) as [c|]; [|done].
  destruct (cur_state c) eqn:E; [done|]. intros H%negb_true_iff. by exists c.
Qed.

(** The engine at 3 with a cursor at 4. *)
Lemma session4_cursor : ∃ c g, reachable session4 ∧ cursor_is session4 4 c g ∧
  cur_state c = None ∧ cur_done c = false.
Proof.
  pose proof session4_reachable as Hr.
  destruct (untouched_spec session4 4) as (c & Hc & ? & ?); [vm_compute; reflexivity|].
  destruct (lib_wf_cursor session4 4 c (reachable_wf _ Hr) Hc) as [g Hg]. by exists c, g.
Qed.

Lemma cursor_drains_witness :
  ∃ c g fuel pend code kvs l', pairs_of (cur_prefix c) (contents g) pend ∧
    drain fuel 4 1 [] session4 = Ret (code, kvs) l' ∧
    match code with
    | Success => kvs = bytes_of <$> pend ∧ dom (heap (lib_proc l')) = dom (heap (lib_proc session4))
    | ErrorStorage => kvs `prefix_of` (bytes_of <$> pend)
    | _ => False
    end.
Proof.
  destruct session4_cursor as (c & g & Hr & Hc & Hst & Hd).
  exists c, g, (S (size (contents g))).
  apply (cursor_drains session4 4 1 (S (size (contents g))) c g Hr Hc Hst Hd); lia.
Defined.

Lemma cursor_survives_free_witness :
  ∃ c g l' c', engine_free 3 session4 = Ret tt l' ∧ cursor_is session4 4 c g ∧ cursor_is l' 4 c' g.
Proof.
  destruct session4_cursor as (c & g & Hr & Hc & Hst & Hd).
  destruct (engine_at (heap (lib_proc session4)) 3) as [g0 Hg0]; [vm_compute; reflexivity|].
  destruct (cursor_survives_free session4 3 g0 4 c g Hr Hg0 Hc) as (l' & c' & Hf & _ & Hc' & _).
  by exists c, g, l', c'.
Defined.

(** A cursor at 4 with two pairs to go, on an engine whose second step fails. *)
Definition two_pairs : list (string * Value unit) := [("a", VBytes [x31]); ("b", VBytes [x32])].
Definition faulty : state := demo_engine (list_to_map two_pairs) [None; Some "io"].
Definition two_left : @F4KvsCursor map_engine map_scan :=
  @mkCursor map_engine map_scan (Boxed 2) (Some (two_pairs : @scan_state map_engine map_scan)) "" false.
Definition faulty_lib : @Lib map_engine map_scan :=
  @mkLib map_engine map_scan
    (@mkProc map_engine (<[2 := @BEngine map_engine faulty]> {[4 := @BCursor map_engine]}) ∅ ∅ ∅ 0 ∅ O O)
    {[4 := two_left]} ∅ O.

Lemma faulty_cursor : cursor_is faulty_lib 4 two_left faulty.
Proof.
  split; simpl; [|by rewrite lookup_singleton_eq|by rewrite lookup_insert_eq].
  rewrite lookup_insert_ne by done. by rewrite lookup_singleton_eq.
Qed.

(** The page of ten fails at the second pair; the first is gone. *)
Lemma cursor_error_skips_witness :
  ∃ l' rest, f4kvs_engine_cursor_next_n_kv 4 10 (Some (mkScanKv 0 0)) faulty_lib =
      Ret (ErrorStorage, Some (mkScanKv 0 0)) l' ∧
    pending_now faulty_lib 4 ([("a", VBytes [x31])] ++ rest) ∧ pending_now l' 4 rest.
Proof.
  apply (cursor_error_skips faulty_lib 4 10 (mkScanKv 0 0) two_left faulty two_pairs 1
    [("a", VBytes [x31])] (tail two_pairs) (pop faulty) ∅ "io" (tail two_pairs) (pop (pop faulty)) ∅);
    [apply faulty_cursor|done|done|done|lia|done|done|done|done].
Defined.

(** ** A callback that counts *)

Definition count_cb : Callback (U := nat) := λ _ _ _ n, (0, S n).

(** Three pairs, one of them a number, which is passed over. *)
Definition three : gmap string (Value unit) :=
  list_to_map [("a", VBytes [x31]); ("b", VInt64 7); ("c", VString "t")].

Lemma cb_visits_witness :
  let g := demo_engine three [] in
  ∃ pend, pairs_of "" (contents (g : @lsm map_engine)) pend ∧
    visited count_cb 0 pend O
      (f4kvs_engine_scan_prefix_cb 4 2 NullPtr 0 (Some count_cb) 0 (keyed_proc g "", O)).
Proof.
  intros g. refine (cb_visits count_cb 0 4 (keyed_proc g "") 2 g NullPtr 0 [] "" O _ _ _ _ _);
    [done|apply keyed_engine|by split; [|left]|done|].
  vm_compute. lia.
Defined.

(** The count is 2: the number was not visited. *)
Example cb_skips_numbers :
  let g := demo_engine three [] in
  match f4kvs_engine_scan_prefix_cb 4 2 NullPtr 0 (Some count_cb) 0 (keyed_proc g "", O) with
  | Ret Success (_, n) => n = 2%nat
  | _ => False
  end.
Proof. vm_compute. reflexivity. Qed.
