(* ===== verification/Guarantees.v ===== *)
(** * What the Go binding guarantees

    The properties of [F4KVS] a client relies on: refinement of a key-value map,
    memory and lock discipline, round trips, which keys and batches are accepted,
    and life after [Close].  Each property is followed by a run of it on the
    engine of [Concrete]. *)

From S2P Require Import Prelude Engine Utf8 Options Ffi Binding FfiFacts BindingFacts Session Semantics Concrete.

Section Guarantees.
Context `{L : LsmEngine} {P : Platform} {POk : PlatformOk P} {G : GoRuntime} {GOk : GoRuntimeOk G}.
Implicit Types (w : World) (s : Proc) (g : lsm) (e : nat) (o : F4KVS).

(** ** Safety *)

(** C2: any sequence of method calls on an open engine, whatever the arguments and
    whatever the engine answers, returns or ends in a Go panic: it never deadlocks
    and never touches memory it does not own.  Afterwards the lock and all Go
    objects are as before, the allocators have registered exactly what they had,
    and the only block of the C heap that may differ is the engine itself. *)
Theorem calls_safe w e o g cs :
  live w e o g → wf (proc w) →
  match run_calls e cs w with
  | Ret _ w' | Panic _ w' =>
      objs w' = objs w ∧
      string_allocations (proc w') = string_allocations (proc w) ∧
      bytes_allocations (proc w') = bytes_allocations (proc w) ∧
      ∃ g', heap (proc w') = <[handle o := BEngine g']> (heap (proc w))
  | Stuck _ | Undefined => False
  end.
Proof.
  intros Hl Hwf. pose proof (calls_framed w e o g cs Hl Hwf) as H.
  destruct (run_calls e cs w); simpl in H; try done; destruct H as (g' & Ho & []); eauto 10.
Qed.

(** C6: a whole client session, which opens an engine (with options or without),
    defers [Close] and makes any sequence of calls, gives back every block of C
    memory, whether opening fails, the calls fail or one of them panics: the heap
    and the tables of both allocators are those of before, and no object that
    existed before is touched. *)
Theorem session_clean w path opts cs :
  wf (proc w) → (∀ po, opts = Some po → go_options_fit po) →
  match session path opts cs w with
  | Ret _ w' | Panic _ w' =>
      same_memory (proc w) (proc w') ∧ ∀ e o, objs w !! e = Some o → objs w' !! e = Some o
  | Stuck _ | Undefined => False
  end.
Proof.
  intros Hwf Hfit. unfold session, bind at 1. rewrite (Open_spec w path opts Hfit). cbv zeta.
  destruct (check_dir path) as [msg|dir]; [done|].
  destruct (lsm_new _ _) as [[er|g] d]; [done|].
  destruct (open_handle_fresh (enter (proc w)) path) as [Ha Hf]. set (a := alloc_addr _) in *.
  set (s1 := set_heap _ _). set (e := fresh (dom (objs w))).
  set (w1 := mkWorld s1 _ _).
  assert (Hl : live w1 e (mkF4KVS a unlocked false) g)
    by apply live_opened.
  assert (Hwf1 : wf (proc w1)) by (apply wf_new_engine; [by apply wf_enter|done..]).
  set (body := let! rs := run_calls e cs in mret (@inr GoError _ rs)).
  assert (Hbody : framed w1 a (body w1)).
  { eapply (framed_bind w1 e (mkF4KVS a unlocked false)); [done..|by apply calls_framed with g|].
    intros. by eapply framed_ret. }
  pose proof (finally_Close w w1 e a g body Hl Hbody eq_refl Hf eq_refl eq_refl) as Hfin.
  assert (Hfresh : objs w !! e = None) by apply not_elem_of_dom_1, is_fresh.
  destruct (finally _ _ w1); try done; destruct Hfin as [Hm Hobj]; (split; [done|]);
    intros e' o' He; rewrite Hobj; simpl; rewrite !lookup_insert_ne; congruence.
Qed.

(** C27: [Close] on an idle open engine returns, and from then on every method
    answers without reaching the C library: [ErrClosed], nil from the scans, and
    nil or an empty result for an empty batch.  Closing again does nothing. *)
Theorem use_after_close w e o g :
  live w e o g → rw_readers (mu o) = O →
  ∃ w', Close e w = Ret tt w' ∧ heap (proc w') = delete (handle o) (heap (proc w)) ∧
        (∀ c, ∃ n, run_call e c w' = Ret (closed_answer c) (mkWorld (proc w') (objs w') n)) ∧
        Close e w' = Ret tt w'.
Proof.
  intros Hl Hr. rewrite (Close_live _ _ _ _ Hl Hr). eexists. split; [done|]. split; [done|].
  split.
  - intros c. apply (call_closed _ e closed_object); [apply lookup_insert_eq|done|by left].
  - by apply (Close_closed _ e closed_object); [apply lookup_insert_eq|..].
Qed.

(** ** Arguments *)

Definition valid_key (key : string) : Prop :=
  let l := c_prefix (String.list_byte_of_string key) in
  zlen l ≤ MAX_KEY_LENGTH ∧ ∃ cs, encodes l cs.

Lemma check_key_valid key : valid_key key ↔ check_key key = inr (c_string key).
Proof.
  unfold valid_key, check_key. cbv zeta. rewrite <-utf8_ok_iff. symmetry. apply check_text_ok.
Qed.

Lemma check_key_invalid key : ¬ valid_key key ↔ ∃ msg, check_key key = inl msg.
Proof.
  rewrite check_key_valid. split.
  - destruct (check_key key) as [msg|k] eqn:E; [eauto|]. intros H. destruct H.
    apply check_text_inr in E as ->. done.
  - by intros [msg ->].
Qed.

(** C12: which puts reach the engine: exactly those whose key, up to its first NUL,
    has at most 1 MiB and is the UTF-8 encoding of some sequence of Unicode
    scalar values, and whose value has at most 100 MiB.  The engine then gets that
    text and those bytes, and nil is returned exactly when it succeeds.  Any other
    put returns an error and changes neither the heap nor the file system.  What
    follows the first NUL of a key is not looked at: it may be of any length and
    need not be UTF-8, although LIMITATIONS.md says that a NUL is rejected. *)
Theorem put_accepted_iff w e o g key v :
  live w e o g →
  let accepted := valid_key key ∧ zlen (slice_bytes v) ≤ MAX_VALUE_LENGTH in
  let '(r', (g', d')) := lsm_put (c_string key) (VBytes (slice_bytes v)) g (dsk (proc w)) in
  ∃ r w', PutBytes e key v w = Ret r w' ∧
    (accepted → heap (proc w') = <[handle o := BEngine g']> (heap (proc w)) ∧ dsk (proc w') = d' ∧
                (r = None ↔ r' = inr tt)) ∧
    (¬ accepted → heap (proc w') = heap (proc w) ∧ dsk (proc w') = dsk (proc w) ∧ r ≠ None).
Proof.
  intros Hl. cbv zeta. destruct (lsm_put _ _ _ _) as [r' [g' d']] eqn:Hput.
  rewrite (PutBytes_live _ _ _ _ _ _ Hl). unfold put_eff, key_eff.
  destruct (check_key key) as [msg|k] eqn:Hk.
  { eexists _, _. split; [done|]. split; [|done]. intros [Hv _].
    apply check_key_valid in Hv. congruence. }
  assert (Hv : valid_key key).
  { apply check_key_valid. rewrite Hk. by apply check_text_inr in Hk as ->. }
  apply check_key_valid in Hv as Hk'. rewrite Hk in Hk'. simplify_eq.
  destruct (Z.ltb_spec MAX_VALUE_LENGTH (zlen (slice_bytes v))) as [Hlt|Hge].
  { eexists _, _. split; [done|]. split; [lia|done]. }
  unfold run_eff. rewrite Hput.
  destruct r' as [er|[]]; eexists _, _; (split; [done|]); (split; [|naive_solver]);
    intros _; (split; [done|]); (split; [done|]); by split; intros; simplify_eq.
Qed.

(** C29: a batch larger than the engine's [max_batch_size] is refused as a whole,
    before the engine is called: an error, and neither the heap nor the file
    system changes. *)
Theorem batch_limit w e o g items keys :
  live w e o g → items ≠ ∅ → keys ≠ [] →
  let max := max_batch_size (lsm_config g) in
  (max < Z.of_nat (size items) →
     ∃ er w', BatchPutBytes e items w = Ret (Some er) w' ∧
              heap (proc w') = heap (proc w) ∧ dsk (proc w') = dsk (proc w)) ∧
  (max < zlen keys →
     ∃ er w', BatchDelete e keys w = Ret (Some er) w' ∧
              heap (proc w') = heap (proc w) ∧ dsk (proc w') = dsk (proc w)).
Proof.
  intros Hl Hi Hk max. split; intros Hmax.
  - assert (Hs : size items ≠ O) by (by rewrite map_size_empty_iff).
    destruct (BatchPutBytes_live _ _ _ _ _ Hl Hs) as [->|[-> _]]; [|by eexists _, _].
    unfold batch_put_eff, count_eff. fold max. rewrite (proj2 (Z.ltb_lt max _)); [by eexists _, _|].
    unfold zlen, plain_items. rewrite length_fmap, (Permutation_length (range_perm _ _ items)).
    by rewrite length_map_to_list.
  - rewrite (BatchDelete_live _ _ _ _ _ Hl Hk). unfold batch_delete_eff, count_eff. fold max.
    rewrite (proj2 (Z.ltb_lt max _)) by done. by eexists _, _.
Qed.

(** ** Error texts *)

(** The text of an error.  When the call and the [lastError] after it run on
    the same thread, a failed [PutBytes] reports the message of its own failure
    (NULs escaped).  When the goroutine has moved to another thread in between, it
    reports the last message some earlier call left on that thread, and
    "unknown error" only if there is none. *)
Lemma error_text_thread w e o g key v msg :
  live w e o g → (put_eff key (slice_bytes v) g (dsk (proc w))).1 = inl msg →
  let c := calls (proc w) in
  ∃ text w', PutBytes e key v w = Ret (Some (Errorf "f4kvs put %q: %s" [key; text])) w' ∧
    text = if decide (os_thread (S c) = os_thread c) then escape_nul msg
           else default "unknown error" (last_error (proc w) !! os_thread (S c)).
Proof.
  intros Hl Hx c. rewrite (PutBytes_live _ _ _ _ _ _ Hl).
  destruct (put_eff _ _ _ _) as [r y]. simpl in Hx. subst r. unfold finish.
  eexists _, _. split; [done|]. unfold seen. simpl.
  assert (Hafter : last_error (after (handle o) y (enter (proc w))) = last_error (proc w) ∧
                   thread (after (handle o) y (enter (proc w))) = os_thread c ∧
                   calls (after (handle o) y (enter (proc w))) = S c) by (by destruct y as [[]|]).
  destruct Hafter as (-> & -> & ->). rewrite lookup_insert. repeat case_decide; first [done|congruence].
Qed.

(** C32: a scan that meets a key with a NUL in it (written through the
    length-prefixed API or by another program) answers nil, as if nothing matched:
    one such key hides all the others.  The strings made for the keys before it
    are freed. *)
Theorem scan_hides_on_nul w e o g prefix ks g' d' :
  live w e o g → wf (proc w) → key_fits prefix →
  lsm_scan_prefix (c_string prefix) g (dsk (proc w)) = (inr ks, (g', d')) →
  Exists (λ k, nul_free (String.list_byte_of_string k) = false) ks →
  ∃ w', ScanPrefixKeys e prefix w = Ret None w' ∧ objs w' = objs w ∧
    heap (proc w') = <[handle o := BEngine g']> (heap (proc w)) ∧
    string_allocations (proc w') = string_allocations (proc w).
Proof.
  intros Hl Hwf Hp Hscan Hex. rewrite (ScanPrefixKeys_live _ _ _ _ _ Hl Hwf).
  unfold scan_outcome, scan_eff. rewrite (proj2 (check_text_ok _ _ _) Hp).
  fold (c_string prefix). unfold run_eff. rewrite Hscan.
  assert (Hn : ∃ m, nul_key ks = Some m).
  { clear - Hex. induction Hex as [k ks Hk|k ks _ [m IH]]; simpl.
    - unfold nul_free in Hk. destruct (nul_position _); [eauto|done].
    - destruct (nul_position _); eauto. }
  destruct Hn as [m ->]. eexists. split; [done|]. done.
Qed.

(** ** Opening *)

(** The log settings of the Go options, over the preset of the durability. *)
Lemma go_wal_options po (base : WalConfig) :
  0 ≤ GroupCommitMaxWaitMs po →
  let or_default z d := if 0 <? z then z else d in
  let durability := durability_of (WalDurabilitySel po) in
  let amortized := bool_decide (durability = Amortized) in
  let preset := durability_apply_to durability base in
  apply_wal_options (copts po) base =
    mkWal (wal_dir preset) (sync_mode preset)
      (GroupCommitEnabled po || group_commit_enabled preset)
      (or_default (GroupCommitMaxWaitMs po) (if amortized then 50 else group_commit_max_wait preset))
      (or_default (GroupCommitMaxBatchSz po) (group_commit_max_batch_size preset))
      (GroupCommitWaitDurable po || group_commit_wait_durable preset)
      (if 0 <? GroupCommitIdleFlushMs po then Some (GroupCommitIdleFlushMs po)
       else match group_commit_idle_flush preset with
            | None => if amortized then Some 100 else None
            | t => t
            end)
      (wal_engine_of (WalEngineSel po)).
Proof.
  intros Hw. cbv zeta. unfold apply_wal_options. cbn [copts o_wal_durability o_group_commit_enabled
    o_group_commit_max_wait_ms o_group_commit_max_batch_size o_group_commit_wait_durable
    o_group_commit_idle_flush_ms o_wal_engine].
  generalize (durability_of (WalDurabilitySel po)) as du. intros du.
  destruct (durability_apply_to du base) as [dir sync en mw mb wd idle eng].
  replace (GroupCommitMaxWaitMs po =? 0) with (negb (0 <? GroupCommitMaxWaitMs po)) by lia.
  destruct (GroupCommitEnabled po), (GroupCommitWaitDurable po), (0 <? GroupCommitMaxWaitMs po),
    (0 <? GroupCommitMaxBatchSz po), (0 <? GroupCommitIdleFlushMs po), (bool_decide (du = Amortized)), idle; reflexivity.
Qed.

(** C28: what the Go options do, end to end through the C structure.  An engine
    opened with options runs with exactly this configuration.  The durability (1 =
    amortized, 2 = buffered, anything else strict) first applies the engine's preset
    to the default log settings, in the directory's own [wal] and with asynchronous
    syncs; over it go the two switches of the group commit when set, its wait, its
    batch size and its idle flush when not zero, where amortized durability has a
    wait of 50 ms and, if the preset has none, an idle flush of 100 ms; and the log
    selected (1 = frame, 2 = indexed, anything else segment).  Sizes and limits are
    those given, the engine's defaults for zero, but the maximal table size is never
    below the target; compaction is on for 1, off for 2, else the default. *)
Theorem open_options_config `{Laws : !LsmLaws L} w path po e w' :
  go_options_fit po → NewPersistentEngineWithOptions path (Some po) w = Ret (inr e) w' →
  let or_default z d := if 0 <? z then z else d in
  let d := config_default in
  let durability := if WalDurabilitySel po =? 1 then Amortized
                    else if WalDurabilitySel po =? 2 then Buffered else Strict in
  let amortized := bool_decide (durability = Amortized) in
  ∃ o g dir, live w' e o g ∧ rw_readers (mu o) = O ∧ check_dir path = inr dir ∧
    let base := {|
      wal_dir := path_join dir "wal";
      sync_mode := FsyncAsync;
      group_commit_enabled := group_commit_enabled (wal d);
      group_commit_max_wait := group_commit_max_wait (wal d);
      group_commit_max_batch_size := group_commit_max_batch_size (wal d);
      group_commit_wait_durable := group_commit_wait_durable (wal d);
      group_commit_idle_flush := group_commit_idle_flush (wal d);
      wal_engine := wal_engine (wal d) |} in
    let preset := durability_apply_to durability base in
    let target := or_default (SstableTargetSize po) (sstable_target_size d) in
    lsm_config g = {|
      data_dir := dir;
      wal := {|
        wal_dir := wal_dir preset;
        sync_mode := sync_mode preset;
        group_commit_enabled := GroupCommitEnabled po || group_commit_enabled preset;
        group_commit_max_wait :=
          or_default (GroupCommitMaxWaitMs po) (if amortized then 50 else group_commit_max_wait preset);
        group_commit_max_batch_size :=
          or_default (GroupCommitMaxBatchSz po) (group_commit_max_batch_size preset);
        group_commit_wait_durable := GroupCommitWaitDurable po || group_commit_wait_durable preset;
        group_commit_idle_flush :=
          if 0 <? GroupCommitIdleFlushMs po then Some (GroupCommitIdleFlushMs po)
          else match group_commit_idle_flush preset with
               | None => if amortized then Some 100 else None
               | t => t
               end;
        wal_engine := if WalEngineSel po =? 1 then Frame
                      else if WalEngineSel po =? 2 then Indexed else Segment |};
      max_batch_size := or_default (MaxBatchSize po) (max_batch_size d);
      background_enabled := if CompactionBackground po =? 2 then false
                            else if CompactionBackground po =? 1 then true else background_enabled d;
      max_sstables_per_level := or_default (MaxSSTablesPerLevel po) (max_sstables_per_level d);
      memtable_max_size := or_default (MemtableMaxSize po) (memtable_max_size d);
      sstable_target_size := target;
      sstable_max_size := Z.max target (or_default (SstableMaxSize po) (sstable_max_size d)) |}.
Proof.
  intros Hfit H. cbv zeta. rewrite (Open_spec w path (Some po)) in H by naive_solver. cbv zeta in H.
  destruct (check_dir path) as [msg|dir]; [done|].
  destruct (lsm_new _ _) as [[er|g] d'] eqn:Hnew; [done|]. simplify_eq.
  destruct (new_ok _ _ _ _ Hnew) as [_ Hc].
  eexists _, g, dir. split; [apply (live_opened (enter (proc w)))|]. split; [done|]. split; [done|].
  rewrite Hc. unfold open_config. simpl. rewrite go_wal_options by apply Hfit.
  f_equal. change (o_sstable_target_size (copts po)) with (SstableTargetSize po).
  change (o_sstable_max_size (copts po)) with (SstableMaxSize po). repeat case_match; lia.
Qed.

(** When the engine cannot be opened, the Go error does not say why: whatever
    the engine reported, the message on the thread is the same one, since the
    second [set_last_error] overwrites the first. *)
Lemma open_error_text w path opts dir msg :
  (∀ po, opts = Some po → go_options_fit po) → check_dir path = inr dir →
  (lsm_new (open_config dir (copts <$> opts)) (dsk (proc w))).1 = inl msg →
  os_thread (S (calls (proc w))) = os_thread (calls (proc w)) →
  ∃ w', NewPersistentEngineWithOptions path opts w =
    Ret (inl (Errorf "f4kvs open %s: %s" [path; "Failed to open engine: ErrorStorage"])) w'.
Proof.
  intros Hfit Hdir Hnew Ht. rewrite (Open_spec w path opts Hfit). cbv zeta. rewrite Hdir.
  change (dsk (enter (proc w))) with (dsk (proc w)).
  destruct (lsm_new _ _) as [r d]. simpl in Hnew. subst r.
  eexists. unfold open_failed. do 4 f_equal. unfold seen. simpl.
  by rewrite Ht, lookup_insert_eq.
Qed.

End Guarantees.

Section Contract.
Context `{L : LsmEngine} {Laws : LsmLaws L}.
Context {P : Platform} {POk : PlatformOk P} {G : GoRuntime} {GOk : GoRuntimeOk G}.
Implicit Types (w : World) (s : Proc) (g : lsm) (e : nat) (o : F4KVS).

(** ** Refinement *)

(** C1: the binding implements a key-value map.  A sequence of calls on an open
    engine ends (in a return or a Go panic); when it returns and every answer
    reports success, the answers and the final contents are those of the same
    sequence on the abstract map, started from the contents of the engine. *)
Theorem calls_refine w e o g cs :
  live w e o g → wf (proc w) →
  match run_calls e cs w with
  | Ret answers w' =>
      Forall succeeded answers →
      ∃ g', live w' e o g' ∧ wf (proc w') ∧ kv_steps (contents g) cs answers (contents g')
  | Panic _ _ => True
  | Stuck _ | Undefined => False
  end.
Proof.
  intros Hl Hwf. pose proof (calls_framed w e o g cs Hl Hwf) as Hf.
  destruct (run_calls e cs w) as [answers w'|?|?|] eqn:Hr; try done. intros Hs.
  destruct (run_calls_refine _ _ _ _ _ _ _ Hl Hwf Hr Hs) as (g' & [? ?] & ?). eauto.
Qed.

(** C7: what was put is what is read: after a [PutBytes] that returned nil,
    [GetBytes] of any Go string with the same text up to its first NUL returns
    those bytes, unless the engine itself fails the read, which is reported as an
    error. An empty or nil value reads back as an empty slice. *)
Theorem put_get_roundtrip w e o g key key' v w1 :
  live w e o g → wf (proc w) → PutBytes e key v w = Ret None w1 → c_string key' = c_string key →
  ∃ r w2, GetBytes e key' w1 = Ret r w2 ∧
    (r = inr (Some (slice_bytes v)) ∨
     ∃ g1 msg, heap (proc w1) !! handle o = Some (BEngine g1) ∧
       (lsm_get (c_string key) g1 (dsk (proc w1))).1 = inl msg ∧
       ∃ args, r = inl (Errorf "f4kvs get %q: %s" args)).
Proof.
  intros Hl Hwf Hput Heq.
  destruct (PutBytes_ok _ _ _ _ _ _ _ Hl Hwf Hput) as (g1 & [Hl1 Hwf1] & k & Hk & Hv & Hc).
  apply key_text_Some in Hk as [Hfit ->].
  assert (Hk' : check_key key' = inr (c_string key)).
  { assert (key_text key' = Some (c_string key)) as Ht.
    { apply key_text_Some. rewrite Heq. split; [|done]. unfold key_fits in *. unfold c_string in Heq.
      apply (f_equal String.list_byte_of_string) in Heq. autorewrite with code in Heq. by rewrite Heq. }
    unfold key_text in Ht. destruct (check_key key'); by simplify_eq/=. }
  rewrite (GetBytes_live _ _ _ _ key' Hl1 Hwf1). unfold get_outcome, get_eff, key_eff, run_eff.
  rewrite Hk'. destruct (lsm_get (c_string key) g1 _) as [[msg|r] [g2 d2]] eqn:Hget.
  - eexists _, _. split; [done|]. right. exists g1, msg. rewrite Hget. split_and!; [apply Hl1|done|eauto].
  - destruct (get_ok _ _ _ _ _ _ Hget) as [-> _]. rewrite Hc, lookup_insert_eq. cbn [value_to_bytes].
    rewrite go_bytes_small by (unfold MAX_VALUE_LENGTH in Hv; lia).
    eexists _, _. split; [done|]. by left.
Qed.

(** A batch of pairs whose keys have no NUL lands as one union with the old
    contents, whatever order the Go map was ranged over in. *)
Lemma batch_put_union w e o g (items : gmap string goslice) w' :
  live w e o g → wf (proc w) → BatchPutBytes e items w = Ret None w' →
  (∀ key, is_Some (items !! key) → nul_free (String.list_byte_of_string key) = true) →
  ∃ g', live w' e o g' ∧
    contents g' = ((λ v, VBytes (slice_bytes v)) <$> items) ∪ contents g.
Proof.
  intros Hl Hwf H Hnul.
  destruct (BatchPutBytes_union _ _ _ _ _ _ Hl Hwf H Hnul) as (g' & [Hl' _] & Hc). eauto.
Qed.

(** Keys that agree up to their first NUL are one key: putting the second
    replaces what was put under the first. *)
Lemma nul_keys_collide w e o g key1 key2 v1 v2 w1 w2 :
  live w e o g → wf (proc w) → c_string key1 = c_string key2 →
  PutBytes e key1 v1 w = Ret None w1 → PutBytes e key2 v2 w1 = Ret None w2 →
  ∃ g', live w2 e o g' ∧ contents g' = <[c_string key1 := VBytes (slice_bytes v2)]> (contents g).
Proof.
  intros Hl Hwf Heq H1 H2.
  destruct (PutBytes_ok _ _ _ _ _ _ _ Hl Hwf H1) as (g1 & [Hl1 Hwf1] & k1 & Hk1 & _ & Hc1).
  destruct (PutBytes_ok _ _ _ _ _ _ _ Hl1 Hwf1 H2) as (g2 & [Hl2 _] & k2 & Hk2 & _ & Hc2).
  apply key_text_Some in Hk1 as [_ ->], Hk2 as [_ ->].
  exists g2. split; [done|]. by rewrite Hc2, Hc1, Heq, insert_insert_eq.
Qed.

(** C20: closing and opening again at the same path keeps every pair: after a
    [Close] whose shutdown the engine reports successful, opening the directory the
    engine was configured with either fails or yields an engine that holds exactly
    the contents of the closed one. *)
Theorem reopen_contents w e o g path opts w1 :
  live w e o g → rw_readers (mu o) = O → (∀ po, opts = Some po → go_options_fit po) →
  (lsm_shutdown g (dsk (proc w))).1 = inr tt →
  Close e w = Ret tt w1 → check_dir path = inr (data_dir (lsm_config g)) →
  ∃ r w2, NewPersistentEngineWithOptions path opts w1 = Ret r w2 ∧
    ((∃ e' o' g', r = inr e' ∧ live w2 e' o' g' ∧ contents g' = contents g)
     ∨ ∃ msg args, (lsm_new (open_config (data_dir (lsm_config g)) (copts <$> opts)) (dsk (proc w1))).1 = inl msg ∧
         r = inl (Errorf "f4kvs open %s: %s" args)).
Proof.
  intros Hl Hr Hfit Hsd Hclose Hdir.
  rewrite (Close_live _ _ _ _ Hl Hr) in Hclose. simplify_eq.
  unfold run_eff. destruct (lsm_shutdown g (dsk (proc w))) as [r0 [g0 d0]] eqn:Hs. simpl in Hsd. subst r0.
  apply shutdown_ok in Hs. set (w1 := mkWorld _ _ _).
  assert (Hdsk : dsk (proc w1) = d0) by done.
  rewrite (Open_spec w1 path opts Hfit). cbv zeta. rewrite Hdir.
  change (dsk (enter (proc w1))) with (dsk (proc w1)).
  destruct (lsm_new _ (dsk (proc w1))) as [[msg|g'] d'] eqn:Hnew.
  - eexists _, _. split; [done|]. right. by eexists _, _.
  - eexists _, _. split; [done|]. left. eexists _, _, g'. split; [done|]. split.
    + apply live_opened.
    + destruct (new_ok _ _ _ _ Hnew) as [-> _].
      rewrite <-Hs, Hdsk. by destruct opts.
Qed.

End Contract.

(** ** Runs *)

Section Runs.
Import MapEngine.
#[local] Existing Instance one_thread.

Let g0 : state := demo_engine ∅ [].
Let failing : state := demo_engine ∅ [Some "disk full"].

Lemma calls_safe_witness :
  let cs := [CallPut "k" "v"; CallGet "k"; CallDelete "k"; CallGetAllKeys] in
  match run_calls 0 cs (demo_world g0) with
  | Ret _ w' | Panic _ w' =>
      objs w' = objs (demo_world g0) ∧
      string_allocations (proc w') = string_allocations (demo_proc g0) ∧
      bytes_allocations (proc w') = bytes_allocations (demo_proc g0) ∧
      ∃ g', heap (proc w') = <[2 := BEngine g']> (heap (demo_proc g0))
  | Stuck _ | Undefined => False
  end.
Proof.
  intros cs. apply (calls_safe (demo_world g0) 0 demo_object g0 cs (demo_live g0) (demo_wf g0)).
Defined.

Lemma session_clean_witness :
  match session "/data" None [CallPut "k" "v"; CallGet "missing"] empty_world with
  | Ret _ w' | Panic _ w' =>
      same_memory (proc empty_world) (proc w') ∧
      ∀ e o, objs empty_world !! e = Some o → objs w' !! e = Some o
  | Stuck _ | Undefined => False
  end.
Proof. by apply (session_clean empty_world "/data" None _ empty_wf). Defined.

Lemma use_after_close_witness :
  ∃ w', Close 0 (demo_world g0) = Ret tt w' ∧
        heap (proc w') = delete 2 (heap (demo_proc g0)) ∧
        (∀ c, ∃ n, run_call 0 c w' = Ret (closed_answer c) (mkWorld (proc w') (objs w') n)) ∧
        Close 0 w' = Ret tt w'.
Proof. apply (use_after_close (demo_world g0) 0 demo_object g0 (demo_live g0)). reflexivity. Defined.

Lemma calls_refine_witness :
  let cs := [CallPut "k" "v"; CallGet "k"] in
  match run_calls 0 cs (demo_world g0) with
  | Ret answers w' =>
      Forall succeeded answers →
      ∃ g', live w' 0 demo_object g' ∧ wf (proc w') ∧ kv_steps (contents g0) cs answers (contents g')
  | Panic _ _ => True
  | Stuck _ | Undefined => False
  end.
Proof.
  intros cs. apply (calls_refine (demo_world g0) 0 demo_object g0 cs (demo_live g0) (demo_wf g0)).
Defined.

(** The same calls, computed: they do succeed. *)
Example calls_refine_run :
  returns [AnsError None; AnsString (inr "v")]
    (run_calls 0 [CallPut "k" "v"; CallGet "k"] (demo_world g0)) = true.
Proof. vm_compute. reflexivity. Qed.

Lemma put_get_roundtrip_witness :
  let w1 := world_of (PutBytes 0 "k" (Some [x01; x00]) (demo_world g0)) in
  ∃ r w2, GetBytes 0 "k" w1 = Ret r w2 ∧
    (r = inr (Some [x01; x00]) ∨
     ∃ g1 msg, heap (proc w1) !! 2 = Some (BEngine g1) ∧
       (lsm_get "k" g1 (dsk (proc w1))).1 = inl msg ∧
       ∃ args, r = inl (Errorf "f4kvs get %q: %s" args)).
Proof.
  intros w1.
  apply (put_get_roundtrip (demo_world g0) 0 demo_object g0 "k" "k" (Some [x01; x00]) w1
           (demo_live g0) (demo_wf g0)); [run|reflexivity].
Defined.

Lemma batch_put_union_witness :
  let items : gmap string goslice := {["a" := Some [x01]; "b" := None]} in
  let w1 := world_of (BatchPutBytes 0 items (demo_world g0)) in
  ∃ g', live w1 0 demo_object g' ∧
    contents g' = ((λ v, VBytes (slice_bytes v)) <$> items) ∪ contents g0.
Proof.
  intros items w1.
  apply (batch_put_union (demo_world g0) 0 demo_object g0 items w1 (demo_live g0) (demo_wf g0)).
  - run.
  - intros key [v Hv]. unfold items in Hv. apply lookup_insert_Some in Hv as [[<- _]|[_ Hv]]; [done|].
    apply lookup_singleton_Some in Hv as [<- _]. done.
Defined.

Lemma nul_keys_collide_witness :
  let k1 := "a" +:+ String.String Ascii.zero "x" in
  let k2 := "a" +:+ String.String Ascii.zero "y" in
  let w1 := world_of (PutBytes 0 k1 (Some [x01]) (demo_world g0)) in
  let w2 := world_of (PutBytes 0 k2 (Some [x02]) w1) in
  k1 ≠ k2 ∧ ∃ g', live w2 0 demo_object g' ∧ contents g' = <["a" := VBytes [x02]]> (contents g0).
Proof.
  intros k1 k2 w1 w2. split; [discriminate|].
  apply (nul_keys_collide (demo_world g0) 0 demo_object g0 k1 k2 (Some [x01]) (Some [x02]) w1 w2
           (demo_live g0) (demo_wf g0)); [reflexivity|run|run].
Defined.

Lemma reopen_contents_witness :
  let g : lsm := mkState {["k" := VBytes [x07]]} default_config false [] in
  let w1 := world_of (Close 0 (demo_world g)) in
  ∃ r w2, NewPersistentEngineWithOptions "./data" None w1 = Ret r w2 ∧
    ((∃ e' o' g', r = inr e' ∧ live w2 e' o' g' ∧ contents g' = contents g)
     ∨ ∃ msg args, (lsm_new (open_config "./data" None) (dsk (proc w1))).1 = inl msg ∧
         r = inl (Errorf "f4kvs open %s: %s" args)).
Proof.
  intros g w1.
  apply (reopen_contents (demo_world g) 0 demo_object g "./data" None w1 (demo_live g)); done.
Defined.

(** A NUL and a byte that is not UTF-8 after the [a]. *)
Definition cut_key : string := String.string_of_list_byte [x61; x00; xff].

Lemma put_accepted_iff_witness :
  let w := demo_world g0 in
  let accepted := valid_key cut_key ∧ zlen (slice_bytes (Some [x01])) ≤ MAX_VALUE_LENGTH in
  let '(r', (g', d')) := lsm_put (c_string cut_key) (VBytes (slice_bytes (Some [x01]))) g0 (dsk (proc w)) in
  ∃ r w', PutBytes 0 cut_key (Some [x01]) w = Ret r w' ∧
    (accepted → heap (proc w') = <[handle demo_object := BEngine g']> (heap (proc w)) ∧
                dsk (proc w') = d' ∧ (r = None ↔ r' = inr tt)) ∧
    (¬ accepted → heap (proc w') = heap (proc w) ∧ dsk (proc w') = dsk (proc w) ∧ r ≠ None).
Proof. exact (put_accepted_iff (demo_world g0) 0 demo_object g0 cut_key (Some [x01]) (demo_live g0)). Defined.

(** The key of the run is one the engine accepts, as [a]. *)
Example cut_key_accepted : valid_key cut_key ∧ c_string cut_key = "a" ∧ utf8_valid (String.list_byte_of_string cut_key) = false.
Proof. split; [by apply check_key_valid|done]. Qed.

Definition small_engine : state :=
  mkState ∅ (mkConfig "./data" (wal default_config) 1 true 10 1 1 1) false [].

Lemma batch_limit_witness :
  let items : gmap string goslice := {["a" := None; "b" := None]} in
  (1 < Z.of_nat (size items) →
     ∃ er w', BatchPutBytes 0 items (demo_world small_engine) = Ret (Some er) w' ∧
              heap (proc w') = heap (demo_proc small_engine) ∧ dsk (proc w') = ∅) ∧
  (1 < zlen ["a"; "b"] →
     ∃ er w', BatchDelete 0 ["a"; "b"] (demo_world small_engine) = Ret (Some er) w' ∧
              heap (proc w') = heap (demo_proc small_engine) ∧ dsk (proc w') = ∅).
Proof.
  intros items.
  apply (batch_limit (demo_world small_engine) 0 demo_object small_engine items ["a"; "b"]
           (demo_live small_engine)); [|discriminate].
  intros H. apply (f_equal (lookup "a")) in H. vm_compute in H. discriminate.
Defined.

Lemma error_text_thread_witness :
  ∃ w', PutBytes 0 "k" None (demo_world failing) =
      Ret (Some (Errorf "f4kvs put %q: %s" ["k"; "Put bytes failed: disk full"])) w'.
Proof.
  destruct (error_text_thread (demo_world failing) 0 demo_object failing "k" None
              "Put bytes failed: disk full" (demo_live failing)) as (text & w' & H & ->).
  - reflexivity.
  - exists w'. exact H.
Defined.

(** The same failure with a goroutine that changes threads. *)
Example error_text_migrating :
  returns (Some (Errorf "f4kvs put %q: %s" ["k"; "unknown error"]))
    (PutBytes (P := migrating) 0 "k" None (demo_world failing)) = true.
Proof. vm_compute. reflexivity. Qed.

Definition nul_engine : state :=
  demo_engine {["a" := VNull; "a" +:+ String.String Ascii.zero "b" := VNull]} [].

Lemma scan_hides_on_nul_witness :
  ∃ w', ScanPrefixKeys 0 "a" (demo_world nul_engine) = Ret None w' ∧
    objs w' = objs (demo_world nul_engine) ∧
    heap (proc w') = <[2 := BEngine nul_engine]> (heap (demo_proc nul_engine)) ∧
    string_allocations (proc w') = ∅.
Proof.
  apply (scan_hides_on_nul (demo_world nul_engine) 0 demo_object nul_engine "a"
           (prefix_keys "a" (pairs nul_engine)) nul_engine ∅ (demo_live nul_engine) (demo_wf nul_engine)).
  - split; [vm_compute; discriminate|reflexivity].
  - reflexivity.
  - apply Exists_exists. exists ("a" +:+ String.String Ascii.zero "b"). split; [|reflexivity].
    vm_compute. repeat constructor.
Defined.

(** Amortized durability: the wait and the idle flush that were left out, the rest
    as given. *)
Definition amortized_options : OpenOptions := mkOpenOptions false 0 64 true 2 1 0 50000 2 7 0 200000000 0.

Lemma open_options_config_witness :
  let x := NewPersistentEngineWithOptions "/data" (Some amortized_options) empty_world in
  ∃ o g, live (world_of x) 0 o g ∧
    let c := lsm_config g in
    data_dir c = "/data" ∧ wal_dir (wal c) = "/data/wal" ∧
    group_commit_max_wait (wal c) = 50 ∧ group_commit_max_batch_size (wal c) = 64 ∧
    group_commit_wait_durable (wal c) = true ∧ group_commit_idle_flush (wal c) = Some 100 ∧
    wal_engine (wal c) = Indexed ∧ max_batch_size c = 50000 ∧ background_enabled c = false ∧
    max_sstables_per_level c = 7 ∧ sstable_target_size c = 200000000 ∧ sstable_max_size c = 200000000.
Proof.
  intros x.
  destruct (open_options_config empty_world "/data" amortized_options 0 (world_of x)) as
    (o & g & dir & Hl & _ & Hd & Hc).
  - unfold go_options_fit, options_fit, u8, u32. vm_compute. repeat split; discriminate.
  - run.
  - assert (dir = "/data") as -> by (vm_compute in Hd; by injection Hd).
    exists o, g. split; [exact Hl|]. rewrite Hc. vm_compute. by repeat split.
Defined.

Lemma open_error_text_witness :
  ∃ w', NewPersistentEngineWithOptions "/readonly" None empty_world =
    Ret (inl (Errorf "f4kvs open %s: %s" ["/readonly"; "Failed to open engine: ErrorStorage"])) w'.
Proof.
  apply (open_error_text empty_world "/readonly" None "/readonly" "permission denied"); try done.
Defined.

End Runs.
