(* ===== verification/Transaction.v ===== *)
(** * Staged transactions

    [go/transaction.go]: writes staged in a map until [Commit] or [Rollback].

    A transaction only uses three methods of its engine; [TxnEngine] is that
    interface and [TxnEngineLaws] what a transaction relies on.  The theorems about
    transactions are proved against the interface; [binding_engine] and
    [binding_laws] show that [F4KVS] provides it. *)

From S2P Require Import Prelude Engine Utf8 Options Ffi Binding FfiFacts BindingFacts Session Semantics Concrete.

(** ** The interface *)

Class TxnEngine (W : Type) := {
  eng_GetBytes : string → M W (GoError + goslice);
  eng_BatchPutBytes : gmap string goslice → M W (option GoError);
  eng_BatchDelete : list string → M W (option GoError);
  eng_range : ∀ {V : Type}, gmap string V → M W (list (string * V))
}.

(** [holds w m]: the engine of world [w] is usable and stores the bytes [m]. *)
Class TxnEngineLaws {W : Type} (E : TxnEngine W) := {
  holds : W → gmap string (list byte) → Prop;
  range_law V (x : gmap string V) w m : holds w m →
    ∃ l w', eng_range x w = Ret l w' ∧ l ≡ₚ map_to_list x ∧ holds w' m;
  get_law key w m : holds w m →
    ends (λ r w', match r with
                  | inr v => plain_key key → holds w' m ∧ ∃ b, m !! key = Some b ∧
                               (zlen b < 2 ^ 31 → v = Some b)
                  | inl ErrNotFound => plain_key key → holds w' m ∧ m !! key = None
                  | inl _ => ∃ m', holds w' m'
                  end)
         (λ w', ∃ m', holds w' m') (eng_GetBytes key w);
  batch_put_law items w m : holds w m →
    ends (λ r w', match r with
                  | None => (∀ key, is_Some (items !! key) → plain_key key) →
                            holds w' ((slice_bytes <$> items) ∪ m)
                  | Some _ => ∃ m', holds w' m'
                  end)
         (λ w', ∃ m', holds w' m') (eng_BatchPutBytes items w);
  batch_delete_law keys w m : holds w m →
    ends (λ r w', match r with
                  | None => Forall plain_key keys → holds w' (delete_all keys m)
                  | Some _ => ∃ m', holds w' m'
                  end)
         (λ w', ∃ m', holds w' m') (eng_BatchDelete keys w)
}.

(** ** Transactions *)

Inductive txnOpKind := opPut | opDelete.
Record txnOp := mkOp { kind : txnOpKind; value : goslice }.

#[global] Instance txnOpKind_eq_dec : EqDecision txnOpKind.
Proof. solve_decision. Defined.
#[global] Instance txnOp_eq_dec : EqDecision txnOp.
Proof. solve_decision. Defined.

(** [ops] is [None] when the Go map is nil. *)
Record Transaction := mkTxn {
  ops : option (gmap string txnOp);
  committed : bool;
  rolledBack : bool
}.

#[global] Instance Transaction_eq_dec : EqDecision Transaction.
Proof. solve_decision. Defined.

(** [&Transaction{engine: e}]. *)
Definition BeginTransaction : Transaction := mkTxn None false false.

Definition checkActive (t : Transaction) : option GoError :=
  if committed t then Some ErrTxnCommitted
  else if rolledBack t then Some ErrTxnRolledBack
  else None.

(** [append([]byte(nil), v...)]: a copy, nil when there is nothing to copy. *)
Definition clone (v : goslice) : goslice :=
  match slice_bytes v with [] => None | l => Some l end.

(** Looking a key up in the map; a nil map has no keys. *)
Definition staged (t : Transaction) (key : string) : option txnOp := default ∅ (ops t) !! key.

Definition stage (key : string) (op : txnOp) (t : Transaction) : Transaction :=
  let m := match ops t with None => ∅ | Some m => m end in
  mkTxn (Some (<[key := op]> m)) (committed t) (rolledBack t).

Definition txn_PutBytes (key : string) (v : goslice) (t : Transaction) : option GoError * Transaction :=
  match checkActive t with
  | Some err => (Some err, t)
  | None => (None, stage key (mkOp opPut (clone v)) t)
  end.

Definition txn_Put (key v : string) (t : Transaction) : option GoError * Transaction :=
  txn_PutBytes key (slice_of_string v) t.

Definition txn_Delete (key : string) (t : Transaction) : option GoError * Transaction :=
  match checkActive t with
  | Some err => (Some err, t)
  | None => (None, stage key (mkOp opDelete None) t)
  end.

Definition txn_Rollback (t : Transaction) : option GoError * Transaction :=
  if committed t then (Some ErrTxnCommitted, t)
  else if rolledBack t then (None, t)
  else (None, mkTxn None (committed t) true).

Section Transaction.
Context {W : Type} {E : TxnEngine W}.
Implicit Types (w : W) (t : Transaction).

Definition txn_GetBytes (key : string) (t : Transaction) : M W (GoError + goslice) :=
  match checkActive t with
  | Some err => mret (inl err)
  | None =>
      match staged t key with
      | Some op =>
          match kind op with
          | opDelete => mret (inl ErrNotFound)
          | opPut => mret (inr (clone (value op)))
          end
      | None => eng_GetBytes key
      end
  end.

Definition txn_Get (key : string) (t : Transaction) : M W (GoError + string) :=
  let! r := txn_GetBytes key t in
  match r with
  | inl err => mret (inl err)
  | inr v => mret (inr (string_of_slice v))
  end.

(** The loop of [Commit] over the staged operations. *)
Fixpoint split_ops (l : list (string * txnOp)) (puts : gmap string goslice) (deletes : list string)
    : gmap string goslice * list string :=
  match l with
  | [] => (puts, deletes)
  | (key, op) :: l =>
      match kind op with
      | opPut => split_ops l (<[key := value op]> puts) deletes
      | opDelete => split_ops l puts (deletes ++ [key])
      end
  end.

Definition Commit (t : Transaction) : M W (option GoError * Transaction) :=
  if committed t then mret (Some ErrTxnCommitted, t)
  else if rolledBack t then mret (Some ErrTxnRolledBack, t)
  else
    let! order := eng_range (default ∅ (ops t)) in
    let '(puts, deletes) := split_ops order ∅ [] in
    let! err := (if bool_decide (0 < size puts)%nat then eng_BatchPutBytes puts else mret None) in
    match err with
    | Some err => mret (Some (Wrapf "commit batch put: %w" err), t)
    | None =>
        let! err := (if 0 <? zlen deletes then eng_BatchDelete deletes else mret None) in
        match err with
        | Some err => mret (Some (Wrapf "commit batch delete: %w" err), t)
        | None => mret (None, mkTxn None true (rolledBack t))
        end
    end.

(** ** What the staged operations amount to *)

Definition apply_op (op : option txnOp) (b : option (list byte)) : option (list byte) :=
  match op with
  | Some (mkOp opPut v) => Some (slice_bytes v)
  | Some (mkOp opDelete _) => None
  | None => b
  end.

(** The bytes [m] with the staged operations [x] applied. *)
Definition apply_ops (x : gmap string txnOp) (m : gmap string (list byte)) : gmap string (list byte) :=
  merge apply_op x m.

Lemma lookup_apply_ops x m k : apply_ops x m !! k = apply_op (x !! k) (m !! k).
Proof.
  unfold apply_ops. rewrite lookup_merge. unfold diag_None.
  by destruct (x !! k), (m !! k).
Qed.

Lemma split_ops_spec l puts dels puts' dels' k :
  NoDup l.*1 → split_ops l puts dels = (puts', dels') →
  puts' !! k = match (list_to_map l : gmap string txnOp) !! k with
               | Some (mkOp opPut v) => Some v
               | _ => puts !! k
               end ∧
  (k ∈ dels' ↔ k ∈ dels ∨ ∃ v, (list_to_map l : gmap string txnOp) !! k = Some (mkOp opDelete v)).
Proof.
  revert puts dels. induction l as [|[key [[] v]] l IH]; intros puts dels; csimpl; intros Hnd H.
  - simplify_eq. rewrite lookup_empty. split; [done|]. naive_solver.
  - apply NoDup_cons in Hnd as [Hn Hnd]. apply IH in H as [-> ->]; [|done].
    destruct (decide (k = key)) as [->|Hne].
    + rewrite !lookup_insert_eq, not_elem_of_list_to_map_1 by done. naive_solver.
    + by rewrite !lookup_insert_ne by done.
  - apply NoDup_cons in Hnd as [Hn Hnd]. apply IH in H as [-> ->]; [|done].
    rewrite elem_of_app, list_elem_of_singleton. destruct (decide (k = key)) as [->|Hne].
    + rewrite !lookup_insert_eq, not_elem_of_list_to_map_1 by done. naive_solver.
    + rewrite !lookup_insert_ne by done. naive_solver.
Qed.

(** The batches of [Commit], in whatever order the map was ranged over. *)
Lemma split_ops_range l (x : gmap string txnOp) puts dels :
  l ≡ₚ map_to_list x → split_ops l ∅ [] = (puts, dels) →
  (∀ k v, puts !! k = Some v ↔ x !! k = Some (mkOp opPut v)) ∧
  (∀ k, k ∈ dels ↔ ∃ v, x !! k = Some (mkOp opDelete v)).
Proof.
  intros Hl H. assert (Hnd : NoDup l.*1) by (rewrite Hl; apply NoDup_fst_map_to_list).
  assert (Hx : (list_to_map l : gmap string txnOp) = x)
    by (rewrite <-(list_to_map_to_list x); by apply list_to_map_proper).
  split; intros k; destruct (split_ops_spec l ∅ [] puts dels k Hnd H) as [H1 H2]; rewrite Hx in *.
  - intros v. rewrite H1, lookup_empty. destruct (x !! k) as [[[] ?]|]; naive_solver.
  - rewrite H2. set_solver.
Qed.

Lemma split_ops_effect l x puts dels m :
  l ≡ₚ map_to_list x → split_ops l ∅ [] = (puts, dels) →
  delete_all dels ((slice_bytes <$> puts) ∪ m) = apply_ops x m.
Proof.
  intros Hl H. destruct (split_ops_range _ _ _ _ Hl H) as [Hp Hd].
  apply map_eq. intros k. rewrite delete_all_lookup, lookup_apply_ops, lookup_union, lookup_fmap.
  specialize (Hp k). specialize (Hd k). destruct (x !! k) as [[[] v]|] eqn:Hx.
  - rewrite decide_False by (rewrite Hd; naive_solver). rewrite (proj2 (Hp v) eq_refl). simpl.
    by destruct (m !! k).
  - rewrite decide_True by (apply Hd; eauto). done.
  - rewrite decide_False by (rewrite Hd; naive_solver).
    destruct (puts !! k) as [v|]; [by specialize (proj1 (Hp v) eq_refl)|]. simpl. by destruct (m !! k).
Qed.

(** ** Commit *)

Definition active t : Prop := committed t = false ∧ rolledBack t = false.

Lemma checkActive_None t : checkActive t = None ↔ active t.
Proof. unfold checkActive, active. destruct (committed t), (rolledBack t); naive_solver. Qed.

Section Laws.
Context {Laws : TxnEngineLaws E}.

Lemma Commit_spec t w m :
  active t → (∀ key, is_Some (staged t key) → plain_key key) → holds w m →
  ends (λ r w', match r.1 with
                | None => r.2 = mkTxn None true false ∧ holds w' (apply_ops (default ∅ (ops t)) m)
                | Some _ => r.2 = t ∧ ∃ m', holds w' m'
                end)
       (λ w', ∃ m', holds w' m') (Commit t w).
Proof.
  intros [Hc Hr] Hplain Hh. unfold Commit. rewrite Hc, Hr. unfold staged in Hplain.
  set (x := default ∅ (ops t)) in *.
  destruct (range_law _ x w m Hh) as (l & w1 & Hrange & Hl & Hh1).
  rewrite (bind_ret _ _ _ _ _ Hrange). destruct (split_ops l ∅ []) as [puts dels] eqn:Hs.
  pose proof (split_ops_effect _ _ _ _ m Hl Hs) as Heff.
  destruct (split_ops_range _ _ _ _ Hl Hs) as [Hp Hd].
  assert (Hpp : ∀ key, is_Some (puts !! key) → plain_key key)
    by (intros key [v Hv]; apply Hplain; apply Hp in Hv; eauto).
  assert (Hpd : Forall plain_key dels)
    by (apply Forall_forall; intros key Hk; apply Hplain; apply Hd in Hk as [v Hv]; eauto).
  eapply (ends_bind _ _ _ (λ r w', match r with
      | None => holds w' ((slice_bytes <$> puts) ∪ m) | Some _ => ∃ m', holds w' m' end)).
  { case_bool_decide as Hsz.
    - pose proof (batch_put_law puts w1 m Hh1) as Hb. unfold ends in *.
      destruct (eng_BatchPutBytes puts w1) as [[]| | |]; naive_solver.
    - replace puts with (∅ : gmap string goslice) by (symmetry; apply map_size_empty_iff; lia).
      simpl. by rewrite fmap_empty, (left_id_L ∅ (∪)). }
  intros [er|] w2 Hw2; [by split|].
  eapply (ends_bind _ _ _ (λ r w', match r with
      | None => holds w' (apply_ops x m) | Some _ => ∃ m', holds w' m' end)).
  { rewrite <-Heff. destruct (Z.ltb_spec 0 (zlen dels)) as [Hz|Hz].
    - pose proof (batch_delete_law dels w2 _ Hw2) as Hb. unfold ends in *.
      destruct (eng_BatchDelete dels w2) as [[]| | |]; naive_solver.
    - replace dels with (@nil string); [done|]. pose proof (zlen_nonneg dels).
      symmetry. apply zlen_nil_inv. lia. }
  intros [er|] w3 Hw3; by split.
Qed.

(** ** Staging, one write after another *)

Inductive write := WPut (key : string) (v : goslice) | WDelete (key : string).

Definition write_key (c : write) : string := match c with WPut k _ | WDelete k => k end.

Definition stage_write (t : Transaction) (c : write) : Transaction :=
  match c with
  | WPut key v => (txn_PutBytes key v t).2
  | WDelete key => (txn_Delete key t).2
  end.

(** The same write done at once. *)
Definition apply_write (m : gmap string (list byte)) (c : write) : gmap string (list byte) :=
  match c with
  | WPut key v => <[key := slice_bytes v]> m
  | WDelete key => delete key m
  end.

Lemma slice_bytes_clone v : slice_bytes (clone v) = slice_bytes v.
Proof. unfold clone. by destruct v as [[|? ?]|]. Qed.

Lemma staged_stage key op t k :
  staged (stage key op t) k = if decide (key = k) then Some op else staged t k.
Proof.
  unfold staged, stage. simpl. destruct (ops t); simpl; by rewrite lookup_insert.
Qed.

Lemma stage_write_active t c : active t → active (stage_write t c).
Proof.
  intros Ha. destruct c; simpl; unfold txn_PutBytes, txn_Delete;
    by rewrite (proj2 (checkActive_None t) Ha).
Qed.

Lemma stage_all_active ws t : active t → active (foldl stage_write t ws).
Proof. revert t. induction ws; simpl; eauto using stage_write_active. Qed.

Lemma apply_ops_put x m key v :
  apply_ops (<[key := mkOp opPut v]> x) m = <[key := slice_bytes v]> (apply_ops x m).
Proof.
  apply map_eq. intros k. rewrite lookup_apply_ops. destruct (decide (key = k)) as [->|Hne].
  - by rewrite !lookup_insert_eq.
  - by rewrite !lookup_insert_ne, lookup_apply_ops.
Qed.

Lemma apply_ops_delete x m key v :
  apply_ops (<[key := mkOp opDelete v]> x) m = delete key (apply_ops x m).
Proof.
  apply map_eq. intros k. rewrite lookup_apply_ops. destruct (decide (key = k)) as [->|Hne].
  - by rewrite lookup_insert_eq, lookup_delete_eq.
  - by rewrite lookup_insert_ne, lookup_delete_ne, lookup_apply_ops.
Qed.

Lemma stage_write_apply t c m :
  active t →
  apply_ops (default ∅ (ops (stage_write t c))) m = apply_write (apply_ops (default ∅ (ops t)) m) c.
Proof.
  intros Ha. destruct c as [key v|key]; simpl; unfold txn_PutBytes, txn_Delete;
    rewrite (proj2 (checkActive_None t) Ha); simpl.
  - rewrite apply_ops_put, slice_bytes_clone. by destruct (ops t).
  - rewrite apply_ops_delete. by destruct (ops t).
Qed.

Lemma stage_all_apply ws t m :
  active t →
  apply_ops (default ∅ (ops (foldl stage_write t ws))) m =
    foldl apply_write (apply_ops (default ∅ (ops t)) m) ws.
Proof.
  revert t. induction ws as [|c ws IH]; intros t Ha; simpl; [done|].
  rewrite IH by (by apply stage_write_active). by rewrite stage_write_apply.
Qed.

Lemma stage_all_plain ws t :
  active t → (∀ key, is_Some (staged t key) → plain_key key) → Forall (λ c, plain_key (write_key c)) ws →
  ∀ key, is_Some (staged (foldl stage_write t ws) key) → plain_key key.
Proof.
  revert t. induction ws as [|c ws IH]; intros t Ha Ht; simpl; [done|].
  intros [Hc Hws]%Forall_cons. apply IH; [by apply stage_write_active| |done].
  intros key. destruct c as [k v|k]; simpl; unfold txn_PutBytes, txn_Delete;
    rewrite (proj2 (checkActive_None t) Ha); simpl; rewrite staged_stage;
    case_decide; subst; auto.
Qed.

Lemma begin_active : active BeginTransaction.
Proof. done. Qed.

Lemma begin_apply m : apply_ops (default ∅ (ops BeginTransaction)) m = m.
Proof. apply map_eq. intros k. by rewrite lookup_apply_ops. Qed.

(** ** Properties *)

(** C5: a transaction that commits has the effect of its writes done one after
    another: whatever sequence of puts and deletes was staged (keys without NUL)
    and in whatever order the staging map is ranged over, a [Commit] that returns
    nil leaves the store as the same writes applied in order.  A [Commit] that
    returns an error leaves the transaction active with everything still staged. *)
Theorem commit_sequential ws w m :
  holds w m → Forall (λ c, plain_key (write_key c)) ws →
  let t := foldl stage_write BeginTransaction ws in
  ends (λ r w', match r.1 with
                | None => r.2 = mkTxn None true false ∧ holds w' (foldl apply_write m ws)
                | Some _ => r.2 = t ∧ active t ∧ ∃ m', holds w' m'
                end)
       (λ w', ∃ m', holds w' m') (Commit t w).
Proof.
  intros Hh Hws t. pose proof (stage_all_active ws _ begin_active) as Ha.
  pose proof (stage_all_plain ws BeginTransaction begin_active
                ltac:(by intros key [? ?]) Hws) as Hp.
  pose proof (Commit_spec t w m Ha Hp Hh) as H. fold t in Ha.
  unfold t in H at 2. rewrite stage_all_apply, begin_apply in H by apply begin_active. fold t in H.
  unfold ends in *. destruct (Commit t w) as [[[er|] t'] w'| | |]; naive_solver.
Qed.

(** C11: reads inside a transaction see its own writes: a [GetBytes] agrees with the
    store on which the staged writes had been done one after another, although
    nothing has been written yet.  A staged key is answered without the engine. *)
Theorem read_your_writes ws key w m :
  holds w m → plain_key key →
  let t := foldl stage_write BeginTransaction ws in
  let m' := foldl apply_write m ws in
  ends (λ r w', (is_Some (staged t key) → w' = w) ∧
                match r with
                | inr v => ∃ b, m' !! key = Some b ∧ (zlen b < 2 ^ 31 → slice_bytes v = b)
                | inl ErrNotFound => m' !! key = None
                | inl _ => ¬ is_Some (staged t key)
                end)
       (λ _, ¬ is_Some (staged t key)) (txn_GetBytes key t w).
Proof.
  intros Hh Hk t m'. pose proof (stage_all_active ws _ begin_active) as Ha. fold t in Ha.
  assert (Hm : m' !! key = apply_op (staged t key) (m !! key)).
  { unfold m'. rewrite <-(begin_apply m), <-stage_all_apply by apply begin_active. fold t.
    by rewrite lookup_apply_ops, begin_apply. }
  unfold txn_GetBytes. rewrite (proj2 (checkActive_None t) Ha), Hm.
  destruct (staged t key) as [[[] v]|]; simpl.
  - split; [done|]. exists (slice_bytes v). by rewrite slice_bytes_clone.
  - done.
  - pose proof (get_law key w m Hh) as Hg. unfold ends in *.
    assert (Hn : ¬ is_Some (@None txnOp)) by (by intros []).
    destruct (eng_GetBytes key w) as [[[]|v] w'| | |]; try done; (split; [done|]); try done; [naive_solver|].
    destruct (Hg Hk) as [_ (b & Hb & Hv)]. exists b. split; [done|]. intros Hz. by rewrite Hv.
Qed.

(** C30: [Commit] is not atomic: when the delete batch fails, the staged puts, all
    of them, have already been written, and the transaction stays active with its
    operations. *)
Theorem commit_partial t w m t' w' er :
  active t → (∀ key, is_Some (staged t key) → plain_key key) → holds w m →
  Commit t w = Ret (Some (Wrapf "commit batch delete: %w" er), t') w' →
  t' = t ∧ ∃ puts dels w2,
    (∀ k v, puts !! k = Some v ↔ staged t k = Some (mkOp opPut v)) ∧
    holds w2 ((slice_bytes <$> puts) ∪ m) ∧ eng_BatchDelete dels w2 = Ret (Some er) w'.
Proof.
  intros [Hc Hr] Hplain Hh. unfold Commit. rewrite Hc, Hr. unfold staged in *.
  set (x := default ∅ (ops t)) in *.
  destruct (range_law _ x w m Hh) as (l & w1 & Hrange & Hl & Hh1).
  rewrite (bind_ret _ _ _ _ _ Hrange). destruct (split_ops l ∅ []) as [puts dels] eqn:Hs.
  destruct (split_ops_range _ _ _ _ Hl Hs) as [Hp Hd].
  assert (Hpp : ∀ key, is_Some (puts !! key) → plain_key key)
    by (intros key [v Hv]; apply Hplain; apply Hp in Hv; eauto).
  assert (Hput : ∀ w2, (if bool_decide (0 < size puts)%nat then eng_BatchPutBytes puts else mret None) w1
            = Ret None w2 → holds w2 ((slice_bytes <$> puts) ∪ m)).
  { intros w2. case_bool_decide as Hsz.
    - intros Hb. pose proof (batch_put_law puts w1 m Hh1) as Hlaw. rewrite Hb in Hlaw. by apply Hlaw.
    - unfold mret. intros. simplify_eq.
      replace puts with (∅ : gmap string goslice) by (symmetry; apply map_size_empty_iff; lia).
      by rewrite fmap_empty, (left_id_L ∅ (∪)). }
  unfold bind at 1. destruct (_ w1) as [[e1|] w2| | |]; try done. specialize (Hput w2 eq_refl).
  unfold bind. destruct (0 <? zlen dels); [|done].
  destruct (eng_BatchDelete dels w2) as [[e2|] w3| | |] eqn:Hdel; try done.
  unfold mret. intros H. simplify_eq. split; [done|]. by exists puts, dels, w2.
Qed.

End Laws.

(** ** The life of a transaction *)

(** One method call on a transaction, in any world. *)
Inductive txn_step : Transaction → Transaction → Prop :=
| step_put key v t : txn_step t (txn_PutBytes key v t).2
| step_delete key t : txn_step t (txn_Delete key t).2
| step_rollback t : txn_step t (txn_Rollback t).2
| step_commit t w r w' : Commit t w = Ret r w' → txn_step t r.2.

Definition txn_inv t : Prop :=
  (committed t = true → rolledBack t = false) ∧ (active t ∨ ops t = None).

Lemma Commit_txn t w r w' :
  Commit t w = Ret r w' → r.2 = t ∨ active t ∧ r.2 = mkTxn None true (rolledBack t).
Proof.
  unfold Commit, bind, mret, active.
  destruct (committed t), (rolledBack t); try (intros; simplify_eq; by left).
  destruct (eng_range _ w) as [l w1| | |]; try done.
  destruct (split_ops l ∅ []) as [puts dels].
  destruct (_ w1) as [[]| | |]; try done; [intros; simplify_eq; by left|].
  destruct (_ s) as [[]| | |]; try done; intros; simplify_eq; [by left|by right].
Qed.

(** The answer of [Commit] on an active transaction tells which. *)
Lemma Commit_active x w r w' :
  Commit (mkTxn x false false) w = Ret r w' →
  r.2 = match r.1 with Some _ => mkTxn x false false | None => mkTxn None true false end.
Proof.
  unfold Commit, bind, mret. simpl. destruct (eng_range _ w) as [l w1| | |]; try done.
  destruct (split_ops l ∅ []) as [puts dels].
  destruct (_ w1) as [[]| | |]; try done; [by intros [= <- <-]|].
  destruct (_ s) as [[]| | |]; try done; by intros [= <- <-].
Qed.

Lemma txn_step_inv t t' : txn_step t t' → txn_inv t → txn_inv t'.
Proof.
  intros Hstep Hi. destruct Hstep as [key v t0|key t0|t0|t0 w r w' H];
    [unfold txn_PutBytes|unfold txn_Delete|unfold txn_Rollback|].
  1, 2: destruct (checkActive t0) eqn:Hc; [done|]; apply checkActive_None in Hc;
    split; [apply Hi|by left].
  - destruct (committed t0) eqn:Hc; [done|]. destruct (rolledBack t0) eqn:Hr; [done|].
    split; [done|by right].
  - apply Commit_txn in H as [->|[[_ Hr] ->]]; [done|]. split; [done|by right].
Qed.

(** What a call with these arguments does to a finished transaction. *)
Definition refuses t er : Prop :=
  ∀ key v w,
    txn_PutBytes key v t = (Some er, t) ∧ txn_Delete key t = (Some er, t) ∧
    txn_GetBytes key t w = Ret (inl er) w ∧ Commit t w = Ret (Some er, t) w.

(** C21: the life cycle of a transaction, in every state its methods can bring it
    to, in any worlds and in any order.  It is active, committed or rolled back,
    never two of them, and a finished transaction has dropped its staged writes.
    While it is active, writes are accepted and leave it active, [Rollback] answers
    nil and rolls it back, and [Commit] makes it committed exactly when it answers
    nil; a failed [Commit] leaves it as it was.  Once committed every method
    answers [ErrTxnCommitted]; once rolled back every method answers
    [ErrTxnRolledBack], except [Rollback], which answers nil again.  A finished
    transaction never changes again, nor does it reach the engine. *)
Theorem txn_lifecycle t :
  rtc txn_step BeginTransaction t →
  let committed_t := mkTxn None true false in
  let rolled_back_t := mkTxn None false true in
  (active t ∧
   (∀ key v, (txn_PutBytes key v t).1 = None ∧ active (txn_PutBytes key v t).2) ∧
   (∀ key, (txn_Delete key t).1 = None ∧ active (txn_Delete key t).2) ∧
   txn_Rollback t = (None, rolled_back_t) ∧
   ∀ w r w', Commit t w = Ret r w' → r.2 = match r.1 with Some _ => t | None => committed_t end) ∨
  (t = committed_t ∧ refuses t ErrTxnCommitted ∧ txn_Rollback t = (Some ErrTxnCommitted, t)) ∨
  (t = rolled_back_t ∧ refuses t ErrTxnRolledBack ∧ txn_Rollback t = (None, t)).
Proof.
  intros Hr. assert (Hinv : txn_inv t).
  { refine (rtc_ind_r txn_inv BeginTransaction _ _ t Hr); [by split; [|left]|].
    intros y z _ Hs IH. by eapply txn_step_inv. }
  destruct t as [x [] []]; destruct Hinv as [H1 H2]; unfold active in *; simpl in *;
    [naive_solver|right; left|right; right|left].
  1, 2: destruct H2 as [[? ?]|H2]; try done; subst; by repeat split.
  split_and!; try done. intros w r w' Hc. by apply Commit_active in Hc.
Qed.

End Transaction.

(** ** The binding provides the interface *)

Section BindingEngine.
Context `{L : LsmEngine} {LL : LsmLaws L}.
Context {P : Platform} {POk : PlatformOk P} {G : GoRuntime} {GOk : GoRuntimeOk G}.

Definition binding_engine (e : nat) : TxnEngine World := {|
  eng_GetBytes := GetBytes e;
  eng_BatchPutBytes := BatchPutBytes e;
  eng_BatchDelete := BatchDelete e;
  eng_range V := range
|}.

Definition binding_holds (e : nat) (w : World) (m : gmap string (list byte)) : Prop :=
  ∃ o g, live w e o g ∧ wf (proc w) ∧ m = value_to_bytes <$> contents g.

Lemma framed_holds {A} e w o g (x : outcome World A) :
  live w e o g → wf (proc w) → framed w (handle o) x →
  ends (λ _ w', ∃ m', binding_holds e w' m') (λ w', ∃ m', binding_holds e w' m') x.
Proof.
  intros Hl Hwf. unfold ends. destruct x; simpl; try done; intros [g' Hf];
    eexists; exists o, g'; (split; [by eapply frame_live|]); (split; [by eapply frame_wf|done]).
Qed.

#[global] Instance binding_laws e : TxnEngineLaws (binding_engine e).
Proof.
  refine {| holds := binding_holds e : World → _ → Prop |}.
  - intros V x w m (o & g & Hl & Hwf & ->). eexists _, _. split; [done|].
    split; [apply range_perm|]. exists o, g. by split; [apply live_ranges|].
  - intros key w m (o & g & Hl & Hwf & ->).
    pose proof (framed_holds e w o g _ Hl Hwf (GetBytes_framed _ _ _ _ key Hl Hwf)) as Hf.
    pose proof (GetBytes_ok w e o g key) as Hok. simpl. unfold ends in *.
    destruct (GetBytes e key w) as [r w'| | |]; try done. specialize (Hok r w' Hl Hwf eq_refl).
    destruct r as [[]|v]; try done; intros Hk;
      destruct Hok as (g' & [Hl' Hwf'] & (k & Hkt & Hget) & Hc); try done;
      apply key_text_Some in Hkt as [_ ->]; rewrite c_string_nul_free in Hget by done;
      (split; [exists o, g'; by rewrite Hc|]); rewrite lookup_fmap;
      destruct (contents g !! key) as [b|]; try done; [naive_solver|].
    destruct Hget as (b' & Hb & [= ->]). exists (value_to_bytes b). split; [done|].
    intros Hz. rewrite go_bytes_small in Hb by done. by simplify_eq.
  - intros items w m (o & g & Hl & Hwf & ->).
    pose proof (framed_holds e w o g _ Hl Hwf (BatchPutBytes_framed _ _ _ _ items Hl)) as Hf.
    pose proof (BatchPutBytes_union w e o g items) as Hok. simpl. unfold ends in *.
    destruct (BatchPutBytes e items w) as [[er|] w'| | |]; try done. intros Hp.
    destruct (Hok w' Hl Hwf eq_refl Hp) as (g' & [Hl' Hwf'] & Hc). exists o, g'.
    split; [done|]. split; [done|]. rewrite Hc, map_fmap_union, <-map_fmap_compose. done.
  - intros keys w m (o & g & Hl & Hwf & ->).
    pose proof (framed_holds e w o g _ Hl Hwf (BatchDelete_framed _ _ _ _ keys Hl)) as Hf.
    pose proof (BatchDelete_ok w e o g keys) as Hok. simpl. unfold ends in *.
    destruct (BatchDelete e keys w) as [[er|] w'| | |]; try done. intros Hp.
    destruct (Hok w' Hl Hwf eq_refl) as (g' & [Hl' Hwf'] & ks & Hks & Hc). exists o, g'.
    split; [done|]. split; [done|]. rewrite Hc, (plain_keys_of keys ks) by done.
    apply map_eq. intros k. rewrite lookup_fmap, !delete_all_lookup. case_decide; [done|].
    by rewrite lookup_fmap.
Defined.

End BindingEngine.

(** ** Runs *)

Section Runs.
Import MapEngine.
#[local] Existing Instance one_thread.
#[local] Existing Instance binding_engine.

Let store (fs : list (option string)) : state := demo_engine {["old" := VBytes [x01]]} fs.
Let bytes : gmap string (list byte) := value_to_bytes <$> contents (store []).
Let writes : list write := [WPut "a" (Some [x02]); WDelete "old"; WPut "a" None].

Lemma store_holds fs : holds (E := binding_engine 0) (demo_world (store fs)) bytes.
Proof. exists demo_object, (store fs). split; [apply demo_live|]. by split; [apply demo_wf|]. Qed.

Lemma commit_sequential_witness :
  let t := foldl stage_write BeginTransaction writes in
  ends (λ r w', match r.1 with
                | None => r.2 = mkTxn None true false ∧
                          holds (E := binding_engine 0) w' (foldl apply_write bytes writes)
                | Some _ => r.2 = t ∧ active t ∧ ∃ m', holds (E := binding_engine 0) w' m'
                end)
       (λ w', ∃ m', holds (E := binding_engine 0) w' m')
       (Commit (E := binding_engine 0) t (demo_world (store []))).
Proof.
  apply (commit_sequential (E := binding_engine 0) writes (demo_world (store [])) bytes (store_holds [])).
  repeat constructor.
Defined.

Lemma read_your_writes_witness :
  let t := foldl stage_write BeginTransaction writes in
  ends (λ r w', (is_Some (staged t "old") → w' = demo_world (store [])) ∧
                match r with
                | inr v => ∃ b, foldl apply_write bytes writes !! "old" = Some b ∧
                                (zlen b < 2 ^ 31 → slice_bytes v = b)
                | inl ErrNotFound => foldl apply_write bytes writes !! "old" = None
                | inl _ => ¬ is_Some (staged t "old")
                end)
       (λ _, ¬ is_Some (staged t "old"))
       (txn_GetBytes (E := binding_engine 0) "old" t (demo_world (store []))).
Proof.
  apply (read_your_writes (E := binding_engine 0) writes "old" (demo_world (store [])) bytes (store_holds [])).
  reflexivity.
Defined.

(** A commit whose second batch fails: the engine fails its second operation. *)
Let partial := Commit (E := binding_engine 0) (foldl stage_write BeginTransaction writes)
                 (demo_world (store [None; Some "disk full"])).

Definition partial_error : GoError := Errorf "f4kvs batch delete: %s" ["Batch delete failed: disk full"].

Lemma commit_partial_witness :
  let t := foldl stage_write BeginTransaction writes in
  ∃ puts dels w2,
    (∀ k v, puts !! k = Some v ↔ staged t k = Some (mkOp opPut v)) ∧
    holds (E := binding_engine 0) w2 ((slice_bytes <$> puts) ∪ bytes) ∧
    BatchDelete 0 dels w2 = Ret (Some partial_error) (world_of partial).
Proof.
  intros t.
  destruct (commit_partial (E := binding_engine 0) t (demo_world (store [None; Some "disk full"])) bytes t
              (world_of partial) partial_error) as [_ H].
  - done.
  - apply (stage_all_plain writes BeginTransaction begin_active); [by intros key [? ?]|repeat constructor].
  - apply store_holds.
  - run.
  - exact H.
Defined.

(** A put, then a commit that the engine accepts. *)
Definition committing : outcome World (option GoError * Transaction) :=
  Commit (E := binding_engine 0) (txn_PutBytes "k" (Some [x01]) BeginTransaction).2 (demo_world (store [])).

Lemma txn_lifecycle_witness :
  let t := mkTxn None true false in
  refuses (E := binding_engine 0) t ErrTxnCommitted ∧ txn_Rollback t = (Some ErrTxnCommitted, t).
Proof.
  intros t. destruct (txn_lifecycle (E := binding_engine 0) t) as [[[] _]|[[_ H]|[[=] _]]]; [|done|exact H].
  apply rtc_l with (txn_PutBytes "k" (Some [x01]) BeginTransaction).2; [constructor|]. apply rtc_once.
  apply (step_commit (E := binding_engine 0) _ (demo_world (store [])) (None, t) (world_of committing)).
  vm_compute. reflexivity.
Defined.

End Runs.
