(* ===== verification/Concurrent.v ===== *)
(** * Goroutines

    Any number of goroutines call methods of one [F4KVS] and [Close] at the same
    time.  A method is cut where other goroutines can run in between: taking the
    read lock, the check of [rLockLive], the library call with the handle read
    there, the deferred unlock; [Close] likewise, around the shutdown, the free and
    the two assignments.  The methods that loop over single calls ([BatchPut],
    [BatchGetValues], [BatchGetBytes]) take and release the lock once per item; a
    goroutine carries the number of items it has still to do.  No method takes the
    lock while it holds it.

    The lock is [sync.RWMutex] as it is documented: a writer first announces
    itself and then waits for the readers inside, and from the announcement on no
    new reader is let in, nor a second writer announced.  In which order those
    that wait go on after an [Unlock] is left open: every order is a run.

    [exec] is one such step of one goroutine, [None] when it has to wait; [gstep]
    interleaves them. *)

From S2P Require Import Prelude Engine Utf8 Options Ffi Binding.

(** What the goroutines share: the fields of the object (of the lock also whether
    a writer is announced and waits for the readers), whether the boxed engine
    behind the handle is still allocated, and how often it was freed. *)
Record shared := mkShared {
  sh_mu : RWMutex;
  sh_pending : bool;
  sh_handle : Z;
  sh_closed : bool;
  sh_engine : bool;
  sh_frees : nat
}.

(** Where a goroutine is; [more] counts the items of its method after this one. *)
Inductive pc :=
| OpStart (more : nat)
| OpCheck (more : nat)
| OpUse (h : Z) (more : nat)
| OpUnlock (err : option GoError) (more : nat)
| OpDone (err : option GoError)
| CloseStart
| CloseWait
| CloseCheck
| CloseShut (h : Z)
| CloseFree (h : Z)
| CloseNil
| CloseFlag
| CloseUnlock
| CloseDone
| Crashed.

Definition with_mu (m : RWMutex) (pending : bool) (s : shared) : shared :=
  mkShared m pending (sh_handle s) (sh_closed s) (sh_engine s) (sh_frees s).

(** The next step of a goroutine inside a method: [rLockLive], the library call
    with the handle it read, the deferred [RUnlock], then the next item unless the
    engine was closed.  (An item that fails in the engine is the last one.)  Using
    an engine that is not allocated any more is [Crashed]. *)
Definition op_step (p : pc) (s : shared) : option (pc * shared) :=
  let m := sh_mu s in
  match p with
  | OpStart more =>
      if rw_writer m || sh_pending s then None
      else Some (OpCheck more, with_mu (mkRWMutex (S (rw_readers m)) false) false s)
  | OpCheck more =>
      if sh_closed s || (sh_handle s =? 0) then Some (OpUnlock (Some ErrClosed) more, s)
      else Some (OpUse (sh_handle s) more, s)
  | OpUse h more => Some (if sh_engine s && (h =? sh_handle s) then OpUnlock None more else Crashed, s)
  | OpUnlock err more =>
      Some (match err, more with None, S more => OpStart more | _, _ => OpDone err end,
            with_mu (mkRWMutex (pred (rw_readers m)) (rw_writer m)) (sh_pending s) s)
  | _ => None
  end.

(** The same inside [Close]: the announcement and the wait of [Lock], the check of
    the handle, the shutdown, the free, the two assignments, the deferred
    [Unlock]. *)
Definition close_step (p : pc) (s : shared) : option (pc * shared) :=
  let m := sh_mu s in
  match p with
  | CloseStart =>
      if rw_writer m || sh_pending s then None else Some (CloseWait, with_mu m true s)
  | CloseWait =>
      if bool_decide (rw_readers m ≠ O) then None
      else Some (CloseCheck, with_mu (mkRWMutex 0 true) false s)
  | CloseCheck => Some (if sh_handle s =? 0 then CloseUnlock else CloseShut (sh_handle s), s)
  | CloseShut h => Some (if sh_engine s && (h =? sh_handle s) then CloseFree h else Crashed, s)
  | CloseFree h =>
      if sh_engine s && (h =? sh_handle s)
      then Some (CloseNil, mkShared m (sh_pending s) (sh_handle s) (sh_closed s) false (S (sh_frees s)))
      else Some (Crashed, s)
  | CloseNil => Some (CloseFlag, mkShared m (sh_pending s) 0 (sh_closed s) (sh_engine s) (sh_frees s))
  | CloseFlag => Some (CloseUnlock, mkShared m (sh_pending s) (sh_handle s) true (sh_engine s) (sh_frees s))
  | CloseUnlock => Some (CloseDone, with_mu (mkRWMutex (rw_readers m) false) (sh_pending s) s)
  | _ => None
  end.

Definition exec (p : pc) (s : shared) : option (pc * shared) :=
  match p with
  | OpStart _ | OpCheck _ | OpUse _ _ | OpUnlock _ _ => op_step p s
  | CloseStart | CloseWait | CloseCheck | CloseShut _ | CloseFree _ | CloseNil | CloseFlag | CloseUnlock => close_step p s
  | OpDone _ | CloseDone | Crashed => None
  end.

Definition config : Type := shared * list pc.

Inductive gstep : config → config → Prop :=
| step_one s l i p p' s' :
    l !! i = Some p → exec p s = Some (p', s') → gstep (s, l) (s', <[i := p']> l).

(** An object just opened, and goroutines about to start. *)
Definition opened_shared (h : Z) : shared := mkShared unlocked false h false true 0.
Definition starting (p : pc) : Prop := (∃ more, p = OpStart more) ∨ p = CloseStart.
Definition finished (p : pc) : bool := match p with OpDone _ | CloseDone => true | _ => false end.

(** ** Counting goroutines *)

Definition reading (p : pc) : bool :=
  match p with OpCheck _ | OpUse _ _ | OpUnlock _ _ => true | _ => false end.
Definition writing (p : pc) : bool :=
  match p with
  | CloseCheck | CloseShut _ | CloseFree _ | CloseNil | CloseFlag | CloseUnlock => true
  | _ => false
  end.

(** The goroutine whose writer is announced. *)
Definition waiting (p : pc) : bool := match p with CloseWait => true | _ => false end.

Fixpoint count (f : pc → bool) (l : list pc) : nat :=
  match l with [] => O | p :: l => Nat.b2n (f p) + count f l end.

Lemma count_insert f l i p p' :
  l !! i = Some p → (count f (<[i := p']> l) + Nat.b2n (f p) = count f l + Nat.b2n (f p'))%nat.
Proof.
  revert i. induction l as [|q l IH]; intros [|i] H; simplify_eq/=; [lia|].
  specialize (IH _ H). lia.
Qed.

Lemma count_zero f l : count f l = O ↔ ∀ p, p ∈ l → f p = false.
Proof.
  induction l as [|q l IH]; simpl; [set_solver|].
  split.
  - intros H p [->|Hp]%elem_of_cons; [by destruct (f q)|]. apply IH; [lia|done].
  - intros H. rewrite (H q) by set_solver. rewrite (proj2 IH); [done|]. set_solver.
Qed.

Lemma count_pos f l p : p ∈ l → f p = true → (0 < count f l)%nat.
Proof.
  intros Hp Hf. destruct (count f l) eqn:E; [|lia]. rewrite count_zero in E. by rewrite E in Hf.
Qed.

Lemma count_two f l i j p q :
  f Crashed = false → l !! i = Some p → l !! j = Some q → i ≠ j → f p = true → f q = true → (2 ≤ count f l)%nat.
Proof.
  intros H0 Hi Hj Hne Hp Hq. pose proof (count_insert f l i p Crashed Hi) as H.
  assert (Hj' : <[i := Crashed]> l !! j = Some q) by (by rewrite list_lookup_insert_ne).
  pose proof (count_pos f _ q (list_elem_of_lookup_2 _ _ _ Hj') Hq). rewrite Hp, H0 in H. simpl in H. lia.
Qed.

(** ** The invariant *)

(** What a goroutine at [p] may rely on. *)
Definition local_ok (s : shared) (p : pc) : Prop :=
  match p with
  | OpUse h _ | CloseShut h | CloseFree h => sh_engine s = true ∧ h = sh_handle s ∧ h ≠ 0
  | CloseNil => sh_engine s = false ∧ sh_handle s ≠ 0
  | CloseFlag => sh_engine s = false ∧ sh_handle s = 0
  | Crashed => False
  | _ => True
  end.

Record inv (c : config) : Prop := mkInv {
  inv_readers : rw_readers (sh_mu c.1) = count reading c.2;
  inv_writer : Nat.b2n (rw_writer (sh_mu c.1)) = count writing c.2;
  inv_pending : Nat.b2n (sh_pending c.1) = count waiting c.2;
  inv_exclusive : rw_writer (sh_mu c.1) = true → rw_readers (sh_mu c.1) = O ∧ sh_pending c.1 = false;
  inv_local : Forall (local_ok c.1) c.2;
  inv_engine : CloseNil ∉ c.2 → sh_engine c.1 = bool_decide (sh_handle c.1 ≠ 0);
  inv_frees : sh_frees c.1 = if sh_engine c.1 then O else 1%nat
}.

Lemma inv_start h l : h ≠ 0 → Forall starting l → inv (opened_shared h, l).
Proof.
  intros Hh Hl. rewrite Forall_forall in Hl.
  assert (Hz : ∀ f, f CloseStart = false → (∀ n, f (OpStart n) = false) → count f l = O).
  { intros f Hf Hn. apply count_zero. intros p Hp. by destruct (Hl p Hp) as [[n ->] | ->]. }
  split; simpl; rewrite ?Hz by done; try done.
  - apply Forall_forall. intros p Hp. by destruct (Hl p Hp) as [[n ->] | ->].
  - intros _. by rewrite bool_decide_eq_true_2.
Qed.

(** While a goroutine is inside [Close], every other one is outside the lock. *)
Lemma others_idle s l i j p q :
  inv (s, l) → l !! i = Some p → writing p = true → l !! j = Some q → i ≠ j →
  reading q = false ∧ writing q = false.
Proof.
  intros [Hr Hw _ Hx _ _ _] Hi Hp Hj Hne. simpl in *.
  pose proof (count_pos writing l p (list_elem_of_lookup_2 _ _ _ Hi) Hp).
  assert (Hwr : rw_writer (sh_mu s) = true) by (destruct (rw_writer (sh_mu s)); simpl in *; [done|lia]).
  split.
  - apply (proj1 (count_zero reading l)); [|by eapply list_elem_of_lookup_2]. by rewrite <-Hr, (proj1 (Hx Hwr)).
  - destruct (writing q) eqn:E; [|done].
    pose proof (count_two writing l i j p q eq_refl Hi Hj Hne Hp E). rewrite Hwr in Hw. simpl in Hw. lia.
Qed.

Lemma local_ok_idle s q : reading q = false → writing q = false → q ≠ Crashed → local_ok s q.
Proof. by destruct q. Qed.

Lemma local_ok_ext s s' q :
  sh_engine s' = sh_engine s → sh_handle s' = sh_handle s → local_ok s q → local_ok s' q.
Proof. intros He Hh. destruct q; simpl; by rewrite ?He, ?Hh. Qed.

(** The goroutines other than the one that moved. *)
Lemma local_ok_others s l i p p' s' :
  inv (s, l) → l !! i = Some p → local_ok s' p' →
  (writing p = true ∨ sh_engine s' = sh_engine s ∧ sh_handle s' = sh_handle s) →
  Forall (local_ok s') (<[i := p']> l).
Proof.
  intros Hinv Hi Hp' Hcase. apply Forall_lookup_2. intros j q Hj.
  destruct (decide (i = j)) as [->|Hne].
  - rewrite list_lookup_insert_eq in Hj by (by eapply lookup_lt_Some). by simplify_eq.
  - rewrite list_lookup_insert_ne in Hj by done.
    pose proof (Forall_lookup_1 _ _ _ _ (inv_local _ Hinv) Hj) as Hq. simpl in Hq.
    destruct Hcase as [Hp|[He Hh]]; [|by eapply local_ok_ext].
    destruct (others_idle _ _ _ _ _ _ Hinv Hi Hp Hj Hne). apply local_ok_idle; try done.
    by intros ->.
Qed.

Lemma not_in_insert (l : list pc) i p p' :
  l !! i = Some p → p ≠ CloseNil → CloseNil ∉ <[i := p']> l → CloseNil ∉ l.
Proof.
  intros Hi Hp Hn [j Hj]%list_elem_of_lookup. destruct (decide (i = j)) as [->|Hne]; [congruence|].
  apply Hn, list_elem_of_lookup. exists j. by rewrite list_lookup_insert_ne.
Qed.

Lemma in_insert (l : list pc) i p p' : l !! i = Some p → p' ∈ <[i := p']> l.
Proof.
  intros Hi. apply list_elem_of_lookup. exists i. apply list_lookup_insert_eq. by eapply lookup_lt_Some.
Qed.

(** Steps that leave the object and the engine alone. *)
Lemma inv_same s l i p p' m b :
  inv (s, l) → l !! i = Some p → local_ok s p' → p ≠ CloseNil →
  rw_readers m = count reading (<[i := p']> l) → Nat.b2n (rw_writer m) = count writing (<[i := p']> l) →
  Nat.b2n b = count waiting (<[i := p']> l) →
  (rw_writer m = true → rw_readers m = O ∧ b = false) →
  inv (with_mu m b s, <[i := p']> l).
Proof.
  intros Hinv Hi Hp' Hnil Hr Hw Hb Hx. split; simpl; try done.
  - apply (local_ok_others s l i p p' (with_mu m b s)); [done..| |by right].
    by apply (local_ok_ext s).
  - intros Hn. apply (inv_engine _ Hinv). by eapply not_in_insert.
  - apply (inv_frees _ Hinv).
Qed.

(** No goroutine is between the free and the assignment of nil while another one
    holds the lock, in either mode. *)
Lemma no_close_nil s l i p :
  inv (s, l) → l !! i = Some p → p ≠ CloseNil → reading p || writing p = true → CloseNil ∉ l.
Proof.
  intros Hinv Hi Hp Hlock [j Hj]%list_elem_of_lookup.
  assert (Hne : j ≠ i) by congruence.
  destruct (others_idle _ _ j i _ _ Hinv Hj eq_refl Hi Hne) as [H1 H2]. by rewrite H1, H2 in Hlock.
Qed.

Lemma engine_live s l i p :
  inv (s, l) → l !! i = Some p → p ≠ CloseNil → reading p || writing p = true →
  sh_handle s ≠ 0 → sh_engine s = true.
Proof.
  intros Hinv Hi Hp Hlock Hh. pose proof (inv_engine _ Hinv) as He. simpl in He.
  rewrite He by (by eapply no_close_nil). by rewrite bool_decide_eq_true_2.
Qed.

Lemma readers_positive s l i p :
  inv (s, l) → l !! i = Some p → reading p = true →
  (0 < rw_readers (sh_mu s))%nat ∧ rw_writer (sh_mu s) = false.
Proof.
  intros Hinv Hi Hp. pose proof (count_pos reading l p (list_elem_of_lookup_2 _ _ _ Hi) Hp).
  pose proof (inv_readers _ Hinv). pose proof (inv_exclusive _ Hinv). simpl in *.
  split; [lia|]. destruct (rw_writer (sh_mu s)); [|done]. destruct (H1 eq_refl). lia.
Qed.

(** An announced writer: none is active. *)
Lemma pending_excludes s l i :
  inv (s, l) → l !! i = Some CloseWait → sh_pending s = true ∧ rw_writer (sh_mu s) = false.
Proof.
  intros Hinv Hi. pose proof (count_pos waiting l _ (list_elem_of_lookup_2 _ _ _ Hi) eq_refl).
  pose proof (inv_pending _ Hinv) as Hp. pose proof (inv_exclusive _ Hinv) as Hx. simpl in *.
  destruct (sh_pending s); simpl in Hp; [|lia]. split; [done|].
  destruct (rw_writer (sh_mu s)); [|done]. by destruct (Hx eq_refl).
Qed.

(** Where a method goes on after the unlock: outside the lock. *)
Lemma next_item (err : option GoError) more :
  ∃ p, match err, more with None, S more => OpStart more | _, _ => OpDone err end = p ∧
    reading p = false ∧ writing p = false ∧ waiting p = false ∧ (∀ s, local_ok s p) ∧ p ≠ CloseNil.
Proof. destruct err, more; eexists; by repeat split. Qed.

Section Step.
Context (s : shared) (l : list pc) (i : nat).
Hypothesis Hinv : inv (s, l).

(** The goroutine moved without touching the lock or the object. *)
Lemma inv_quiet p p' :
  l !! i = Some p → local_ok s p' → p ≠ CloseNil → reading p' = reading p → writing p' = writing p →
  waiting p' = waiting p → inv (s, <[i := p']> l).
Proof.
  intros Hi Hp' Hnil Hr Hw Hb. replace s with (with_mu (sh_mu s) (sh_pending s) s) by (by destruct s).
  pose proof (count_insert reading l i p p' Hi) as Hcr. rewrite Hr in Hcr.
  pose proof (count_insert writing l i p p' Hi) as Hcw. rewrite Hw in Hcw.
  pose proof (count_insert waiting l i p p' Hi) as Hcb. rewrite Hb in Hcb.
  pose proof (inv_readers _ Hinv). pose proof (inv_writer _ Hinv). pose proof (inv_pending _ Hinv). simpl in *.
  eapply inv_same; try done; [lia..|apply (inv_exclusive _ Hinv)].
Qed.

(** The goroutine is inside [Close] and changes the handle, the flag or the engine. *)
Lemma inv_close p p' s' :
  l !! i = Some p → writing p = true → reading p' = false → writing p' = true → local_ok s' p' →
  sh_mu s' = sh_mu s → sh_pending s' = sh_pending s →
  (p' = CloseNil ∨ sh_engine s' = bool_decide (sh_handle s' ≠ 0)) →
  sh_frees s' = (if sh_engine s' then O else 1%nat) →
  inv (s', <[i := p']> l).
Proof.
  intros Hi Hp Hp'r Hp'w Hok Hmu Hpend Heng Hf.
  assert (Hpr : reading p = false) by (by destruct p).
  assert (Hpb : waiting p = false) by (by destruct p).
  assert (Hp'b : waiting p' = false) by (by destruct p').
  pose proof (count_insert reading l i p p' Hi) as Hcr. rewrite Hpr, Hp'r in Hcr.
  pose proof (count_insert writing l i p p' Hi) as Hcw. rewrite Hp, Hp'w in Hcw.
  pose proof (count_insert waiting l i p p' Hi) as Hcb. rewrite Hpb, Hp'b in Hcb.
  pose proof (inv_readers _ Hinv). pose proof (inv_writer _ Hinv). pose proof (inv_pending _ Hinv). simpl in *.
  split; simpl; rewrite ?Hmu, ?Hpend; try done; [lia..|apply (inv_exclusive _ Hinv)| |].
  - eapply local_ok_others; try done. by left.
  - intros Hn. destruct Heng as [->|?]; [|done]. destruct Hn. by eapply in_insert.
Qed.

End Step.

(** The counts after a goroutine moved to [p']. *)
Ltac counted p' :=
  match goal with
  | Hinv : inv (?s, ?l), Hi : ?l !! ?i = Some ?p |- _ =>
      pose proof (count_insert reading l i p p' Hi); pose proof (count_insert writing l i p p' Hi);
      pose proof (count_insert waiting l i p p' Hi);
      pose proof (inv_readers _ Hinv); pose proof (inv_writer _ Hinv); pose proof (inv_pending _ Hinv); simpl in *
  end.

Lemma inv_exec s l i p p' s' :
  inv (s, l) → l !! i = Some p → exec p s = Some (p', s') → inv (s', <[i := p']> l).
Proof.
  intros Hinv Hi Hex. pose proof (Forall_lookup_1 _ _ _ _ (inv_local _ Hinv) Hi) as Hp. simpl in Hp.
  destruct p; simpl in Hex; try done.
  - case_match eqn:Hc; [done|]. apply orb_false_iff in Hc as [Hwr Hpd]. simplify_eq.
    counted (OpCheck more). rewrite Hwr, Hpd in *. simpl in *. eapply inv_same; try done; simpl; lia.
  - case_match eqn:Hc; simplify_eq; eapply inv_quiet; try done.
    apply orb_false_iff in Hc as [_ Hh%Z.eqb_neq]. simpl.
    split; [|done]. by eapply engine_live.
  - destruct Hp as (He & Hh & _). rewrite He, Hh, Z.eqb_refl in Hex. simplify_eq/=. by eapply inv_quiet.
  - destruct (readers_positive _ _ _ _ Hinv Hi eq_refl) as [Hpos Hwr]. simplify_eq.
    destruct (next_item err more) as (p' & -> & Hpr & Hpw & Hpb & Hok & Hnil). counted p'.
    rewrite Hpr, Hpw, Hpb, Hwr in *. simpl in *.
    eapply inv_same; try done; simpl; rewrite ?Hwr in *; simpl in *; try lia.
  - case_match eqn:Hc; [done|]. apply orb_false_iff in Hc as [Hwr Hpd].
    simplify_eq. counted CloseWait. rewrite Hwr, Hpd in *. simpl in *.
    eapply inv_same; try done; simpl; rewrite ?Hwr in *; simpl in *; lia.
  - case_bool_decide as Hrd; [done|]. simplify_eq. counted CloseCheck.
    pose proof (count_pos waiting l CloseWait (list_elem_of_lookup_2 _ _ _ Hi) eq_refl).
    destruct (pending_excludes _ _ _ Hinv Hi) as [Hpd Hwr]. rewrite Hpd, Hwr in *. simpl in *.
    eapply inv_same; try done; simpl; try lia.
  - case_match eqn:Hc; simplify_eq; eapply inv_quiet; try done. apply Z.eqb_neq in Hc. simpl.
    split; [|done]. by eapply engine_live.
  - destruct Hp as (He & Hh & H0). rewrite He, Hh, Z.eqb_refl in Hex. simplify_eq/=. by eapply inv_quiet.
  - destruct Hp as (He & Hh & H0). rewrite He, Hh, Z.eqb_refl in Hex. simplify_eq/=.
    pose proof (inv_frees _ Hinv) as Hf. simpl in Hf. rewrite He in Hf.
    eapply inv_close; simpl; try done; [by left|by rewrite Hf].
  - simplify_eq. destruct Hp as [He _]. pose proof (inv_frees _ Hinv) as Hf. simpl in Hf.
    eapply inv_close; simpl; try done. right. by rewrite He.
  - simplify_eq. destruct Hp as [He Hh]. pose proof (inv_frees _ Hinv) as Hf. simpl in Hf.
    eapply inv_close; simpl; try done. right. by rewrite He, Hh.
  - simplify_eq. counted CloseDone.
    pose proof (count_pos writing l CloseUnlock (list_elem_of_lookup_2 _ _ _ Hi) eq_refl).
    destruct (rw_writer (sh_mu s)) eqn:Hwr; simpl in *; [|lia].
    eapply inv_same; try done; simpl; lia.
Qed.

Lemma inv_reachable h l c : h ≠ 0 → Forall starting l → rtc gstep (opened_shared h, l) c → inv c.
Proof.
  intros Hh Hl Hr. refine (rtc_ind_r inv _ _ _ c Hr); [by apply inv_start|].
  intros c1 c2 _ Hstep IH. destruct Hstep. by eapply inv_exec.
Qed.

(** ** Progress *)

Lemma exec_total p s :
  finished p = false → p ≠ Crashed → reading p || writing p = true → is_Some (exec p s).
Proof. destruct p; simpl; intros; try done; by repeat case_match. Qed.

Lemma can_step c :
  inv c → Exists (λ p, finished p = false) c.2 → ∃ c', gstep c c'.
Proof.
  destruct c as [s l]. simpl. intros Hinv (p & Hp & Hfin)%Exists_exists.
  assert (Hgo : ∀ q, q ∈ l → is_Some (exec q s) → ∃ c', gstep (s, l) c').
  { intros q [j Hj]%list_elem_of_lookup [[q' s'] Hq]. eexists. by econstructor. }
  assert (Hall : ∀ q, q ∈ l → q ≠ Crashed).
  { intros q Hq ->. pose proof (inv_local _ Hinv) as HF. rewrite Forall_forall in HF. by apply (HF _ Hq). }
  destruct (decide (Exists (λ q, reading q || writing q = true) l)) as [Hin|Hout].
  { apply Exists_exists in Hin as (q & Hq & Hlock). apply (Hgo q Hq).
    apply exec_total; [by destruct q|by apply Hall|done]. }
  assert (Hidle : ∀ q, q ∈ l → reading q = false ∧ writing q = false).
  { intros q Hq. apply orb_false_iff. destruct (reading q || writing q) eqn:E; [|done].
    destruct Hout. apply Exists_exists. eauto. }
  pose proof (inv_readers _ Hinv) as Hr. pose proof (inv_writer _ Hinv) as Hw.
  pose proof (inv_pending _ Hinv) as Hb. simpl in *.
  rewrite (proj2 (count_zero reading l)) in Hr by naive_solver.
  rewrite (proj2 (count_zero writing l)) in Hw by naive_solver.
  destruct (rw_writer (sh_mu s)) eqn:Hwr; [done|].
  destruct (decide (Exists (λ q, waiting q = true) l)) as [Hin|Hout'].
  - apply Exists_exists in Hin as (q & Hq & Hwt). apply (Hgo q Hq). destruct q; try done. simpl. by rewrite Hr.
  - rewrite (proj2 (count_zero waiting l)) in Hb.
    2: { intros q Hq. apply not_true_is_false. intros Hwt. destruct Hout'. apply Exists_exists. eauto. }
    destruct (sh_pending s) eqn:Hpd; [done|]. apply (Hgo p Hp). specialize (Hidle _ Hp).
    destruct p; simpl; rewrite ?Hwr, ?Hpd, ?Hr; simpl; try done; naive_solver.
Qed.

(** ** Termination *)

(** Steps left to a goroutine, at most: four per item, eight for a [Close]. *)
Definition rank (p : pc) : nat :=
  match p with
  | OpStart more => 4 * more + 4 | OpCheck more => 4 * more + 3 | OpUse _ more => 4 * more + 2
  | OpUnlock _ more => 4 * more + 1 | OpDone _ => 0
  | CloseStart => 8 | CloseWait => 7 | CloseCheck => 6 | CloseShut _ => 5 | CloseFree _ => 4
  | CloseNil => 3 | CloseFlag => 2 | CloseUnlock => 1 | CloseDone => 0
  | Crashed => 0
  end.

Definition total_rank (l : list pc) : nat := sum_list (rank <$> l).

Lemma total_rank_insert l i p p' :
  l !! i = Some p → (total_rank (<[i := p']> l) + rank p = total_rank l + rank p')%nat.
Proof.
  unfold total_rank. revert i. induction l as [|q l IH]; intros [|i] H; simplify_eq/=; [lia|].
  specialize (IH _ H). lia.
Qed.

Lemma exec_rank p s p' s' : exec p s = Some (p', s') → (rank p' < rank p)%nat.
Proof. destruct p; simpl; intros; repeat case_match; simplify_eq; simpl; lia. Qed.

Lemma gstep_rank c c' : gstep c c' → (total_rank c'.2 < total_rank c.2)%nat.
Proof.
  intros [s l i p p' s' Hi Hex]. simpl. pose proof (exec_rank _ _ _ _ Hex).
  pose proof (total_rank_insert l i p p' Hi). lia.
Qed.

Lemma nsteps_rank n c c' : nsteps gstep n c c' → (total_rank c'.2 + n ≤ total_rank c.2)%nat.
Proof.
  intros H. induction H as [c|n c c1 c2 Hs _ IH]; [lia|]. apply gstep_rank in Hs. lia.
Qed.

Lemma starting_rank l :
  Forall starting l → total_rank l = sum_list ((λ p, match p with OpStart more => 4 * S more | _ => 8 end)%nat <$> l).
Proof.
  unfold total_rank. intros Hl. induction Hl as [|p l Hp _ IH]; csimpl; [done|].
  rewrite IH. destruct Hp as [[n ->]| ->]; simpl; lia.
Qed.

(** ** What a finished [Close] left *)

Definition closing (p : pc) : bool :=
  match p with
  | CloseStart | CloseWait | CloseCheck | CloseShut _ | CloseFree _ | CloseNil | CloseFlag
  | CloseUnlock | CloseDone => true
  | _ => false
  end.

(** The handle is nil once some goroutine is past its assignment. *)
Definition nil_after (c : config) : Prop :=
  ∀ p, p ∈ c.2 → p = CloseUnlock ∨ p = CloseDone → sh_handle c.1 = 0.

Lemma elem_of_insert_inv (l : list pc) i p' q : q ∈ <[i := p']> l → q = p' ∨ q ∈ l.
Proof.
  intros [j Hj]%list_elem_of_lookup. apply list_lookup_insert_Some in Hj as [(_ & -> & _)|[_ Hj]]; [by left|].
  right. by eapply list_elem_of_lookup_2.
Qed.

Lemma exec_handle p s p' s' : exec p s = Some (p', s') → sh_handle s' = sh_handle s ∨ sh_handle s' = 0.
Proof. destruct p; simpl; intros; repeat case_match; simplify_eq; simpl; auto. Qed.

Lemma nil_after_step c c' : inv c → nil_after c → gstep c c' → nil_after c'.
Proof.
  intros Hinv Hn Hstep. destruct Hstep as [s l i p p' s' Hi Hex]. intros q Hq Hcase. simpl in *.
  assert (Hkeep : sh_handle s = 0 → sh_handle s' = 0)
    by (destruct (exec_handle _ _ _ _ Hex) as [-> | ->]; done).
  apply elem_of_insert_inv in Hq as [->|Hq]; [|by apply Hkeep, (Hn q)].
  pose proof (Forall_lookup_1 _ _ _ _ (inv_local _ Hinv) Hi) as Hp. simpl in Hp.
  pose proof (list_elem_of_lookup_2 _ _ _ Hi) as Hin.
  destruct p; simpl in Hex; repeat case_match; destruct Hcase; simplify_eq/=; try done.
  - by apply Z.eqb_eq.
  - by destruct Hp.
  - apply (Hn CloseUnlock); [done|by left].
Qed.

Lemma closing_step c c' : inv c' → gstep c c' → closing <$> c'.2 = closing <$> c.2.
Proof.
  intros Hinv Hstep. destruct Hstep as [s l i p p' s' Hi Hex]. simpl.
  rewrite list_fmap_insert. apply list_insert_id. rewrite list_lookup_fmap, Hi. simpl. f_equal.
  pose proof (inv_local _ Hinv) as HF. simpl in HF. rewrite Forall_forall in HF.
  specialize (HF p' (in_insert _ _ _ _ Hi)).
  destruct p; simpl in Hex; repeat case_match; by simplify_eq/=.
Qed.

Lemma reachable_all h l c :
  h ≠ 0 → Forall starting l → rtc gstep (opened_shared h, l) c →
  inv c ∧ nil_after c ∧ closing <$> c.2 = closing <$> l.
Proof.
  intros Hh Hl Hr.
  refine (rtc_ind_r (λ c, inv c ∧ nil_after c ∧ closing <$> c.2 = closing <$> l) _ _ _ c Hr).
  - split; [by apply inv_start|]. split; [|done]. intros p Hp Hcase. rewrite Forall_forall in Hl.
    specialize (Hl p Hp). destruct Hcase as [-> | ->], Hl as [[n Hn]|Hn]; done.
  - intros c1 c2 _ Hstep (Hi & Hn & Hc).
    assert (inv c2) by (destruct Hstep; by eapply inv_exec).
    split; [done|]. split; [exact (nil_after_step _ _ Hi Hn Hstep)|]. rewrite <-Hc. by apply closing_step.
Qed.

(** ** Properties *)

(** C13: methods and [Close] on one engine from any number of goroutines, in every
    interleaving: no goroutine ever uses or frees the boxed engine after it was
    freed, it is freed at most once, a goroutine inside a library call finds the
    engine allocated, and no method runs while a [Close] does. *)
Theorem ops_close_safe h l s l' :
  h ≠ 0 → Forall starting l → rtc gstep (opened_shared h, l) (s, l') →
  (Crashed ∉ l') ∧ (sh_frees s ≤ 1)%nat ∧
  (∀ h' more, OpUse h' more ∈ l' → sh_engine s = true ∧ h' = sh_handle s) ∧
  (Exists (λ p, writing p = true) l' → Forall (λ p, reading p = false) l').
Proof.
  intros Hh Hl Hr. destruct (reachable_all h l (s, l') Hh Hl Hr) as (Hinv & _ & _).
  pose proof (inv_local _ Hinv) as HF. simpl in HF. rewrite Forall_forall in HF.
  split_and!.
  - intros Hc. by apply (HF _ Hc).
  - pose proof (inv_frees _ Hinv) as Hf. simpl in Hf. rewrite Hf. case_match; lia.
  - intros h' more Hu. by destruct (HF _ Hu) as (? & ? & ?).
  - intros (p & Hp & Hw)%Exists_exists. apply Forall_forall. intros q Hq.
    pose proof (count_pos writing l' p Hp Hw) as Hpos.
    pose proof (inv_writer _ Hinv) as Hwr. pose proof (inv_exclusive _ Hinv) as Hx.
    pose proof (inv_readers _ Hinv) as Hrd. simpl in *.
    destruct (rw_writer (sh_mu s)); simpl in *; [|lia].
    apply (proj1 (count_zero reading l')); [|done]. by rewrite <-Hrd, (proj1 (Hx eq_refl)).
Qed.

(** C14: they always finish.  No run is longer than four steps per item of a method
    and eight per [Close], and a run that cannot go on, every goroutine having
    either ended or waiting for the lock, has every goroutine ended: a [Close] that
    waits for readers, the readers that may not enter because of it and the
    [Close]s behind it never block each other for good.  If one of them was a
    [Close], the engine has then been freed exactly once and the handle is nil. *)
Theorem ops_close_finish h l :
  h ≠ 0 → Forall starting l →
  (∀ n c, nsteps gstep n (opened_shared h, l) c →
     (n ≤ sum_list ((λ p, match p with OpStart more => 4 * S more | _ => 8 end) <$> l))%nat) ∧
  (∀ s l', rtc gstep (opened_shared h, l) (s, l') → (∀ c', ¬ gstep (s, l') c') →
     Forall (λ p, finished p = true) l' ∧
     (CloseStart ∈ l → sh_frees s = 1%nat ∧ sh_handle s = 0)).
Proof.
  intros Hh Hl. split.
  - intros n c Hn%nsteps_rank. simpl in Hn. etrans; [|apply Nat.eq_le_incl, (starting_rank l Hl)]. lia.
  - intros s l' Hr Hstop. destruct (reachable_all h l (s, l') Hh Hl Hr) as (Hinv & Hnil & Hc).
    assert (Hfin : Forall (λ p, finished p = true) l').
    { apply Forall_forall. intros p Hp. destruct (finished p) eqn:E; [done|].
      destruct (can_step (s, l') Hinv) as [c' Hc']; [|by apply Hstop in Hc'].
      apply Exists_exists. eauto. }
    split; [done|]. intros [i Hi]%list_elem_of_lookup. simpl in Hc.
    assert (Hi' : (closing <$> l') !! i = Some true) by (by rewrite Hc, list_lookup_fmap, Hi).
    rewrite list_lookup_fmap in Hi'. apply fmap_Some in Hi' as (p & Hp & Hcp).
    pose proof (list_elem_of_lookup_2 _ _ _ Hp) as Hin. rewrite Forall_forall in Hfin.
    pose proof (Hfin p Hin) as Hfp. destruct p; try done.
    assert (Hz : sh_handle s = 0) by (apply (Hnil CloseDone); [done|by right]).
    split; [|done]. pose proof (inv_frees _ Hinv) as Hf. pose proof (inv_engine _ Hinv) as He.
    simpl in *. rewrite Hf, He, Hz; [done|]. intros Hn.
    specialize (Hfin _ Hn). discriminate.
Qed.

(** ** Runs *)

(** A batch of two reading its first item while another goroutine closes. *)
Lemma ops_close_safe_witness :
  let l' := [OpUse 7 1; CloseWait] in
  (Crashed ∉ l') ∧ (0 ≤ 1)%nat ∧ (∀ h' more, OpUse h' more ∈ l' → true = true ∧ h' = 7) ∧
  (Exists (λ p, writing p = true) l' → Forall (λ p, reading p = false) l').
Proof.
  apply (ops_close_safe 7 [OpStart 1; CloseStart] (mkShared (mkRWMutex 1 false) true 7 false true 0)).
  - discriminate.
  - constructor; [left; by exists 1%nat|constructor; [by right|constructor]].
  - eapply rtc_l; [apply (step_one _ _ 0 (OpStart 1) (OpCheck 1)); reflexivity|].
    eapply rtc_l; [apply (step_one _ _ 0 (OpCheck 1) (OpUse 7 1)); reflexivity|].
    eapply rtc_l; [apply (step_one _ _ 1 CloseStart CloseWait); reflexivity|]. apply rtc_refl.
Defined.

(** There the [Close] waits for the reader, and a new reader for the [Close]. *)
Example pending_close_blocks_readers :
  let s := mkShared (mkRWMutex 1 false) true 7 false true 0 in
  exec CloseWait s = None ∧ exec (OpStart 0) s = None ∧ exec CloseStart s = None ∧ is_Some (exec (OpUse 7 1) s).
Proof. repeat split. by eexists. Qed.

Lemma ops_close_finish_witness :
  (∀ n c, nsteps gstep n (opened_shared 7, [OpStart 1; CloseStart]) c → (n ≤ 16)%nat) ∧
  (∀ s l', rtc gstep (opened_shared 7, [OpStart 1; CloseStart]) (s, l') → (∀ c', ¬ gstep (s, l') c') →
     Forall (λ p, finished p = true) l' ∧
     (CloseStart ∈ [OpStart 1; CloseStart] → sh_frees s = 1%nat ∧ sh_handle s = 0)).
Proof.
  apply (ops_close_finish 7 [OpStart 1; CloseStart]).
  - discriminate.
  - constructor; [left; by exists 1%nat|constructor; [by right|constructor]].
Defined.
