(* ===== verification/Frees.v ===== *)
(** * Freeing the same buffer from several threads

    [f4kvs_string_free] and [f4kvs_bytes_free] cut at the points where another
    thread can run: each access to an allocator's table happens under its mutex,
    the steps between two accesses do not.  All threads of a run free one pointer;
    [table] says whether it is registered and [block] whether its memory is still
    allocated. *)

From S2P Require Import Prelude.

Record frees := mkFrees { table : bool; block : bool }.

Inductive free_pc := FreeStart | FreeChecked | FreeTaken | FreeDone | FreedTwice.

(** [CString::from_raw] or [Box::from_raw], and the drop. *)
Definition release (s : frees) : free_pc * frees :=
  if block s then (FreeDone, mkFrees (table s) false) else (FreedTwice, s).

(** [is_allocated], [unregister], [from_raw]. *)
Definition string_free_step (p : free_pc) (s : frees) : option (free_pc * frees) :=
  match p with
  | FreeStart => Some (if table s then FreeChecked else FreeDone, s)
  | FreeChecked => Some (FreeTaken, mkFrees false (block s))
  | FreeTaken => Some (release s)
  | FreeDone | FreedTwice => None
  end.

(** [unregister], whose answer decides, then [from_raw]. *)
Definition bytes_free_step (p : free_pc) (s : frees) : option (free_pc * frees) :=
  match p with
  | FreeStart => Some (if table s then (FreeTaken, mkFrees false (block s)) else (FreeDone, s))
  | FreeTaken => Some (release s)
  | FreeChecked | FreeDone | FreedTwice => None
  end.

Section Interleaving.
Context (step : free_pc → frees → option (free_pc * frees)).

Inductive fstep : frees * list free_pc → frees * list free_pc → Prop :=
| one_thread_step s l i p p' s' :
    l !! i = Some p → step p s = Some (p', s') → fstep (s, l) (s', <[i := p']> l).

End Interleaving.

Definition registered : frees := mkFrees true true.

(** ** Buffers of bytes *)

(** At most one thread has taken the pointer out of the table, and then the memory
    is still there. *)
Record bytes_inv (c : frees * list free_pc) : Prop := mkBytesInv {
  bytes_unique i j : c.2 !! i = Some FreeTaken → c.2 !! j = Some FreeTaken → i = j;
  bytes_table : table c.1 = true → block c.1 = true ∧ FreeTaken ∉ c.2;
  bytes_block : FreeTaken ∈ c.2 → block c.1 = true;
  bytes_once : FreedTwice ∉ c.2
}.

Lemma insert_not_in (l : list free_pc) i p' q : q ≠ p' → q ∉ l → q ∉ <[i := p']> l.
Proof.
  intros Hne Hn [j Hj]%list_elem_of_lookup.
  apply list_lookup_insert_Some in Hj as [(_ & -> & _)|[_ Hj]]; [done|].
  by apply list_elem_of_lookup_2 in Hj.
Qed.

Lemma taken_insert (l : list free_pc) i j p' :
  p' ≠ FreeTaken → <[i := p']> l !! j = Some FreeTaken → l !! j = Some FreeTaken ∧ i ≠ j.
Proof. intros Hp [(-> & ? & _)|[? ?]]%list_lookup_insert_Some; [congruence|done]. Qed.

Lemma taken_in_insert (l : list free_pc) i p' :
  p' ≠ FreeTaken → FreeTaken ∈ <[i := p']> l → FreeTaken ∈ l.
Proof.
  intros Hp [j Hj]%list_elem_of_lookup. apply taken_insert in Hj as [Hj _]; [|done].
  by eapply list_elem_of_lookup_2.
Qed.

(** A thread found the pointer unregistered. *)
Lemma bytes_skip s l i : bytes_inv (s, l) → bytes_inv (s, <[i := FreeDone]> l).
Proof.
  intros [Hu Ht Hb Ho]. simpl in *. split; simpl.
  - intros j k [Hj _]%taken_insert [Hk _]%taken_insert; [by apply Hu|done..].
  - intros Htab. destruct (Ht Htab). split; [done|]. by apply insert_not_in.
  - intros Hin%taken_in_insert; [by apply Hb|done].
  - by apply insert_not_in.
Qed.

(** A thread took the pointer out of the table. *)
Lemma bytes_take s l i :
  bytes_inv (s, l) → table s = true → bytes_inv (mkFrees false (block s), <[i := FreeTaken]> l).
Proof.
  intros [Hu Ht Hb Ho] Htab. simpl in *. destruct (Ht Htab) as [Hblk Hno].
  assert (Honly : ∀ j, <[i := FreeTaken]> l !! j = Some FreeTaken → j = i).
  { intros j [(-> & _ & _)|[_ Hj]]%list_lookup_insert_Some; [done|].
    by apply list_elem_of_lookup_2 in Hj. }
  split; simpl; [|done|done|by apply insert_not_in].
  intros j k Hj Hk. by rewrite (Honly j), (Honly k).
Qed.

(** The thread that took it frees the memory. *)
Lemma bytes_release s l i :
  bytes_inv (s, l) → l !! i = Some FreeTaken → bytes_inv (mkFrees (table s) false, <[i := FreeDone]> l).
Proof.
  intros [Hu Ht Hb Ho] Hi. simpl in *. pose proof (list_elem_of_lookup_2 _ _ _ Hi) as Hin.
  assert (Hnone : FreeTaken ∉ <[i := FreeDone]> l).
  { intros [j Hj]%list_elem_of_lookup. apply taken_insert in Hj as [Hj Hne]; [|done].
    by apply Hne, Hu. }
  split; simpl.
  - intros j k [Hj _]%taken_insert [Hk _]%taken_insert; [by apply Hu|done..].
  - intros Htab. by destruct (Ht Htab).
  - done.
  - by apply insert_not_in.
Qed.

Lemma bytes_inv_step c c' : fstep bytes_free_step c c' → bytes_inv c → bytes_inv c'.
Proof.
  intros Hstep Hinv. destruct Hstep as [s l i p p' s' Hi Hex].
  destruct p; simpl in Hex; simplify_eq.
  - destruct (table s) eqn:Ht; simplify_eq; [by apply bytes_take|by apply bytes_skip].
  - unfold release in Hex. pose proof (bytes_block _ Hinv (list_elem_of_lookup_2 _ _ _ Hi)) as Hb.
    simpl in Hb. rewrite Hb in Hex. simplify_eq. by apply bytes_release.
Qed.

(** C33: [f4kvs_bytes_free] called for one buffer by any number of threads at once
    never frees it twice, in any interleaving: the answer of [unregister] decides
    which of them frees. *)
Theorem bytes_free_once n c :
  rtc (fstep bytes_free_step) (registered, replicate n FreeStart) c → FreedTwice ∉ c.2.
Proof.
  intros Hr. apply bytes_once. refine (rtc_ind_r bytes_inv _ _ _ c Hr).
  - assert (Hs : ∀ q, q ≠ FreeStart → q ∉ replicate n FreeStart)
      by (intros q Hq [-> _]%elem_of_replicate; done).
    split; simpl.
    + intros i j Hi. apply list_elem_of_lookup_2 in Hi. by apply Hs in Hi.
    + intros _. split; [done|]. by apply Hs.
    + intros Hin. by apply Hs in Hin.
    + by apply Hs.
  - intros c1 c2 _ Hstep IH. by eapply bytes_inv_step.
Qed.

Lemma bytes_free_once_witness :
  FreedTwice ∉ ([FreeTaken; FreeDone] : list free_pc).
Proof.
  apply (bytes_free_once 2 (mkFrees false true, [FreeTaken; FreeDone])).
  eapply rtc_l; [apply (one_thread_step _ _ _ 0 FreeStart FreeTaken); reflexivity|].
  eapply rtc_l; [apply (one_thread_step _ _ _ 1 FreeStart FreeDone); reflexivity|]. apply rtc_refl.
Defined.

(** ** Strings *)

(** C34: [f4kvs_string_free] does not have that protection: its check and its
    removal are two accesses to the table, and the answer of the removal is
    ignored.  Two threads that free one string can both pass the check, and both
    free the memory. *)
Theorem string_free_race :
  ∃ s l, rtc (fstep string_free_step) (registered, [FreeStart; FreeStart]) (s, l) ∧ FreedTwice ∈ l.
Proof.
  exists (mkFrees false false), [FreeDone; FreedTwice]. split; [|by right; left].
  eapply rtc_l; [apply (one_thread_step _ _ _ 0 FreeStart FreeChecked); reflexivity|].
  eapply rtc_l; [apply (one_thread_step _ _ _ 1 FreeStart FreeChecked); reflexivity|].
  eapply rtc_l; [apply (one_thread_step _ _ _ 0 FreeChecked FreeTaken); reflexivity|].
  eapply rtc_l; [apply (one_thread_step _ _ _ 1 FreeChecked FreeTaken); reflexivity|].
  eapply rtc_l; [apply (one_thread_step _ _ _ 0 FreeTaken FreeDone); reflexivity|].
  eapply rtc_l; [apply (one_thread_step _ _ _ 1 FreeTaken FreedTwice); reflexivity|]. apply rtc_refl.
Qed.
