(* ===== verification/GoText.v ===== *)
(** * Text and numbers as the Go library writes them

    What the benchmark uses of [strings], [strconv] and [fmt]: splitting and
    searching text, padding to a width, and printing a [float64], with a fixed
    number of decimals ([%.1f]) or with the fewest digits that read back as the
    same number ([%g] and JSON).  A [float64] is a [spec_float] of 53 bits. *)

From Stdlib Require Import Floats.SpecFloat.
From S2P Require Import Prelude.

(** ** Text *)

(** [strings.Split] at a one-byte separator. *)
Fixpoint split_byte (sep : byte) (s : list byte) : list (list byte) :=
  match s with
  | [] => [[]]
  | b :: s =>
      if bool_decide (b = sep) then [] :: split_byte sep s
      else match split_byte sep s with
           | part :: parts => (b :: part) :: parts
           | [] => [[b]]
           end
  end.

Definition newline : byte := x0a.

Definition Split_lines (s : string) : list string :=
  String.string_of_list_byte <$> split_byte newline (String.list_byte_of_string s).

(** [strings.Index], [Contains], [HasPrefix], and the text from an index on. *)
Definition Index (s sub : string) : option nat := String.index 0 sub s.
Definition Contains (s sub : string) : bool := bool_decide (is_Some (Index s sub)).
Definition HasPrefix (s prefix : string) : bool := String.prefix prefix s.
Definition text_from (i : nat) (s : string) : string := String.substring i (String.length s - i) s.
Definition text_upto (i : nat) (s : string) : string := String.substring 0 i s.

(** The first occurrence of [old] replaced: [strings.Replace(s, old, new, 1)]. *)
Definition Replace_first (s old new : string) : string :=
  match Index s old with
  | Some i => text_upto i s +:+ new +:+ text_from (i + String.length old) s
  | None => s
  end.

Fixpoint repeat_text (n : nat) (s : string) : string :=
  match n with O => "" | S n => s +:+ repeat_text n s end.

(** The characters of a text in UTF-8: the bytes that do not continue one. *)
Definition rune_count (s : string) : nat :=
  length (filter (λ b, Z.land (byteZ b) 192 ≠ 128) (String.list_byte_of_string s)).

(** [%12s], [%-22s]. *)
Definition pad_left (width : nat) (s : string) : string := repeat_text (width - rune_count s) " " +:+ s.
Definition pad_right (width : nat) (s : string) : string := s +:+ repeat_text (width - rune_count s) " ".

(** ** Numbers *)

(** [a / b] to the nearest integer, ties to even. *)
Definition div_half_even (a b : Z) : Z :=
  let q := a / b in
  let r := a mod b in
  if 2 * r <? b then q
  else if b <? 2 * r then q + 1
  else if Z.even q then q else q + 1.

(** A finite number as a fraction. *)
Definition fraction (m : positive) (e : Z) : Z * Z :=
  if 0 <=? e then (Zpos m * 2 ^ e, 1) else (Zpos m, 2 ^ (- e)).

Definition sign_text (s : bool) : string := if s then "-" else "".

(** [q / 10^p] with [p] decimals. *)
Definition fixed_digits (p : nat) (q : Z) : string :=
  let s := pretty q in
  let s := repeat_text (S p - String.length s) "0" +:+ s in
  let n := (String.length s - p)%nat in
  match p with
  | O => s
  | _ => text_upto n s +:+ "." +:+ text_from n s
  end.

(** [%.pf]. *)
Definition fmt_fixed (p : nat) (x : spec_float) : string :=
  match x with
  | S754_nan => "NaN"
  | S754_infinity s => if s then "-Inf" else "+Inf"
  | S754_zero s => sign_text s +:+ fixed_digits p 0
  | S754_finite s m e =>
      let '(a, b) := fraction m e in
      sign_text s +:+ fixed_digits p (div_half_even (a * 10 ^ Z.of_nat p) b)
  end.

(** The [float64] nearest to a positive fraction. *)
Definition round_fraction (a b : Z) : spec_float :=
  let '(q, e, l) := SFdiv_core_binary 53 1024 a 0 b 0 in binary_round_aux 53 1024 false q e l.

Definition scale10 (k a b : Z) : Z * Z :=
  if 0 <=? k then (a * 10 ^ k, b) else (a, b * 10 ^ (- k)).

(** The position of the decimal point: the least [d] with [a / b < 10^d], searched
    upwards from below. *)
Fixpoint point_from (fuel : nat) (d a b : Z) : Z :=
  match fuel with
  | O => d
  | S fuel => let '(a', b') := scale10 (- d) a b in if a' <? b' then d else point_from fuel (d + 1) a b
  end.

(** [log10 2] is between 0.3010 and 0.3011, so the point is at most three places
    above the guess from the binary exponent. *)
Definition point (m : positive) (e a b : Z) : Z :=
  point_from 6 ((Zdigits2 (Zpos m) + e) * 3010 / 10000 - 2) a b.

(** Of the two decimals with [n] digits around the number, the nearest one that
    reads back as it. *)
Definition try_digits (x : spec_float) (a b d n : Z) : option Z :=
  let '(a', b') := scale10 (n - d) a b in
  let lo := a' / b' in
  let near := div_half_even a' b' in
  let far := if near =? lo then lo + 1 else lo in
  let ok c := (0 <? c) && let '(ca, cb) := scale10 (d - n) c 1 in SFeqb (round_fraction ca cb) x in
  if ok near then Some near else if ok far then Some far else None.

Fixpoint shortest_from (fuel : nat) (x : spec_float) (a b d n : Z) : Z * Z :=
  match fuel with
  | O => let '(a', b') := scale10 (17 - d) a b in (div_half_even a' b', 17)
  | S fuel =>
      match try_digits x a b d n with
      | Some q => (q, n)
      | None => shortest_from fuel x a b d (n + 1)
      end
  end.

(** The shortest digits of a positive number [0.d1d2... * 10^point]. *)
Definition strip_zeros (s : string) : string :=
  String.string_of_list_byte
    (rev ((fix drop l := match l with x30 :: l => drop l | _ => l end) (rev (String.list_byte_of_string s)))).

Definition shortest (m : positive) (e : Z) : string * Z :=
  let '(a, b) := fraction m e in
  let d := point m e a b in
  let '(q, n) := shortest_from 17 (S754_finite false m e) a b d 1 in
  (* rounding up to a power of ten moves the point *)
  let d := if 10 ^ n <=? q then d + 1 else d in
  (strip_zeros (pretty q), d).

(** The digits with the decimal point in place, without an exponent. *)
Definition plain_decimal (digits : string) (d : Z) : string :=
  let n := Z.of_nat (String.length digits) in
  if d <=? 0 then "0." +:+ repeat_text (Z.to_nat (- d)) "0" +:+ digits
  else if n <=? d then digits +:+ repeat_text (Z.to_nat (d - n)) "0"
  else text_upto (Z.to_nat d) digits +:+ "." +:+ text_from (Z.to_nat d) digits.

(** The same with one; exponents have at least two digits. *)
Definition exp_decimal (digits : string) (d : Z) : string :=
  let exp := d - 1 in
  let e := pretty (Z.abs exp) in
  text_upto 1 digits +:+
  (if (1 <? String.length digits)%nat then "." +:+ text_from 1 digits else "") +:+
  "e" +:+ (if exp <? 0 then "-" else "+") +:+
  (if (String.length e <? 2)%nat then "0" +:+ e else e).

(** [%g]: an exponent below -4 or of 6 and more is written out. *)
Definition fmt_g (x : spec_float) : string :=
  match x with
  | S754_nan => "NaN"
  | S754_infinity s => if s then "-Inf" else "+Inf"
  | S754_zero s => sign_text s +:+ "0"
  | S754_finite s m e =>
      let '(digits, d) := shortest m e in
      sign_text s +:+
      (if (d - 1 <? -4) || (6 <=? d - 1) then exp_decimal digits d else plain_decimal digits d)
  end.

Section Samples.
#[local] Definition num (a b : Z) : spec_float := round_fraction a b.

Example fixed_samples :
  fmt_fixed 1 (num 123456 1000) = "123.5" ∧ fmt_fixed 1 (num 1 4) = "0.2" ∧ fmt_fixed 1 (num 3 4) = "0.8" ∧
  fmt_fixed 0 (num 5 2) = "2" ∧ fmt_fixed 0 (num 1 3) = "0" ∧ fmt_fixed 1 (num 1000000000000 1) = "1000000000000.0".
Proof. by vm_compute. Qed.

Example g_samples :
  fmt_g (num 1 10) = "0.1" ∧ fmt_g (num 2000 1) = "2000" ∧ fmt_g (num 1000000 1) = "1e+06" ∧
  fmt_g (num 1234567 10) = "123456.7" ∧ fmt_g (num 1 3) = "0.3333333333333333" ∧ fmt_g (num 1 100000) = "1e-05" ∧
  fmt_g (num 123456789 1) = "1.23456789e+08" ∧ fmt_g (S754_zero false) = "0" ∧ fmt_g (num 5 1000000000000) = "5e-12" ∧
  fmt_g (num (2 ^ 1023) 1) = "8.98846567431158e+307" ∧ fmt_g (num 1 (2 ^ 1074)) = "5e-324" ∧ fmt_g (num 9007199254740993 1) = "9.007199254740992e+15".
Proof. by vm_compute. Qed.

End Samples.
