(* ===== verification/Paths.v ===== *)
(** * Paths

    [filepath.Clean], [Join] and [Dir] on a Unix host, which the benchmark uses to
    name directories and to walk up to the root of the repository.  A path is the
    list of its bytes. *)

From S2P Require Import Prelude.

Definition slash : byte := x2f.
Definition dot : list byte := [x2e].
Definition dotdot : list byte := [x2e; x2e].

(** The elements between slashes; never the empty list. *)
Fixpoint split_path (s : list byte) : list (list byte) :=
  match s with
  | [] => [[]]
  | b :: s =>
      if bool_decide (b = slash) then [] :: split_path s
      else match split_path s with
           | part :: parts => (b :: part) :: parts
           | [] => [[b]]
           end
  end.

(** The elements of a cleaned path: [rev_out] are those kept so far, last first. *)
Fixpoint clean_parts (rooted : bool) (parts rev_out : list (list byte)) : list (list byte) :=
  match parts with
  | [] => rev rev_out
  | part :: parts =>
      if bool_decide (part = []) || bool_decide (part = dot) then clean_parts rooted parts rev_out
      else if bool_decide (part = dotdot) then
        match rev_out with
        | last :: rest =>
            if bool_decide (last = dotdot) then clean_parts rooted parts (part :: rev_out)
            else clean_parts rooted parts rest
        | [] => clean_parts rooted parts (if rooted then [] else [part])
        end
      else clean_parts rooted parts (part :: rev_out)
  end.

Fixpoint join_parts (parts : list (list byte)) : list byte :=
  match parts with
  | [] => []
  | part :: parts =>
      match parts with
      | [] => part
      | _ => part ++ slash :: join_parts parts
      end
  end.

Definition is_rooted (path : list byte) : bool :=
  match path with b :: _ => bool_decide (b = slash) | [] => false end.

Definition Clean (path : list byte) : list byte :=
  let body := join_parts (clean_parts (is_rooted path) (split_path path) []) in
  if is_rooted path then slash :: body else if bool_decide (body = []) then dot else body.

Definition filepath_Clean (path : string) : string :=
  String.string_of_list_byte (Clean (String.list_byte_of_string path)).

(** [filepath.Join]: leading empty elements are skipped, the rest is joined and
    cleaned. *)
Fixpoint join_elems (elems : list (list byte)) : list byte :=
  match elems with
  | [] => []
  | e :: elems => if bool_decide (e = []) then join_elems elems else Clean (join_parts (e :: elems))
  end.

Definition filepath_Join (elems : list string) : string :=
  String.string_of_list_byte (join_elems (String.list_byte_of_string <$> elems)).

(** The path up to and including its last slash. *)
Fixpoint drop_name (rev_path : list byte) : list byte :=
  match rev_path with
  | [] => []
  | b :: l => if bool_decide (b = slash) then rev_path else drop_name l
  end.

Definition Dir (path : list byte) : list byte := Clean (rev (drop_name (rev path))).

Definition filepath_Dir (path : string) : string :=
  String.string_of_list_byte (Dir (String.list_byte_of_string path)).

(** What follows the last slash. *)
Definition file_name (path : string) : string :=
  let l := String.list_byte_of_string path in
  String.string_of_list_byte (drop (length (drop_name (rev l))) l).

Example file_names : file_name "out/report.json" = "report.json" ∧ file_name "r.json" = "r.json" ∧ file_name "/" = "".
Proof. by vm_compute. Qed.

Example join_names :
  filepath_Join ["/tmp/b/f4kvs_segment"; "chunk_batched"] = "/tmp/b/f4kvs_segment/chunk_batched" ∧
  filepath_Join ["runs/../x/"; "a"] = "x/a" ∧ filepath_Join [""; "a"] = "a" ∧
  filepath_Join ["/"; "../a"] = "/a" ∧ filepath_Join ["a"; ""; "b"] = "a/b" ∧ filepath_Join [""; ""] = "".
Proof. by vm_compute. Qed.

Example dir_names :
  filepath_Dir "/a/b" = "/a" ∧ filepath_Dir "/a/" = "/a" ∧ filepath_Dir "/a" = "/" ∧ filepath_Dir "/" = "/" ∧
  filepath_Dir "a" = "." ∧ filepath_Dir "" = "." ∧ filepath_Dir "../a/.." = "../a" ∧ filepath_Dir "a//b/" = "a/b".
Proof. by vm_compute. Qed.

(** ** Cleaning does not lengthen a path *)

(** The bytes of the elements with a slash before each. *)
Definition weight (parts : list (list byte)) : nat := sum_list_with (λ p, S (length p)) parts.

Lemma weight_rev parts : weight (rev parts) = weight parts.
Proof. unfold weight. by rewrite <-Permutation_rev. Qed.

Lemma weight_split path : weight (split_path path) = S (length path).
Proof.
  unfold weight. induction path as [|b path IH]; simpl; [done|]. case_bool_decide; simpl; [by rewrite IH|].
  destruct (split_path path) as [|p ps]; simpl in *; lia.
Qed.

Lemma split_slash path :
  split_path (path ++ [slash]) = split_path path ++ [[]].
Proof.
  induction path as [|b path IH]; simpl; [done|]. rewrite IH.
  case_bool_decide; [done|]. destruct (split_path path) eqn:E; [|done].
  apply (f_equal weight) in E. by rewrite weight_split in E.
Qed.

Lemma weight_clean rooted parts rev_out :
  (weight (clean_parts rooted parts rev_out) ≤ weight parts + weight rev_out)%nat.
Proof.
  revert rev_out. induction parts as [|p parts IH]; intros rev_out; simpl; [by rewrite weight_rev|].
  case_bool_decide; simpl; [etrans; [apply IH|]; lia|].
  case_bool_decide; simpl; [etrans; [apply IH|]; lia|].
  case_bool_decide; [|etrans; [apply IH|]; simpl; unfold weight in *; simpl; lia].
  destruct rev_out as [|l rest].
  - etrans; [apply IH|]. destruct rooted; simpl; unfold weight in *; simpl; lia.
  - case_bool_decide; (etrans; [apply IH|]); simpl; unfold weight in *; simpl; lia.
Qed.

Lemma length_join parts : length (join_parts parts) = pred (weight parts).
Proof.
  induction parts as [|p parts IH]; [done|]. cbn [join_parts].
  destruct parts as [|q parts]; [unfold weight; simpl; lia|].
  rewrite length_app. cbn [length]. rewrite IH. unfold weight. simpl. lia.
Qed.

Lemma clean_empty rooted parts rev_out :
  clean_parts rooted (parts ++ [[]]) rev_out = clean_parts rooted parts rev_out.
Proof.
  revert rev_out. induction parts as [|p parts IH]; intros rev_out; simpl; [done|].
  repeat case_match; by rewrite ?IH.
Qed.

(** The parent of a path is shorter, but for the fixed points and the paths of at
    most one byte. *)
Lemma Clean_slash path :
  path ≠ [] → (length (Clean (path ++ [slash])) ≤ length path)%nat.
Proof.
  intros Hne. unfold Clean. rewrite split_slash, clean_empty.
  assert (Hroot : is_rooted (path ++ [slash]) = is_rooted path) by by destruct path.
  rewrite Hroot. pose proof (weight_clean (is_rooted path) (split_path path) []) as Hw.
  rewrite weight_split in Hw. change (weight []) with O in Hw.
  destruct (is_rooted path) eqn:Hr; simpl.
  - (* a rooted path starts with an empty element, which is dropped *)
    destruct path as [|b path]; [done|]. simpl in Hr. apply bool_decide_eq_true in Hr as ->.
    cbn [split_path]. rewrite bool_decide_eq_true_2 by done. cbn [clean_parts].
    rewrite length_join. pose proof (weight_clean true (split_path path) []) as Hw'.
    rewrite weight_split in Hw'. change (weight []) with O in Hw'. simpl. lia.
  - case_bool_decide; [simpl; destruct path; [done|simpl; lia]|]. rewrite length_join. lia.
Qed.
