(* ===== verification/Json.v ===== *)
(** * JSON

    [json.Marshal] and [json.MarshalIndent] of [encoding/json] on the values the
    benchmark writes.  A value is the tree the encoder visits: structures are
    objects with their fields in order (an [omitempty] field with a zero value is
    left out by the caller), a nil slice is [JNull].

    Encoding fails on a number that is not finite.  The encoded text never contains
    a raw line break, which is what makes one value per line a format. *)

From Stdlib Require Import Floats.SpecFloat.
From S2P Require Import Prelude Utf8 GoText.

Inductive json_value :=
| JNull
| JBool (b : bool)
| JInt (z : Z)
| JFloat (x : spec_float)
| JString (s : string)
| JArray (l : list json_value)
| JObject (fields : list (string * json_value)).

(** ** Strings *)

Definition hex_digit (z : Z) : byte := if z <? 10 then Zbyte (48 + z) else Zbyte (87 + z).

(** [\u00xx]. *)
Definition escape_hex (b : byte) : list byte :=
  [x5c; x75; x30; x30; hex_digit (byteZ b / 16); hex_digit (byteZ b mod 16)].

(** A byte of one-byte characters; [<], [>] and [&] are escaped for HTML. *)
Definition escape_byte (b : byte) : list byte :=
  if bool_decide (b = x22) || bool_decide (b = x5c) then [x5c; b]
  else if bool_decide (b = x08) then [x5c; x62]
  else if bool_decide (b = x0c) then [x5c; x66]
  else if bool_decide (b = x0a) then [x5c; x6e]
  else if bool_decide (b = x0d) then [x5c; x72]
  else if bool_decide (b = x09) then [x5c; x74]
  else if (byteZ b <? 32) || bool_decide (b = x3c) || bool_decide (b = x3e) || bool_decide (b = x26)
  then escape_hex b
  else [b].

(** [\ufffd], for a byte that is not UTF-8. *)
Definition replacement : list byte := [x5c; x75; x66; x66; x66; x64].

(** Three-byte characters, with U+2028 and U+2029 escaped. *)
Definition escape_3 (b b2 b3 : byte) : list byte :=
  if bool_decide (b = xe2) && bool_decide (b2 = x80) && bool_decide (b3 = xa8)
  then [x5c; x75; x32; x30; x32; x38]
  else if bool_decide (b = xe2) && bool_decide (b2 = x80) && bool_decide (b3 = xa9)
  then [x5c; x75; x32; x30; x32; x39]
  else [b; b2; b3].

Fixpoint escape_text (l : list byte) : list byte :=
  match l with
  | [] => []
  | b :: l1 =>
      let bad (_ : unit) := replacement ++ escape_text l1 in
      let w := utf8_char_width b in
      if w =? 1 then escape_byte b ++ escape_text l1
      else match l1 with
      | b2 :: l2 =>
          if w =? 2 then if cont b2 then b :: b2 :: escape_text l2 else bad tt
          else match l2 with
          | b3 :: l3 =>
              if w =? 3 then
                if second_of_3 b b2 && cont b3 then escape_3 b b2 b3 ++ escape_text l3 else bad tt
              else match l3 with
              | b4 :: l4 =>
                  if (w =? 4) && second_of_4 b b2 && cont b3 && cont b4
                  then b :: b2 :: b3 :: b4 :: escape_text l4 else bad tt
              | [] => bad tt
              end
          | [] => bad tt
          end
      | [] => bad tt
      end
  end.

Definition quoted (s : string) : list byte :=
  x22 :: escape_text (String.list_byte_of_string s) ++ [x22].

(** ** Numbers *)

Definition bytes (s : string) : list byte := String.list_byte_of_string s.

(** Without an exponent between [1e-6] and [1e21]; the exponent has no leading
    zero. *)
Definition json_float (x : spec_float) : string + list byte :=
  match x with
  | S754_nan => inl "json: unsupported value: NaN"
  | S754_infinity s => inl ("json: unsupported value: " +:+ if s then "-Inf" else "+Inf")
  | S754_zero s => inr (bytes (sign_text s +:+ "0"))
  | S754_finite s m e =>
      let '(digits, d) := shortest m e in
      inr (bytes (sign_text s +:+
        (if (d <=? -6) || (22 <=? d) then
           text_upto 1 digits +:+
           (if (1 <? String.length digits)%nat then "." +:+ text_from 1 digits else "") +:+
           "e" +:+ (if d - 1 <? 0 then "-" else "+") +:+ pretty (Z.abs (d - 1))
         else plain_decimal digits d)))
  end.

(** ** Values *)

(** Elements with [sep] between them, the first error winning. *)
Fixpoint join_results (sep : list byte) (l : list (string + list byte)) : string + list byte :=
  match l with
  | [] => inr []
  | inl e :: _ => inl e
  | inr a :: l =>
      match join_results sep l with
      | inl e => inl e
      | inr b => inr (a ++ match l with [] => [] | _ => sep ++ b end)
      end
  end.

Definition map_result (f : list byte → list byte) (r : string + list byte) : string + list byte :=
  match r with inl e => inl e | inr a => inr (f a) end.

(** Encoding with [nl depth] after an opening bracket, after a comma and before a
    closing one, and [colon] after a key. *)
Section Encode.
Context (nl : nat → list byte) (colon : list byte).

Fixpoint encode (depth : nat) (j : json_value) : string + list byte :=
  match j with
  | JNull => inr (bytes "null")
  | JBool b => inr (bytes (if b then "true" else "false"))
  | JInt z => inr (bytes (pretty z))
  | JFloat x => json_float x
  | JString s => inr (quoted s)
  | JArray [] => inr (bytes "[]")
  | JArray l =>
      map_result (λ a, [x5b] ++ nl (S depth) ++ a ++ nl depth ++ [x5d])
        (join_results (x2c :: nl (S depth)) (encode (S depth) <$> l))
  | JObject [] => inr (bytes "{}")
  | JObject fields =>
      map_result (λ a, [x7b] ++ nl (S depth) ++ a ++ nl depth ++ [x7d])
        (join_results (x2c :: nl (S depth))
          ((λ kv : string * json_value, map_result (λ v, quoted kv.1 ++ colon ++ v) (encode (S depth) kv.2)) <$> fields))
  end.

End Encode.

Definition Marshal (j : json_value) : string + list byte := encode (λ _, []) [x3a] 0 j.

(** With the prefix empty and two spaces as indent. *)
Definition MarshalIndent (j : json_value) : string + list byte :=
  encode (λ depth, newline :: bytes (repeat_text depth "  ")) [x3a; x20] 0 j.

Example marshal_sample :
  Marshal (JObject [("a", JString (String.string_of_list_byte [x3c; x0a; x22; xff; xc3; xa9])); ("b", JArray [JInt (-3); JNull]);
                    ("c", JFloat (round_fraction 1 8)); ("d", JObject [])]) =
  inr (bytes "{" ++ quoted "a" ++ bytes ":" ++ [x22] ++ bytes "\u003c\n\" ++ [x22] ++ bytes "\ufffd" ++ [xc3; xa9; x22] ++
       bytes "," ++ quoted "b" ++ bytes ":[-3,null]," ++ quoted "c" ++ bytes ":0.125," ++ quoted "d" ++ bytes ":{}}").
Proof. by vm_compute. Qed.

Example indent_sample :
  MarshalIndent (JObject [("b", JArray [JInt 1; JBool true])]) =
  inr (bytes "{" ++ [newline] ++ bytes "  " ++ quoted "b" ++ bytes ": [" ++ [newline] ++ bytes "    1," ++ [newline] ++
       bytes "    true" ++ [newline] ++ bytes "  ]" ++ [newline] ++ bytes "}").
Proof. by vm_compute. Qed.

(** ** One line *)

Definition one_line (l : list byte) : Prop := newline ∉ l.

Definition plain_text (s : string) : Prop := one_line (bytes s).

Lemma one_line_app l1 l2 : one_line l1 → one_line l2 → one_line (l1 ++ l2).
Proof. unfold one_line. rewrite elem_of_app. tauto. Qed.

Lemma bytes_app s1 s2 : bytes (s1 +:+ s2) = bytes s1 ++ bytes s2.
Proof.
  unfold bytes, String.list_byte_of_string. rewrite <-map_app. f_equal.
  induction s1 as [|c s1 IH]; [done|]. simpl. by rewrite IH.
Qed.

Lemma plain_app s1 s2 : plain_text s1 → plain_text s2 → plain_text (s1 +:+ s2).
Proof. unfold plain_text. rewrite bytes_app. apply one_line_app. Qed.

Lemma plain_substring i n s : plain_text s → plain_text (String.substring i n s).
Proof.
  unfold plain_text, one_line, bytes. revert i n. induction s as [|c s IH]; intros i n Hs.
  - destruct i, n; simpl; set_solver.
  - simpl in Hs. destruct i as [|i]; [destruct n as [|n]|]; simpl; [set_solver| |].
    + apply not_elem_of_cons. split; [set_solver|]. apply IH. set_solver.
    + apply IH. set_solver.
Qed.

Lemma plain_repeat n s : plain_text s → plain_text (repeat_text n s).
Proof. intros Hs. induction n; simpl; [unfold plain_text, one_line; set_solver|]. by apply plain_app. Qed.

(** A text checked by evaluation. *)
Lemma plain_check s : bool_decide (newline ∈ bytes s) = false → plain_text s.
Proof. apply bool_decide_eq_false_1. Qed.

Lemma plain_digit n s : plain_text s → plain_text (String.String (pretty_N_char n) s).
Proof.
  intros Hs. change (String.String (pretty_N_char n) s) with (String.String (pretty_N_char n) "" +:+ s).
  apply plain_app; [|done].
  unfold pretty_N_char. repeat case_match; by apply plain_check.
Qed.

Lemma plain_pretty_N n s : plain_text s → plain_text (pretty_N_go n s).
Proof.
  revert s. induction (N.lt_wf_0 n) as [n _ IH]. intros s Hs.
  destruct (decide (0 < n)%N) as [Hn|Hn].
  - rewrite pretty_N_go_step by done. apply IH; [by apply N.div_lt|]. by apply plain_digit.
  - by replace n with 0%N by lia.
Qed.

Lemma plain_pretty (z : Z) : plain_text (pretty z).
Proof.
  assert (Hn : ∀ n : N, plain_text (pretty n)).
  { intros n. unfold pretty, pretty_N. case_decide; [by apply plain_check|]. apply plain_pretty_N. by apply plain_check. }
  unfold pretty, pretty_Z. destruct z as [|p|p]; [by apply plain_check|apply Hn|].
  by apply (plain_app "-"); [apply plain_check|apply Hn].
Qed.

Lemma plain_strip s : plain_text s → plain_text (strip_zeros s).
Proof.
  unfold plain_text, one_line, bytes, strip_zeros. rewrite bytes_of_string_of_bytes. intros Hs Hin. apply Hs.
  rewrite <-(rev_involutive (String.list_byte_of_string s)).
  apply list_elem_of_In, in_rev in Hin. apply list_elem_of_In, in_rev. rewrite rev_involutive.
  revert Hin. generalize (rev (String.list_byte_of_string s)). intros l. induction l as [|b l IH]; [done|].
  intros Hin. simpl. destruct b; simpl in *; tauto.
Qed.

Create HintDb plain.
#[local] Hint Resolve plain_app plain_substring plain_repeat plain_pretty plain_strip : plain.
#[local] Hint Extern 5 (plain_text _) => apply plain_check; reflexivity : plain.

Lemma plain_decimal_plain digits d : plain_text digits → plain_text (plain_decimal digits d).
Proof. intros Hd. unfold plain_decimal, text_upto, text_from. repeat case_match; auto 10 with plain. Qed.

Lemma shortest_plain m e : plain_text (shortest m e).1.
Proof.
  unfold shortest. destruct (fraction m e) as [a b]. destruct (shortest_from _ _ _ _ _ _) as [q n].
  simpl. auto with plain.
Qed.

Lemma plain_sign s : plain_text (sign_text s).
Proof. destruct s; auto with plain. Qed.

Lemma json_float_line x l : json_float x = inr l → one_line l.
Proof.
  destruct x as [s|s| |s m e]; simpl; try done.
  - intros [= <-]. apply plain_app; [apply plain_sign|auto with plain].
  - pose proof (shortest_plain m e) as Hd. destruct (shortest m e) as [digits d]. simpl in Hd.
    intros [= <-]. apply plain_app; [apply plain_sign|]. unfold text_upto, text_from.
    case_match; [|by apply plain_decimal_plain]. repeat case_match; auto 10 with plain.
Qed.

Lemma hex_digit_not_nl z : 0 ≤ z < 16 → hex_digit z ≠ newline.
Proof.
  intros Hz. assert (Hall : Forall (λ z, hex_digit z ≠ newline) (seqZ 0 16))
    by (apply (bool_decide_unpack _); by vm_compute).
  rewrite Forall_forall in Hall. apply Hall, elem_of_seqZ. lia.
Qed.

Lemma high_not_nl b : 128 ≤ byteZ b → b ≠ newline.
Proof. intros Hb ->. by vm_compute in Hb. Qed.

Lemma escape_byte_line b : one_line (escape_byte b).
Proof.
  unfold one_line, escape_byte. pose proof (byteZ_range b) as Hb.
  destruct (decide (b = newline)) as [->|Hn]; [apply (bool_decide_unpack _); by vm_compute|].
  repeat case_match; unfold escape_hex; rewrite ?not_elem_of_cons; split_and?; try done;
    try (by apply not_elem_of_nil); try (apply not_eq_sym; by auto);
    apply not_eq_sym, hex_digit_not_nl; [split; [by apply Z.div_pos; lia|by apply Z.div_lt_upper_bound; lia]|].
  by apply Z.mod_pos_bound.
Qed.

Lemma one_line_cons b l : b ≠ newline → one_line l → one_line (b :: l).
Proof. unfold one_line. rewrite not_elem_of_cons. intros. by split. Qed.

Lemma between_ge lo hi b : between lo hi b = true → lo ≤ byteZ b.
Proof. unfold between. lia. Qed.

Lemma cont_not_nl b : cont b = true → b ≠ newline.
Proof. intros H%between_ge. by apply high_not_nl. Qed.

Lemma lead_not_nl b : (utf8_char_width b =? 1) = false → b ≠ newline.
Proof. intros H ->. by vm_compute in H. Qed.

Lemma second_3_not_nl b b2 : second_of_3 b b2 = true → b2 ≠ newline.
Proof. unfold second_of_3. intros H. apply high_not_nl. repeat case_match; apply between_ge in H; lia. Qed.

Lemma second_4_not_nl b b2 : second_of_4 b b2 = true → b2 ≠ newline.
Proof. unfold second_of_4. intros H. apply high_not_nl. repeat case_match; apply between_ge in H; lia. Qed.

Lemma replacement_line : one_line replacement.
Proof. apply (bool_decide_unpack _). by vm_compute. Qed.

Lemma escape_3_line b b2 b3 : b ≠ newline → b2 ≠ newline → b3 ≠ newline → one_line (escape_3 b b2 b3).
Proof.
  intros. unfold escape_3. repeat case_match; repeat apply one_line_cons; try done;
    try (by apply not_elem_of_nil).
Qed.

Lemma escape_text_line l : one_line (escape_text l).
Proof.
  assert (Hall : ∀ n l, (length l ≤ n)%nat → one_line (escape_text l)).
  2: { by apply (Hall (length l)). }
  clear l. intros n. induction n as [|n IH]; intros l Hl; (destruct l as [|b l1]; [by apply not_elem_of_nil|]);
    simpl in Hl; [lia|].
  cbn [escape_text]. assert (H1 : one_line (escape_text l1)) by (apply IH; lia).
  assert (Hbad : one_line (replacement ++ escape_text l1)) by (apply one_line_app; [apply replacement_line|done]).
  destruct (utf8_char_width b =? 1) eqn:Hw; [by apply one_line_app; [apply escape_byte_line|]|]. apply lead_not_nl in Hw.
  destruct l1 as [|b2 l2]; [done|]. simpl in Hl.
  case_match; [case_match; [|done]; do 2 (apply one_line_cons; [by auto using cont_not_nl|]); apply IH; lia|].
  destruct l2 as [|b3 l3]; [done|]. simpl in Hl.
  case_match; [case_match eqn:Hs; [|done]; apply andb_true_iff in Hs as [? ?];
               apply one_line_app; [|apply IH; lia];
               apply escape_3_line; [done|by eapply second_3_not_nl|by apply cont_not_nl]|].
  destruct l3 as [|b4 l4]; [done|]. simpl in Hl.
  case_match eqn:Hs; [|done]. rewrite !andb_true_iff in Hs. destruct Hs as [[[_ ?] ?] ?].
  do 4 (apply one_line_cons; [by eauto using cont_not_nl, second_4_not_nl|]). apply IH. lia.
Qed.

Lemma quoted_line s : one_line (quoted s).
Proof.
  apply one_line_cons; [done|]. apply one_line_app; [apply escape_text_line|].
  apply one_line_cons; [done|apply not_elem_of_nil].
Qed.

(** Induction with the hypothesis for the elements of arrays and objects. *)
Lemma json_value_deep_ind (Q : json_value → Prop) :
  Q JNull → (∀ b, Q (JBool b)) → (∀ z, Q (JInt z)) → (∀ x, Q (JFloat x)) → (∀ s, Q (JString s)) →
  (∀ l, Forall Q l → Q (JArray l)) → (∀ fields, Forall (λ kv, Q kv.2) fields → Q (JObject fields)) →
  ∀ j, Q j.
Proof.
  intros H1 H2 H3 H4 H5 H6 H7. fix go 1. intros [|b|z|x|s|l|fields].
  - exact H1.
  - apply H2.
  - apply H3.
  - apply H4.
  - apply H5.
  - apply H6. induction l as [|j l IHl]; constructor; [apply go|apply IHl].
  - apply H7. induction fields as [|[k j] l IHl]; constructor; [apply go|apply IHl].
Qed.

Lemma join_results_line sep l a :
  one_line sep → (∀ x, inr x ∈ l → one_line x) → join_results sep l = inr a → one_line a.
Proof.
  intros Hsep. revert a. induction l as [|[e|x] l IH]; intros a Hl; simpl.
  - intros [= <-]. apply not_elem_of_nil.
  - done.
  - destruct (join_results sep l) as [|b]; [done|]. intros [= <-].
    apply one_line_app; [apply Hl; by left|]. destruct l; [apply not_elem_of_nil|].
    apply one_line_app; [done|]. apply IH; [|done]. intros y Hy. apply Hl. by right.
Qed.

Lemma map_result_inr f r a : map_result f r = inr a → ∃ b, r = inr b ∧ a = f b.
Proof. destruct r; simpl; [done|]. intros [= <-]. eauto. Qed.

Lemma encode_line depth j a : encode (λ _, []) [x3a] depth j = inr a → one_line a.
Proof.
  revert depth a. induction j as [|b|z|x|s|l IH|fields IH] using json_value_deep_ind; intros depth a.
  - intros [= <-]. by apply plain_check.
  - intros [= <-]. by destruct b; apply plain_check.
  - intros [= <-]. apply plain_pretty.
  - apply json_float_line.
  - intros [= <-]. apply quoted_line.
  - destruct l as [|j0 l0]; [intros [= <-]; by apply plain_check|]. set (l := j0 :: l0) in *.
    change (encode _ _ depth (JArray l)) with
      (map_result (λ a, [x5b] ++ [] ++ a ++ [] ++ [x5d]) (join_results [x2c] (encode (λ _, []) [x3a] (S depth) <$> l))).
    intros (b & Hb & ->)%map_result_inr. apply join_results_line in Hb.
    + cbn [app]. apply one_line_cons; [done|]. apply one_line_app; [done|]. apply one_line_cons; [done|apply not_elem_of_nil].
    + apply one_line_cons; [done|apply not_elem_of_nil].
    + intros y (j & Hy & Hj)%list_elem_of_fmap. rewrite Forall_forall in IH. by eapply IH.
  - destruct fields as [|j0 l0]; [intros [= <-]; by apply plain_check|]. set (l := j0 :: l0) in *.
    change (encode _ _ depth (JObject l)) with
      (map_result (λ a, [x7b] ++ [] ++ a ++ [] ++ [x7d]) (join_results [x2c]
        ((λ kv : string * json_value, map_result (λ v, quoted kv.1 ++ [x3a] ++ v) (encode (λ _, []) [x3a] (S depth) kv.2)) <$> l))).
    intros (b & Hb & ->)%map_result_inr. apply join_results_line in Hb.
    + cbn [app]. apply one_line_cons; [done|]. apply one_line_app; [done|]. apply one_line_cons; [done|apply not_elem_of_nil].
    + apply one_line_cons; [done|apply not_elem_of_nil].
    + intros y ([k j] & Hy & Hj)%list_elem_of_fmap. symmetry in Hy. apply map_result_inr in Hy as (v & Hv & ->).
      apply one_line_app; [apply quoted_line|]. apply one_line_cons; [done|].
      rewrite Forall_forall in IH. by eapply (IH (k, j)).
Qed.

Lemma Marshal_line j a : Marshal j = inr a → one_line a.
Proof. apply encode_line. Qed.

(** ** Lines *)

(** A file of lines, each ended by a line break. *)
Definition lines_file (lines : list (list byte)) : list byte := concat ((λ l, l ++ [newline]) <$> lines).

(** Splitting it at the line breaks gives the lines back, and nothing after the
    last one. *)
Lemma split_lines_file lines :
  Forall one_line lines → split_byte newline (lines_file lines) = lines ++ [[]].
Proof.
  assert (Hcons : ∀ l rest, one_line l → split_byte newline (l ++ newline :: rest) = l :: split_byte newline rest).
  { intros l rest Hl. induction l as [|b l IH]; cbn [app split_byte].
    - by rewrite bool_decide_eq_true_2.
    - apply not_elem_of_cons in Hl as [Hb Hl]. by rewrite bool_decide_eq_false_2, IH by auto. }
  induction 1 as [|l lines Hl _ IH]; [done|]. unfold lines_file in *. csimpl. rewrite <-app_assoc.
  cbn [app]. by rewrite Hcons, IH.
Qed.
