(* ===== verification/Harness.v ===== *)
(** * The benchmark harness: profiles, keys and batch sizes

    The logic of [bench/embed_vs_sqlite/main.go] that decides what is run and with
    which options: profile selection, the keys and payloads, the size of a batch
    and the options that make the engine accept it, and the loop that feeds a list
    of keys to the engine in slices.

    A Go [map[string]bool] used as a set is a [gset]. *)

From S2P Require Import Prelude Engine Utf8 Options Ffi Binding FfiFacts BindingFacts Session Semantics Concrete.

(** ** Text helpers of the Go library *)

Definition is_ascii_space (b : byte) : bool :=
  let z := byteZ b in (z =? 32) || ((9 <=? z) && (z <=? 13)).

(** The white space of [unicode.IsSpace] outside ASCII, as UTF-8. *)
Definition is_space2 (b1 b2 : byte) : bool :=
  (byteZ b1 =? 194) && ((byteZ b2 =? 133) || (byteZ b2 =? 160)).
Definition is_space3 (b1 b2 b3 : byte) : bool :=
  let '(x, y, z) := (byteZ b1, byteZ b2, byteZ b3) in
  ((x =? 225) && (y =? 154) && (z =? 128)) ||
  ((x =? 226) && (y =? 128) && (((128 <=? z) && (z <=? 138)) || (z =? 168) || (z =? 169) || (z =? 175))) ||
  ((x =? 226) && (y =? 129) && (z =? 159)) ||
  ((x =? 227) && (y =? 128) && (z =? 128)).

(** Dropping white space from the front of a text ([flip] reads the bytes of a
    multi-byte character backwards, for the reversed text). *)
Fixpoint trim_front (flip : bool) (l : list byte) : list byte :=
  match l with
  | [] => []
  | b1 :: l1 =>
      if is_ascii_space b1 then trim_front flip l1
      else match l1 with
           | [] => l
           | b2 :: l2 =>
               if (if flip then is_space2 b2 b1 else is_space2 b1 b2) then trim_front flip l2
               else match l2 with
                    | [] => l
                    | b3 :: l3 =>
                        if (if flip then is_space3 b3 b2 b1 else is_space3 b1 b2 b3)
                        then trim_front flip l3 else l
                    end
           end
  end.

(** [strings.TrimSpace]. *)
Definition TrimSpace (s : string) : string :=
  String.string_of_list_byte
    (rev (trim_front true (rev (trim_front false (String.list_byte_of_string s))))).

(** [strings.Split(s, ",")]. *)
Fixpoint split_comma (l : list byte) : list (list byte) :=
  match l with
  | [] => [[]]
  | b :: l =>
      if decide (b = x2c) then [] :: split_comma l
      else match split_comma l with
           | [] => [[b]]
           | part :: parts => (b :: part) :: parts
           end
  end.

Definition Split_comma (s : string) : list string :=
  String.string_of_list_byte <$> split_comma (String.list_byte_of_string s).

(** ** Profiles *)

Definition knownProfiles : list string :=
  ["f4kvs_wal_segment"; "f4kvs_wal_frame"; "f4kvs_wal_indexed"; "f4kvs_group_commit_1ms";
   "f4kvs_group_commit_10ms"; "f4kvs_group_commit_idle"; "sqlite_wal_full"; "sqlite_wal_normal"].

Definition productProfiles : list string := ["f4kvs_wal_segment"; "sqlite_wal_full"].

Definition durableCompareProfiles : list string :=
  ["f4kvs_wal_segment"; "f4kvs_group_commit_1ms"; "sqlite_wal_full"; "sqlite_wal_normal"].

(** Adding every name of a list to the set. *)
Definition add_all (names : list string) (out : gset string) : gset string :=
  foldl (λ out p, {[p]} ∪ out) out names.

(** The loop over the comma-separated parts. *)
Fixpoint parse_parts (parts : list string) (out : gset string) : GoError + gset string :=
  match parts with
  | [] => if bool_decide (out = ∅) then inl (Errorf "empty profiles after parse" []) else inr out
  | part :: parts =>
      let name := TrimSpace part in
      if bool_decide (name = "") then parse_parts parts out
      else if bool_decide (name = "all") then inr {["all"]}
      else if bool_decide (name = "product") then parse_parts parts (add_all productProfiles out)
      else if bool_decide (name = "durable_compare") then
        parse_parts parts (add_all durableCompareProfiles out)
      else if bool_decide (name ∈ knownProfiles) then parse_parts parts ({[name]} ∪ out)
      else inl (Errorf "unknown profile %q (want all|product|durable_compare|%s)"
                  [name; String.concat "," knownProfiles])
  end.

Definition parseProfiles (s : string) : GoError + gset string :=
  let s := TrimSpace s in
  if bool_decide (s = "") || bool_decide (s = "all") then inr {["all"]}
  else if bool_decide (s = "product") then inr (add_all productProfiles ∅)
  else if bool_decide (s = "durable_compare") then inr (add_all durableCompareProfiles ∅)
  else parse_parts (Split_comma s) ∅.

Definition wantProfile (want : gset string) (name : string) : bool :=
  bool_decide ("all" ∈ want) || bool_decide (name ∈ want).

Definition selectedProfileNames (want : gset string) : list string :=
  if bool_decide ("all" ∈ want) then knownProfiles
  else filter (λ p, p ∈ want) knownProfiles.

(** The part of [main] that replaces "all" by the known names. *)
Definition expand_all (includeRelaxed : bool) (want : gset string) : gset string :=
  if bool_decide ("all" ∈ want) then
    let want := add_all knownProfiles ∅ in
    if includeRelaxed then want else want ∖ {["sqlite_wal_normal"]}
  else want.

Definition usesGroupCommit (opts : option OpenOptions) : bool :=
  match opts with
  | None => false
  | Some o => GroupCommitEnabled o || (WalDurabilitySel o =? WalDurabilityAmortized)
  end.

Definition sqliteDSN (journal synchronous : string) : string :=
  "file:kv?_pragma=journal_mode(" +:+ journal +:+ ")&_pragma=synchronous(" +:+ synchronous +:+
  ")&_pragma=foreign_keys(1)&_pragma=busy_timeout(5000)".

(** ** Lemmas on sets of names *)

Lemma elem_of_add_all names out p : p ∈ add_all names out ↔ p ∈ names ∨ p ∈ out.
Proof.
  revert out. induction names as [|n names IH]; intros out; simpl; [set_solver|].
  unfold add_all in *. simpl. rewrite IH. set_solver.
Qed.

(** Sets a successful parse gives: "all" alone, or known names. *)
Definition profile_set (want : gset string) : Prop :=
  want = {["all"]} ∨ (want ≠ ∅ ∧ ∀ p, p ∈ want → p ∈ knownProfiles).

Lemma product_known p : p ∈ productProfiles → p ∈ knownProfiles.
Proof. unfold productProfiles, knownProfiles. set_solver. Qed.

Lemma durable_known p : p ∈ durableCompareProfiles → p ∈ knownProfiles.
Proof. unfold durableCompareProfiles, knownProfiles. set_solver. Qed.

Lemma parse_parts_known parts out want :
  (∀ p, p ∈ out → p ∈ knownProfiles) → parse_parts parts out = inr want → profile_set want.
Proof.
  revert out. induction parts as [|part parts IH]; intros out Hout; cbn [parse_parts].
  - case_bool_decide as He; [done|]. intros [= <-]. by right.
  - repeat case_bool_decide; try done.
    + by apply IH.
    + intros [= <-]. by left.
    + apply IH. intros p. rewrite elem_of_add_all. intros [?|?]; [by apply product_known|by apply Hout].
    + apply IH. intros p. rewrite elem_of_add_all. intros [?|?]; [by apply durable_known|by apply Hout].
    + apply IH. set_solver.
Qed.

Lemma profile_set_names names p0 :
  p0 ∈ names → (∀ p, p ∈ names → p ∈ knownProfiles) → profile_set (add_all names ∅).
Proof.
  intros H0 Hk. right. split.
  - intros He. apply (elem_of_empty (C := gset string) p0). rewrite <-He. apply elem_of_add_all. by left.
  - intros p. rewrite elem_of_add_all. intros [Hp|?%elem_of_empty]; [by apply Hk|done].
Qed.

Lemma parseProfiles_known s want : parseProfiles s = inr want → profile_set want.
Proof.
  unfold parseProfiles. destruct (_ || _); [intros [= <-]; by left|].
  case_bool_decide; [|case_bool_decide].
  - intros H1. injection H1 as Hw. rewrite <-Hw.
    apply (profile_set_names productProfiles "f4kvs_wal_segment"); [by left|apply product_known].
  - intros H1. injection H1 as Hw. rewrite <-Hw.
    apply (profile_set_names durableCompareProfiles "f4kvs_wal_segment"); [by left|apply durable_known].
  - apply parse_parts_known. set_solver.
Qed.

(** ** Batch sizes *)

Definition engineMaxBatchDefault : Z := 10000.

Definition resolveBatchPutSize (nKeys size : Z) : Z :=
  if (size <=? 0) || (nKeys <=? size) then nKeys else size.

Definition zero_options : OpenOptions := mkOpenOptions false 0 0 false 0 0 0 0 0 0 0 0 0.

Definition with_max_batch (o : OpenOptions) (z : Z) : OpenOptions :=
  mkOpenOptions (GroupCommitEnabled o) (GroupCommitMaxWaitMs o) (GroupCommitMaxBatchSz o)
    (GroupCommitWaitDurable o) (WalEngineSel o) (WalDurabilitySel o) (GroupCommitIdleFlushMs o)
    z (CompactionBackground o) (MaxSSTablesPerLevel o) (MemtableMaxSize o) (SstableTargetSize o)
    (SstableMaxSize o).

(** [globalBatchPutSize] is the argument [size]. *)
Definition openOptsForProfile (size : Z) (base : option OpenOptions) (nKeys : Z) : option OpenOptions :=
  let need := resolveBatchPutSize nKeys size in
  if (need <=? engineMaxBatchDefault) &&
     match base with None => true | Some b => MaxBatchSize b =? 0 end
  then base
  else
    let opts := match base with None => zero_options | Some b => b end in
    Some (if (MaxBatchSize opts =? 0) || (MaxBatchSize opts <? need)
          then with_max_batch opts (to_uint32 need) else opts).

(** The items of one slice: every key with the payload. *)
Definition slice_items (keys : list string) (payload : goslice) : gmap string goslice :=
  foldl (λ items key, <[key := payload]> items) ∅ keys.

Section Slices.
Context `{L : LsmEngine} {P : Platform} {G : GoRuntime}.

(** The loop of [batchPutBytesChunked] over the keys still to do. *)
Fixpoint put_slices (fuel : nat) (e : nat) (step : nat) (keys : list string) (payload : goslice)
    : M World (option GoError) :=
  match fuel, keys with
  | O, _ | _, [] => mret None
  | S fuel, _ =>
      let! err := BatchPutBytes e (slice_items (take step keys) payload) in
      match err with
      | Some err => mret (Some err)
      | None => put_slices fuel e step (drop step keys) payload
      end
  end.

Definition batchPutBytesChunked (size : Z) (e : nat) (keys : list string) (payload : goslice)
    : M World (option GoError) :=
  let step := resolveBatchPutSize (zlen keys) size in
  let step := if step <=? 0 then zlen keys else step in
  put_slices (length keys) e (Z.to_nat step) keys payload.

End Slices.

Lemma lookup_slice_items keys payload k :
  slice_items keys payload !! k = if decide (k ∈ keys) then Some payload else None.
Proof.
  unfold slice_items.
  assert (H : ∀ m : gmap string goslice, foldl (λ items key, <[key := payload]> items) m keys !! k =
    if decide (k ∈ keys) then Some payload else m !! k).
  { induction keys as [|key keys IH]; intros m; simpl; [done|].
    rewrite IH. destruct (decide (k ∈ keys)); [by rewrite decide_True by set_solver|].
    destruct (decide (k = key)) as [->|Hne].
    - by rewrite lookup_insert_eq, decide_True by set_solver.
    - by rewrite lookup_insert_ne, decide_False by set_solver. }
  by rewrite H, lookup_empty.
Qed.

Section SliceFacts.
Context `{L : LsmEngine} {Laws : LsmLaws L}.
Context {P : Platform} {POk : PlatformOk P} {G : GoRuntime} {GOk : GoRuntimeOk G}.
Implicit Types (w : World) (e : nat) (o : F4KVS).

(** What a list of keys with one payload adds to a store. *)
Definition payload_map (keys : list string) (payload : goslice) : gmap string (Value json) :=
  (λ v, VBytes (slice_bytes v)) <$> slice_items keys payload.

Lemma payload_map_split keys1 keys2 payload (m : gmap string (Value json)) :
  payload_map keys2 payload ∪ (payload_map keys1 payload ∪ m) = payload_map (keys1 ++ keys2) payload ∪ m.
Proof.
  apply map_eq. intros k. unfold payload_map. rewrite !lookup_union, !lookup_fmap, !lookup_slice_items.
  destruct (decide (k ∈ keys1 ++ keys2)) as [Hin|Hin]; rewrite elem_of_app in Hin;
    destruct (decide (k ∈ keys1)), (decide (k ∈ keys2)); try tauto; by destruct (m !! k).
Qed.

Lemma payload_map_nil payload (m : gmap string (Value json)) : payload_map [] payload ∪ m = m.
Proof. unfold payload_map, slice_items. simpl. by rewrite fmap_empty, (left_id_L ∅ (∪)). Qed.

(** The loop ends, and when it reports no error every key has been put. *)
Lemma put_slices_ends fuel w e o g step keys payload :
  live w e o g → wf (proc w) → (0 < step)%nat → (length keys ≤ fuel)%nat → Forall plain_key keys →
  ends (λ r w', ∃ g', stepped w' e o g' ∧ lsm_config g' = lsm_config g ∧
          (r = None → contents g' = payload_map keys payload ∪ contents g))
       (λ _, False) (put_slices fuel e step keys payload w).
Proof.
  revert w g keys. induction fuel as [|fuel IH]; intros w g keys Hl Hwf Hstep Hlen Hplain.
  - destruct keys; [|simpl in *; lia]. exists g. split; [by split|]. split; [done|]. intros _. by rewrite payload_map_nil.
  - destruct keys as [|k0 keys0]; [exists g; split; [by split|]; split; [done|]; intros _; by rewrite payload_map_nil|].
    cbn [put_slices]. set (keys := k0 :: keys0) in *.
    eapply ends_bind; [eapply (BatchPutBytes_ends w e o g); [done|done|]|].
    + intros key [v Hv]. rewrite lookup_slice_items in Hv. case_decide as Hin; [|done].
      rewrite Forall_forall in Hplain. apply Hplain. rewrite <-(take_drop step keys). set_solver.
    + intros [er|] w1 (g1 & [Hl1 Hwf1] & Hcf & Hc1); [by exists g1|]. specialize (Hc1 eq_refl).
      eapply ends_impl; [apply (IH w1 g1); try done|].
      * rewrite length_drop. simpl in *. lia.
      * by apply Forall_drop.
      * intros r w' (g' & Hs & Hcf' & Hc). exists g'. split; [done|]. split; [congruence|].
        intros Hr. rewrite (Hc Hr), Hc1.
        fold (payload_map (take step keys) payload). by rewrite payload_map_split, take_drop.
Qed.

Lemma chunked_ends size w e o g keys payload :
  live w e o g → wf (proc w) → Forall plain_key keys →
  ends (λ r w', ∃ g', stepped w' e o g' ∧ lsm_config g' = lsm_config g ∧
          (r = None → contents g' = payload_map keys payload ∪ contents g))
       (λ _, False) (batchPutBytesChunked size e keys payload w).
Proof.
  intros Hl Hwf Hp. unfold batchPutBytesChunked.
  destruct keys as [|k keys]; [exists g; split; [by split|]; split; [done|]; intros _; by rewrite payload_map_nil|].
  apply put_slices_ends; try done. unfold resolveBatchPutSize, zlen. simpl length.
  repeat case_match; lia.
Qed.

End SliceFacts.

(** ** Keys *)

Definition digit (d : Z) : byte := Zbyte (48 + d).

Fixpoint dec (fuel : nat) (n : Z) : list byte :=
  match fuel with
  | O => []
  | S fuel => if n <? 10 then [digit n] else dec fuel (n / 10) ++ [digit (n mod 10)]
  end.

(** [%d] of a non-negative integer, and [%04d], [%06d]: zeros in front. *)
Definition itoa (n : Z) : list byte := dec (S (Z.to_nat (Z.log2 n))) n.
Definition pad (width : nat) (l : list byte) : list byte := replicate (width - length l) x30 ++ l.

Definition memoir_key (i : Z) : string :=
  String.string_of_list_byte (String.list_byte_of_string "memoir:" ++ pad 4 (itoa i)).

Definition chunk_key (i : Z) : string :=
  String.string_of_list_byte
    (String.list_byte_of_string "chunk:legal:doc-" ++ pad 4 (itoa (i / 10)) ++
     String.list_byte_of_string ":chunk-" ++ pad 6 (itoa i)).

(** The key slices of [main], for counts that are not negative ([make] panics on a
    negative one). *)
Definition memoirKeys (n : Z) : list string := memoir_key <$> seqZ 0 n.
Definition chunkKeys (n : Z) : list string := chunk_key <$> seqZ 0 n.

(** Reading digits back. *)
Definition is_digit (b : byte) : bool := (48 <=? byteZ b) && (byteZ b <=? 57).
Definition dec_value (l : list byte) : Z := foldl (λ a b, 10 * a + (byteZ b - 48)) 0 l.

Fixpoint take_digits (l : list byte) : list byte :=
  match l with
  | [] => []
  | b :: l => if is_digit b then b :: take_digits l else []
  end.

Definition digit_suffix (l : list byte) : list byte := rev (take_digits (rev l)).

Lemma byteZ_digit d : 0 ≤ d < 10 → byteZ (digit d) = 48 + d.
Proof. intros Hd. unfold digit. rewrite byteZ_Zbyte. apply Z.mod_small. lia. Qed.

Lemma is_digit_digit d : 0 ≤ d < 10 → is_digit (digit d) = true.
Proof. intros Hd. unfold is_digit. rewrite byteZ_digit by done. apply andb_true_iff. lia. Qed.

Lemma dec_value_snoc l b : dec_value (l ++ [b]) = 10 * dec_value l + (byteZ b - 48).
Proof. unfold dec_value. by rewrite foldl_app. Qed.

Lemma dec_spec fuel n :
  0 ≤ n < 10 ^ Z.of_nat fuel → (0 < fuel)%nat →
  dec_value (dec fuel n) = n ∧ Forall (λ b, is_digit b = true) (dec fuel n).
Proof.
  revert n. induction fuel as [|fuel IH]; intros n Hn Hf; [lia|]. cbn [dec].
  destruct (Z.ltb_spec n 10) as [Hlt|Hge].
  - split; [|constructor; [apply is_digit_digit; lia|constructor]].
    unfold dec_value. simpl. rewrite byteZ_digit; lia.
  - rewrite Nat2Z.inj_succ, Z.pow_succ_r in Hn by lia.
    assert (Hq : 0 ≤ n / 10 < 10 ^ Z.of_nat fuel)
      by (split; [apply Z.div_pos; lia|apply Z.div_lt_upper_bound; lia]).
    assert (Hfuel : (0 < fuel)%nat) by (destruct fuel; [simpl in Hn; lia|lia]).
    destruct (IH _ Hq Hfuel) as [Hv Hd]. pose proof (Z.mod_pos_bound n 10).
    rewrite dec_value_snoc, Hv, byteZ_digit by lia. split; [pose proof (Z.div_mod n 10); lia|].
    apply Forall_app. split; [done|]. constructor; [apply is_digit_digit; lia|constructor].
Qed.

Lemma itoa_spec n :
  0 ≤ n → dec_value (itoa n) = n ∧ Forall (λ b, is_digit b = true) (itoa n).
Proof.
  intros Hn. apply dec_spec; [|lia]. split; [done|].
  rewrite Nat2Z.inj_succ, Z2Nat.id by apply Z.log2_nonneg.
  destruct (decide (n = 0)) as [->|H0]; [done|]. pose proof (Z.log2_spec n ltac:(lia)) as [_ Hlt].
  eapply Z.lt_le_trans; [exact Hlt|]. apply Z.pow_le_mono_l. lia.
Qed.

Lemma pad_spec width n :
  0 ≤ n → dec_value (pad width (itoa n)) = n ∧ Forall (λ b, is_digit b = true) (pad width (itoa n)).
Proof.
  intros Hn. destruct (itoa_spec n Hn) as [Hv Hd]. unfold pad. split.
  - unfold dec_value in *. rewrite foldl_app. generalize (width - length (itoa n))%nat.
    intros k. induction k as [|k IH]; simpl; done.
  - apply Forall_app. split; [|done]. by apply Forall_replicate.
Qed.

Lemma take_digits_app l b rest :
  Forall (λ b, is_digit b = true) l → is_digit b = false → take_digits (l ++ b :: rest) = l.
Proof. intros Hl Hb. induction Hl as [|c l Hc _ IH]; simpl; [by rewrite Hb|]. by rewrite Hc, IH. Qed.

Lemma digit_suffix_app l b ds :
  Forall (λ b, is_digit b = true) ds → is_digit b = false → digit_suffix (l ++ b :: ds) = ds.
Proof.
  intros Hds Hb. unfold digit_suffix. rewrite rev_app_distr. simpl. rewrite <-app_assoc. simpl.
  rewrite take_digits_app; [apply rev_involutive| |done].
  by apply List.Forall_rev.
Qed.

(** The digits a key ends in give its index. *)
Lemma memoir_key_index i :
  0 ≤ i → dec_value (digit_suffix (String.list_byte_of_string (memoir_key i))) = i.
Proof.
  intros Hi. unfold memoir_key. rewrite bytes_of_string_of_bytes. destruct (pad_spec 4 i Hi) as [Hv Hd].
  change (String.list_byte_of_string "memoir:") with ([x6d; x65; x6d; x6f; x69; x72] ++ [x3a]).
  rewrite <-app_assoc. simpl app at 2. by rewrite digit_suffix_app.
Qed.

Lemma chunk_key_index i :
  0 ≤ i → dec_value (digit_suffix (String.list_byte_of_string (chunk_key i))) = i.
Proof.
  intros Hi. unfold chunk_key. rewrite bytes_of_string_of_bytes. destruct (pad_spec 6 i Hi) as [Hv Hd].
  set (head := String.list_byte_of_string "chunk:legal:doc-"). set (doc := pad 4 _).
  change (String.list_byte_of_string ":chunk-") with ([x3a; x63; x68; x75; x6e; x6b] ++ [x2d]).
  replace (head ++ doc ++ ([x3a; x63; x68; x75; x6e; x6b] ++ [x2d]) ++ pad 6 (itoa i))
    with ((head ++ doc ++ [x3a; x63; x68; x75; x6e; x6b]) ++ x2d :: pad 6 (itoa i))
    by (by rewrite <-!app_assoc).
  by rewrite digit_suffix_app.
Qed.

Lemma digit_not_nul b : is_digit b = true → b ≠ x00.
Proof. by intros H ->. Qed.

Lemma nul_free_all l : Forall (λ b, b ≠ x00) l → nul_free l = true.
Proof.
  intros Hl. unfold nul_free. replace (nul_position l) with (@None nat); [done|].
  induction Hl as [|b l Hb _ IH]; simpl; [done|]. by rewrite decide_False, <-IH.
Qed.

Lemma nul_free_app l1 l2 : nul_free (l1 ++ l2) = nul_free l1 && nul_free l2.
Proof.
  unfold nul_free. induction l1 as [|b l1 IH]; simpl; [done|]. case_decide; [done|].
  by destruct (nul_position (l1 ++ l2)), (nul_position l1), (nul_position l2).
Qed.

Lemma nul_free_pad width n : 0 ≤ n → nul_free (pad width (itoa n)) = true.
Proof.
  intros Hn. apply nul_free_all. eapply Forall_impl; [by apply pad_spec|]. apply digit_not_nul.
Qed.

Lemma memoir_key_plain i : 0 ≤ i → plain_key (memoir_key i).
Proof.
  intros Hi. unfold plain_key, memoir_key.
  by rewrite bytes_of_string_of_bytes, nul_free_app, nul_free_pad.
Qed.

Lemma chunk_key_plain i : 0 ≤ i → plain_key (chunk_key i).
Proof.
  intros Hi. unfold plain_key, chunk_key. rewrite bytes_of_string_of_bytes, !nul_free_app.
  rewrite !nul_free_pad; [done|done|]. apply Z.div_pos; lia.
Qed.

Lemma prefix_nil s : String.prefix "" s = true.
Proof. by destruct s. Qed.

Lemma memoir_key_prefix i : String.prefix "memoir:" (memoir_key i) = true.
Proof. apply prefix_nil. Qed.

Lemma chunk_key_prefix i : String.prefix "chunk:" (chunk_key i) = true.
Proof. done. Qed.

Lemma memoir_not_chunk i : String.prefix "chunk:" (memoir_key i) = false.
Proof. done. Qed.

Lemma chunk_not_memoir i : String.prefix "memoir:" (chunk_key i) = false.
Proof. done. Qed.

Lemma memoirKeys_NoDup n : NoDup (memoirKeys n).
Proof.
  apply NoDup_fmap_2_strong; [|apply NoDup_seqZ]. intros i j Hi%elem_of_seqZ Hj%elem_of_seqZ H.
  rewrite <-(memoir_key_index i), <-(memoir_key_index j) by lia. by rewrite H.
Qed.

Lemma chunkKeys_NoDup n : NoDup (chunkKeys n).
Proof.
  apply NoDup_fmap_2_strong; [|apply NoDup_seqZ]. intros i j Hi%elem_of_seqZ Hj%elem_of_seqZ H.
  rewrite <-(chunk_key_index i), <-(chunk_key_index j) by lia. by rewrite H.
Qed.

(** ** Properties *)

(** Whatever [-profiles] text is accepted, [main] runs at least one profile:
    after "all" has been expanded, the profiles it announces are the known ones it
    will run, each once and in the fixed order, and no name stands for "all" any
    more. *)
Lemma profiles_selected s want includeRelaxed :
  parseProfiles s = inr want →
  let want' := expand_all includeRelaxed want in
  selectedProfileNames want' ≠ [] ∧ NoDup (selectedProfileNames want') ∧
  ∀ name, name ∈ selectedProfileNames want' ↔ name ∈ knownProfiles ∧ wantProfile want' name = true.
Proof.
  intros Hp%parseProfiles_known want'.
  assert (Hset : ("all" ∉ want') ∧ ∃ p, p ∈ want' ∧ p ∈ knownProfiles).
  { unfold want', expand_all. destruct Hp as [->|[Hne Hk]].
    - rewrite bool_decide_eq_true_2 by set_solver.
      assert (Hall : ∀ p, p ∈ add_all knownProfiles ∅ ↔ p ∈ knownProfiles)
        by (intros p; rewrite elem_of_add_all; set_solver).
      assert (Hn : "all" ∉ knownProfiles) by (unfold knownProfiles; set_solver).
      destruct includeRelaxed; (split; [rewrite ?elem_of_difference, Hall; tauto|]);
        exists "f4kvs_wal_segment"; rewrite ?elem_of_difference, Hall; unfold knownProfiles; set_solver.
    - rewrite bool_decide_eq_false_2.
      + split; [intros Ha%Hk; unfold knownProfiles in Ha; set_solver|].
        apply set_choose_L in Hne as [p Hin]. eauto.
      + intros Ha%Hk. unfold knownProfiles in Ha. set_solver. }
  destruct Hset as [Hall (p & Hp1 & Hp2)].
  unfold selectedProfileNames, wantProfile. rewrite !(bool_decide_eq_false_2 _ Hall). simpl.
  split_and!.
  - intros He. assert (Hin : p ∈ filter (λ p, p ∈ want') knownProfiles)
      by (by apply list_elem_of_filter). rewrite He in Hin. set_solver.
  - apply NoDup_filter. apply (bool_decide_unpack (NoDup knownProfiles)). vm_compute. done.
  - intros name. rewrite list_elem_of_filter, bool_decide_eq_true. tauto.
Qed.

Lemma profiles_selected_witness :
  let want' := expand_all false {["all"]} in
  selectedProfileNames want' ≠ [] ∧ NoDup (selectedProfileNames want') ∧
  ∀ name, name ∈ selectedProfileNames want' ↔ name ∈ knownProfiles ∧ wantProfile want' name = true.
Proof. apply (profiles_selected " all "). reflexivity. Defined.

(** An engine opened with the options [openOptsForProfile] gives accepts the
    slices of [batchPutBytesChunked]: its [max_batch_size] is at least the size of a
    slice, for every profile, key count and [-batch-put-size], one-shot included
    (up to the 32 bits the option has). *)
Lemma batch_size_accepted `{L : LsmEngine} size base nKeys dir :
  max_batch_size config_default = engineMaxBatchDefault →
  0 ≤ nKeys < 2 ^ 32 → (∀ b, base = Some b → go_options_fit b) →
  resolveBatchPutSize nKeys size ≤
    max_batch_size (open_config dir (copts <$> openOptsForProfile size base nKeys)).
Proof.
  intros Hd Hn Hfit. set (need := resolveBatchPutSize nKeys size).
  assert (Hneed : need ≤ nKeys ∧ (need < 2 ^ 32)).
  { unfold need, resolveBatchPutSize. destruct (Z.leb_spec size 0), (Z.leb_spec nKeys size); simpl; lia. }
  unfold openOptsForProfile. fold need. unfold engineMaxBatchDefault in *.
  destruct (Z.leb_spec need 10000) as [Hle|Hgt]; simpl.
  - destruct base as [b|]; simpl; [|lia].
    destruct (Z.eqb_spec (MaxBatchSize b) 0) as [H0|H0]; simpl.
    + rewrite H0. simpl. lia.
    + destruct (Z.ltb_spec (MaxBatchSize b) need) as [Hlt|Hge]; simpl.
      * unfold to_uint32.
        assert (Hb : 0 ≤ MaxBatchSize b) by (apply (Hfit b eq_refl)).
        rewrite Z.mod_small by lia. case_match; lia.
      * case_match; lia.
  - destruct base as [b|]; simpl.
    + destruct (Z.eqb_spec (MaxBatchSize b) 0) as [H0|H0]; simpl;
        [|destruct (Z.ltb_spec (MaxBatchSize b) need) as [Hlt|Hge]; simpl];
        try (unfold to_uint32; rewrite Z.mod_small by lia); case_match; lia.
    + unfold to_uint32. rewrite Z.mod_small by lia. case_match; lia.
Qed.

Lemma batch_size_accepted_witness :
  resolveBatchPutSize 100000 0 ≤
    max_batch_size (open_config (L := MapEngine.map_engine) "/data"
                      (copts <$> openOptsForProfile 0 None 100000)).
Proof.
  apply (batch_size_accepted (L := MapEngine.map_engine) 0 None 100000 "/data"); [reflexivity|lia|done].
Defined.

Section Ingest.
Context `{L : LsmEngine} {Laws : LsmLaws L}.
Context {P : Platform} {POk : PlatformOk P} {G : GoRuntime} {GOk : GoRuntimeOk G}.
Implicit Types (w : World) (e : nat) (o : F4KVS).

(** C35: feeding keys to the engine in slices is the same as putting them all at
    once: [batchPutBytesChunked] ends without a panic for every slice size (zero
    and negative ones included), and when it reports no error every key of the list holds the
    payload and every other key what it held before. *)
Theorem chunked_puts_all size w e o g keys payload :
  live w e o g → wf (proc w) → Forall plain_key keys →
  ends (λ r w', r = None → ∃ g', live w' e o g' ∧ ∀ k,
          contents g' !! k = if decide (k ∈ keys) then Some (VBytes (slice_bytes payload))
                             else contents g !! k)
       (λ _, False) (batchPutBytesChunked size e keys payload w).
Proof.
  intros Hl Hwf Hp. eapply ends_impl; [by apply (chunked_ends size w e o g)|].
  intros r w' (g' & [Hl' _] & _ & Hc) Hr. exists g'. split; [done|]. intros k.
  rewrite (Hc Hr), lookup_union. unfold payload_map. rewrite lookup_fmap, lookup_slice_items.
  case_decide; simpl; by destruct (contents g !! k).
Qed.

End Ingest.

(** The keys of a run are pairwise distinct and contain no NUL, whatever the
    counts, also beyond the four and six digits of their formats, and the memoir
    and chunk keys are told apart by their prefixes. *)
Lemma harness_keys_distinct n m :
  NoDup (memoirKeys n ++ chunkKeys m) ∧ Forall plain_key (memoirKeys n ++ chunkKeys m) ∧
  (∀ k, k ∈ memoirKeys n → String.prefix "memoir:" k = true ∧ String.prefix "chunk:" k = false) ∧
  (∀ k, k ∈ chunkKeys m → String.prefix "chunk:" k = true ∧ String.prefix "memoir:" k = false).
Proof.
  assert (Hm : ∀ k, k ∈ memoirKeys n → String.prefix "memoir:" k = true ∧ String.prefix "chunk:" k = false)
    by (intros k (i & -> & _)%list_elem_of_fmap; split; [apply memoir_key_prefix|apply memoir_not_chunk]).
  assert (Hc : ∀ k, k ∈ chunkKeys m → String.prefix "chunk:" k = true ∧ String.prefix "memoir:" k = false)
    by (intros k (i & -> & _)%list_elem_of_fmap; split; [apply chunk_key_prefix|apply chunk_not_memoir]).
  split_and!; try done.
  - apply NoDup_app. split; [apply memoirKeys_NoDup|]. split; [|apply chunkKeys_NoDup].
    intros k Hk1 Hk2. destruct (Hm k Hk1), (Hc k Hk2). congruence.
  - apply Forall_app. split; apply Forall_forall; intros k (i & -> & Hi%elem_of_seqZ)%list_elem_of_fmap;
      [apply memoir_key_plain|apply chunk_key_plain]; lia.
Qed.

(** A run: three keys in slices of two. *)
Section Runs.
Import MapEngine.
#[local] Existing Instance one_thread.

Lemma chunked_puts_all_witness :
  let g : lsm := demo_engine ∅ [] in
  ends (λ r w', r = None → ∃ g', live w' 0 demo_object g' ∧ ∀ k,
          contents g' !! k = if decide (k ∈ ["a"; "b"; "c"]) then Some (VBytes [x61]) else contents g !! k)
       (λ _, False) (batchPutBytesChunked 2 0 ["a"; "b"; "c"] (Some [x61]) (demo_world g)).
Proof.
  intros g. apply (chunked_puts_all 2 (demo_world g) 0 demo_object g ["a"; "b"; "c"] (Some [x61])
                     (demo_live g) (demo_wf g)).
  repeat constructor.
Defined.

Example chunked_run :
  returns None (batchPutBytesChunked 2 0 ["a"; "b"; "c"] (Some [x61]) (demo_world (demo_engine ∅ []))) = true.
Proof. vm_compute. reflexivity. Qed.

End Runs.

(** ** Payloads *)

Definition payload_head : list byte :=
  [x7b; x22; x76; x22; x3a; x31; x2c; x22; x74; x69; x74; x6c; x65; x22; x3a; x22; x62; x65; x6e; x63;
   x68; x22; x2c; x22; x62; x6f; x64; x79; x22; x3a; x22].
Definition payload_tail : list byte := [x22; x7d].

(** The three xorshift steps on a [uint64]. *)
Definition xorshift (state : Z) : Z :=
  let state := Z.lxor state (to_uint64 (Z.shiftl state 13)) in
  let state := Z.lxor state (Z.shiftr state 7) in
  Z.lxor state (to_uint64 (Z.shiftl state 17)).

Definition letter (z : Z) : byte := Zbyte (97 + z mod 26).

(** [fill] letters from the generator. *)
Fixpoint fill_seeded (fill : nat) (state : Z) : list byte :=
  match fill with
  | O => []
  | S fill => let state := xorshift state in letter state :: fill_seeded fill state
  end.

(** [entropy] is what [crypto/rand] delivers, used only for seed 0. *)
Definition samplePayloadSeeded (entropy : nat → byte) (n seed : Z) : goslice :=
  if n <=? 0 then None
  else
    let fill := n - zlen payload_head - zlen payload_tail in
    if fill <? 0 then
      Some (take (Z.to_nat n) (payload_head ++ replicate (Z.to_nat n) x00))
    else
      let body := if bool_decide (seed ≠ 0) then fill_seeded (Z.to_nat fill) (to_uint64 seed)
                  else (λ i, letter (byteZ (entropy i))) <$> seq 0 (Z.to_nat fill) in
      Some (payload_head ++ body ++ payload_tail).

Definition samplePayload (entropy : nat → byte) (n : Z) : goslice := samplePayloadSeeded entropy n 0.

Lemma length_fill_seeded fill state : length (fill_seeded fill state) = fill.
Proof. revert state. induction fill; intros state; simpl; [done|]. by rewrite IHfill. Qed.

Lemma letter_range z : 97 ≤ byteZ (letter z) ≤ 122.
Proof.
  unfold letter. rewrite byteZ_Zbyte. pose proof (Z.mod_pos_bound z 26). rewrite Z.mod_small; lia.
Qed.

Lemma fill_seeded_letters fill state : Forall (λ b, 97 ≤ byteZ b ≤ 122) (fill_seeded fill state).
Proof.
  revert state. induction fill as [|fill IH]; intros state; simpl; constructor; [apply letter_range|apply IH].
Qed.

(** A payload has exactly the size asked for, and from 33 bytes on it is the
    JSON frame around lower-case letters, so that no letter can end the string
    early.  Shorter ones are the frame's beginning, padded with zeros. *)
Lemma payload_shape entropy n seed :
  match samplePayloadSeeded entropy n seed with
  | None => n ≤ 0
  | Some l => 0 < n ∧ zlen l = n ∧
      (33 ≤ n → ∃ body, l = payload_head ++ body ++ payload_tail ∧ Forall (λ b, 97 ≤ byteZ b ≤ 122) body)
  end.
Proof.
  unfold samplePayloadSeeded. destruct (Z.leb_spec n 0) as [H0|H0]; [done|].
  change (zlen payload_head) with 31. change (zlen payload_tail) with 2.
  destruct (Z.ltb_spec (n - 31 - 2) 0) as [Hf|Hf]; (split; [done|]); split.
  - unfold zlen. rewrite length_take, length_app, length_replicate. lia.
  - lia.
  - unfold zlen. rewrite !length_app. change (length payload_head) with 31%nat.
    change (length payload_tail) with 2%nat.
    case_bool_decide; rewrite ?length_fill_seeded, ?length_fmap, ?length_seq; lia.
  - intros _. eexists. split; [done|]. case_bool_decide; [apply fill_seeded_letters|].
    apply Forall_fmap, Forall_forall. intros i _. apply letter_range.
Qed.
