(* ===== verification/Report.v ===== *)
(** * Benchmark results

    The rows the harness produces ([bench/embed_vs_sqlite/main.go]) and the long
    format they are exported in ([bench/embed_vs_sqlite/de_out.go]).  [float64]
    values are IEEE binary64 numbers of the Standard Library ([spec_float]). *)

From Stdlib Require Import Floats.SpecFloat.
From S2P Require Import Prelude.

(** ** Floats *)

Definition float64_of_int (z : Z) : spec_float := binary_normalize 53 1024 z 0 false.
Definition fdiv (x y : spec_float) : spec_float := SFdiv 53 1024 x y.
Definition fzero : spec_float := S754_zero false.
Definition fone : spec_float := float64_of_int 1.
Definition is_zero (x : spec_float) : bool := SFeqb x fzero.

(** ** Rows *)

Record phaseResult := mkPhase {
  Phase : string;
  Profile : string;
  Ops : Z;
  Ms : spec_float;
  OpsPerS : spec_float;
  Durability : string;
  Extra : string;
  MetricOnly : string;
  Value : spec_float;
  Unit : string
}.

(** [us] is [d.Microseconds()]. *)
Definition milliseconds (us : Z) : spec_float := fdiv (float64_of_int us) (float64_of_int 1000).

Definition result (phase profile : string) (ops us : Z) (durability extra : string) : phaseResult :=
  let ms := milliseconds us in
  let opsPerS := if SFltb fzero ms
                 then fdiv (float64_of_int ops) (fdiv ms (float64_of_int 1000)) else fzero in
  mkPhase phase profile ops ms opsPerS durability extra "" fzero "".

Definition metricResult (phase profile metric : string) (value : spec_float) (ops : Z)
    (unit notes : string) : phaseResult :=
  mkPhase phase profile ops (if bool_decide (metric = "duration_ms") then value else fzero) fzero
    "" notes metric value unit.

Definition hasIntegrityFail (results : list phaseResult) : bool :=
  existsb (λ r, bool_decide (Phase r = "post_restart_row_count") &&
                bool_decide (MetricOnly r = "integrity_ok") && is_zero (Value r)) results.

(** ** Long format *)

Record ResultLine := mkLine {
  l_RunID : string;
  l_Engine : string;
  l_Phase : string;
  l_Metric : string;
  l_Value : spec_float;
  l_Ops : Z;
  l_Unit : string;
  l_Notes : string
}.

Definition metricUnit (metric : string) : string :=
  if bool_decide (metric = "duration_ms") then "ms"
  else if bool_decide (metric = "ops_per_s") then "ops/s"
  else if bool_decide (metric = "row_count") || bool_decide (metric = "expected_row_count") then "count"
  else if bool_decide (metric = "integrity_ok") then "bool"
  else if bool_decide (metric = "bytes_on_disk") then "bytes"
  else "".

Definition phaseResultToLong (runID : string) (r : phaseResult) : list ResultLine :=
  let notes := if bool_decide (Extra r = "") then Durability r else Extra r in
  if bool_decide (MetricOnly r ≠ "") then
    let unit := if bool_decide (Unit r = "") then metricUnit (MetricOnly r) else Unit r in
    [mkLine runID (Profile r) (Phase r) (MetricOnly r) (Value r) (Ops r) unit notes]
  else
    [mkLine runID (Profile r) (Phase r) "duration_ms" (Ms r) (Ops r) "ms" notes;
     mkLine runID (Profile r) (Phase r) "ops_per_s" (OpsPerS r) (Ops r) "ops/s" notes].

(** The buffer of a [RunWriter], with the run it belongs to. *)
Record RunBuffer := mkBuffer { b_RunID : string; b_lines : list ResultLine }.

Definition AppendPhaseResults (results : list phaseResult) (w : RunBuffer) : RunBuffer :=
  mkBuffer (b_RunID w) (foldl (λ lines r, lines ++ phaseResultToLong (b_RunID w) r) (b_lines w) results).

Definition AppendLine (line : ResultLine) (w : RunBuffer) : RunBuffer :=
  let line := if bool_decide (l_RunID line = "")
              then mkLine (b_RunID w) (l_Engine line) (l_Phase line) (l_Metric line) (l_Value line)
                     (l_Ops line) (l_Unit line) (l_Notes line)
              else line in
  mkBuffer (b_RunID w) (b_lines w ++ [line]).

Definition LineCount (w : RunBuffer) : Z := zlen (b_lines w).

Definition line_fails (line : ResultLine) : bool :=
  bool_decide (l_Phase line = "post_restart_row_count") &&
  bool_decide (l_Metric line = "integrity_ok") && is_zero (l_Value line).

Definition HasIntegrityFailure (w : RunBuffer) : bool := existsb line_fails (b_lines w).

(** ** Run metadata *)

Definition DeriveTier (chunks : Z) : string :=
  if chunks <=? 2000 then "micro" else if chunks <=? 100000 then "meso" else "macro".

Fixpoint unique_engines (results : list phaseResult) (seen : gset string) (out : list string) : list string :=
  match results with
  | [] => out
  | r :: results =>
      if bool_decide (Profile r = "") || bool_decide (Profile r ∈ seen) then unique_engines results seen out
      else unique_engines results ({[Profile r]} ∪ seen) (out ++ [Profile r])
  end.

Definition UniqueEngines (results : list phaseResult) : list string := unique_engines results ∅ [].

Definition FormatHarnessCommand (memoirs chunks memoirBytes chunkBytes randomGets seed : Z)
    (includeRelaxed : bool) (profiles : string) : string :=
  let parts :=
    ["go run ."; "-memoirs=" +:+ pretty memoirs; "-chunks=" +:+ pretty chunks;
     "-memoir-bytes=" +:+ pretty memoirBytes; "-chunk-bytes=" +:+ pretty chunkBytes;
     "-random-gets=" +:+ pretty randomGets; "-seed=" +:+ pretty seed] ++
    (if bool_decide (profiles ≠ "") && bool_decide (profiles ≠ "all") then ["-profiles=" +:+ profiles] else []) ++
    (if includeRelaxed then [] else ["-include-relaxed=false"]) in
  String.concat " " parts.

(** ** Lemmas *)

Lemma existsb_app {A} (f : A → bool) l1 l2 : existsb f (l1 ++ l2) = existsb f l1 || existsb f l2.
Proof. apply List.existsb_app. Qed.

Lemma line_fails_long runID r :
  existsb line_fails (phaseResultToLong runID r) =
    bool_decide (Phase r = "post_restart_row_count") &&
    bool_decide (MetricOnly r = "integrity_ok") && is_zero (Value r).
Proof.
  unfold phaseResultToLong, line_fails. destruct (decide (MetricOnly r = "")) as [Hm|Hm].
  - rewrite bool_decide_eq_false_2 by naive_solver. simpl. rewrite Hm, !andb_false_r. done.
  - rewrite bool_decide_eq_true_2 by done. simpl. by rewrite orb_false_r.
Qed.

Lemma unique_engines_spec results seen out :
  NoDup out → (∀ e, e ∈ seen ↔ e ∈ out) → "" ∉ out →
  let u := unique_engines results seen out in
  NoDup u ∧ (∃ tl, u = out ++ tl) ∧ ("" ∉ u) ∧
  ∀ e, e ∈ u ↔ e ∈ out ∨ e ≠ "" ∧ ∃ r, r ∈ results ∧ Profile r = e.
Proof.
  revert seen out. induction results as [|r results IH]; intros seen out Hnd Hs He; simpl.
  - split; [done|]. split; [exists []; by rewrite app_nil_r|]. split; [done|]. set_solver.
  - destruct (decide (Profile r = "" ∨ Profile r ∈ out)) as [Hskip|Hnew].
    + replace (bool_decide (Profile r = "") || bool_decide (Profile r ∈ seen)) with true.
      2: { symmetry. apply orb_true_iff. rewrite !bool_decide_eq_true, Hs. done. }
      destruct (IH seen out Hnd Hs He) as (H1 & H2 & H3 & H4).
      split; [done|]. split; [done|]. split; [done|]. intros e. rewrite H4.
      setoid_rewrite elem_of_cons. naive_solver.
    + replace (bool_decide (Profile r = "") || bool_decide (Profile r ∈ seen)) with false.
      2: { symmetry. apply orb_false_iff. rewrite !bool_decide_eq_false, Hs. naive_solver. }
      assert (Hne : Profile r ≠ "") by tauto. assert (Hout : Profile r ∉ out) by tauto.
      destruct (IH ({[Profile r]} ∪ seen) (out ++ [Profile r])) as (H1 & [tl H2] & H3 & H4).
      * apply NoDup_app. split; [done|]. split; [set_solver|]. apply NoDup_singleton.
      * set_solver.
      * set_solver.
      * split; [done|]. split; [exists (Profile r :: tl); by rewrite H2, <-app_assoc|].
        split; [done|]. intros e. rewrite H4, elem_of_app, list_elem_of_singleton.
        setoid_rewrite elem_of_cons. naive_solver.
Qed.

(** ** Properties *)

(** The two integrity gates of [main] agree: the exported lines contain a failed
    integrity check exactly when the rows they were made from do, so a run with
    [-runs-root] exits with an error exactly when one without would. *)
Lemma integrity_gates_agree results w :
  HasIntegrityFailure (AppendPhaseResults results w) =
    HasIntegrityFailure w || hasIntegrityFail results.
Proof.
  unfold HasIntegrityFailure, AppendPhaseResults, hasIntegrityFail. simpl.
  generalize (b_lines w). induction results as [|r results IH]; intros lines; simpl.
  - by rewrite orb_false_r.
  - rewrite IH, existsb_app, line_fails_long. by rewrite orb_assoc.
Qed.

(** [UniqueEngines] lists every non-empty profile of the rows, each once, and
    nothing else. *)
Lemma unique_engines_exact results :
  NoDup (UniqueEngines results) ∧
  ∀ e, e ∈ UniqueEngines results ↔ e ≠ "" ∧ ∃ r, r ∈ results ∧ Profile r = e.
Proof.
  destruct (unique_engines_spec results ∅ [] ltac:(constructor) ltac:(set_solver) ltac:(set_solver))
    as (H1 & _ & _ & H4).
  split; [done|]. intros e. unfold UniqueEngines. rewrite H4. set_solver.
Qed.

(** ** A run's buffer over time *)

Inductive append_op := Rows (results : list phaseResult) | Line (line : ResultLine).

Definition append_all (ops : list append_op) (w : RunBuffer) : RunBuffer :=
  foldl (λ w op, match op with
                 | Rows results => AppendPhaseResults results w
                 | Line line => AppendLine line w
                 end) w ops.

Lemma append_all_app ops more w : append_all more (append_all ops w) = append_all (ops ++ more) w.
Proof. symmetry. apply foldl_app. Qed.

(** A row with a metric of its own is one line, any other two. *)
Definition row_lines (r : phaseResult) : Z := if bool_decide (MetricOnly r = "") then 2 else 1.
Definition op_lines (op : append_op) : Z :=
  match op with Rows results => foldr Z.add 0 (row_lines <$> results) | Line _ => 1 end.

(** What is appended: the lines so far stay in front, the new ones belong to the
    run, and there are [n] of them. *)
Definition extends (n : Z) (w w' : RunBuffer) : Prop :=
  b_RunID w' = b_RunID w ∧
  ∃ new, b_lines w' = b_lines w ++ new ∧ Forall (λ l, l_RunID l = b_RunID w) new ∧ zlen new = n.

Lemma extends_refl w : extends 0 w w.
Proof. split; [done|]. exists []. by rewrite app_nil_r. Qed.

Lemma extends_trans n1 n2 w1 w2 w3 : extends n1 w1 w2 → extends n2 w2 w3 → extends (n1 + n2) w1 w3.
Proof.
  intros [Hr1 (l1 & Hl1 & Hf1 & Hn1)] [Hr2 (l2 & Hl2 & Hf2 & Hn2)]. split; [congruence|].
  exists (l1 ++ l2). rewrite Hl2, Hl1, <-app_assoc. split; [done|]. split.
  - apply Forall_app. rewrite Hr1 in Hf2. done.
  - unfold zlen in *. rewrite length_app. lia.
Qed.

Lemma AppendPhaseResults_cons r results w :
  AppendPhaseResults (r :: results) w =
    AppendPhaseResults results (mkBuffer (b_RunID w) (b_lines w ++ phaseResultToLong (b_RunID w) r)).
Proof. done. Qed.

Lemma AppendPhaseResults_extends results w :
  extends (op_lines (Rows results)) w (AppendPhaseResults results w).
Proof.
  revert w. induction results as [|r results IH]; intros w; [destruct w; apply extends_refl|].
  rewrite AppendPhaseResults_cons. eapply (extends_trans (row_lines r)); [|apply IH].
  split; [done|]. exists (phaseResultToLong (b_RunID w) r). split; [done|].
  unfold phaseResultToLong, row_lines. destruct (decide (MetricOnly r = "")) as [Hm|Hm].
  - rewrite (bool_decide_eq_false_2 (MetricOnly r ≠ "")), (bool_decide_eq_true_2 (MetricOnly r = "")) by tauto.
    by repeat constructor.
  - rewrite (bool_decide_eq_true_2 (MetricOnly r ≠ "")), (bool_decide_eq_false_2 (MetricOnly r = "")) by tauto.
    by repeat constructor.
Qed.

Lemma AppendLine_extends line w :
  l_RunID line = "" ∨ l_RunID line = b_RunID w → extends 1 w (AppendLine line w).
Proof.
  intros Hl. split; [done|]. eexists. split; [done|]. split; [|done]. apply Forall_singleton.
  case_bool_decide; [done|]. by destruct Hl.
Qed.

Lemma append_all_extends ops w :
  (∀ line, Line line ∈ ops → l_RunID line = "" ∨ l_RunID line = b_RunID w) →
  extends (foldr Z.add 0 (op_lines <$> ops)) w (append_all ops w).
Proof.
  revert w. induction ops as [|op ops IH]; intros w Hl; [apply extends_refl|].
  assert (H1 : extends (op_lines op) w (append_all [op] w)).
  { destruct op as [results|line]; [apply AppendPhaseResults_extends|].
    apply AppendLine_extends, Hl. set_solver. }
  eapply (extends_trans (op_lines op)); [exact H1|]. apply IH. destruct H1 as [-> _]. set_solver.
Qed.

(** The lines buffered for a run all carry its id, nothing that was buffered is
    changed or dropped by a later append, and [LineCount] is the number of rows
    with a metric of their own plus twice the number of throughput rows plus the
    single lines. *)
Lemma run_lines_complete ops more runID :
  (∀ line, Line line ∈ ops ++ more → l_RunID line = "" ∨ l_RunID line = runID) →
  let w := append_all ops (mkBuffer runID []) in
  let w' := append_all more w in
  Forall (λ l, l_RunID l = runID) (b_lines w') ∧ b_lines w `prefix_of` b_lines w' ∧
  LineCount w' = foldr Z.add 0 (op_lines <$> ops ++ more).
Proof.
  intros Hl w w'.
  assert (Hw : extends (foldr Z.add 0 (op_lines <$> ops)) (mkBuffer runID []) w)
    by (apply append_all_extends; set_solver).
  assert (Hw' : extends (foldr Z.add 0 (op_lines <$> more)) w w').
  { apply append_all_extends. destruct Hw as [-> _]. set_solver. }
  assert (Hall : extends (foldr Z.add 0 (op_lines <$> ops ++ more)) (mkBuffer runID []) w').
  { unfold w', w. rewrite append_all_app. by apply append_all_extends. }
  destruct Hall as (_ & new & Hnew & Hf & Hn), Hw' as (_ & tl & Htl & _). simpl in *.
  split; [by rewrite Hnew|]. split; [by exists tl|]. unfold LineCount. by rewrite Hnew, Hn.
Qed.

Lemma run_lines_complete_witness :
  let rows := [metricResult "post_restart_row_count" "f4kvs_wal_segment" "integrity_ok" fone 0 "bool" "";
               result "chunk_random_get" "f4kvs_wal_segment" 100 2500 "wal" ""] in
  let line := mkLine "" "sqlite_wal_full" "disk" "bytes_on_disk" fzero 0 "bytes" "" in
  let w := append_all [Rows rows] (mkBuffer "r1" []) in
  let w' := append_all [Line line] w in
  Forall (λ l, l_RunID l = "r1") (b_lines w') ∧ b_lines w `prefix_of` b_lines w' ∧ LineCount w' = 4.
Proof.
  intros rows line. apply (run_lines_complete [Rows rows] [Line line] "r1").
  intros line'. rewrite elem_of_app, !list_elem_of_singleton. intros [?|[= ->]]; [done|by left].
Defined.
