(* ===== verification/Restart.v ===== *)
(** * The restart integrity check

    [benchF4KVSPostRestart] of [bench/embed_vs_sqlite/main.go]: ingest, close,
    reopen, count.  [fatal] ends the process, so a run is the error it would print
    or the rows it returns; [elapsed] is the measured time in microseconds and
    [size] the [-batch-put-size] flag.

    The main result joins the layers: on an engine that keeps its contract and
    does not fail to shut down or to scan, the check always passes. *)

From Stdlib Require Import Floats.SpecFloat.
From S2P Require Import Prelude Engine Utf8 Options Ffi Binding FfiFacts BindingFacts Session Semantics Concrete Harness Report.

(** Removing a directory tree, which the host's file system does. *)
Class HostFs `{L : LsmEngine} := { remove_all : string → disk → disk }.

Section Restart.
Context `{L : LsmEngine} {FS : HostFs} {P : Platform} {G : GoRuntime}.

Definition os_RemoveAll (dir : string) : M World unit := λ w,
  Ret tt (set_proc (set_disk (remove_all dir (dsk (proc w))) (proc w)) w).

(** [if err := m; err != nil { engine.Close(); fatal(err) }], then the rest. *)
Definition or_close_fatal {A} (e : nat) (m : M World (option GoError)) (k : M World (GoError + A))
    : M World (GoError + A) :=
  let! err := m in
  match err with
  | Some err => run! Close e in mret (inl err)
  | None => k
  end.

(** The rows the check returns for what it counted. *)
Definition restart_rows (profile : string) (expected counted elapsed : Z) : list phaseResult :=
  let ms := milliseconds elapsed in
  let integrity := if counted =? expected then fone else fzero in
  let notes := "expected=" +:+ pretty expected +:+ " counted=" +:+ pretty counted in
  [metricResult "post_restart_row_count" profile "duration_ms" ms 0 "ms" "reopen+count";
   metricResult "post_restart_row_count" profile "row_count" (float64_of_int counted) 0 "count" notes;
   metricResult "post_restart_row_count" profile "expected_row_count" (float64_of_int expected) 0 "count" notes;
   metricResult "post_restart_row_count" profile "integrity_ok" integrity 0 "bool" "1=pass 0=fail"].

(** Opening the directory again and counting ([len] of a nil slice is 0). *)
Definition reopen_and_count (dir : string) (opts : option OpenOptions) : M World (GoError + Z) :=
  let! r := NewPersistentEngineWithOptions dir opts in
  match r with
  | inl err => mret (inl err)
  | inr reopened =>
      let! memoirs := ScanPrefixKeys reopened "memoir:" in
      let! chunks := ScanPrefixKeys reopened "chunk:" in
      let counted := zlen (default [] memoirs) + zlen (default [] chunks) in
      run! Close reopened in
      mret (inr counted)
  end.

Definition benchF4KVSPostRestart (size : Z) (dir profile : string) (opts : option OpenOptions)
    (memoirKeys chunkKeys : list string) (memoirPayload chunkPayload : goslice) (elapsed : Z)
    : M World (GoError + list phaseResult) :=
  let expected := zlen memoirKeys + zlen chunkKeys in
  run! os_RemoveAll dir in
  let opts := openOptsForProfile size opts (zlen chunkKeys + zlen memoirKeys) in
  let! r := NewPersistentEngineWithOptions dir opts in
  match r with
  | inl err => mret (inl err)
  | inr engine =>
      or_close_fatal engine
        (if 0 <? zlen memoirKeys then BatchPutBytes engine (slice_items memoirKeys memoirPayload)
         else mret None)
      (or_close_fatal engine
        (if 1000 <? zlen chunkKeys then SetBulkImport engine true else mret None)
      (or_close_fatal engine (batchPutBytesChunked size engine chunkKeys chunkPayload)
      (run! (if size <=? 0 then mmap (λ _, tt) (FlushWAL engine) else mret tt) in
       run! (if 1000 <? zlen chunkKeys then mmap (λ _, tt) (SetBulkImport engine false) else mret tt) in
       or_close_fatal engine (if usesGroupCommit opts then FlushWAL engine else mret None)
       (run! Close engine in
        let! counted := reopen_and_count dir opts in
        match counted with
        | inl err => mret (inl err)
        | inr counted => mret (inr (restart_rows profile expected counted elapsed))
        end))))
  end.

End Restart.

Section RestartFacts.
Context `{L : LsmEngine} {Laws : LsmLaws L} {FS : HostFs}.
Context {P : Platform} {POk : PlatformOk P} {G : GoRuntime} {GOk : GoRuntimeOk G}.
Implicit Types (w : World) (e : nat) (o : F4KVS) (m : gmap string (Engine.Value json)).

Context (dir : string).
Hypothesis Hdir : check_dir dir = inr dir.
Hypothesis Hshut : ∀ g d, (lsm_shutdown g d).1 = inr tt.
Hypothesis Hscan : ∀ p g d, ∃ ks gd, lsm_scan_prefix p g d = (inr ks, gd).


(** The engine behind [e] is open on [dir] and holds [m]. *)
Definition serving w e o m : Prop :=
  ∃ g, stepped w e o g ∧ rw_readers (mu o) = O ∧ data_dir (lsm_config g) = dir ∧ contents g = m.

Lemma open_ends w opts :
  wf (proc w) → (∀ po, opts = Some po → go_options_fit po) →
  ends (λ r w', match r with
                | inl _ => True
                | inr e => ∃ o, serving w' e o (durable (dsk (proc w)) dir)
                end) (λ _, False) (NewPersistentEngineWithOptions dir opts w).
Proof.
  intros Hwf Hfit. rewrite (Open_spec w dir opts Hfit). cbv zeta. rewrite Hdir.
  destruct (lsm_new _ _) as [[er|g] d] eqn:Hnew; [done|].
  destruct (new_ok _ _ _ _ Hnew) as [Hc Hcfg]. simpl.
  eexists. exists g. split; [split; [apply (live_opened (enter (proc w)))|]|].
  - destruct (open_handle_fresh (enter (proc w)) dir) as [Ha Hf].
    apply (wf_new_engine (enter (proc w))); [by apply wf_enter|done..].
  - split; [done|]. rewrite Hcfg, Hc. by destruct opts.
Qed.

Lemma wf_shut a x s g : wf s → heap s !! a = Some (BEngine g) → wf (shut a x s).
Proof.
  intros [Hl Hs Hb] Ha.
  assert (Hfields : heap (shut a x s) = delete a (heap s) ∧
    string_allocations (shut a x s) = string_allocations s ∧
    bytes_allocations (shut a x s) = bytes_allocations s).
  { unfold shut. by destruct x as [[|] [[]|]]. }
  destruct Hfields as (Hh & Hst & Hby). split; rewrite ?Hh, ?Hst, ?Hby.
  - intros a' b [_ H]%lookup_delete_Some. eauto.
  - intros a' Hin. destruct (Hs a' Hin) as [l Hl']. exists l. rewrite lookup_delete_ne; congruence.
  - intros a' n Hn. destruct (Hb a' n Hn) as (l & Hl' & ?). exists l. rewrite lookup_delete_ne; [done|].
    congruence.
Qed.

Lemma close_ends w e o m :
  serving w e o m →
  ends (λ _ w', wf (proc w') ∧ durable (dsk (proc w')) dir = m) (λ _, False) (Close e w).
Proof.
  intros (g & [Hl Hwf] & Hr & Hd & Hc). rewrite (Close_live _ _ _ _ Hl Hr). simpl.
  split; [eapply wf_shut; [done|apply Hl]|]. unfold run_eff. specialize (Hshut g (dsk (proc w))).
  destruct (lsm_shutdown g (dsk (proc w))) as [r [g' d']] eqn:Hs. simpl in Hshut. subst r.
  apply shutdown_ok in Hs. rewrite Hd, Hc in Hs. done.
Qed.

(** The result of the whole check: an error, or rows that satisfy [Q]; the process
    is then fit for the next run. *)
Definition checked {A} (Q : A → Prop) (r : GoError + A) : Prop :=
  match r with inl _ => True | inr a => Q a end.
Definition finished {A} (Q : A → Prop) (r : GoError + A) (w : World) : Prop :=
  match r with inl _ => True | inr a => Q a ∧ wf (proc w) end.

Lemma or_close_fatal_ends {A} R w e o m m' (step : M World (option GoError)) (k : M World (GoError + A)) (Q : A → Prop) :
  serving w e o m →
  (∀ g, stepped w e o g → contents g = m →
     ends (λ r w', ∃ g', stepped w' e o g' ∧ lsm_config g' = lsm_config g ∧ (r = None → contents g' = m'))
       (λ _, False) (step w)) →
  (∀ w', serving w' e o m' → ends (finished Q) R (k w')) →
  ends (finished Q) R (or_close_fatal e step k w).
Proof.
  intros (g & Hs & Hr & Hd & Hc) Hstep Hk.
  eapply ends_bind; [eapply ends_weaken; [by apply Hstep|done]|].
  intros [er|] w1 (g1 & Hs1 & Hcf & Hc1).
  - eapply ends_bind; [eapply ends_weaken; [apply (close_ends w1 e o (contents g1))|done]|done].
    exists g1. split_and!; try done. congruence.
  - apply Hk. exists g1. split_and!; [done|done|congruence|by apply Hc1].
Qed.

(** What a method that does not write promises. *)
Definition keeps w e o (x : M World (option GoError)) : Prop :=
  ∀ g, stepped w e o g →
  ends (λ r w', ∃ g', stepped w' e o g' ∧ lsm_config g' = lsm_config g ∧
          (r = None → contents g' = contents g)) (λ _, False) (x w).

Lemma SetBulkImport_keeps w e o on : keeps w e o (SetBulkImport e on).
Proof. intros g [Hl Hwf]. by apply (SetBulkImport_ends w e o g). Qed.

Lemma FlushWAL_keeps w e o : keeps w e o (FlushWAL e).
Proof. intros g [Hl Hwf]. by apply (FlushWAL_ends w e o g). Qed.

Lemma skip_keeps w e o : keeps w e o (mret None).
Proof. intros g Hs. by exists g. Qed.

(** A step whose answer is not looked at, when it does not fail. *)
Lemma ignored_ends w e o m (x : M World (option GoError)) :
  serving w e o m → keeps w e o x → (∀ r w', x w = Ret r w' → r = None) →
  ends (λ _ w', serving w' e o m) (λ _, False) (mmap (λ _, tt) x w).
Proof.
  intros (g & Hs & Hr & Hd & Hc) Hk Hnone. unfold mmap, bind. specialize (Hk g Hs).
  destruct (x w) as [r w'| | |]; simpl in *; try done.
  destruct Hk as (g' & Hs' & Hcf & Hc'). exists g'. split_and!; [done|done|congruence|].
  rewrite Hc'; [done|by eapply Hnone].
Qed.

Lemma SetBulkImport_silent w e o g on r w' :
  live w e o g → SetBulkImport e on w = Ret r w' → r = None.
Proof. intros Hl. rewrite (SetBulkImport_live _ _ _ _ _ Hl). simpl. by intros [= <-]. Qed.

Lemma FlushWAL_silent w e o g r w' :
  (∀ g d, (lsm_flush_wal g d).1 = inr tt) →
  live w e o g → FlushWAL e w = Ret r w' → r = None.
Proof.
  intros Hwal Hl. rewrite (FlushWAL_live _ _ _ _ Hl). unfold run_eff.
  specialize (Hwal g (dsk (proc w))). destruct (lsm_flush_wal g _) as [[|] ?]; simpl in *; [done|].
  by intros [= <-].
Qed.

(** A guarded step of the check that does not write. *)
Lemma or_close_keeps {A} R w e o m (b : bool) (x : M World (option GoError)) (k : M World (GoError + A)) (Q : A → Prop) :
  serving w e o m → keeps w e o x →
  (∀ w', serving w' e o m → ends (finished Q) R (k w')) →
  ends (finished Q) R (or_close_fatal e (if b then x else mret None) k w).
Proof.
  intros Hs Hx Hk. eapply (or_close_fatal_ends R w e o m m); [done| |done].
  intros g Hg <-. destruct b; [by apply Hx|by apply skip_keeps].
Qed.

(** With a store of plain keys, a scan lists the keys of its prefix. *)
Lemma scan_lists w e o g m prefix :
  stepped w e o g → contents g = m → (∀ k, is_Some (m !! k) → plain_key k) → prefix_text prefix = Some prefix →
  ends (λ r w', ∃ ks, r = Some ks ∧ keys_with_prefix m prefix ks ∧ ∃ g', stepped w' e o g' ∧ contents g' = m)
       (λ _, ∃ ks, keys_with_prefix m prefix ks ∧ 2 ^ 30 < zlen ks) (ScanPrefixKeys e prefix w).
Proof.
  intros [Hl Hwf] Hc Hplain Hp.
  pose proof (ScanPrefixKeys_ends w e o g prefix Hl Hwf) as He.
  assert (Hmany : ∀ msg w', ScanPrefixKeys e prefix w = Panic msg w' →
            ∃ ks, keys_with_prefix m prefix ks ∧ 2 ^ 30 < zlen ks).
  { intros msg w'. rewrite (ScanPrefixKeys_live _ _ _ _ _ Hl Hwf). unfold scan_outcome, in_world.
    destruct (scan_eff _ g _) as [[er|ks] y] eqn:Hx; [done|].
    apply scan_eff_inr in Hx as (p & Hpt & Hks & _). rewrite Hp in Hpt. injection Hpt as <-. rewrite Hc in Hks.
    destruct (nul_key ks); [done|]. destruct (2 ^ 30 <? zlen ks) eqn:Hn; [|done]. intros _.
    exists ks. split; [done|]. by apply Z.ltb_lt. }
  assert (Hsome : ∀ w', ScanPrefixKeys e prefix w ≠ Ret None w').
  { intros w'. rewrite (ScanPrefixKeys_live _ _ _ _ _ Hl Hwf). unfold scan_outcome, scan_eff, prefix_text, text_of in *.
    destruct (check_text _ _ _) as [|p]; [done|]. simplify_eq.
    unfold run_eff. destruct (Hscan prefix g (dsk (proc w))) as (ks & [g' d'] & Hs). rewrite Hs.
    destruct (scan_ok _ _ _ _ _ _ Hs) as (_ & Hks & _).
    replace (nul_key ks) with (@None string); [by case_match|].
    assert (Hall : ∀ k, k ∈ ks → plain_key k) by (intros k Hk; apply Hplain; by apply Hks in Hk as []).
    clear - Hall. induction ks as [|k ks IH]; simpl; [done|].
    pose proof (Hall k ltac:(by left)) as Hk. unfold plain_key, nul_free in Hk.
    destruct (nul_position _); [done|]. apply IH. intros k' Hk'. apply Hall. by right. }
  destruct (ScanPrefixKeys e prefix w) as [[ks|] w'|msg w'| |]; simpl in *; try done;
    [|by destruct (Hsome w')|by eapply Hmany].
  destruct He as (g' & Hs & Hx). destruct (Hx ltac:(done)) as (ks' & p & [= ->] & Hpt & Hk & Hc').
  exists ks'. split; [done|]. rewrite Hp in Hpt. simplify_eq. split; [done|]. eauto.
Qed.

(** ** What the run stored, and what the scans find *)

Definition stored (n k : Z) (mp cp : goslice) : gmap string (Engine.Value json) :=
  payload_map (chunkKeys k) cp ∪ payload_map (memoirKeys n) mp.

Lemma stored_keys n k mp cp key :
  is_Some (stored n k mp cp !! key) ↔ key ∈ memoirKeys n ∨ key ∈ chunkKeys k.
Proof.
  unfold stored, payload_map. rewrite lookup_union, !lookup_fmap, !lookup_slice_items.
  repeat case_decide; simpl; rewrite ?is_Some_alt; naive_solver.
Qed.

Lemma stored_plain n k mp cp key : is_Some (stored n k mp cp !! key) → plain_key key.
Proof.
  rewrite stored_keys. intros [(i & -> & Hi%elem_of_seqZ)%list_elem_of_fmap|(i & -> & Hi%elem_of_seqZ)%list_elem_of_fmap];
    [apply memoir_key_plain|apply chunk_key_plain]; lia.
Qed.

Lemma scanned_memoirs n k mp cp ks :
  keys_with_prefix (stored n k mp cp) "memoir:" ks → ks ≡ₚ memoirKeys n.
Proof.
  intros [Hnd Hks]. apply NoDup_Permutation; [done|apply memoirKeys_NoDup|]. intros key.
  rewrite Hks, stored_keys. split.
  - intros [[?|(i & -> & _)%list_elem_of_fmap] Hp]; [done|]. by rewrite chunk_not_memoir in Hp.
  - intros Hin. split; [by left|]. apply list_elem_of_fmap in Hin as (i & -> & _). apply memoir_key_prefix.
Qed.

Lemma scanned_chunks p n k mp cp ks :
  (∀ i, String.prefix p (chunk_key i) = true) → (∀ i, String.prefix p (memoir_key i) = false) →
  keys_with_prefix (stored n k mp cp) p ks → ks ≡ₚ chunkKeys k.
Proof.
  intros Hpc Hpm [Hnd Hks]. apply NoDup_Permutation; [done|apply chunkKeys_NoDup|]. intros key.
  rewrite Hks, stored_keys. split.
  - intros [[(i & -> & _)%list_elem_of_fmap|?] Hp]; [|done]. by rewrite Hpm in Hp.
  - intros Hin. split; [by right|]. apply list_elem_of_fmap in Hin as (i & -> & _). apply Hpc.
Qed.

Lemma to_uint32_range z : u32 (to_uint32 z).
Proof. apply Z.mod_pos_bound. done. Qed.

Lemma openOptsForProfile_fit size base nKeys :
  (∀ po, base = Some po → go_options_fit po) →
  ∀ po, openOptsForProfile size base nKeys = Some po → go_options_fit po.
Proof.
  assert (Hz : go_options_fit zero_options) by (vm_compute; intuition discriminate).
  assert (Hwith : ∀ po z, go_options_fit po → go_options_fit (with_max_batch po (to_uint32 z))).
  { intros po z. pose proof (to_uint32_range z) as Hz32. unfold go_options_fit, options_fit.
    simpl. intuition. }
  intros Hb po. unfold openOptsForProfile. destruct base as [b|];
    repeat case_match; intros; simplify_eq; eauto.
Qed.

(** More memoirs or chunks than a slice of C strings may have elements. *)
Definition overfull (n k : Z) : Prop := 2 ^ 30 < zlen (memoirKeys n) ∨ 2 ^ 30 < zlen (chunkKeys k).

Lemma reopen_ends w opts n k mp cp :
  wf (proc w) → (∀ po, opts = Some po → go_options_fit po) →
  durable (dsk (proc w)) dir = stored n k mp cp →
  ends (finished (λ c, c = zlen (memoirKeys n) + zlen (chunkKeys k))) (λ _, overfull n k)
       (reopen_and_count dir opts w).
Proof.
  intros Hwf Hfit Hdur. eapply ends_bind; [eapply ends_weaken; [by apply open_ends|done]|].
  intros [er|e] w1 Ho; [done|]. destruct Ho as [o Hs]. rewrite Hdur in Hs.
  destruct Hs as (g & Hs & Hr & _ & Hc).
  assert (Hc1 : ∀ ks, keys_with_prefix (stored n k mp cp) "chunk:" ks → ks ≡ₚ chunkKeys k).
  { intros ks. apply scanned_chunks; [apply chunk_key_prefix|apply memoir_not_chunk]. }
  eapply ends_bind; [eapply ends_weaken; [apply (scan_lists w1 e o g _ "memoir:" Hs Hc (stored_plain n k mp cp) eq_refl)|]|].
  { intros _ (ks & Hk%scanned_memoirs%Permutation_length & Hn). left. unfold zlen in *. by rewrite <-Hk. }
  intros r1 w2 (ks1 & -> & Hk1 & g2 & Hs2 & Hc2).
  eapply ends_bind; [eapply ends_weaken; [apply (scan_lists w2 e o g2 _ "chunk:" Hs2 Hc2 (stored_plain n k mp cp) eq_refl)|]|].
  { intros _ (ks & Hk%Hc1%Permutation_length & Hn). right. unfold zlen in *. by rewrite <-Hk. }
  intros r2 w3 (ks2 & -> & Hk2 & g3 & [Hl3 Hwf3] & _).
  unfold bind at 1. rewrite (Close_live _ _ _ _ Hl3 Hr). simpl.
  apply scanned_memoirs, Permutation_length in Hk1. apply Hc1, Permutation_length in Hk2.
  split; [unfold zlen; by rewrite Hk1, Hk2|]. eapply wf_shut; [done|apply Hl3].
Qed.

(** The guarded steps between the two ingests and the first close. *)
Lemma ignored_guarded w e o m (b : bool) (x : M World (option GoError)) :
  serving w e o m → (b = true → keeps w e o x ∧ ∀ r w', x w = Ret r w' → r = None) →
  ends (λ _ w', serving w' e o m) (λ _, False) ((if b then mmap (λ _, tt) x else mret tt) w).
Proof. intros Hs Hx. destruct b; [|done]. destruct (Hx eq_refl). by apply ignored_ends. Qed.

Lemma close_reopen_ends w e o opts n k mp cp profile elapsed :
  serving w e o (stored n k mp cp) → (∀ po, opts = Some po → go_options_fit po) →
  ends (finished (λ rows, let t := zlen (memoirKeys n) + zlen (chunkKeys k) in
                          rows = restart_rows profile t t elapsed)) (λ _, overfull n k)
    ((run! Close e in
      let! counted := reopen_and_count dir opts in
      match counted with
      | inl err => mret (inl err)
      | inr counted => mret (inr (restart_rows profile (zlen (memoirKeys n) + zlen (chunkKeys k)) counted elapsed))
      end) w).
Proof.
  intros Hs Hfit. eapply ends_bind; [eapply ends_weaken; [by eapply close_ends|done]|]. intros [] w1 [Hwf Hdur].
  eapply ends_bind; [by eapply reopen_ends|]. intros [er|c] w2 Hc; [done|]. destruct Hc as [-> Hwf2]. by split.
Qed.

Lemma wf_set_disk s d : wf s → wf (set_disk d s).
Proof. intros [? ? ?]. by split. Qed.

(** The memoirs, in one batch. *)
Lemma memoirs_ends w e o g n mp :
  stepped w e o g →
  ends (λ r w', ∃ g', stepped w' e o g' ∧ lsm_config g' = lsm_config g ∧
          (r = None → contents g' = payload_map (memoirKeys n) mp ∪ contents g)) (λ _, False)
    ((if 0 <? zlen (memoirKeys n) then BatchPutBytes e (slice_items (memoirKeys n) mp) else mret None) w).
Proof.
  intros [Hl Hwf]. case_match eqn:Hn.
  - apply (BatchPutBytes_ends w e o g); [done..|]. intros key. rewrite lookup_slice_items.
    case_decide; intros []; [|done]. apply (stored_plain n 0 mp mp), stored_keys. by left.
  - assert (Hnil : memoirKeys n = []) by (apply Z.ltb_ge in Hn; apply nil_length_inv; unfold zlen in Hn; lia).
    rewrite Hnil. exists g. split_and!; try done. intros _. by rewrite payload_map_nil.
Qed.

Lemma restart_ends size profile base n k mp cp elapsed w :
  wf (proc w) → (∀ po, base = Some po → go_options_fit po) →
  (∀ d, durable (remove_all dir d) dir = ∅) →
  (size ≤ 0 → ∀ g d, (lsm_flush_wal g d).1 = inr tt) →
  ends (finished (λ rows, let t := zlen (memoirKeys n) + zlen (chunkKeys k) in
                          rows = restart_rows profile t t elapsed)) (λ _, overfull n k)
    (benchF4KVSPostRestart size dir profile base (memoirKeys n) (chunkKeys k) mp cp elapsed w).
Proof.
  intros Hwf Hfit Hrm Hwal. unfold benchF4KVSPostRestart. cbv zeta.
  set (opts := openOptsForProfile _ _ _).
  assert (Hfit' : ∀ po, opts = Some po → go_options_fit po) by by apply openOptsForProfile_fit.
  unfold bind at 1. unfold os_RemoveAll at 1. set (w0 := set_proc _ w).
  eapply ends_bind; [eapply ends_weaken; [apply (open_ends w0 opts); [by apply wf_set_disk|done]|done]|].
  intros [er|e] w1 Ho; [done|]. destruct Ho as [o Hs]. subst w0. simpl in Hs. rewrite Hrm in Hs.
  eapply (or_close_fatal_ends _ w1 e o _ (payload_map (memoirKeys n) mp)); [done| |].
  { intros g Hg Hc. eapply ends_impl; [by apply (memoirs_ends w1 e o g n mp)|].
    intros r w' (g' & ? & ? & Hg'). exists g'. split_and!; try done. intros Hr.
    by rewrite (Hg' Hr), Hc, (right_id_L ∅ (∪)). }
  intros w2 Hs2. apply (or_close_keeps _ w2 e o _ _ _ _ _ Hs2 (SetBulkImport_keeps w2 e o true)).
  intros w3 Hs3. eapply (or_close_fatal_ends _ w3 e o _ (stored n k mp cp)); [done| |].
  { intros g [Hl Hg] Hc. eapply ends_impl; [apply (chunked_ends size w3 e o g); try done|].
    - apply Forall_forall. intros key Hk. apply (stored_plain 0 k cp cp), stored_keys. by right.
    - intros r w' (g' & ? & ? & Hg'). exists g'. split_and!; try done. intros Hr.
      by rewrite (Hg' Hr), Hc. }
  intros w4 Hs4. eapply ends_bind; [eapply ends_weaken; [apply (ignored_guarded w4 e o _ _ _ Hs4)|done]|].
  { intros Hz. split; [apply FlushWAL_keeps|]. intros r w'. destruct Hs4 as (g & [Hl _] & _).
    apply (FlushWAL_silent w4 e o g); [apply Hwal; lia|done]. }
  intros [] w5 Hs5. eapply ends_bind; [eapply ends_weaken; [apply (ignored_guarded w5 e o _ _ _ Hs5)|done]|].
  { intros _. split; [apply SetBulkImport_keeps|]. intros r w'. destruct Hs5 as (g & [Hl _] & _).
    by apply (SetBulkImport_silent w5 e o g). }
  intros [] w6 Hs6. apply (or_close_keeps _ w6 e o _ _ _ _ _ Hs6 (FlushWAL_keeps w6 e o)).
  intros w7 Hs7. by apply (close_reopen_ends w7 e o opts n k mp cp).
Qed.

(** The gate of the run follows the comparison of the two counts. *)
Lemma restart_rows_gate profile expected counted elapsed :
  hasIntegrityFail (restart_rows profile expected counted elapsed) = negb (counted =? expected).
Proof. unfold restart_rows. by destruct (counted =? expected). Qed.

(** C15: closing and reopening loses nothing.  For any numbers of memoirs and
    chunks and any flags, the restart check ends, without a panic unless there are
    more than 2^30 memoirs or chunks, and when it is not stopped by an error it has counted exactly the rows it wrote and the integrity gate passes:
    on an engine that keeps its contract, does not fail to shut down or to scan
    and, when slicing is off, to flush its log (the check ignores that error). *)
Theorem restart_integrity size profile base n k mp cp elapsed w :
  wf (proc w) → (∀ po, base = Some po → go_options_fit po) →
  (∀ d, durable (remove_all dir d) dir = ∅) →
  (size ≤ 0 → ∀ g d, (lsm_flush_wal g d).1 = inr tt) →
  ends (λ r _, ∀ rows, r = inr rows →
          let t := zlen (memoirKeys n) + zlen (chunkKeys k) in
          rows = restart_rows profile t t elapsed ∧ hasIntegrityFail rows = false) (λ _, overfull n k)
    (benchF4KVSPostRestart size dir profile base (memoirKeys n) (chunkKeys k) mp cp elapsed w).
Proof.
  intros Hwf Hfit Hrm Hwal.
  eapply ends_impl; [by apply (restart_ends size profile base n k mp cp elapsed w)|].
  intros r w' Hr rows ->. destruct Hr as [Hr _]. split; [done|].
  by rewrite Hr, restart_rows_gate, Z.eqb_refl.
Qed.

End RestartFacts.

(** ** A run *)
Section Run.
Import MapEngine.

(** [map_engine] with a shutdown and a scan that do not take part in the injected
    faults, and a file system that forgets a removed directory. *)
Definition steady_engine : LsmEngine := {|
  json := unit;
  json_to_string := json_to_string;
  f64_to_string := f64_to_string;
  lsm := state;
  disk := store;
  config_default := config_default;
  durability_apply_to := durability_apply_to;
  lsm_new := lsm_new;
  lsm_config := lsm_config;
  lsm_shutdown g d := (inr tt, (g, <[data_dir (config g) := pairs g]> d));
  lsm_compact := lsm_compact;
  lsm_flush := lsm_flush;
  lsm_flush_wal := lsm_flush_wal;
  lsm_set_bulk_import := lsm_set_bulk_import;
  lsm_put := lsm_put;
  lsm_get := lsm_get;
  lsm_delete := lsm_delete;
  lsm_batch_put := lsm_batch_put;
  lsm_batch_delete := lsm_batch_delete;
  lsm_scan_prefix p g d := (inr (prefix_keys p (pairs g)), (g, d))
|}.

Lemma steady_laws : LsmLaws steady_engine.
Proof.
  refine {| contents := pairs : @lsm steady_engine → _;
            durable := λ (d : @disk steady_engine) dir, default ∅ (d !! dir) |}.
  - apply (@new_ok map_engine map_engine_laws).
  - apply (@put_ok map_engine map_engine_laws).
  - apply (@get_ok map_engine map_engine_laws).
  - apply (@delete_ok map_engine map_engine_laws).
  - apply (@batch_put_ok map_engine map_engine_laws).
  - apply (@batch_delete_ok map_engine map_engine_laws).
  - intros * [= <- <- <-]. 
    by apply (@scan_ok map_engine map_engine_laws p (mkState (pairs g) (config g) (bulk g) []) d _
             (mkState (pairs g) (config g) (bulk g) []) d).
  - apply (@flush_ok map_engine map_engine_laws).
  - apply (@flush_wal_ok map_engine map_engine_laws).
  - apply (@compact_ok map_engine map_engine_laws).
  - apply (@set_bulk_ok map_engine map_engine_laws).
  - intros * [= <- <-]. unfold steady_engine, store in *. simpl in *. by rewrite lookup_insert_eq.
  - apply (@put_config map_engine map_engine_laws).
  - apply (@get_config map_engine map_engine_laws).
  - apply (@delete_config map_engine map_engine_laws).
  - apply (@batch_put_config map_engine map_engine_laws).
  - apply (@batch_delete_config map_engine map_engine_laws).
  - done.
  - apply (@flush_config map_engine map_engine_laws).
  - apply (@flush_wal_config map_engine map_engine_laws).
  - apply (@compact_config map_engine map_engine_laws).
  - apply (@set_bulk_config map_engine map_engine_laws).
Defined.

Definition forgetful : @HostFs steady_engine :=
  {| remove_all dir (d : @disk steady_engine) := delete dir (d : store) |}.

#[local] Existing Instances steady_engine steady_laws forgetful.
#[local] Instance steady_platform : Platform := platform (L := steady_engine) (λ _, O) false.

Definition steady_world : World (L := steady_engine) :=
  mkWorld (mkProc ∅ ∅ ∅ ∅ 0 (∅ : store) O O) ∅ O.

Lemma steady_wf : wf (proc steady_world).
Proof.
  split; simpl; [intros a b H|intros a H|intros a n H];
    [by rewrite lookup_empty in H|by apply elem_of_empty in H|by rewrite lookup_empty in H].
Qed.

Lemma restart_integrity_witness :
  ends (λ r _, ∀ rows, r = inr rows →
          let t := zlen (memoirKeys 2) + zlen (chunkKeys 3) in
          rows = restart_rows "f4kvs_default" t t 1500 ∧ hasIntegrityFail rows = false) (λ _, overfull 2 3)
    (benchF4KVSPostRestart (L := steady_engine) 2 "/bench" "f4kvs_default" None (memoirKeys 2) (chunkKeys 3)
       (Some [x61]) (Some [x62]) 1500 steady_world).
Proof.
  apply (restart_integrity (L := steady_engine) "/bench" eq_refl (λ _ _, eq_refl) (λ p g d, ex_intro _ _ (ex_intro _ _ eq_refl))
           2 "f4kvs_default" None 2 3 (Some [x61]) (Some [x62]) 1500 steady_world steady_wf).
  - done.
  - intros d. simpl. unfold store. by rewrite lookup_delete_eq.
  - lia.
Defined.

(** The same run evaluated: it is not stopped by an error. *)
Example restart_run :
  match benchF4KVSPostRestart (L := steady_engine) 2 "/bench" "f4kvs_default" None (memoirKeys 2) (chunkKeys 3)
          (Some [x61]) (Some [x62]) 1500 steady_world with
  | Ret (inr rows) _ => negb (hasIntegrityFail rows)
  | _ => false
  end = true.
Proof. vm_compute. reflexivity. Qed.

End Run.
