(* ===== verification/Bench.v ===== *)
(** * The benchmark phases on F4KVS

    [benchF4KVS] of [bench/embed_vs_sqlite/main.go] and the side runs it starts on
    directories of their own ([benchF4KVSChunkDurable], [benchF4KVSChunkBatchPut]
    and its two wrappers).

    [fatal] calls [os.Exit], which runs no deferred call: a run is the error it
    would print or the rows it returns, and [deferred] runs its cleanup only when
    the body returns rows or panics.  A run measures every phase at most once;
    [since phase] is the time in microseconds the clock shows for it.  [size] is
    the [-batch-put-size] flag.  Progress output is left out. *)

From Stdlib Require Import Floats.SpecFloat.
From S2P Require Import Prelude Engine Utf8 Options Ffi Binding FfiFacts BindingFacts Session Semantics Concrete Paths Harness Report Restart.

(** ** Ending the process *)

(** [if err := m; err != nil { fatal(err) }], then the rest. *)
Definition or_fatal {S A} (m : M S (option GoError)) (k : M S (GoError + A)) : M S (GoError + A) :=
  let! err := m in
  match err with
  | Some err => mret (inl err)
  | None => k
  end.

(** The same for a call with a value. *)
Definition value_or_fatal {S A B} (m : M S (GoError + B)) (k : B → M S (GoError + A)) : M S (GoError + A) :=
  let! r := m in
  match r with
  | inl err => mret (inl err)
  | inr b => k b
  end.

(** [defer cleanup] around a body that may call [fatal]. *)
Definition deferred {S A} (cleanup : M S unit) (body : M S (GoError + A)) : M S (GoError + A) := λ w,
  match body w with
  | Ret (inl err) w' => Ret (inl err) w'
  | _ => finally body cleanup w
  end.

(** [keys[i%len(keys)]]. *)
Definition key_at {S} (keys : list string) (i : Z) : M S string :=
  if zlen keys =? 0 then panic "runtime error: integer divide by zero"
  else match keys !! Z.to_nat (i mod zlen keys) with
       | Some key => mret key
       | None => panic "runtime error: index out of range"
       end.

Section Bench.
Context `{L : LsmEngine} {FS : HostFs} {P : Platform} {G : GoRuntime}.
Context (size : Z) (since : string → Z).

Definition defer_Close {A} (e : nat) (body : M World (GoError + A)) : M World (GoError + A) :=
  deferred (Close e) body.

(** [for _, key := range keys { engine.PutBytes(key, payload) }]. *)
Fixpoint put_all (e : nat) (keys : list string) (payload : goslice) : M World (option GoError) :=
  match keys with
  | [] => mret None
  | key :: keys =>
      let! err := PutBytes e key payload in
      match err with
      | Some err => mret (Some err)
      | None => put_all e keys payload
      end
  end.

(** The reads [i], [i+1], ... of a loop with [n] of them to go. *)
Fixpoint get_from (n : nat) (i : Z) (e : nat) (keys : list string) : M World (option GoError) :=
  match n with
  | O => mret None
  | S n =>
      let! key := key_at keys i in
      let! r := GetBytes e key in
      match r with
      | inl err => mret (Some err)
      | inr _ => get_from n (i + 1) e keys
      end
  end.

Definition random_gets (randomGets : Z) (e : nat) (keys : list string) : M World (option GoError) :=
  get_from (Z.to_nat randomGets) 0 e keys.

Definition benchF4KVSChunkDurable (dir profile durability : string) (opts : option OpenOptions)
    (chunkKeys : list string) (chunkPayload : goslice) : M World (GoError + list phaseResult) :=
  let durableDir := filepath_Join [dir; "chunk_durable"] in
  run! os_RemoveAll durableDir in
  value_or_fatal (NewPersistentEngineWithOptions durableDir opts) (λ engine,
  defer_Close engine
    (or_fatal (put_all engine chunkKeys chunkPayload)
    (or_fatal (FlushWAL engine)
    (mret (inr [result "chunk_batch_put_durable" profile (zlen chunkKeys)
                  (since "chunk_batch_put_durable") durability "puts + FlushWAL end-to-end"]))))).

Definition benchF4KVSChunkBatchPut (dir profile : string) (chunkKeys : list string)
    (chunkPayload : goslice) (bulkImport : bool) (phase note : string)
    : M World (GoError + list phaseResult) :=
  let opts := openOptsForProfile size None (zlen chunkKeys) in
  value_or_fatal (NewPersistentEngineWithOptions dir opts) (λ engine,
  defer_Close engine
    (or_fatal (if bulkImport then SetBulkImport engine true else mret None)
    (or_fatal (batchPutBytesChunked size engine chunkKeys chunkPayload)
    (or_fatal (if size <=? 0 then FlushWAL engine else mret None)
    (mret (inr [result phase profile (zlen chunkKeys) (since phase)
                  "WAL (one durable unit per BatchPut slice; fair=one slice)"
                  (note +:+ " batch-put-size=" +:+ pretty size)])))))).

Definition benchF4KVSChunkBatched (dir profile : string) (chunkKeys : list string) (chunkPayload : goslice)
    : M World (GoError + list phaseResult) :=
  benchF4KVSChunkBatchPut dir profile chunkKeys chunkPayload false "chunk_batch_put_batched" "BatchPutBytes".

Definition benchF4KVSChunkBulkImport (dir profile : string) (chunkKeys : list string) (chunkPayload : goslice)
    : M World (GoError + list phaseResult) :=
  benchF4KVSChunkBatchPut dir profile chunkKeys chunkPayload true "chunk_batch_put_bulk_import"
    "BatchPutBytes + SetBulkImport(true)".

(** The chunk phase of [benchF4KVS] when every chunk is put on its own. *)
Definition chunks_per_commit (engine : nat) (dir profile durability : string) (opts : option OpenOptions)
    (chunkKeys : list string) (chunkPayload : goslice) : M World (GoError + list phaseResult) :=
  or_fatal (put_all engine chunkKeys chunkPayload)
  (let puts := result "chunk_batch_put" profile (zlen chunkKeys) (since "chunk_batch_put") durability "per-commit" in
   if usesGroupCommit opts then
     or_fatal (FlushWAL engine)
     (let flush := result "chunk_batch_put_flush" profile (zlen chunkKeys) (since "chunk_batch_put_flush")
                     durability "FlushWAL; durable within window, memtable not flushed" in
      value_or_fatal (benchF4KVSChunkDurable dir profile durability opts chunkKeys chunkPayload)
        (λ durable, mret (inr ([puts; flush] ++ durable))))
   else mret (inr [puts])).

(** The same at scale, with group commit: a stream of puts. *)
Definition chunks_group_commit (engine : nat) (dir profile durability : string)
    (chunkKeys : list string) (chunkPayload : goslice) : M World (GoError + list phaseResult) :=
  or_fatal (SetBulkImport engine true)
  (or_fatal (put_all engine chunkKeys chunkPayload)
  (or_fatal (FlushWAL engine)
  (or_fatal (SetBulkImport engine false)
  (let stream := result "chunk_put_group_commit" profile (zlen chunkKeys) (since "chunk_put_group_commit")
                   durability "PutBytes stream + FlushWAL (group-commit window; scale path)" in
   value_or_fatal (benchF4KVSChunkBatched (filepath_Join [dir; "chunk_batched"]) profile chunkKeys chunkPayload)
     (λ batched, mret (inr (stream :: batched))))))).

(** The same at scale, without: batches. *)
Definition chunks_batched (engine : nat) (dir profile durability : string)
    (chunkKeys : list string) (chunkPayload : goslice) : M World (GoError + list phaseResult) :=
  or_fatal (SetBulkImport engine true)
  (or_fatal (batchPutBytesChunked size engine chunkKeys chunkPayload)
  (or_fatal (SetBulkImport engine false)
  (let note := if size <=? 0
               then "BatchPutBytes one-shot n=" +:+ pretty (zlen chunkKeys) +:+ " + FlushWAL (fair vs SQLite COMMIT)"
               else "BatchPutBytes slice=" +:+ pretty size +:+ " SetBulkImport (scale; 0=one-shot fair)" in
   or_fatal (if size <=? 0 then FlushWAL engine else mret None)
   (let batched := result "chunk_batch_put_batched" profile (zlen chunkKeys) (since "chunk_batch_put_batched")
                     durability note in
    if 0 <? size then
      value_or_fatal (benchF4KVSChunkBulkImport (filepath_Join [dir; "chunk_bulk_import"]) profile chunkKeys chunkPayload)
        (λ bulk, mret (inr (batched :: bulk)))
    else mret (inr [batched]))))).

Definition benchF4KVS (dir profile durability : string) (opts : option OpenOptions)
    (memoirKeys chunkKeys : list string) (memoirPayload chunkPayload : goslice)
    (randomGets : Z) (skipPerCommitChunks : bool) : M World (GoError + list phaseResult) :=
  let opts := openOptsForProfile size opts (zlen chunkKeys) in
  value_or_fatal (NewPersistentEngineWithOptions dir opts) (λ engine,
  defer_Close engine
    (or_fatal (put_all engine memoirKeys memoirPayload)
    (or_fatal (random_gets randomGets engine memoirKeys)
    (value_or_fatal
      (if skipPerCommitChunks then
         if usesGroupCommit opts
         then chunks_group_commit engine dir profile durability chunkKeys chunkPayload
         else chunks_batched engine dir profile durability chunkKeys chunkPayload
       else chunks_per_commit engine dir profile durability opts chunkKeys chunkPayload) (λ chunk_rows,
    (value_or_fatal
      (if skipPerCommitChunks then mret (inr [])
       else value_or_fatal (benchF4KVSChunkBatched (filepath_Join [dir; "chunk_batched"]) profile chunkKeys chunkPayload)
              (λ batched, value_or_fatal
                 (benchF4KVSChunkBulkImport (filepath_Join [dir; "chunk_bulk_import"]) profile chunkKeys chunkPayload)
                 (λ bulk, mret (inr (batched ++ bulk))))) (λ side_rows,
    (let! keys := ScanPrefixKeys engine "chunk:legal:" in
     let found := zlen (default [] keys) in
     or_fatal (random_gets randomGets engine chunkKeys)
     (mret (inr
       ([result "memoir_batch_put" profile (zlen memoirKeys) (since "memoir_batch_put") durability "per-commit";
         result "memoir_random_get" profile randomGets (since "memoir_random_get") durability ""] ++
        chunk_rows ++ side_rows ++
        [result "chunk_prefix_scan" profile found (since "chunk_prefix_scan") durability ("keys=" +:+ pretty found);
         result "chunk_random_get" profile randomGets (since "chunk_random_get") durability ""]))))))))))).

End Bench.

(** ** Facts *)

Section BenchFacts.
Context `{L : LsmEngine} {Laws : LsmLaws L} {FS : HostFs}.
Context {P : Platform} {POk : PlatformOk P} {G : GoRuntime} {GOk : GoRuntimeOk G}.
Implicit Types (w : World) (e : nat) (o : F4KVS) (g : lsm) (m : gmap string (Engine.Value json)).

(** Since [w0], where [e] was opened, only its engine changed: side engines were
    opened and closed, everything they allocated is given back. *)
Record at_work w0 w e o g : Prop := mkAtWork {
  aw_heap : heap (proc w) = <[handle o := BEngine g]> (heap (proc w0));
  aw_strings : string_allocations (proc w) = string_allocations (proc w0);
  aw_bytes : bytes_allocations (proc w) = bytes_allocations (proc w0);
  aw_objs : objs w0 ⊆ objs w
}.

Context (w0 : World) (e : nat) (o : F4KVS) (g0 : lsm).
Hypothesis Hopen : live w0 e o g0.
Hypothesis Hwf0 : wf (proc w0).

Lemma at_work_refl : at_work w0 w0 e o g0.
Proof. split; [|done..]. by rewrite insert_id by apply Hopen. Qed.

Lemma at_work_stepped w g : at_work w0 w e o g → stepped w e o g.
Proof.
  intros [Hh Hs Hb Ho]. split.
  - destruct Hopen as [H1 H2 H3 H4 H5]. split; try done.
    + by eapply lookup_weaken.
    + by rewrite Hh, lookup_insert_eq.
  - destruct (wf_with_engine (handle o) g0 g (dsk (proc w0)) (proc w0) Hwf0 (live_engine _ _ _ _ Hopen)) as [W1 W2 W3].
    simpl in *. split; rewrite ?Hh, ?Hs, ?Hb; done.
Qed.

(** A method of the engine itself. *)
Lemma at_work_frame w w' g g' : at_work w0 w e o g → frame w w' (handle o) g' → at_work w0 w' e o g'.
Proof.
  intros [Hh Hs Hb Ho] [Hobj [Fh Fs Fb _]]. split; [|congruence..|by rewrite Hobj].
  by rewrite Fh, Hh, insert_insert_eq.
Qed.

(** A side run. *)
Lemma at_work_side w w' g :
  at_work w0 w e o g → same_memory (proc w) (proc w') → objs w ⊆ objs w' → at_work w0 w' e o g.
Proof.
  intros [Hh Hs Hb Ho] (Fh & Fs & Fb) Hobj. split; [congruence..|]. by etrans.
Qed.

(** What a phase promises that leaves the contents [m]: it ends without a panic,
    and an error it stops with is not a missing key. *)
Definition phase {A} m (Q : A → Prop) (x : outcome World (GoError + A)) : Prop :=
  ends (λ r w', match r with
                | inl err => err ≠ ErrNotFound
                | inr a => Q a ∧ ∃ g, at_work w0 w' e o g ∧ contents g = m
                end) (λ _, False) x.

Definition phase_step m (x : outcome World (option GoError)) : Prop :=
  ends (λ r w', match r with
                | Some err => err ≠ ErrNotFound
                | None => ∃ g, at_work w0 w' e o g ∧ contents g = m
                end) (λ _, False) x.

Lemma phase_value {A B} m1 m2 Q1 Q2 (x : M World (GoError + A)) (k : A → M World (GoError + B)) w :
  phase m1 Q1 (x w) → (∀ a w' g, Q1 a → at_work w0 w' e o g → contents g = m1 → phase m2 Q2 (k a w')) →
  phase m2 Q2 (value_or_fatal x k w).
Proof.
  intros Hx Hk. eapply ends_bind; [exact Hx|]. intros [err|a] w' H; [done|].
  destruct H as (HQ & g & Hg & Hc). by eapply Hk.
Qed.

Lemma phase_or {B} m1 m2 Q2 (x : M World (option GoError)) (k : M World (GoError + B)) w :
  phase_step m1 (x w) → (∀ w' g, at_work w0 w' e o g → contents g = m1 → phase m2 Q2 (k w')) →
  phase m2 Q2 (or_fatal x k w).
Proof.
  intros Hx Hk. eapply ends_bind; [exact Hx|]. intros [err|] w' H; [done|].
  destruct H as (g & Hg & Hc). by eapply Hk.
Qed.

Lemma phase_ret {A} (Q : A → Prop) a w g :
  at_work w0 w e o g → Q a → phase (contents g) Q (mret (inr a) w).
Proof. intros Hg HQ. split; [done|]. eauto. Qed.

Lemma phase_skip w g : at_work w0 w e o g → phase_step (contents g) (mret None w).
Proof. intros Hg. by exists g. Qed.

Lemma at_work_live w g1 g2 : at_work w0 w e o g1 → live w e o g2 → g1 = g2.
Proof.
  intros [Hl _]%at_work_stepped H2. apply live_engine in Hl, H2. congruence.
Qed.

(** A step from its frame and its effect, when it returns. *)
Lemma step_from w g m (x : outcome World (option GoError)) :
  at_work w0 w e o g → framed w (handle o) x → (∃ r w', x = Ret r w' ∧ r ≠ Some ErrNotFound) →
  (∀ w', x = Ret None w' → ∃ g', stepped w' e o g' ∧ contents g' = m) → phase_step m x.
Proof.
  intros Hg Hf (r & w' & -> & Hr) Hok. destruct r as [err|]; simpl; [congruence|].
  destruct Hf as [g1 Hf]. destruct (Hok w' eq_refl) as (g2 & [Hl2 _] & Hc).
  pose proof (at_work_frame _ _ _ _ Hg Hf) as Hg1. exists g1. split; [done|].
  by rewrite (at_work_live _ _ _ Hg1 Hl2).
Qed.

Lemma finish_quiet {A} fmt args a (x : eff A) s n (ob : gmap nat F4KVS) :
  ∃ r w', (let '(r, s') := finish fmt args a x s in Ret r (mkWorld s' ob n)) = Ret r w' ∧ r ≠ Some ErrNotFound.
Proof. destruct x as [[msg|r] y]; simpl; eauto. Qed.

Lemma plain_text key k : plain_key key → key_text key = Some k → k = key.
Proof.
  intros Hp Hk. pose proof (plain_keys_of [key] [k]) as H. 
  cut ([k] = [key]); [by intros [= ->]|]. apply H; by repeat constructor.
Qed.

Lemma PutBytes_step w g key v :
  at_work w0 w e o g → plain_key key →
  phase_step (<[key := VBytes (slice_bytes v)]> (contents g)) (PutBytes e key v w).
Proof.
  intros Hg Hp. destruct (at_work_stepped _ _ Hg) as [Hl Hwf]. apply (step_from w g); [done|by eapply PutBytes_framed| |].
  - rewrite (PutBytes_live _ _ _ _ _ _ Hl). apply finish_quiet.
  - intros w' H. destruct (PutBytes_ok _ _ _ _ _ _ _ Hl Hwf H) as (g' & Hs & k & Hk & _ & Hc).
    apply (plain_text key) in Hk as ->; [|done]. eauto.
Qed.

Lemma SetBulkImport_step w g on : at_work w0 w e o g → phase_step (contents g) (SetBulkImport e on w).
Proof.
  intros Hg. destruct (at_work_stepped _ _ Hg) as [Hl Hwf].
  apply (step_from w g); [done|by eapply SetBulkImport_framed| |].
  - rewrite (SetBulkImport_live _ _ _ _ _ Hl). unfold set_proc. simpl. by eexists _, _.
  - intros w' H. by eapply SetBulkImport_ok.
Qed.

Lemma FlushWAL_step w g : at_work w0 w e o g → phase_step (contents g) (FlushWAL e w).
Proof.
  intros Hg. destruct (at_work_stepped _ _ Hg) as [Hl Hwf].
  apply (step_from w g); [done|by eapply FlushWAL_framed| |].
  - rewrite (FlushWAL_live _ _ _ _ Hl). unfold set_proc. apply finish_quiet.
  - intros w' H. by eapply FlushWAL_ok.
Qed.

Lemma payload_map_insert key v m : <[key := VBytes (slice_bytes v)]> m = payload_map [key] v ∪ m.
Proof.
  unfold payload_map, slice_items. simpl. by rewrite fmap_insert, fmap_empty, <-insert_union_l, (left_id_L ∅ (∪)).
Qed.

Lemma put_all_step w g keys v :
  at_work w0 w e o g → Forall plain_key keys →
  phase_step (payload_map keys v ∪ contents g) (put_all e keys v w).
Proof.
  intros Hg Hp. revert w g Hg. induction Hp as [|key keys Hk Hp IH]; intros w g Hg.
  - rewrite payload_map_nil. by apply phase_skip.
  - eapply ends_bind; [by apply (PutBytes_step w g)|]. intros [err|] w' H; [done|].
    destruct H as (g' & Hg' & Hc). specialize (IH w' g' Hg').
    by rewrite Hc, payload_map_insert, payload_map_split in IH.
Qed.

Lemma BatchPutBytes_quiet w g items :
  live w e o g → ∃ r w', BatchPutBytes e items w = Ret r w' ∧ r ≠ Some ErrNotFound.
Proof.
  intros Hl. destruct (decide (size items = O)) as [H0|H0].
  - unfold BatchPutBytes. rewrite bool_decide_eq_true_2 by done. by eexists _, _.
  - destruct (BatchPutBytes_live _ _ _ _ items Hl H0) as [-> | [-> _]]; [apply finish_quiet|by eexists _, _].
Qed.

Lemma slice_step w g keys v :
  at_work w0 w e o g → Forall plain_key keys →
  phase_step (payload_map keys v ∪ contents g) (BatchPutBytes e (slice_items keys v) w).
Proof.
  intros Hg Hp. destruct (at_work_stepped _ _ Hg) as [Hl Hwf].
  apply (step_from w g); [done|by eapply BatchPutBytes_framed|by eapply BatchPutBytes_quiet|].
  intros w' H. eapply BatchPutBytes_union; [done..|]. intros key. rewrite lookup_slice_items.
  case_decide as Hin; intros []; [|done]. rewrite Forall_forall in Hp. by apply Hp.
Qed.

Lemma put_slices_step fuel w g step keys v :
  at_work w0 w e o g → (0 < step)%nat → (length keys ≤ fuel)%nat → Forall plain_key keys →
  phase_step (payload_map keys v ∪ contents g) (put_slices fuel e step keys v w).
Proof.
  revert w g keys. induction fuel as [|fuel IH]; intros w g keys Hg Hstep Hlen Hp.
  - destruct keys; [|simpl in *; lia]. rewrite payload_map_nil. by apply phase_skip.
  - destruct keys as [|k0 keys0]; [rewrite payload_map_nil; by apply phase_skip|].
    cbn [put_slices]. set (keys := k0 :: keys0) in *.
    eapply ends_bind; [apply (slice_step w g); [done|by apply Forall_take]|].
    intros [err|] w' H; [done|]. destruct H as (g' & Hg' & Hc).
    assert (Hlen' : (length (drop step keys) ≤ fuel)%nat) by (rewrite length_drop; simpl in *; lia).
    specialize (IH w' g' (drop step keys) Hg' Hstep Hlen' (Forall_drop _ _ _ Hp)).
    by rewrite Hc, payload_map_split, take_drop in IH.
Qed.

Lemma chunked_step size w g keys v :
  at_work w0 w e o g → Forall plain_key keys →
  phase_step (payload_map keys v ∪ contents g) (batchPutBytesChunked size e keys v w).
Proof.
  intros Hg Hp. unfold batchPutBytesChunked.
  destruct keys as [|k keys]; [rewrite payload_map_nil; by apply phase_skip|].
  apply put_slices_step; try done. unfold resolveBatchPutSize, zlen. simpl length.
  repeat case_match; lia.
Qed.

(** ** Reads *)

Lemma GetBytes_hit w g key v :
  at_work w0 w e o g → plain_key key → contents g !! key = Some (VBytes v) → zlen v < 2 ^ 31 →
  phase (contents g) (λ _, True) (GetBytes e key w).
Proof.
  intros Hg Hp Hv Hlen. destruct (at_work_stepped _ _ Hg) as [Hl Hwf].
  assert (Hx : (∃ err w', GetBytes e key w = Ret (inl err) w' ∧ err ≠ ErrNotFound) ∨
               (∃ b w', GetBytes e key w = Ret (inr b) w')).
  { rewrite (GetBytes_live _ _ _ _ _ Hl Hwf). unfold get_outcome, in_world.
    destruct (get_eff key g (dsk (proc w))) as [[msg|r] y] eqn:Hx; [left; by eexists _, _|].
    apply get_eff_inr in Hx as (k & Hk & -> & Hc). apply (plain_text key) in Hk as ->; [|done].
    rewrite Hv. right. change (value_to_bytes (VBytes v)) with v. rewrite (go_bytes_small v Hlen).
    by eexists _, _. }
  pose proof (GetBytes_framed w e o g key Hl Hwf) as Hf.
  destruct Hx as [(err & w' & Hx & Hne)|(b & w' & Hx)]; rewrite Hx in *; [done|].
  destruct Hf as [g1 Hf]. pose proof (at_work_frame _ _ _ _ Hg Hf) as Hg1.
  destruct (GetBytes_ok _ _ _ _ _ _ _ Hl Hwf Hx) as (g2 & [Hl2 _] & _ & Hc); [done|].
  split; [done|]. exists g1. split; [done|]. by rewrite (at_work_live _ _ _ Hg1 Hl2).
Qed.

Lemma key_at_in {S} keys i (w : S) :
  keys ≠ [] → ∃ key, key ∈ keys ∧ key_at keys i w = Ret key w.
Proof.
  intros Hne. assert (Hlen : 0 < zlen keys) by (destruct keys; [done|unfold zlen; simpl; lia]).
  unfold key_at. rewrite (proj2 (Z.eqb_neq _ _)) by lia.
  pose proof (Z.mod_pos_bound i (zlen keys) Hlen) as Hi.
  destruct (lookup_lt_is_Some_2 keys (Z.to_nat (i mod zlen keys))) as [key Hk]; [unfold zlen in *; lia|].
  exists key. rewrite Hk. split; [by eapply list_elem_of_lookup_2|done].
Qed.

Lemma get_from_step n i w g keys v :
  at_work w0 w e o g → (keys ≠ [] ∨ n = O) → zlen v < 2 ^ 31 →
  (∀ key, key ∈ keys → plain_key key ∧ contents g !! key = Some (VBytes v)) →
  phase_step (contents g) (get_from n i e keys w).
Proof.
  intros Hg Hne Hlen Hall. revert i w g Hg Hall.
  induction n as [|n IH]; intros i w g Hg Hall; [by apply phase_skip|].
  destruct Hne as [Hne|?]; [|done]. cbn [get_from].
  destruct (key_at_in keys i w Hne) as (key & Hin & Hk). rewrite (bind_ret _ _ _ _ _ Hk).
  destruct (Hall key Hin) as [Hp Hv].
  eapply ends_bind; [by eapply (GetBytes_hit w g key v)|]. intros [err|b] w' H; [done|].
  destruct H as (_ & g' & Hg' & Hc). rewrite <-Hc. apply IH; [by left|done|]. by rewrite Hc.
Qed.

Lemma random_gets_step randomGets w g keys v :
  at_work w0 w e o g → (keys ≠ [] ∨ randomGets ≤ 0) → zlen v < 2 ^ 31 →
  (∀ key, key ∈ keys → plain_key key ∧ contents g !! key = Some (VBytes v)) →
  phase_step (contents g) (random_gets randomGets e keys w).
Proof.
  intros Hg Hne. apply get_from_step; [done|]. destruct Hne as [?|?]; [by left|right; lia].
Qed.

(** ** The prefix scan *)

Hypothesis Hscan : ∀ p g d, ∃ ks gd, lsm_scan_prefix p g d = (inr ks, gd).

Lemma scan_step w g n k mp cp :
  at_work w0 w e o g → contents g = stored n k mp cp → k ≤ 2 ^ 30 →
  ends (λ r w', ∃ ks, r = Some ks ∧ ks ≡ₚ chunkKeys k ∧ ∃ g', at_work w0 w' e o g' ∧ contents g' = contents g)
    (λ _, False) (ScanPrefixKeys e "chunk:legal:" w).
Proof.
  intros Hg Hc Hk. destruct (at_work_stepped _ _ Hg) as [Hl Hwf].
  assert (Hkeys : ∀ ks, keys_with_prefix (stored n k mp cp) "chunk:legal:" ks → ks ≡ₚ chunkKeys k).
  { intros ks. by apply scanned_chunks. }
  pose proof (scan_lists Hscan w e o g _ "chunk:legal:" (conj Hl Hwf) Hc (stored_plain n k mp cp) eq_refl) as He.
  pose proof (ScanPrefixKeys_framed w e o g "chunk:legal:" Hl Hwf) as Hf.
  assert (Hnp : ∀ msg w', ScanPrefixKeys e "chunk:legal:" w ≠ Panic msg w').
  { intros msg w'. rewrite (ScanPrefixKeys_live _ _ _ _ _ Hl Hwf). unfold scan_outcome, in_world.
    destruct (scan_eff _ g _) as [[er|ks] y] eqn:Hx; [done|].
    apply scan_eff_inr in Hx as (p & [= <-] & Hks & _). rewrite Hc in Hks.
    apply Hkeys, Permutation_length in Hks.
    replace (2 ^ 30 <? zlen ks) with false; [by destruct (nul_key ks)|]. symmetry. apply Z.ltb_ge. unfold zlen.
    rewrite Hks. unfold chunkKeys. rewrite length_fmap, length_seqZ. lia. }
  destruct (ScanPrefixKeys e "chunk:legal:" w) as [r w'|msg w'| |]; [|by destruct (Hnp msg w')|done..].
  destruct He as (ks & -> & Hks & g2 & [Hl2 _] & Hc2), Hf as [g1 Hf].
  pose proof (at_work_frame _ _ _ _ Hg Hf) as Hg1. exists ks. split_and!; [done|by apply Hkeys|].
  exists g1. split; [done|]. by rewrite (at_work_live _ _ _ Hg1 Hl2), Hc2, Hc.
Qed.

End BenchFacts.

Section Phases.
Context `{L : LsmEngine} {Laws : LsmLaws L} {FS : HostFs}.
Context {P : Platform} {POk : PlatformOk P} {G : GoRuntime} {GOk : GoRuntimeOk G}.
Implicit Types (w : World) (e : nat) (o : F4KVS) (g : lsm) (m : gmap string (Engine.Value json)).

(** What a run from opening an engine to its deferred close promises: no panic, no
    missing key, and all memory given back when it returns. *)
Definition clean_run {A} w (Q : A → Prop) (x : outcome World (GoError + A)) : Prop :=
  ends (λ r w', match r with
                | inl err => err ≠ ErrNotFound
                | inr a => Q a ∧ same_memory (proc w) (proc w') ∧ objs w ⊆ objs w'
                end) (λ _, False) x.

(** Closing gives back what opening took. *)
Lemma close_clean w w1 w2 e a g g2 :
  at_work w1 w2 e (mkF4KVS a unlocked false) g2 → live w2 e (mkF4KVS a unlocked false) g2 →
  heap (proc w1) = <[a := BEngine g]> (heap (proc w)) → heap (proc w) !! a = None →
  string_allocations (proc w1) = string_allocations (proc w) →
  bytes_allocations (proc w1) = bytes_allocations (proc w) →
  objs w1 = <[e := mkF4KVS a unlocked false]> (objs w) → objs w !! e = None →
  ∃ w3, Close e w2 = Ret tt w3 ∧ same_memory (proc w) (proc w3) ∧ objs w ⊆ objs w3.
Proof.
  intros [Hh Hs Hb Ho] Hl Hh1 Ha Hs1 Hb1 Ho1 He. rewrite (Close_live _ _ _ _ Hl eq_refl).
  eexists. split; [done|]. split.
  - unfold shut, same_memory. cbn [handle proc].
    destruct (run_eff _ _ _ _) as [[?|?] [[? ?]|]]; simpl in *;
      rewrite ?Hh, ?Hs, ?Hb, ?Hs1, ?Hb1, Hh1, insert_insert_eq, delete_insert_id by done; done.
  - simpl. apply insert_subseteq_r; [done|]. etrans; [|exact Ho]. rewrite Ho1. by apply insert_subseteq.
Qed.

Lemma opened_run {A} w dir opts (body : nat → M World (GoError + A)) (Q : A → Prop) :
  wf (proc w) → (∀ po, opts = Some po → go_options_fit po) →
  (∀ w1 e o g, live w1 e o g → wf (proc w1) →
     (∀ d, check_dir dir = inr d → contents g = durable (dsk (proc w)) d) →
     ∃ m, phase w1 e o m Q (body e w1)) →
  clean_run w Q (value_or_fatal (NewPersistentEngineWithOptions dir opts) (λ e, defer_Close e (body e)) w).
Proof.
  intros Hwf Hfit Hbody. unfold value_or_fatal, bind. rewrite (Open_spec w dir opts Hfit). cbv zeta.
  destruct (check_dir dir) as [msg|d] eqn:Hdir; [done|].
  destruct (lsm_new _ _) as [[er|g] ds] eqn:Hnew; [done|].
  destruct (new_ok _ _ _ _ Hnew) as [Hc _].
  destruct (open_handle_fresh (enter (proc w)) dir) as [Ha Hf]. set (a := alloc_addr _) in *.
  set (e := fresh (dom (objs w))). set (w1 := mkWorld (set_heap _ _) _ _).
  assert (Hl : live w1 e (mkF4KVS a unlocked false) g) by (apply (live_opened (enter (proc w)))).
  assert (Hwf1 : wf (proc w1)) by (apply (wf_new_engine (enter (proc w))); [by apply wf_enter|done..]).
  destruct (Hbody w1 e _ g Hl Hwf1) as [m Hph]; [intros d' [= <-]; rewrite Hc; by destruct opts|].
  unfold defer_Close, deferred, finally. destruct (body e w1) as [[err|r] w2| | |]; try done.
  destruct Hph as (HQ & g2 & Hg2 & _). destruct (at_work_stepped w1 e _ g Hl Hwf1 _ _ Hg2) as [Hl2 _].
  destruct (close_clean w w1 w2 e a g g2) as (w3 & -> & Hm & Ho); try done.
  by apply not_elem_of_dom_1, is_fresh.
Qed.

Lemma side_phase {A} w0 e o w g (Q : A → Prop) x :
  at_work w0 w e o g → clean_run w Q x → phase w0 e o (contents g) Q x.
Proof.
  intros Hg Hx. destruct x as [[err|a] w'| | |]; try done. destruct Hx as (HQ & Hm & Ho).
  split; [done|]. exists g. split; [|done]. by eapply at_work_side.
Qed.

Context (size : Z) (since : string → Z).

(** What identifies the rows of a run. *)
Definition summary (rows : list phaseResult) : list (string * string * Z) :=
  (λ r, (Phase r, Profile r, Ops r)) <$> rows.

Lemma durable_run w dir profile durability opts keys v :
  wf (proc w) → (∀ po, opts = Some po → go_options_fit po) → Forall plain_key keys →
  clean_run w (λ rows, summary rows = [("chunk_batch_put_durable", profile, zlen keys)])
    (benchF4KVSChunkDurable since dir profile durability opts keys v w).
Proof.
  intros Hwf Hfit Hp. unfold benchF4KVSChunkDurable. cbv zeta.
  set (w1 := set_proc (set_disk (remove_all (filepath_Join [dir; "chunk_durable"]) (dsk (proc w))) (proc w)) w).
  change (clean_run w1 (λ rows, summary rows = [("chunk_batch_put_durable", profile, zlen keys)])
    (value_or_fatal (NewPersistentEngineWithOptions (filepath_Join [dir; "chunk_durable"]) opts) (λ e,
       defer_Close e (or_fatal (put_all e keys v) (or_fatal (FlushWAL e) (mret (inr [result "chunk_batch_put_durable"
         profile (zlen keys) (since "chunk_batch_put_durable") durability "puts + FlushWAL end-to-end"]))))) w1)).
  apply opened_run; [by apply wf_set_disk|done|]. intros w2 e o g Hl Hwf2 _. exists (payload_map keys v ∪ contents g).
  eapply phase_or; [by apply (put_all_step w2 e o g Hl Hwf2 w2 g keys v (at_work_refl w2 e o g Hl))|].
  intros w3 g3 H3 <-. eapply phase_or; [by apply (FlushWAL_step w2 e o g Hl Hwf2)|].
  intros w4 g4 H4 <-. by apply phase_ret.
Qed.

Lemma batch_put_run w dir profile keys v bulk ph note :
  wf (proc w) → Forall plain_key keys →
  clean_run w (λ rows, summary rows = [(ph, profile, zlen keys)])
    (benchF4KVSChunkBatchPut size since dir profile keys v bulk ph note w).
Proof.
  intros Hwf Hp. apply opened_run; [done|by apply openOptsForProfile_fit|].
  intros w2 e o g Hl Hwf2 _. exists (payload_map keys v ∪ contents g).
  eapply (phase_or w2 e o (contents g)).
  { destruct bulk; [by apply (SetBulkImport_step w2 e o g Hl Hwf2), at_work_refl|].
    by apply phase_skip, at_work_refl. }
  intros w3 g3 H3 <-. eapply phase_or; [by apply (chunked_step w2 e o g Hl Hwf2)|].
  intros w4 g4 H4 <-. eapply (phase_or w2 e o (contents g4)).
  { destruct (size <=? 0); [by apply (FlushWAL_step w2 e o g Hl Hwf2)|by apply phase_skip]. }
  intros w5 g5 H5 <-. by apply phase_ret.
Qed.

Section Main.
Context (w0 : World) (e : nat) (o : F4KVS) (g0 : lsm).
Hypothesis Hopen : live w0 e o g0.
Hypothesis Hwf0 : wf (proc w0).
Context (dir profile durability : string) (opts : option OpenOptions) (keys : list string) (v : goslice).
Hypothesis Hfit : ∀ po, opts = Some po → go_options_fit po.
Hypothesis Hplain : Forall plain_key keys.

Lemma at_work_wf w g : at_work w0 w e o g → wf (proc w).
Proof. intros Hg. by apply (at_work_stepped w0 e o g0 Hopen Hwf0 w g). Qed.

Lemma per_commit_phase w g :
  at_work w0 w e o g →
  phase w0 e o (payload_map keys v ∪ contents g)
    (λ rows, summary rows = ("chunk_batch_put", profile, zlen keys) ::
       if usesGroupCommit opts
       then [("chunk_batch_put_flush", profile, zlen keys); ("chunk_batch_put_durable", profile, zlen keys)]
       else [])
    (chunks_per_commit since e dir profile durability opts keys v w).
Proof.
  intros Hg. eapply phase_or; [by apply (put_all_step w0 e o g0 Hopen Hwf0 w g)|].
  intros w1 g1 H1 <-. cbv zeta. destruct (usesGroupCommit opts); [|by apply phase_ret].
  eapply phase_or; [by apply (FlushWAL_step w0 e o g0 Hopen Hwf0)|]. intros w2 g2 H2 <-.
  eapply phase_value; [eapply side_phase; [done|apply durable_run; [by eapply at_work_wf|done..]]|].
  intros rows w3 g3 Hr H3 <-. apply phase_ret; [done|]. unfold summary in *. csimpl. by rewrite Hr.
Qed.

Lemma batched_side w g :
  at_work w0 w e o g →
  phase w0 e o (contents g) (λ rows, summary rows = [("chunk_batch_put_batched", profile, zlen keys)])
    (benchF4KVSChunkBatched size since (filepath_Join [dir; "chunk_batched"]) profile keys v w).
Proof. intros Hg. eapply side_phase; [done|]. apply batch_put_run; [by eapply at_work_wf|done]. Qed.

Lemma bulk_side w g :
  at_work w0 w e o g →
  phase w0 e o (contents g) (λ rows, summary rows = [("chunk_batch_put_bulk_import", profile, zlen keys)])
    (benchF4KVSChunkBulkImport size since (filepath_Join [dir; "chunk_bulk_import"]) profile keys v w).
Proof. intros Hg. eapply side_phase; [done|]. apply batch_put_run; [by eapply at_work_wf|done]. Qed.

Lemma group_commit_phase w g :
  at_work w0 w e o g →
  phase w0 e o (payload_map keys v ∪ contents g)
    (λ rows, summary rows = [("chunk_put_group_commit", profile, zlen keys);
                             ("chunk_batch_put_batched", profile, zlen keys)])
    (chunks_group_commit size since e dir profile durability keys v w).
Proof.
  intros Hg. eapply phase_or; [by apply (SetBulkImport_step w0 e o g0 Hopen Hwf0)|]. intros w1 g1 H1 <-.
  eapply phase_or; [by apply (put_all_step w0 e o g0 Hopen Hwf0)|]. intros w2 g2 H2 <-.
  eapply phase_or; [by apply (FlushWAL_step w0 e o g0 Hopen Hwf0)|]. intros w3 g3 H3 <-.
  eapply phase_or; [by apply (SetBulkImport_step w0 e o g0 Hopen Hwf0)|]. intros w4 g4 H4 <-. cbv zeta.
  eapply phase_value; [by apply batched_side|]. intros rows w5 g5 Hr H5 <-.
  apply phase_ret; [done|]. unfold summary in *. csimpl. by rewrite Hr.
Qed.

Lemma batched_phase w g :
  at_work w0 w e o g →
  phase w0 e o (payload_map keys v ∪ contents g)
    (λ rows, summary rows = ("chunk_batch_put_batched", profile, zlen keys) ::
       if 0 <? size then [("chunk_batch_put_bulk_import", profile, zlen keys)] else [])
    (chunks_batched size since e dir profile durability keys v w).
Proof.
  intros Hg. eapply phase_or; [by apply (SetBulkImport_step w0 e o g0 Hopen Hwf0)|]. intros w1 g1 H1 <-.
  eapply phase_or; [by apply (chunked_step w0 e o g0 Hopen Hwf0)|]. intros w2 g2 H2 <-.
  eapply phase_or; [by apply (SetBulkImport_step w0 e o g0 Hopen Hwf0)|]. intros w3 g3 H3 <-. cbv zeta.
  eapply (phase_or w0 e o (contents g3)).
  { destruct (size <=? 0); [by apply (FlushWAL_step w0 e o g0 Hopen Hwf0)|by apply phase_skip]. }
  intros w4 g4 H4 <-. destruct (0 <? size); [|by apply phase_ret].
  eapply phase_value; [by apply bulk_side|]. intros rows w5 g5 Hr H5 <-.
  apply phase_ret; [done|]. unfold summary in *. csimpl. by rewrite Hr.
Qed.

(** The two side runs of the path with one put per chunk. *)
Lemma sides_phase (skip : bool) w g :
  at_work w0 w e o g →
  phase w0 e o (contents g)
    (λ rows, summary rows = if skip then [] else [("chunk_batch_put_batched", profile, zlen keys);
                                                  ("chunk_batch_put_bulk_import", profile, zlen keys)])
    ((if skip then mret (inr [])
      else value_or_fatal (benchF4KVSChunkBatched size since (filepath_Join [dir; "chunk_batched"]) profile keys v)
             (λ batched, value_or_fatal
                (benchF4KVSChunkBulkImport size since (filepath_Join [dir; "chunk_bulk_import"]) profile keys v)
                (λ bulk, mret (inr (batched ++ bulk))))) w).
Proof.
  intros Hg. destruct skip; [by apply phase_ret|].
  eapply phase_value; [by apply batched_side|]. intros rows1 w1 g1 Hr1 H1 <-.
  eapply phase_value; [by apply bulk_side|]. intros rows2 w2 g2 Hr2 H2 <-.
  apply phase_ret; [done|]. unfold summary in *. by rewrite fmap_app, Hr1, Hr2.
Qed.

End Main.

End Phases.

(** ** Properties *)

(** The rows of a run on [n] memoirs and [k] chunks: phase, profile, operations. *)
Definition chunk_summary (size : Z) (profile : string) (k : Z) (skip gc : bool) : list (string * string * Z) :=
  if skip then
    if gc then [("chunk_put_group_commit", profile, k); ("chunk_batch_put_batched", profile, k)]
    else ("chunk_batch_put_batched", profile, k) ::
         (if 0 <? size then [("chunk_batch_put_bulk_import", profile, k)] else [])
  else ("chunk_batch_put", profile, k) ::
       (if gc then [("chunk_batch_put_flush", profile, k); ("chunk_batch_put_durable", profile, k)] else []).

Definition bench_summary (size : Z) (profile : string) (n k randomGets : Z) (skip gc : bool)
    : list (string * string * Z) :=
  [("memoir_batch_put", profile, n); ("memoir_random_get", profile, randomGets)] ++
  chunk_summary size profile k skip gc ++
  (if skip then [] else [("chunk_batch_put_batched", profile, k); ("chunk_batch_put_bulk_import", profile, k)]) ++
  [("chunk_prefix_scan", profile, k); ("chunk_random_get", profile, randomGets)].

(** Every phase is measured at most once. *)
Lemma bench_summary_phases size profile n k randomGets skip gc :
  NoDup ((bench_summary size profile n k randomGets skip gc).*1.*1).
Proof.
  unfold bench_summary, chunk_summary. destruct skip, gc, (0 <? size); simpl; apply (bool_decide_unpack _); by vm_compute.
Qed.

Section Runs.
Context `{L : LsmEngine} {Laws : LsmLaws L} {FS : HostFs}.
Context {P : Platform} {POk : PlatformOk P} {G : GoRuntime} {GOk : GoRuntimeOk G}.

Lemma memoirKeys_plain n : Forall plain_key (memoirKeys n).
Proof.
  apply Forall_forall. intros key Hk. apply (stored_plain n 0 None None), stored_keys. by left.
Qed.

Lemma chunkKeys_plain k : Forall plain_key (chunkKeys k).
Proof.
  apply Forall_forall. intros key Hk. apply (stored_plain 0 k None None), stored_keys. by right.
Qed.

Lemma seqZ_not_nil n : 0 < n → seqZ 0 n ≠ [].
Proof. intros Hn H. apply (f_equal length) in H. rewrite length_seqZ in H. simpl in H. lia. Qed.

Lemma payload_map_hit keys v (m : gmap string (Engine.Value json)) key :
  key ∈ keys → (payload_map keys v ∪ m) !! key = Some (VBytes (slice_bytes v)).
Proof.
  intros Hk. unfold payload_map. rewrite lookup_union, lookup_fmap, lookup_slice_items, decide_True by done.
  simpl. by destruct (m !! key).
Qed.

Lemma chunk_phase size since w0 e o g0 dir profile durability opts keys v (skip : bool) w g :
  live w0 e o g0 → wf (proc w0) → (∀ po, opts = Some po → go_options_fit po) → Forall plain_key keys →
  at_work w0 w e o g →
  phase w0 e o (payload_map keys v ∪ contents g)
    (λ rows, summary rows = chunk_summary size profile (zlen keys) skip (usesGroupCommit opts))
    ((if skip then
        if usesGroupCommit opts
        then chunks_group_commit size since e dir profile durability keys v
        else chunks_batched size since e dir profile durability keys v
      else chunks_per_commit since e dir profile durability opts keys v) w).
Proof.
  intros Hl Hwf Hfit Hp Hg. unfold chunk_summary. destruct skip; [destruct (usesGroupCommit opts)|].
  - by apply (group_commit_phase size since w0 e o g0).
  - by apply (batched_phase size since w0 e o g0).
  - by apply (per_commit_phase since w0 e o g0).
Qed.

(** What a run promises: see [bench_run_complete]. *)
Lemma bench_run_ends size since dir profile durability base n k mp cp randomGets skip w :
  (∀ p g d, ∃ ks gd, lsm_scan_prefix p g d = (inr ks, gd)) →
  wf (proc w) → (∀ po, base = Some po → go_options_fit po) →
  check_dir dir = inr dir → durable (dsk (proc w)) dir = ∅ →
  (0 < n ∧ 0 < k) ∨ randomGets ≤ 0 → k ≤ 2 ^ 30 →
  zlen (slice_bytes mp) < 2 ^ 31 → zlen (slice_bytes cp) < 2 ^ 31 →
  clean_run w
    (λ rows, summary rows =
       bench_summary size profile (zlen (memoirKeys n)) (zlen (chunkKeys k)) randomGets skip
         (usesGroupCommit (openOptsForProfile size base (zlen (chunkKeys k)))))
    (benchF4KVS size since dir profile durability base (memoirKeys n) (chunkKeys k) mp cp randomGets skip w).
Proof.
  intros Hscan Hwf Hfit Hdir Hempty Hne Hk Hmp Hcp. unfold benchF4KVS. cbv zeta.
  set (opts := openOptsForProfile size base (zlen (chunkKeys k))).
  assert (Hfit' : ∀ po, opts = Some po → go_options_fit po) by by apply openOptsForProfile_fit.
  apply opened_run; [done..|]. intros w1 e o g Hl Hwf1 Hc. specialize (Hc dir Hdir). rewrite Hempty in Hc.
  exists (stored n k mp cp).
  pose proof (memoirKeys_plain n) as Hpm. pose proof (chunkKeys_plain k) as Hpc.
  assert (Hn0 : memoirKeys n ≠ [] ∨ randomGets ≤ 0).
  { destruct Hne as [[Hn _]|?]; [left|by right]. intros ?%fmap_nil_inv. by apply (seqZ_not_nil n). }
  assert (Hk0 : chunkKeys k ≠ [] ∨ randomGets ≤ 0).
  { destruct Hne as [[_ Hk']|?]; [left|by right]. intros ?%fmap_nil_inv. by apply (seqZ_not_nil k). }
  eapply phase_or; [apply (put_all_step w1 e o g Hl Hwf1 w1 g); [by apply at_work_refl|done]|].
  intros w2 g2 H2 Hc2. eapply (phase_or w1 e o (contents g2)).
  { apply (random_gets_step w1 e o g Hl Hwf1 randomGets w2 g2 _ (slice_bytes mp)); try done.
    intros key Hin. rewrite Hc2. split; [exact (proj1 (Forall_forall _ _) Hpm key Hin)|by apply payload_map_hit]. }
  intros w3 g3 H3 Hc3. eapply phase_value.
  { by apply (chunk_phase size since w1 e o g dir profile durability opts (chunkKeys k) cp skip w3 g3). }
  intros rows1 w4 g4 Hr1 H4 Hc4. eapply phase_value; [by apply (sides_phase size since w1 e o g)|].
  intros rows2 w5 g5 Hr2 H5 Hc5.
  assert (Hst : contents g5 = stored n k mp cp).
  { rewrite Hc5, Hc4, Hc3, Hc2, Hc. unfold stored. by rewrite (right_id_L ∅ (∪)). }
  eapply ends_bind; [by apply (scan_step w1 e o g Hl Hwf1 Hscan w5 g5 n k mp cp)|].
  intros r w6 (ks & -> & Hks & g6 & H6 & Hc6). apply Permutation_length in Hks.
  eapply (phase_or w1 e o (contents g6)).
  { apply (random_gets_step w1 e o g Hl Hwf1 randomGets w6 g6 _ (slice_bytes cp)); try done.
    intros key Hin. rewrite Hc6, Hst. split; [exact (proj1 (Forall_forall _ _) Hpc key Hin)|by apply payload_map_hit]. }
  intros w7 g7 H7 Hc7. replace (stored n k mp cp) with (contents g7) by congruence.
  apply phase_ret; [done|]. unfold summary, bench_summary in *. csimpl. rewrite !fmap_app, Hr1, Hr2.
  csimpl. unfold zlen in *. by rewrite Hks.
Qed.

(** C16: a benchmark run in an empty directory, on an engine that keeps its contract
    and does not fail to scan, with at most 2^30 chunks, payloads of less than 2^31
    bytes, and at least one memoir and one chunk unless it is to do no reads.  (With
    reads to do and nothing to read it panics, [bench_no_memoirs_panics].)  It ends
    without a panic, in one of two ways.  It stops with an error of the
    engine, which is never a missing key: every read of the run asks for a key the
    run has written.  Or it returns one row for each phase of its path, in order,
    with the number of operations it did, the prefix scan having found every
    chunk; then all memory of its engines is given back, on every path through the
    side runs. *)
Theorem bench_run_complete size since dir profile durability base n k mp cp randomGets skip w :
  (∀ p g d, ∃ ks gd, lsm_scan_prefix p g d = (inr ks, gd)) →
  wf (proc w) → (∀ po, base = Some po → go_options_fit po) →
  check_dir dir = inr dir → durable (dsk (proc w)) dir = ∅ →
  (0 < n ∧ 0 < k) ∨ randomGets ≤ 0 → k ≤ 2 ^ 30 →
  zlen (slice_bytes mp) < 2 ^ 31 → zlen (slice_bytes cp) < 2 ^ 31 →
  clean_run w
    (λ rows, summary rows =
       bench_summary size profile (zlen (memoirKeys n)) (zlen (chunkKeys k)) randomGets skip
         (usesGroupCommit (openOptsForProfile size base (zlen (chunkKeys k)))))
    (benchF4KVS size since dir profile durability base (memoirKeys n) (chunkKeys k) mp cp randomGets skip w).
Proof. intros. by apply bench_run_ends. Qed.

Lemma defer_Close_panic {A} e (body : M World (GoError + A)) w w1 w2 msg :
  body w = Panic msg w1 → Close e w1 = Ret tt w2 → defer_Close e body w = Panic msg w2.
Proof. unfold defer_Close, deferred, finally. by intros -> ->. Qed.

(** With [-memoirs=0] and at least one read to do, a run that can open its
    engine ends in a panic: the index of the first read is taken modulo the number
    of memoirs.  The deferred close still runs, so no memory is lost. *)
Lemma bench_no_memoirs_panics size since dir d profile durability base keys mp cp randomGets skip w g ds :
  let opts := openOptsForProfile size base (zlen keys) in
  wf (proc w) → (∀ po, base = Some po → go_options_fit po) → check_dir dir = inr d →
  lsm_new (open_config d (copts <$> opts)) (dsk (proc w)) = (inr g, ds) → 0 < randomGets →
  ∃ w', benchF4KVS size since dir profile durability base [] keys mp cp randomGets skip w =
          Panic "runtime error: integer divide by zero" w' ∧
        same_memory (proc w) (proc w').
Proof.
  intros opts Hwf Hfit Hdir Hnew Hgets. unfold benchF4KVS, value_or_fatal at 1, bind. cbv zeta.
  fold opts. rewrite (Open_spec w dir opts) by by apply openOptsForProfile_fit. cbv zeta. rewrite Hdir.
  change (dsk (enter (proc w))) with (dsk (proc w)). rewrite Hnew.
  destruct (open_handle_fresh (enter (proc w)) dir) as [Ha Hf]. set (a := alloc_addr _) in *.
  set (e := fresh (dom (objs w))). set (w1 := mkWorld (set_heap _ _) _ _).
  assert (Hl : live w1 e (mkF4KVS a unlocked false) g) by (apply (live_opened (enter (proc w)))).
  destruct (close_clean w w1 w1 e a g g) as (w3 & Hclose & Hm & _); try done.
  { by apply at_work_refl. }
  { by apply not_elem_of_dom_1, is_fresh. }
  exists w3. split; [|done]. apply (defer_Close_panic e _ w1 w1); [|done].
  unfold random_gets. replace (Z.to_nat randomGets) with (S (pred (Z.to_nat randomGets))) by lia. done.
Qed.

End Runs.

(** ** Runs *)
Section Concrete.
#[local] Existing Instances steady_engine steady_laws forgetful steady_platform.

Definition demo_run (skip : bool) (w : World (L := steady_engine)) :=
  benchF4KVS (L := steady_engine) 2 (λ _, 1000) "/bench" "f4kvs_wal_segment" "wal" None
    (memoirKeys 2) (chunkKeys 3) (Some [x61]) (Some [x62]) 4 skip w.

Lemma bench_run_complete_witness :
  clean_run (L := steady_engine) steady_world
    (λ rows, summary rows =
       bench_summary 2 "f4kvs_wal_segment" (zlen (memoirKeys 2)) (zlen (chunkKeys 3)) 4 false
         (usesGroupCommit (openOptsForProfile 2 None (zlen (chunkKeys 3)))))
    (demo_run false steady_world).
Proof.
  apply (bench_run_complete (L := steady_engine) 2 (λ _, 1000) "/bench" "f4kvs_wal_segment" "wal" None 2 3
           (Some [x61]) (Some [x62]) 4 false steady_world
           (λ p g d, ex_intro _ _ (ex_intro _ _ eq_refl)) steady_wf).
  - done.
  - done.
  - done.
  - by left.
  - done.
  - done.
  - done.
Defined.

(** Evaluated, on both paths: the rows are there. *)
Example demo_rows :
  forallb (λ skip, match demo_run skip steady_world with
                   | Ret (inr rows) _ =>
                       bool_decide (summary rows = bench_summary 2 "f4kvs_wal_segment" 2 3 4 skip false)
                   | _ => false
                   end) [true; false] = true.
Proof. vm_compute. reflexivity. Qed.

Lemma bench_no_memoirs_panics_witness :
  ∃ w', benchF4KVS (L := steady_engine) 2 (λ _, 1000) "/bench" "f4kvs_wal_segment" "wal" None
          [] (chunkKeys 3) (Some [x61]) (Some [x62]) 4 false steady_world =
          Panic "runtime error: integer divide by zero" w' ∧
        same_memory (proc steady_world) (proc w').
Proof.
  eapply (bench_no_memoirs_panics (L := steady_engine) 2 (λ _, 1000) "/bench" "/bench" "f4kvs_wal_segment" "wal" None
            (chunkKeys 3) (Some [x61]) (Some [x62]) 4 false steady_world); [apply steady_wf|done|done|done|done].
Defined.

End Concrete.
