(* ===== verification/Places.v ===== *)
(** * Where engines write

    An engine keeps its files in its data directory: no operation changes what
    another directory holds.  [LsmPlace] states this of the engine, [HostPlace] of
    the host's removal of a directory tree.  [always I m] says that a computation
    keeps an invariant, on every outcome; each function of the library and of the
    binding keeps [elsewhere dir m], that no live engine is in or around [dir] and
    that [dir] holds [m].  With this the runs of the benchmark on their own
    directories do not disturb each other. *)

From Stdlib Require Import Floats.SpecFloat.
From S2P Require Import Prelude Engine Utf8 Options Ffi Binding FfiFacts BindingFacts Session Semantics Concrete Paths Harness Report Restart Bench.

(** ** Directories apart *)

(** The elements of an absolute path. *)
Definition elements (path : list byte) : list (list byte) := clean_parts true (split_path path) [].

(** Two absolute paths, none of them inside the other. *)
Definition apart_dirs (p q : string) : Prop :=
  let a := String.list_byte_of_string p in
  let b := String.list_byte_of_string q in
  is_rooted a = true ∧ is_rooted b = true ∧
  ¬ elements a `prefix_of` elements b ∧ ¬ elements b `prefix_of` elements a.

#[global] Instance apart_dirs_dec p q : Decision (apart_dirs p q).
Proof. unfold apart_dirs. apply _. Defined.

Lemma apart_sym p q : apart_dirs p q → apart_dirs q p.
Proof. intros (? & ? & ? & ?). by split_and!. Qed.

Lemma apart_ne p q : apart_dirs p q → p ≠ q.
Proof. intros (_ & _ & H & _) ->. by apply H. Qed.

(** An element of a path that cleaning keeps. *)
Definition plain_name (name : list byte) : Prop :=
  name ≠ [] ∧ name ≠ dot ∧ name ≠ dotdot ∧ slash ∉ name.

#[global] Instance plain_name_dec name : Decision (plain_name name).
Proof. unfold plain_name. apply _. Defined.

(** The absolute path with these elements. *)
Definition path_of (names : list (list byte)) : list byte := names ≫= λ n, slash :: n.
Definition dir_of (names : list (list byte)) : string := String.string_of_list_byte (path_of names).

Lemma split_plain name rest :
  slash ∉ name → split_path (name ++ slash :: rest) = name :: split_path rest.
Proof.
  induction name as [|b name IH]; intros Hs; [done|]. apply not_elem_of_cons in Hs as [Hb Hs].
  simpl. by rewrite bool_decide_eq_false_2, (IH Hs) by done.
Qed.

Lemma split_name name : slash ∉ name → split_path name = [name].
Proof.
  induction name as [|b name IH]; intros Hs; [done|]. apply not_elem_of_cons in Hs as [Hb Hs].
  simpl. by rewrite bool_decide_eq_false_2, (IH Hs) by done.
Qed.

Lemma split_names n names :
  Forall plain_name (n :: names) → split_path (n ++ path_of names) = n :: names.
Proof.
  revert n. induction names as [|n' names IH]; intros n [Hn Hall]%Forall_cons; destruct Hn as (_ & _ & _ & Hs).
  - rewrite app_nil_r. by apply split_name.
  - change (path_of (n' :: names)) with (slash :: n' ++ path_of names). by rewrite (split_plain _ _ Hs), IH.
Qed.

Lemma split_path_of n names :
  Forall plain_name (n :: names) → split_path (path_of (n :: names)) = [] :: n :: names.
Proof.
  intros Hall. change (path_of (n :: names)) with ([] ++ slash :: (n ++ path_of names)).
  rewrite split_plain by set_solver. by rewrite split_names.
Qed.

Lemma clean_plain rooted names out : Forall plain_name names → clean_parts rooted names out = rev out ++ names.
Proof.
  intros H. revert out. induction H as [|n names (Hn & Hd & Hdd & _) _ IH]; intros out; simpl; [by rewrite app_nil_r|].
  rewrite (bool_decide_eq_false_2 _ Hn), (bool_decide_eq_false_2 _ Hd), (bool_decide_eq_false_2 _ Hdd). simpl.
  by rewrite IH; simpl; rewrite <-app_assoc.
Qed.

Lemma elements_path_of names : Forall plain_name names → names ≠ [] → elements (path_of names) = names.
Proof.
  intros Hall Hne. destruct names as [|n names]; [done|]. unfold elements. rewrite (split_path_of _ _ Hall).
  cbn [clean_parts]. rewrite (bool_decide_eq_true_2 ([] = [])) by done. exact (clean_plain true (n :: names) [] Hall).
Qed.

Lemma join_path_of n names : slash :: join_parts (n :: names) = path_of (n :: names).
Proof.
  revert n. induction names as [|n' names IH]; intros n; [simpl; by rewrite app_nil_r|].
  change (join_parts (n :: n' :: names)) with (n ++ slash :: join_parts (n' :: names)).
  by rewrite IH.
Qed.

Lemma Clean_path_of names : Forall plain_name names → names ≠ [] → Clean (path_of names) = path_of names.
Proof.
  intros Hall Hne. destruct names as [|n names]; [done|]. unfold Clean.
  change (is_rooted (path_of (n :: names))) with true. cbv iota. cbv zeta.
  fold (elements (path_of (n :: names))). rewrite (elements_path_of _ Hall) by done. apply join_path_of.
Qed.

Lemma path_of_snoc names name : path_of (names ++ [name]) = path_of names ++ slash :: name.
Proof. unfold path_of. rewrite bind_app. simpl. by rewrite app_nil_r. Qed.

(** [filepath.Join] of a clean absolute path and a name. *)
Lemma Join_dir_of names name :
  Forall plain_name names → names ≠ [] → plain_name (String.list_byte_of_string name) →
  filepath_Join [dir_of names; name] = dir_of (names ++ [String.list_byte_of_string name]).
Proof.
  intros Hall Hne Hn. unfold filepath_Join, dir_of. f_equal. cbn [fmap list_fmap].
  rewrite bytes_of_string_of_bytes. cbn [join_elems].
  rewrite bool_decide_eq_false_2 by (destruct names; done).
  change (join_parts [?a; ?b]) with (a ++ slash :: b). rewrite <-path_of_snoc. apply Clean_path_of.
  - by apply Forall_app_2; [|constructor].
  - by destruct names.
Qed.

Lemma apart_dir_of p q :
  Forall plain_name p → Forall plain_name q → p ≠ [] → q ≠ [] →
  ¬ p `prefix_of` q → ¬ q `prefix_of` p → apart_dirs (dir_of p) (dir_of q).
Proof.
  intros Hp Hq Hp0 Hq0 Hpq Hqp. unfold apart_dirs, dir_of. cbv zeta. rewrite !bytes_of_string_of_bytes.
  rewrite !elements_path_of by done. by destruct p, q.
Qed.

(** What is inside one of two directories apart is apart from the other. *)
Lemma apart_inside names name q :
  Forall plain_name names → names ≠ [] → plain_name (String.list_byte_of_string name) →
  apart_dirs (dir_of names) q → apart_dirs (filepath_Join [dir_of names; name]) q.
Proof.
  intros Hall Hne Hn (Hr & Hr' & H1 & H2). rewrite Join_dir_of by done. unfold apart_dirs, dir_of in *. cbv zeta.
  rewrite bytes_of_string_of_bytes in *. rewrite elements_path_of in * by done.
  rewrite elements_path_of by (try apply Forall_app_2; try constructor; try done; by destruct names).
  split_and!; [by destruct names|done| |].
  - intros H. apply H1. etrans; [|exact H]. by apply prefix_app_r.
  - intros [k Hk]. destruct k as [|x k _] using rev_ind.
    + rewrite app_nil_r in Hk. apply H1. rewrite <-Hk. by apply prefix_app_r.
    + rewrite app_assoc in Hk. apply app_inj_2 in Hk as [Hk _]; [|done]. apply H2. rewrite Hk. by apply prefix_app_r.
Qed.

Lemma plain_names_snoc names name :
  Forall plain_name names → plain_name name → Forall plain_name (names ++ [name]).
Proof. intros. by apply Forall_app_2; [|constructor]. Qed.

(** ** Engines and hosts that keep to their directory *)

(** The operation writes in the engine's directory only, and the engine stays there. *)
Definition stays `{L : LsmEngine} {Laws : LsmLaws L} {A} (op : LsmOp lsm disk A) : Prop :=
  ∀ g d r g' d', op g d = (r, (g', d')) →
    data_dir (lsm_config g') = data_dir (lsm_config g) ∧
    ∀ dir, apart_dirs (data_dir (lsm_config g)) dir → durable d' dir = durable d dir.

Class LsmPlace `{L : LsmEngine} {Laws : LsmLaws L} := {
  new_place c d r d' dir :
    lsm_new c d = (r, d') → apart_dirs (data_dir c) dir → durable d' dir = durable d dir;
  put_place k v : stays (lsm_put k v);
  get_place k : stays (lsm_get k);
  batch_put_place l : stays (lsm_batch_put l);
  scan_place p : stays (lsm_scan_prefix p);
  flush_wal_place : stays lsm_flush_wal;
  shutdown_place : stays lsm_shutdown
}.

(** Removing a tree leaves nothing in it and what is apart from it alone. *)
Class HostPlace `{L : LsmEngine} {Laws : LsmLaws L} (FS : HostFs) := {
  removed dir d : durable (remove_all dir d) dir = ∅;
  removed_apart dir q d : apart_dirs dir q → durable (remove_all dir d) q = durable d q
}.

Create HintDb place.
#[export] Hint Resolve put_place get_place batch_put_place scan_place flush_wal_place shutdown_place : place.

(** ** Computations that keep an invariant *)

(** Whatever the outcome, [I] still holds. *)
Definition always {S A} (I : S → Prop) (m : M S A) : Prop :=
  ∀ s, I s → match m s with
             | Ret _ s' | Panic _ s' | Stuck s' => I s'
             | Undefined => True
             end.

Section Always.
Context {S : Type} (I : S → Prop).
Implicit Types A B : Type.

Lemma always_ret {A} (a : A) : always I (mret a).
Proof. by intros s Hs. Qed.

Lemma always_panic {A} msg : always (A := A) I (panic msg).
Proof. by intros s Hs. Qed.

Lemma always_stuck {A} : always (A := A) I stuck.
Proof. by intros s Hs. Qed.

Lemma always_undefined {A} : always (A := A) I undefined.
Proof. by intros s Hs. Qed.

Lemma always_get : always I get.
Proof. by intros s Hs. Qed.

Lemma always_bind {A B} (m : M S A) (k : A → M S B) : always I m → (∀ a, always I (k a)) → always I (bind m k).
Proof. intros Hm Hk s Hs. specialize (Hm s Hs). unfold bind. destruct (m s); try done. by apply Hk. Qed.

Lemma always_finally {A} (m : M S A) c : always I m → always I c → always I (finally m c).
Proof.
  intros Hm Hc s Hs. specialize (Hm s Hs). unfold finally.
  destruct (m s) as [a s1|msg s1|s1|]; try done; specialize (Hc s1 Hm); by destruct (c s1).
Qed.

Lemma always_modify f : (∀ s, I s → I (f s)) → always I (modify f).
Proof. intros Hf s Hs. by apply Hf. Qed.

Lemma always_each {A} (f : A → M S unit) l : (∀ a, always I (f a)) → always I (each f l).
Proof. intros Hf. induction l; [apply always_ret|]. by apply always_bind. Qed.

End Always.

#[export] Hint Resolve always_ret always_panic always_stuck always_undefined always_get : place.

(** One rule for each command; what the database knows ends a branch. *)
Ltac kept :=
  repeat match goal with
  | |- always _ (bind _ _) => apply always_bind; [|intros ?]
  | |- always _ (finally _ _) => apply always_finally
  | |- always _ (each _ _) => apply always_each; intros ?
  | |- always _ (let '(_, _) := ?x in _) => destruct x
  | |- always _ (match ?x with _ => _ end) => destruct x
  | |- always _ _ => solve [eauto 3 with place nocore]
  end.

(** ** The library *)

Section Library.
Context `{L : LsmEngine} {Laws : LsmLaws L} {PL : LsmPlace} {P : Platform}.
Context (dir : string) (m : gmap string (Engine.Value json)).
Implicit Types (s : Proc) (g : lsm).

(** [dir] holds [m] and no live engine writes in or around it. *)
Record elsewhere s : Prop := mkElsewhere {
  ew_disk : durable (dsk s) dir = m;
  ew_engines a g : heap s !! a = Some (BEngine g) → apart_dirs (data_dir (lsm_config g)) dir
}.

Lemma elsewhere_same s s' : heap s' = heap s → dsk s' = dsk s → elsewhere s → elsewhere s'.
Proof. intros Hh Hd [H1 H2]. split; rewrite ?Hd; [done|]. intros a g. rewrite Hh. apply H2. Qed.

Lemma elsewhere_insert s a b :
  (∀ g, b = BEngine g → apart_dirs (data_dir (lsm_config g)) dir) →
  elsewhere s → elsewhere (set_heap (<[a := b]> (heap s)) s).
Proof.
  intros Hb [H1 H2]. split; [done|]. simpl. intros a' g. rewrite lookup_insert.
  case_decide; [intros [= ->]; by apply Hb|apply H2].
Qed.

Lemma elsewhere_delete s a : elsewhere s → elsewhere (set_heap (delete a (heap s)) s).
Proof. intros [H1 H2]. split; [done|]. simpl. intros a' g [_ H]%lookup_delete_Some. by eapply H2. Qed.

Local Abbreviation kept_here := (always elsewhere).

(** An operation that only changes the tables and the errors. *)
Lemma kept_modify f : (∀ s, heap (f s) = heap s ∧ dsk (f s) = dsk s) → kept_here (modify f).
Proof. intros Hf. apply always_modify. intros s. destruct (Hf s). by apply elsewhere_same. Qed.

Lemma alloc_kept b : (∀ g, b ≠ BEngine g) → kept_here (alloc b).
Proof. intros Hb s Hs. apply elsewhere_insert; [|done]. intros g ->. by destruct (Hb g). Qed.

Lemma c_free_kept a : kept_here (c_free a).
Proof.
  intros s Hs. unfold c_free. destruct (a =? 0); [done|]. destruct (heap s !! a) as [[]|]; try done.
  by apply elsewhere_delete.
Qed.

Lemma read_c_str_kept a : kept_here (read_c_str a).
Proof. intros s Hs. unfold read_c_str. destruct (heap s !! a) as [[]|]; try done; by destruct (until_nul _). Qed.

Lemma read_buf_kept p n : kept_here (read_buf p n).
Proof.
  intros s Hs. unfold read_buf. destruct p as [|a|l]; [done| |by destruct (n <=? zlen l)].
  destruct (heap s !! a) as [[l|l|l| | | | | ]|]; try done; by destruct (n <=? zlen l).
Qed.

Lemma set_last_error_kept msg : kept_here (set_last_error msg).
Proof. intros s Hs. by apply (elsewhere_same s). Qed.

Lemma get_last_error_kept : kept_here f4kvs_get_last_error.
Proof. by intros s Hs. Qed.

Lemma string_free_kept a : kept_here (f4kvs_string_free a).
Proof.
  intros s Hs. unfold f4kvs_string_free. destruct (a =? 0); [done|]. case_bool_decide; [|done]. simpl.
  destruct (heap s !! a) as [[]|]; try done.
  apply (elsewhere_same (set_heap (delete a (heap s)) s)); [done..|by apply elsewhere_delete].
Qed.

Lemma bytes_free_kept a : kept_here (f4kvs_bytes_free a).
Proof.
  intros s Hs. unfold f4kvs_bytes_free. destruct (a =? 0); [done|].
  destruct (bytes_allocations s !! a) as [len|]; [|done]. destruct (len =? 0); [by apply (elsewhere_same s)|].
  simpl. destruct (heap s !! a) as [[]|]; try done. destruct (_ =? _); [|done].
  apply (elsewhere_same (set_heap (delete a (heap s)) s)); [done..|by apply elsewhere_delete].
Qed.

Lemma validate_engine_kept a : kept_here (validate_engine a).
Proof.
  intros s Hs. unfold validate_engine. destruct (a =? 0); [by apply (elsewhere_same s)|].
  destruct (heap s !! a) as [[]|]; done.
Qed.

Lemma engine_op_kept {A} a (op : LsmOp lsm disk A) : stays op → kept_here (engine_op a op).
Proof.
  intros Hop s Hs. unfold engine_op. destruct (heap s !! a) as [[| | | | | |g|]|] eqn:Ha; try done.
  destruct (op g (dsk s)) as [r [g' d']] eqn:Ho. apply Hop in Ho as [Hd Hf].
  pose proof (ew_engines s Hs a g Ha) as Hg. destruct Hs as [H1 H2]. split; simpl.
  - rewrite Hf; done.
  - intros a' g2. rewrite lookup_insert. case_decide; [intros [= <-]; by rewrite Hd|apply H2].
Qed.

Lemma engine_free_kept a : kept_here (f4kvs_engine_free a).
Proof.
  intros s Hs. unfold f4kvs_engine_free. destruct (a =? 0); [done|].
  destruct (heap s !! a) as [[]|]; try done. by apply elsewhere_delete.
Qed.

Lemma set_bulk_import_kept a on : kept_here (f4kvs_engine_set_bulk_import a on).
Proof.
  intros s Hs. unfold f4kvs_engine_set_bulk_import, bind at 1, validate_engine.
  destruct (a =? 0); [by apply (elsewhere_same s)|].
  destruct (heap s !! a) as [[| | | | | |g|]|] eqn:Ha; try done.
  apply (elsewhere_insert s); [|done]. intros g' [= <-]. rewrite set_bulk_config. by eapply ew_engines.
Qed.

End Library.

#[export] Hint Resolve alloc_kept c_free_kept read_c_str_kept read_buf_kept set_last_error_kept get_last_error_kept
  string_free_kept bytes_free_kept validate_engine_kept engine_op_kept engine_free_kept set_bulk_import_kept : place.

#[export] Hint Extern 1 (_ ≠ BEngine _) => discriminate : place.

(** ** The exported functions *)

Section Exported.
Context `{L : LsmEngine} {Laws : LsmLaws L} {PL : LsmPlace} {P : Platform}.
Context (dir : string) (m : gmap string (Engine.Value json)).

Local Abbreviation kept_here := (always (elsewhere dir m)).

Lemma allocate_c_string_kept v : kept_here (allocate_c_string v).
Proof. unfold allocate_c_string. kept. by apply kept_modify. Qed.

Lemma allocate_bytes_kept v : kept_here (allocate_bytes v).
Proof. unfold allocate_bytes. kept. by apply kept_modify. Qed.

Lemma validate_c_string_kept a n field : kept_here (validate_c_string a n field).
Proof. unfold validate_c_string. kept. Qed.

Lemma reject_batch_count_kept g n : kept_here (reject_batch_count g n).
Proof. unfold reject_batch_count. kept. Qed.

Lemma report_kept {A} what (r : string + A) : kept_here (Ffi.report what r).
Proof. unfold Ffi.report. kept. Qed.

Lemma elem_at_kept arr i : kept_here (elem_at arr i).
Proof. unfold elem_at. kept. Qed.

End Exported.

#[export] Hint Resolve allocate_c_string_kept allocate_bytes_kept validate_c_string_kept reject_batch_count_kept
  report_kept elem_at_kept : place.

Section Calls.
Context `{L : LsmEngine} {Laws : LsmLaws L} {PL : LsmPlace} {P : Platform}.
Context (dir : string) (m : gmap string (Engine.Value json)).

Local Abbreviation kept_here := (always (elsewhere dir m)).

Lemma engine_close_kept a : kept_here (f4kvs_engine_close a).
Proof. unfold f4kvs_engine_close, simple_op. kept. Qed.

Lemma engine_flush_wal_kept a : kept_here (f4kvs_engine_flush_wal a).
Proof. unfold f4kvs_engine_flush_wal, simple_op. kept. Qed.

Lemma put_bytes_kept a k v n : kept_here (f4kvs_engine_put_bytes a k v n).
Proof. unfold f4kvs_engine_put_bytes. kept. Qed.

Lemma get_bytes_kept a k outs : kept_here (f4kvs_engine_get_bytes a k outs).
Proof. unfold f4kvs_engine_get_bytes. kept. Qed.

Lemma collect_items_kept ks vs ls i n items : kept_here (collect_items ks vs ls i n items).
Proof. revert i items. induction n as [|n IH]; intros i items; cbn [collect_items]; kept. Qed.

Lemma batch_put_bytes_kept a ks vs ls n : kept_here (f4kvs_engine_batch_put_bytes a ks vs ls n).
Proof. pose proof collect_items_kept. unfold f4kvs_engine_batch_put_bytes. kept. Qed.

Lemma allocate_keys_kept keys ptrs : kept_here (allocate_keys keys ptrs).
Proof. revert ptrs. induction keys as [|k keys IH]; intros ptrs; cbn [allocate_keys]; kept. Qed.

Lemma scan_prefix_keys_kept a p out : kept_here (f4kvs_engine_scan_prefix_keys a p out).
Proof. pose proof allocate_keys_kept. unfold f4kvs_engine_scan_prefix_keys. cbv zeta. kept. Qed.

Lemma key_scan_result_free_kept scan : kept_here (f4kvs_key_scan_result_free scan).
Proof.
  unfold f4kvs_key_scan_result_free. kept. apply always_modify. intros s. apply elsewhere_delete.
Qed.

End Calls.

#[export] Hint Resolve engine_close_kept engine_flush_wal_kept put_bytes_kept get_bytes_kept batch_put_bytes_kept
  scan_prefix_keys_kept key_scan_result_free_kept : place.

(** ** The binding *)

Section Binding.
Context `{L : LsmEngine} {Laws : LsmLaws L} {PL : LsmPlace} {P : Platform} {G : GoRuntime}.
Context (dir : string) (m : gmap string (Engine.Value json)).
Implicit Types (w : World) (e : nat).

Definition away w : Prop := elsewhere dir m (proc w).

Local Abbreviation kept_here := (always away).

Lemma clib_kept {A} (x : M Proc A) : always (elsewhere dir m) x → kept_here (clib x).
Proof. intros Hx w Hw. specialize (Hx (proc w) Hw). unfold clib. by destruct (x (proc w)). Qed.

Lemma cgo_kept {A} (x : M Proc A) : always (elsewhere dir m) x → kept_here (cgo x).
Proof. intros Hx. apply clib_kept. intros s Hs. apply Hx. by apply (elsewhere_same _ _ s). Qed.

Lemma load_kept e : kept_here (load e).
Proof. intros w Hw. unfold load. by destruct (objs w !! e). Qed.

Lemma store_kept e f : kept_here (store e f).
Proof. by intros w Hw. Qed.

Lemma range_kept {V} (items : gmap string V) : kept_here (range items).
Proof. by intros w Hw. Qed.

End Binding.

#[export] Hint Resolve clib_kept cgo_kept load_kept store_kept range_kept : place.

Section Methods.
Context `{L : LsmEngine} {Laws : LsmLaws L} {PL : LsmPlace} {P : Platform} {G : GoRuntime}.
Context (dir : string) (m : gmap string (Engine.Value json)).

Local Abbreviation kept_here := (always (away dir m)).

Lemma RLock_kept e : kept_here (RLock e).
Proof. unfold RLock. kept. Qed.

Lemma RUnlock_kept e : kept_here (RUnlock e).
Proof. unfold RUnlock. kept. Qed.

Lemma Lock_kept e : kept_here (Lock e).
Proof. unfold Lock. kept. Qed.

Lemma Unlock_kept e : kept_here (Unlock e).
Proof. unfold Unlock. kept. Qed.

Lemma CString_kept s : kept_here (CString s).
Proof. unfold CString. kept. Qed.

Lemma C_free_kept a : kept_here (C_free a).
Proof. unfold C_free. kept. Qed.

Lemma C_malloc_kept n : kept_here (C_malloc n).
Proof. apply clib_kept. intros s Hs. destruct (malloc_fails _ _); [done|]. by apply alloc_kept. Qed.

Lemma C_memcpy_kept a l : kept_here (C_memcpy a l).
Proof.
  apply clib_kept. intros s Hs. destruct (heap s !! a) as [[]|]; try done. destruct (_ <=? _); [|done].
  by apply elsewhere_insert.
Qed.

Lemma GoBytes_kept a n : kept_here (GoBytes a n).
Proof. unfold GoBytes. kept. Qed.

Lemma GoString_kept a : kept_here (GoString a).
Proof. unfold GoString. kept. Qed.

Lemma lastError_kept : kept_here lastError.
Proof. unfold lastError. kept. Qed.

Lemma check_kept format args res : kept_here (check format args res).
Proof. pose proof lastError_kept. unfold check, fail_with. kept. Qed.

Lemma fail_with_kept format args : kept_here (fail_with format args).
Proof. pose proof lastError_kept. unfold fail_with. kept. Qed.

Lemma rLockLive_kept e : kept_here (rLockLive e).
Proof. pose proof RLock_kept. pose proof RUnlock_kept. unfold rLockLive. kept. Qed.

Lemma key_slice_kept a n : kept_here (key_slice a n).
Proof.
  unfold key_slice. destruct (2 ^ 30 <? n); [kept|]. apply clib_kept. intros s Hs.
  destruct (heap s !! a) as [[]|]; try done. by destruct (_ <=? _).
Qed.

End Methods.

#[export] Hint Resolve RLock_kept RUnlock_kept Lock_kept Unlock_kept CString_kept C_free_kept C_malloc_kept C_memcpy_kept
  GoBytes_kept GoString_kept lastError_kept check_kept fail_with_kept rLockLive_kept key_slice_kept : place.

Section Kept.
Context `{L : LsmEngine} {Laws : LsmLaws L} {PL : LsmPlace} {P : Platform} {G : GoRuntime}.
Context (dir : string) (m : gmap string (Engine.Value json)).

Local Abbreviation kept_here := (always (away dir m)).

Lemma GetBytes_kept e key : kept_here (GetBytes e key).
Proof. unfold GetBytes. cbv zeta. kept. Qed.

Lemma PutBytes_kept e key v : kept_here (PutBytes e key v).
Proof. unfold PutBytes. cbv zeta. kept. Qed.

Lemma go_strings_kept ptrs keys : kept_here (go_strings ptrs keys).
Proof. revert keys. induction ptrs as [|p ptrs IH]; intros keys; cbn [go_strings]; kept. Qed.

Lemma ScanPrefixKeys_kept e prefix : kept_here (ScanPrefixKeys e prefix).
Proof. pose proof go_strings_kept. unfold ScanPrefixKeys, scanPrefixLocked. cbv zeta. kept. Qed.

Lemma fill_arrays_kept items a : kept_here (fill_arrays items a).
Proof. revert a. induction items as [|[k v] items IH]; intros a; cbn [fill_arrays]; cbv zeta; kept. Qed.

Lemma free_arrays_kept a : kept_here (free_arrays a).
Proof. unfold free_arrays. kept. Qed.

Lemma BatchPutBytes_kept e items : kept_here (BatchPutBytes e items).
Proof. pose proof fill_arrays_kept. pose proof free_arrays_kept. unfold BatchPutBytes. cbv zeta. kept. Qed.

Lemma SetBulkImport_kept e on : kept_here (SetBulkImport e on).
Proof. unfold SetBulkImport. cbv zeta. kept. Qed.

Lemma FlushWAL_kept e : kept_here (FlushWAL e).
Proof. unfold FlushWAL. kept. Qed.

Lemma Close_kept e : kept_here (Close e).
Proof. unfold Close. kept. Qed.

End Kept.

#[export] Hint Resolve GetBytes_kept PutBytes_kept ScanPrefixKeys_kept BatchPutBytes_kept SetBulkImport_kept
  FlushWAL_kept Close_kept : place.

(** ** Places: directories whose name is accepted as it is *)

Record place (names : list (list byte)) : Prop := mkPlace {
  pl_plain : Forall plain_name names;
  pl_some : names ≠ [];
  pl_text : utf8_valid (path_of names) = true;
  pl_nul : nul_free (path_of names) = true
}.

(** A name that may be added to a place. *)
Definition good_name (name : string) : bool :=
  let n := String.list_byte_of_string name in bool_decide (plain_name n) && utf8_valid n && nul_free n.

Lemma place_check names : place names → check_dir (dir_of names) = inr (dir_of names).
Proof.
  intros [_ Hne Ht Hn]. unfold check_dir, dir_of. rewrite bytes_of_string_of_bytes, (c_prefix_nul_free _ Hn).
  rewrite (from_utf8_valid _ Ht). case_bool_decide as He; [|done].
  apply (f_equal String.list_byte_of_string) in He. rewrite bytes_of_string_of_bytes in He.
  by destruct names.
Qed.

Lemma place_join names name :
  place names → good_name name = true →
  filepath_Join [dir_of names; name] = dir_of (names ++ [String.list_byte_of_string name]) ∧
  place (names ++ [String.list_byte_of_string name]).
Proof.
  intros [Hp Hne Ht Hn] [[Hg%bool_decide_eq_true Hgt]%andb_true_iff Hgn]%andb_true_iff.
  split; [by apply Join_dir_of|]. split; [by apply plain_names_snoc|by destruct names|..]; rewrite path_of_snoc.
  - apply utf8_valid_app; [done|]. by apply (utf8_valid_app [slash]).
  - rewrite nul_free_app, Hn. exact (eq_trans (nul_free_app [slash] _) Hgn).
Qed.

Section Runs.
Context `{L : LsmEngine} {Laws : LsmLaws L} {PL : LsmPlace} {FS : HostFs} {HP : HostPlace FS}.
Context {P : Platform} {POk : PlatformOk P} {G : GoRuntime} {GOk : GoRuntimeOk G}.
Context (dir : string) (m : gmap string (Engine.Value json)).

Local Abbreviation kept_here := (always (away dir m)).

Lemma or_fatal_kept {A} (x : M World (option GoError)) (k : M World (GoError + A)) :
  kept_here x → kept_here k → kept_here (or_fatal x k).
Proof. intros Hx Hk. apply always_bind; [done|]. intros [?|]; [apply always_ret|done]. Qed.

Lemma value_or_fatal_kept {A B} (x : M World (GoError + A)) (k : A → M World (GoError + B)) :
  kept_here x → (∀ a, kept_here (k a)) → kept_here (value_or_fatal x k).
Proof. intros Hx Hk. apply always_bind; [done|]. intros [?|?]; [apply always_ret|done]. Qed.

Lemma deferred_kept {A} c (x : M World (GoError + A)) : kept_here x → kept_here c → kept_here (deferred c x).
Proof.
  intros Hx Hc w Hw. pose proof (always_finally (away dir m) x c Hx Hc w Hw) as Hf. specialize (Hx w Hw).
  unfold deferred, finally in *. destruct (x w) as [[err|a] w1|msg w1|w1|]; try done.
Qed.

Lemma or_close_fatal_kept {A} e (x : M World (option GoError)) (k : M World (GoError + A)) :
  kept_here x → kept_here k → kept_here (or_close_fatal e x k).
Proof. intros Hx Hk. unfold or_close_fatal. kept. Qed.

Lemma RemoveAll_kept q : apart_dirs q dir → kept_here (os_RemoveAll q).
Proof. intros Hq w [H1 H2]. split; [|exact H2]. simpl. by rewrite removed_apart. Qed.

Lemma Open_kept names opts :
  place names → apart_dirs (dir_of names) dir → (∀ po, opts = Some po → go_options_fit po) →
  kept_here (NewPersistentEngineWithOptions (dir_of names) opts).
Proof.
  intros Hp Ha Hfit w Hw. rewrite (Open_spec w _ opts Hfit). cbv zeta. rewrite (place_check _ Hp).
  change (dsk (enter (proc w))) with (dsk (proc w)). set (c := open_config _ _).
  assert (Hc : data_dir c = dir_of names) by (subst c; by destruct opts).
  destruct (lsm_new c (dsk (proc w))) as [r d'] eqn:Hnew.
  assert (Hd : elsewhere dir m (set_disk d' (proc w))).
  { split; [|exact (ew_engines _ _ _ Hw)]. simpl. rewrite (new_place _ _ _ _ dir Hnew); [apply Hw|by rewrite Hc]. }
  destruct r as [er|g].
  - by apply (elsewhere_same _ _ (set_disk d' (proc w))).
  - unfold away. set (a := alloc_addr ({[_ := _]} ∪ _)).
    apply (elsewhere_same _ _ (set_heap (<[a := BEngine g]> (heap (set_disk d' (proc w)))) (set_disk d' (proc w)))); [done..|].
    apply elsewhere_insert; [|done]. intros g' [= <-]. apply new_ok in Hnew as [_ ->]. by rewrite Hc.
Qed.

Lemma put_all_kept e keys v : kept_here (put_all e keys v).
Proof. induction keys; cbn [put_all]; kept. Qed.

Lemma key_at_kept keys i : kept_here (key_at keys i).
Proof. unfold key_at. kept. Qed.

Lemma random_gets_kept n e keys : kept_here (random_gets n e keys).
Proof.
  unfold random_gets. generalize (Z.to_nat n) 0. pose proof key_at_kept.
  intros k. induction k as [|k IH]; intros i; cbn [get_from]; kept.
Qed.

Lemma chunked_kept size e keys v : kept_here (batchPutBytesChunked size e keys v).
Proof.
  unfold batchPutBytesChunked. cbv zeta. generalize (Z.to_nat (if resolveBatchPutSize (zlen keys) size <=? 0
    then zlen keys else resolveBatchPutSize (zlen keys) size)), (length keys). intros n fuel. revert keys. induction fuel as [|fuel IH]; intros [|k keys]; cbn [put_slices]; kept.
Qed.

End Runs.

#[export] Hint Resolve put_all_kept random_gets_kept chunked_kept : place.

(** ** The runs of the benchmark *)

(** One rule for each construct of the runs. *)
Ltac run_kept :=
  repeat match goal with
  | |- always _ (or_fatal _ _) => apply or_fatal_kept
  | |- always _ (value_or_fatal _ _) => apply value_or_fatal_kept; [|intros ?]
  | |- always _ (defer_Close _ _) => apply deferred_kept
  | |- always _ (or_close_fatal _ _ _) => apply or_close_fatal_kept
  | _ => progress kept
  end.

Section Bench.
Context `{L : LsmEngine} {Laws : LsmLaws L} {PL : LsmPlace} {FS : HostFs} {HP : HostPlace FS}.
Context {P : Platform} {POk : PlatformOk P} {G : GoRuntime} {GOk : GoRuntimeOk G}.
Context (dir : string) (m : gmap string (Engine.Value json)).
Context (size : Z) (since : string → Z).

Local Abbreviation kept_here := (always (away dir m)).

Lemma batch_put_kept names profile keys v bulk ph note :
  place names → apart_dirs (dir_of names) dir →
  kept_here (benchF4KVSChunkBatchPut size since (dir_of names) profile keys v bulk ph note).
Proof.
  intros Hp Ha. unfold benchF4KVSChunkBatchPut. cbv zeta. run_kept.
  apply Open_kept; [done..|]. by apply openOptsForProfile_fit.
Qed.

(** A directory under the one of the run. *)
Lemma side_place names name :
  place names → apart_dirs (dir_of names) dir → good_name name = true →
  filepath_Join [dir_of names; name] = dir_of (names ++ [String.list_byte_of_string name]) ∧
  place (names ++ [String.list_byte_of_string name]) ∧
  apart_dirs (dir_of (names ++ [String.list_byte_of_string name])) dir.
Proof.
  intros Hp Ha Hg. destruct (place_join names name Hp Hg) as [Hj Hp']. split; [done|]. split; [done|].
  rewrite <-Hj. apply apart_inside; [apply Hp..| |done].
  by apply andb_true_iff in Hg as [[?%bool_decide_eq_true _]%andb_true_iff _].
Qed.

Context (names : list (list byte)).
Hypothesis Hplace : place names.
Hypothesis Hapart : apart_dirs (dir_of names) dir.

Lemma chunk_batched_kept profile keys v :
  kept_here (benchF4KVSChunkBatched size since (filepath_Join [dir_of names; "chunk_batched"]) profile keys v).
Proof.
  destruct (side_place names "chunk_batched") as (-> & ? & ?); [done..|]. by apply batch_put_kept.
Qed.

Lemma chunk_bulk_kept profile keys v :
  kept_here (benchF4KVSChunkBulkImport size since (filepath_Join [dir_of names; "chunk_bulk_import"]) profile keys v).
Proof.
  destruct (side_place names "chunk_bulk_import") as (-> & ? & ?); [done..|]. by apply batch_put_kept.
Qed.

Lemma chunk_durable_kept profile durability opts keys v :
  (∀ po, opts = Some po → go_options_fit po) →
  kept_here (benchF4KVSChunkDurable since (dir_of names) profile durability opts keys v).
Proof.
  intros Hfit. unfold benchF4KVSChunkDurable. cbv zeta.
  destruct (side_place names "chunk_durable") as (-> & ? & ?); [done..|]. run_kept; [by apply RemoveAll_kept|].
  by apply Open_kept.
Qed.

Lemma benchF4KVS_kept profile durability opts mk ck mp cp n skip :
  (∀ po, opts = Some po → go_options_fit po) →
  kept_here (benchF4KVS size since (dir_of names) profile durability opts mk ck mp cp n skip).
Proof.
  intros Hfit. pose proof chunk_batched_kept. pose proof chunk_bulk_kept.
  assert (∀ po, openOptsForProfile size opts (zlen ck) = Some po → go_options_fit po) as Hfit'
    by by apply openOptsForProfile_fit.
  unfold benchF4KVS, chunks_group_commit, chunks_batched, chunks_per_commit. cbv zeta.
  run_kept; [by apply Open_kept|by apply chunk_durable_kept].
Qed.

Lemma benchF4KVSPostRestart_kept profile opts mk ck mp cp us :
  (∀ po, opts = Some po → go_options_fit po) →
  kept_here (benchF4KVSPostRestart size (dir_of names) profile opts mk ck mp cp us).
Proof.
  intros Hfit. assert (∀ po z, openOptsForProfile size opts z = Some po → go_options_fit po) as Hfit'
    by (intros po z; by apply openOptsForProfile_fit).
  unfold benchF4KVSPostRestart, reopen_and_count, mmap. cbv zeta.
  run_kept; [by apply RemoveAll_kept|apply Open_kept; eauto..].
Qed.

End Bench.

(** ** Instances *)
Section Instances.
Import MapEngine.
#[local] Existing Instances steady_engine steady_laws forgetful.

Lemma step_stays {A} (f : state → (string + A) * state) :
  (∀ g, config (f g).2 = config g) → stays (L := steady_engine) (step f).
Proof.
  intros Hf g d r g' d' H. simpl in H. unfold step in H. pose proof (Hf (pop g)) as Hg.
  destruct (faults g) as [|[msg|] l]; simplify_eq; try done; destruct (f (pop g)) as [r0 g0]; simpl in *; simplify_eq; by rewrite Hg.
Qed.

Lemma steady_place : LsmPlace (L := steady_engine).
Proof.
  split; try (intros; by apply step_stays).
  - intros c d r d' dir H _. simpl in H. case_bool_decide; by simplify_eq.
  - by intros p g d r g' d' [= _ <- <-].
  - intros g d r g' d' [= _ <- <-]. split; [done|]. intros dir Ha%apart_ne. simpl in *. unfold store in *.
    by rewrite lookup_insert_ne.
Qed.

Lemma forgetful_place : HostPlace (L := steady_engine) forgetful.
Proof.
  split.
  - intros dir d. simpl. unfold store in *. by rewrite lookup_delete_eq.
  - intros dir q d Ha%apart_ne. simpl. unfold store in *. by rewrite lookup_delete_ne.
Qed.

End Instances.
