(* ===== verification/RunDir.v ===== *)
(** * The run directory

    [RunWriter] of [bench/embed_vs_sqlite/de_out.go]: a run is staged in
    [runsRoot/runID.partial] and published by renaming it to [runsRoot/runID].

    The file system is a map from directories to their files.  A directory is the
    list of names that lead to it from the root, a subdirectory an entry of its own,
    and a path is resolved from the working directory [os_wd]; there are no
    symbolic links.  Every operation of package [os] is a sequence of states an
    observer (or a crash) can see, kept in [history], newest first; any of them may
    fail, as the parameters of [HostOs] say: [os_fails n] is the error of the n-th
    operation, [os_torn n] how many bytes it had written (or directories made) by
    then, [os_left n] which subdirectories and files a removal had not reached. *)

From Stdlib Require Import Floats.SpecFloat.
From S2P Require Import Prelude Utf8 Engine Options Ffi Binding GoText Paths Json Report.

(** ** Time *)

(** The date of a day counted from 1970-01-01, and a time in seconds since then. *)
Definition civil (days : Z) : Z * Z * Z :=
  let z := days + 719468 in
  let era := z / 146097 in
  let doe := z mod 146097 in
  let yoe := (doe - doe / 1460 + doe / 36524 - doe / 146096) / 365 in
  let doy := doe - (365 * yoe + yoe / 4 - yoe / 100) in
  let mp := (5 * doy + 2) / 153 in
  let d := doy - (153 * mp + 2) / 5 + 1 in
  let m := if mp <? 10 then mp + 3 else mp - 9 in
  (yoe + era * 400 + (if m <=? 2 then 1 else 0), m, d).

Definition digits (width : nat) (z : Z) : string :=
  let s := pretty z in repeat_text (width - String.length s) "0" +:+ s.

(** The layouts [2006-01-02T15:04:05Z07:00] (RFC 3339) and [20060102T150405Z], in UTC. *)
Definition format_RFC3339 (t : Z) : string :=
  let '(y, m, d) := civil (t / 86400) in
  let s := t mod 86400 in
  digits 4 y +:+ "-" +:+ digits 2 m +:+ "-" +:+ digits 2 d +:+ "T" +:+
  digits 2 (s / 3600) +:+ ":" +:+ digits 2 (s / 60 mod 60) +:+ ":" +:+ digits 2 (s mod 60) +:+ "Z".

Definition NewRunID (t : Z) : string :=
  let '(y, m, d) := civil (t / 86400) in
  let s := t mod 86400 in
  digits 4 y +:+ digits 2 m +:+ digits 2 d +:+ "T" +:+
  digits 2 (s / 3600) +:+ digits 2 (s / 60 mod 60) +:+ digits 2 (s mod 60) +:+ "Z".

Example run_ids :
  NewRunID 1784370330 = "20260718T102530Z" ∧ NewRunID 951782400 = "20000229T000000Z" ∧
  format_RFC3339 1784370330 = "2026-07-18T10:25:30Z" ∧ NewRunID 0 = "19700101T000000Z".
Proof. by vm_compute. Qed.

(** ** Metadata *)

Definition schemaVersion : string := "bench-schema-v1".
Definition flowID : string := "rag_chunk_ingest_v1".
Definition harnessPath : string := "bench/embed_vs_sqlite".

Record GitInfo := mkGit { F4KVSFFI : string; F4KVSLSM : string; Dirty : bool }.
Record HostInfo := mkHost {
  h_OS : string; Arch : string; Hostname : string; h_Go : string; CPUModel : string; CPUCores : Z }.
Record ScaleInfo := mkScale { Memoirs : Z; Chunks : Z; MemoirBytes : Z; ChunkBytes : Z; RandomGets : Z }.
Record HarnessInfo := mkHarness { h_Path : string; Command : string }.

Record RunManifest := mkManifest {
  SchemaVersion : string;
  m_RunID : string;
  FlowID : string;
  Tier : string;
  Seed : Z;
  StartedAt : string;
  FinishedAt : string;
  Git : GitInfo;
  Host : HostInfo;
  Scale : ScaleInfo;
  Engines : option (list string);
  Harness : HarnessInfo;
  Notes : string
}.

(** The flat report of [main.go]. *)
Record report := mkReport {
  r_Host : string; r_Memoirs : Z; r_Chunks : Z; MemoirB : Z; ChunkB : Z; RandomGet : Z;
  FairCompare : string; BatchedCompare : string; Results : option (list phaseResult) }.

Definition json_strings (l : option (list string)) : json_value :=
  match l with None => JNull | Some l => JArray (JString <$> l) end.

Definition manifest_json (m : RunManifest) : json_value :=
  JObject
    [("schema_version", JString (SchemaVersion m)); ("run_id", JString (m_RunID m));
     ("flow_id", JString (FlowID m)); ("tier", JString (Tier m)); ("seed", JInt (Seed m));
     ("started_at", JString (StartedAt m)); ("finished_at", JString (FinishedAt m));
     ("git", JObject [("f4kvs_ffi", JString (F4KVSFFI (Git m))); ("f4kvs_lsm", JString (F4KVSLSM (Git m)));
                      ("dirty", JBool (Dirty (Git m)))]);
     ("host", JObject [("os", JString (h_OS (Host m))); ("arch", JString (Arch (Host m)));
                       ("hostname", JString (Hostname (Host m))); ("go", JString (h_Go (Host m)));
                       ("cpu_model", JString (CPUModel (Host m))); ("cpu_cores", JInt (CPUCores (Host m)))]);
     ("scale", JObject [("memoirs", JInt (Memoirs (Scale m))); ("chunks", JInt (Chunks (Scale m)));
                        ("memoir_bytes", JInt (MemoirBytes (Scale m))); ("chunk_bytes", JInt (ChunkBytes (Scale m)));
                        ("random_gets", JInt (RandomGets (Scale m)))]);
     ("engines", json_strings (Engines m));
     ("harness", JObject [("path", JString (h_Path (Harness m))); ("command", JString (Command (Harness m)))]);
     ("notes", JString (Notes m))].

Definition line_json (l : ResultLine) : json_value :=
  JObject
    [("run_id", JString (l_RunID l)); ("engine", JString (l_Engine l)); ("phase", JString (l_Phase l));
     ("metric", JString (l_Metric l)); ("value", JFloat (l_Value l)); ("ops", JInt (l_Ops l));
     ("unit", JString (l_Unit l)); ("notes", JString (l_Notes l))].

(** Fields marked [omitempty] are left out when zero. *)
Definition omit_empty (key s : string) : list (string * json_value) :=
  if bool_decide (s = "") then [] else [(key, JString s)].

Definition row_json (r : phaseResult) : json_value :=
  JObject
    ([("phase", JString (Phase r)); ("profile", JString (Profile r)); ("ops", JInt (Ops r));
      ("ms", JFloat (Ms r)); ("ops_per_s", JFloat (OpsPerS r))] ++
     omit_empty "durability" (Durability r) ++ omit_empty "extra" (Extra r) ++
     omit_empty "metric" (MetricOnly r) ++
     (if is_zero (Value r) then [] else [("value", JFloat (Value r))]) ++
     omit_empty "unit" (Unit r)).

Definition report_json (r : report) : json_value :=
  JObject
    [("host", JString (r_Host r)); ("memoirs", JInt (r_Memoirs r)); ("chunks", JInt (r_Chunks r));
     ("memoir_bytes", JInt (MemoirB r)); ("chunk_bytes", JInt (ChunkB r)); ("random_gets", JInt (RandomGet r));
     ("fair_compare", JString (FairCompare r)); ("batched_compare", JString (BatchedCompare r));
     ("results", match Results r with None => JNull | Some l => JArray (row_json <$> l) end)].

(** ** The file system *)

Abbreviation tree := (@gmap (list string) list_eq_dec list_countable (gmap string (list byte))).

Class HostOs := {
  os_wd : list string;
  os_fails : nat → option string;
  os_torn : nat → nat;
  os_left : nat → list string → option (string → bool)
}.

(** The entries of a directory and of those beneath it, and the others. *)
Definition under (p : list string) (d : tree) : tree := filter (λ kv, p `prefix_of` kv.1) d.
Definition outside (p : list string) (d : tree) : tree := filter (λ kv, ¬ p `prefix_of` kv.1) d.
Definition exists_dir (p : list string) (d : tree) : bool := bool_decide (under p d ≠ ∅).

Record Os := mkOs { dirs : tree; os_calls : nat; history : list tree }.

Definition os_error (msg : string) : GoError := Errorf msg [].

Section Operations.
Context {HO : HostOs}.

Definition tick : M Os nat := λ s, Ret (os_calls s) (mkOs (dirs s) (S (os_calls s)) (history s)).

Definition observe (d : tree) : M Os unit := λ s, Ret tt (mkOs d (os_calls s) (d :: history s)).

(** The operation ends: with its error, or in state [d]. *)
Definition complete (n : nat) (d : tree) : M Os (option GoError) :=
  match os_fails n with
  | Some msg => mret (Some (os_error msg))
  | None => run! observe d in mret None
  end.

(** The directory a path leads to. *)
Definition resolve (path : string) : list string :=
  let l := String.list_byte_of_string path in
  foldl (λ at_dir part,
           if bool_decide (part = []) || bool_decide (part = dot) then at_dir
           else if bool_decide (part = dotdot) then removelast at_dir
           else at_dir ++ [String.string_of_list_byte part])
    (if is_rooted l then [] else os_wd) (split_path l).

(** [RemoveAll] refuses paths that end in a dot. *)
Definition ends_with_dot (path : string) : bool :=
  match rev (String.list_byte_of_string path) with
  | [b] => bool_decide (b = x2e)
  | b :: c :: _ => bool_decide (b = x2e) && bool_decide (c = slash)
  | [] => false
  end.

(** A removal that has not come to its end: of what is beneath [p] some is left;
    [p] itself goes last. *)
Definition partly_removed (n : nat) (p : list string) (d : tree) : tree :=
  map_imap (λ q files,
    if bool_decide (p `prefix_of` q) then
      match os_left n q with
      | Some kept => Some (filter (λ kv, kept kv.1 = true) files)
      | None => if bool_decide (q = p) then Some ∅ else None
      end
    else Some files) d.

(** The directory and everything beneath it. *)
Definition RemoveAll (dir : string) : M Os (option GoError) :=
  if bool_decide (dir = "") then mret None
  else if ends_with_dot dir then mret (Some (os_error "invalid argument"))
  else
    let! n := tick in
    let! d := gets dirs in
    let p := resolve dir in
    run! observe (partly_removed n p d) in
    complete n (outside p d).

(** Making directories that are not there. *)
Definition mkdirs (ps : list (list string)) (d : tree) : tree :=
  foldl (λ d p, <[p := default ∅ (d !! p)]> d) d ps.

Definition ancestors (p : list string) : list (list string) :=
  (λ n, take n p) <$> seq 0 (S (length p)).

Definition MkdirAll (dir : string) : M Os (option GoError) :=
  let! n := tick in
  let! d := gets dirs in
  let ps := ancestors (resolve dir) in
  run! observe (mkdirs (take (os_torn n) ps) d) in
  complete n (mkdirs ps d).

(** [os.Create]: an empty file. *)
Definition Create (dir name : string) : M Os (option GoError) :=
  let! n := tick in
  let! d := gets dirs in
  let p := resolve dir in
  match d !! p with
  | None => mret (Some (os_error "no such file or directory"))
  | Some files => complete n (<[p := <[name := []]> files]> d)
  end.

(** [Write] on an open file: what was written before it failed stays. *)
Definition write_file (dir name : string) (data : list byte) : M Os (option GoError) :=
  let! n := tick in
  let! d := gets dirs in
  let p := resolve dir in
  match d !! p with
  | None => mret (Some (os_error "no such file or directory"))
  | Some files =>
      let old := default [] (files !! name) in
      run! observe (<[p := <[name := old ++ take (os_torn n) data]> files]> d) in
      complete n (<[p := <[name := old ++ data]> files]> d)
  end.

(** [Close] on a file, which can report a late failure. *)
Definition close_file : M Os (option GoError) :=
  let! n := tick in
  let! d := gets dirs in
  complete n d.

(** [if err := m; err != nil { return "", err }], then the rest. *)
Definition or_return {A} (m : M Os (option GoError)) (k : M Os (GoError + A)) : M Os (GoError + A) :=
  let! err := m in
  match err with
  | Some err => mret (inl err)
  | None => k
  end.

(** Encoding, whose error is returned like any other. *)
Definition encoded {A} (r : string + list byte) (k : list byte → M Os (GoError + A)) : M Os (GoError + A) :=
  match r with
  | inl msg => mret (inl (os_error msg))
  | inr b => k b
  end.

(** [os.WriteFile]: create, write, close. *)
Definition WriteFile (dir name : string) (data : list byte) : M Os (option GoError) :=
  let! err := Create dir name in
  match err with
  | Some err => mret (Some err)
  | None =>
      let! err := write_file dir name data in
      let! cerr := close_file in
      mret (match err with Some err => Some err | None => cerr end)
  end.

(** The tree with the directory [p], and what is beneath it, at [q]. *)
Definition moved (p q : list string) (d : tree) : tree :=
  list_to_map ((λ kv, (q ++ drop (length p) kv.1, kv.2)) <$> map_to_list (under p d)) ∪ outside p d.

(** [os.Rename] of a directory: not onto one that exists, nor into itself. *)
Definition Rename (old new : string) : M Os (option GoError) :=
  let! n := tick in
  let! d := gets dirs in
  let p := resolve old in
  let q := resolve new in
  if negb (exists_dir p d) then mret (Some (os_error "no such file or directory"))
  else if exists_dir q d then mret (Some (os_error "file exists"))
  else if bool_decide (p `prefix_of` q) then mret (Some (os_error "invalid argument"))
  else if negb (exists_dir (removelast q) d) then mret (Some (os_error "no such file or directory"))
  else complete n (moved p q d).

(** ** [bufio.Writer] *)

Definition buffer_size : Z := 4096.

(** [Write] of [p] with [buf] in the buffer: the buffer after it. *)
Definition buf_Write (dir name : string) (buf p : list byte) : M Os (GoError + list byte) :=
  if zlen p <=? buffer_size - zlen buf then mret (inr (buf ++ p))
  else if bool_decide (buf = []) then or_return (write_file dir name p) (mret (inr []))
  else
    let n := Z.to_nat (buffer_size - zlen buf) in
    or_return (write_file dir name (buf ++ take n p))
    (let rest := drop n p in
     if zlen rest <=? buffer_size then mret (inr rest)
     else or_return (write_file dir name rest) (mret (inr []))).

Definition buf_Flush (dir name : string) (buf : list byte) : M Os (option GoError) :=
  if bool_decide (buf = []) then mret None else write_file dir name buf.

Definition buf_WriteByte (dir name : string) (buf : list byte) (b : byte) : M Os (GoError + list byte) :=
  if zlen buf <? buffer_size then mret (inr (buf ++ [b]))
  else or_return (buf_Flush dir name buf) (mret (inr [b])).

(** ** [RunWriter] *)

Definition results_name : string := "results.jsonl".

(** The loop over the lines; on an error the file is closed and the error kept. *)
Fixpoint write_lines (dir : string) (lines : list ResultLine) (buf : list byte) : M Os (GoError + list byte) :=
  let close_and_fail (err : GoError) : M Os (GoError + list byte) := run! close_file in mret (inl err) in
  match lines with
  | [] => mret (inr buf)
  | line :: lines =>
      match Marshal (line_json line) with
      | inl msg => close_and_fail (os_error msg)
      | inr b =>
          let! r := buf_Write dir results_name buf b in
          match r with
          | inl err => close_and_fail err
          | inr buf =>
              let! r := buf_WriteByte dir results_name buf newline in
              match r with
              | inl err => close_and_fail err
              | inr buf => write_lines dir lines buf
              end
          end
      end
  end.

Record RunWriter := mkWriter {
  RunsRoot : string;
  PartialDir : string;
  FinalDir : string;
  Manifest : RunManifest;
  w_buffer : RunBuffer;
  started : Z
}.

(** [now] is [time.Now()]. *)
Definition NewRunWriter (now : Z) (runsRoot runID : string) (manifest : RunManifest) : M Os (GoError + RunWriter) :=
  if bool_decide (runsRoot = "") then mret (inl (Errorf "runs-root is empty" []))
  else if bool_decide (runID = "") then mret (inl (Errorf "run_id is empty" []))
  else
    let partial := filepath_Join [runsRoot; runID +:+ ".partial"] in
    let final := filepath_Join [runsRoot; runID] in
    or_return (RemoveAll partial)
    (or_return (MkdirAll partial)
    (let harness := Harness manifest in
     let harness := if bool_decide (h_Path harness = "") then mkHarness harnessPath (Command harness) else harness in
     let manifest := mkManifest schemaVersion runID flowID (Tier manifest) (Seed manifest) (StartedAt manifest)
                       (FinishedAt manifest) (Git manifest) (Host manifest) (Scale manifest) (Engines manifest)
                       harness (Notes manifest) in
     mret (inr (mkWriter runsRoot partial final manifest (mkBuffer runID []) now)))).

(** The manifest as [Finalize] completes it. *)
Definition finished_manifest (now : Z) (engines : list string) (w : RunWriter) : RunManifest :=
  let m := Manifest w in
  mkManifest (SchemaVersion m) (m_RunID m) (FlowID m) (Tier m) (Seed m) (format_RFC3339 (started w))
    (format_RFC3339 now) (Git m) (Host m) (Scale m)
    (match engines with [] => Engines m | _ => Some engines end) (Harness m) (Notes m).

(** Writing results.jsonl through the buffer. *)
Definition write_results (dir : string) (lines : list ResultLine) : M Os (GoError + unit) :=
  or_return (Create dir results_name)
  (let! r := write_lines dir lines [] in
   match r with
   | inl err => mret (inl err)
   | inr buf =>
       let! err := buf_Flush dir results_name buf in
       match err with
       | Some err => run! close_file in mret (inl err)
       | None => or_return close_file (mret (inr tt))
       end
   end).

(** The first part of [Finalize]: everything is written to the partial directory. *)
Definition stage_run (now : Z) (legacy : option report) (engines : list string) (w : RunWriter)
    : M Os (GoError + unit) :=
  let dir := PartialDir w in
  encoded (MarshalIndent (manifest_json (finished_manifest now engines w))) (λ manBytes,
  or_return (WriteFile dir "manifest.json" manBytes)
  (let! r := write_results dir (b_lines (w_buffer w)) in
   match r with
   | inl err => mret (inl err)
   | inr _ =>
       match legacy with
       | None => mret (inr tt)
       | Some rep =>
           encoded (MarshalIndent (report_json rep)) (λ b,
           or_return (WriteFile dir "report.legacy.json" b) (mret (inr tt)))
       end
   end)).

(** The second: what was published under the name before is removed, whether that
    works or not, and the partial directory takes the name. *)
Definition publish_run (w : RunWriter) : M Os (GoError + string) :=
  run! RemoveAll (FinalDir w) in
  or_return (Rename (PartialDir w) (FinalDir w)) (mret (inr (FinalDir w))).

Definition Finalize (now : Z) (legacy : option report) (engines : list string) (w : RunWriter)
    : M Os (GoError + string) :=
  let! r := stage_run now legacy engines w in
  match r with
  | inl err => mret (inl err)
  | inr _ => publish_run w
  end.

End Operations.

(** ** Directories and what is beneath them *)

Lemma lookup_under p d q : under p d !! q = if bool_decide (p `prefix_of` q) then d !! q else None.
Proof.
  unfold under. rewrite map_lookup_filter. destruct (d !! q); simpl; repeat case_bool_decide; by repeat case_guard.
Qed.

Lemma lookup_outside p d q : outside p d !! q = if bool_decide (p `prefix_of` q) then None else d !! q.
Proof.
  unfold outside. rewrite map_lookup_filter. destruct (d !! q); simpl; repeat case_bool_decide; by repeat case_guard.
Qed.

Lemma under_empty p d : under p d = ∅ ↔ ∀ q, p `prefix_of` q → d !! q = None.
Proof.
  split.
  - intros He q Hq. pose proof (lookup_under p d q) as Hl. by rewrite He, lookup_empty, bool_decide_eq_true_2 in Hl.
  - intros Hall. apply map_eq. intros q. rewrite lookup_under, lookup_empty. case_bool_decide; auto.
Qed.

Lemma exists_dir_none p d : exists_dir p d = false → ∀ q, p `prefix_of` q → d !! q = None.
Proof. unfold exists_dir. intros H%bool_decide_eq_false. apply under_empty. by destruct (decide (under p d = ∅)). Qed.

Lemma not_below_ne (p q : list string) : ¬ p `prefix_of` q → p ≠ q.
Proof. intros H ->. by apply H. Qed.

(** A directory with nothing beneath it moves as it is. *)
Lemma moved_single p q d files :
  d !! p = Some files → (∀ r, p `prefix_of` r → r ≠ p → d !! r = None) →
  moved p q d = <[q := files]> (outside p d).
Proof.
  intros Hp Hall. assert (Hu : under p d = {[p := files]}).
  { apply map_eq. intros r. rewrite lookup_under. destruct (decide (r = p)) as [->|Hne].
    - by rewrite lookup_singleton_eq, bool_decide_eq_true_2.
    - rewrite lookup_singleton_ne by done. case_bool_decide; auto. }
  unfold moved. rewrite Hu, map_to_list_singleton. csimpl. rewrite drop_all, app_nil_r.
  by rewrite insert_empty, insert_union_singleton_l.
Qed.

(** ** Runs and what can be seen of them *)

Section Facts.
Context {HO : HostOs}.
Implicit Types (s : Os) (d : tree).

(** The operation returns; every state it makes visible satisfies [I]; [Q] holds of
    its answer and the state it leaves. *)
Definition runs {A} (I : tree → Prop) (Q : A → tree → Prop) (h : list tree) (x : outcome Os A) : Prop :=
  ∃ r s', x = Ret r s' ∧ (∃ l, history s' = l ++ h ∧ Forall I l) ∧ Q r (dirs s').

Lemma runs_ret {A} I (Q : A → tree → Prop) a s : Q a (dirs s) → runs I Q (history s) (mret a s).
Proof. intros HQ. exists a, s. split; [done|]. split; [by exists []|done]. Qed.

Lemma runs_bind {A B} I (Q : A → tree → Prop) (Q' : B → tree → Prop) (m : M Os A) (k : A → M Os B) s :
  runs I Q (history s) (m s) →
  (∀ r s', Q r (dirs s') → runs I Q' (history s') (k r s')) → runs I Q' (history s) (bind m k s).
Proof.
  intros (r & s' & Hm & (l & Hl & HI) & HQ) Hk. destruct (Hk r s' HQ) as (r' & s'' & Hk' & (l' & Hl' & HI') & HQ').
  exists r', s''. unfold bind. rewrite Hm, Hk'. split; [done|]. split; [|done].
  exists (l' ++ l). rewrite Hl', Hl, app_assoc. split; [done|]. by apply Forall_app.
Qed.

Lemma runs_impl {A} (I I' : tree → Prop) (Q Q' : A → tree → Prop) h x :
  runs I Q h x → (∀ d, I d → I' d) → (∀ r d, Q r d → Q' r d) → runs I' Q' h x.
Proof.
  intros (r & s & Hx & (l & Hl & HI) & HQ) Hi Hq. exists r, s. split; [done|]. split; [|by apply Hq].
  exists l. split; [done|]. by eapply Forall_impl.
Qed.

Lemma runs_observe {A} I (Q : A → tree → Prop) d (k : M Os A) s :
  I d → (∀ s', dirs s' = d → runs I Q (history s') (k s')) → runs I Q (history s) ((run! observe d in k) s).
Proof.
  intros Hd Hk. eapply (runs_bind I (λ _ d', d' = d)); [|intros [] s' Hs; by apply Hk].
  exists tt. eexists. split; [done|]. split; [|done]. exists [d]. split; [done|]. by constructor.
Qed.

Lemma runs_complete I (Q : option GoError → tree → Prop) n d s :
  I d → Q None d → (∀ err, Q (Some err) (dirs s)) → runs I Q (history s) (complete n d s).
Proof.
  intros HI HN HE. unfold complete. destruct (os_fails n); [by apply runs_ret|].
  apply runs_observe; [done|]. intros s' Hs. apply runs_ret. by rewrite Hs.
Qed.

(** Starting an operation: its number, and the state it finds. *)
Lemma runs_start {A} I (Q : A → tree → Prop) (k : nat → tree → M Os A) s :
  (∀ n s', dirs s' = dirs s → runs I Q (history s') (k n (dirs s) s')) →
  runs I Q (history s) ((let! n := tick in let! d := gets dirs in k n d) s).
Proof. intros Hk. apply (Hk (os_calls s) (mkOs (dirs s) (S (os_calls s)) (history s)) eq_refl). Qed.

(** ** Staging: only the partial directory changes *)

Context (partial : string) (d0 : tree).
Local Abbreviation P := (resolve partial).

Definition staging d : Prop := ∃ files, d = <[P := files]> d0.

(** A step that leaves [files] in the partial directory unless it fails. *)
Definition stages (files : gmap string (list byte)) (r : option GoError) d : Prop :=
  staging d ∧ (r = None → d = <[P := files]> d0).

Lemma staging_at files : staging (<[P := files]> d0).
Proof. by exists files. Qed.

Lemma Create_stages files name s :
  dirs s = <[P := files]> d0 → runs staging (stages (<[name := []]> files)) (history s) (Create partial name s).
Proof.
  intros Hs. apply runs_start. intros n s' Hs'. rewrite Hs, lookup_insert_eq; cbv beta iota; rewrite insert_insert_eq.
  apply runs_complete; [apply staging_at|by split; [apply staging_at|]|].
  intros err. split; [|done]. rewrite Hs', Hs. apply staging_at.
Qed.

Lemma write_file_stages files name data s :
  dirs s = <[P := files]> d0 →
  runs staging (stages (<[name := default [] (files !! name) ++ data]> files)) (history s) (write_file partial name data s).
Proof.
  intros Hs. apply runs_start. intros n s' Hs'. rewrite Hs, lookup_insert_eq; cbv beta iota zeta; rewrite !insert_insert_eq.
  apply runs_observe; [apply staging_at|]. intros s'' Hs''.
  apply runs_complete; [apply staging_at|by split; [apply staging_at|]|].
  intros err. split; [|done]. rewrite Hs''. apply staging_at.
Qed.

Lemma close_file_stages files s :
  dirs s = <[P := files]> d0 → runs staging (stages files) (history s) (close_file s).
Proof.
  intros Hs. apply runs_start. intros n s' Hs'. rewrite Hs.
  apply runs_complete; [apply staging_at|by split; [apply staging_at|]|].
  intros err. split; [|done]. rewrite Hs', Hs. apply staging_at.
Qed.

(** Closing after a failure. *)
Lemma close_after {A} (err : GoError) (Q : GoError + A → tree → Prop) s :
  staging (dirs s) → (∀ d, staging d → Q (inl err) d) →
  runs staging Q (history s) ((run! close_file in mret (inl err)) s).
Proof.
  intros [files Hs] HQ. eapply runs_bind; [by apply (close_file_stages files)|].
  intros r s' [Hst _]. apply runs_ret. by apply HQ.
Qed.

Lemma WriteFile_stages files name data s :
  dirs s = <[P := files]> d0 →
  runs staging (stages (<[name := data]> files)) (history s) (WriteFile partial name data s).
Proof.
  intros Hs. eapply runs_bind; [by apply (Create_stages files)|].
  intros [err|] s1 [Hst Hok]; [by apply runs_ret|].
  eapply runs_bind; [apply (write_file_stages (<[name := []]> files) name data s1), Hok; done|].
  rewrite lookup_insert_eq, insert_insert_eq. cbn [default from_option app].
  intros r s2 [[f2 Hf2] Hok2]. eapply runs_bind; [by apply (close_file_stages f2)|].
  intros c s3 [Hst3 Hok3]. apply runs_ret. split; [done|].
  destruct r; [done|]. intros ->. rewrite Hok3 by done. by rewrite <-Hf2, Hok2.
Qed.

(** ** Buffered writing *)

Context (base : gmap string (list byte)).

(** The file holds [c] and the buffer [buf]: together they are [all]. *)
Definition buffered (all buf : list byte) d : Prop :=
  ∃ c, d = <[P := <[results_name := c]> base]> d0 ∧ c ++ buf = all.

(** A step that extends what is written to [all], unless it fails. *)
Definition extends_to (all : list byte) (r : GoError + list byte) d : Prop :=
  staging d ∧ ∀ buf, r = inr buf → buffered all buf d.

Lemma buffered_staging all buf d : buffered all buf d → staging d.
Proof. intros (c & -> & _). apply staging_at. Qed.

Lemma append_runs all buf data s :
  buffered all buf (dirs s) →
  runs staging (λ r d, staging d ∧ (r = None → ∀ rest, buf ++ rest = data → buffered (all ++ rest) [] d))
    (history s) (write_file partial results_name data s).
Proof.
  intros (c & Hs & <-). eapply runs_impl; [by apply (write_file_stages (<[results_name := c]> base))|done|].
  intros r d [Hst Hok]. split; [done|]. intros -> rest <-. rewrite (Hok eq_refl).
  rewrite lookup_insert_eq, insert_insert_eq. cbn [default from_option].
  eexists. split; [done|]. by rewrite app_nil_r, app_assoc.
Qed.

Lemma buf_Write_runs all buf p s :
  buffered all buf (dirs s) → runs staging (extends_to (all ++ p)) (history s) (buf_Write partial results_name buf p s).
Proof.
  intros Hb. pose proof (buffered_staging _ _ _ Hb) as Hst. unfold buf_Write.
  case_match; [apply runs_ret; split; [done|]; intros b [= <-]; destruct Hb as (c & -> & <-); exists c; by rewrite app_assoc|].
  case_bool_decide as Hnil.
  - subst buf. eapply runs_bind; [by apply (append_runs all [] p)|].
    intros [err|] s1 [Hs1 Hok]; apply runs_ret; (split; [done|]); [done|]. intros b [= <-]. by apply Hok.
  - set (n := Z.to_nat _). eapply runs_bind; [by apply (append_runs all buf (buf ++ take n p))|].
    intros [err|] s1 [Hs1 Hok]; [apply runs_ret; by split|].
    specialize (Hok eq_refl (take n p) eq_refl). cbv zeta.
    assert (Hrest : buffered (all ++ p) (drop n p) (dirs s1)).
    { destruct Hok as (c & Hc & Hall). exists c. split; [done|]. rewrite app_nil_r in Hall.
      by rewrite Hall, <-app_assoc, take_drop. }
    case_match; [apply runs_ret; split; [done|]; by intros b [= <-]|].
    eapply runs_bind; [by apply (append_runs (all ++ p) (drop n p) (drop n p))|].
    intros [err|] s2 [Hs2 Hok2]; apply runs_ret; (split; [done|]); [done|]. intros b [= <-].
    specialize (Hok2 eq_refl []). rewrite !app_nil_r in Hok2. by apply Hok2.
Qed.

Lemma buf_Flush_runs all buf s :
  buffered all buf (dirs s) →
  runs staging (λ r d, staging d ∧ (r = None → buffered all [] d)) (history s) (buf_Flush partial results_name buf s).
Proof.
  intros Hb. unfold buf_Flush. case_bool_decide as Hnil.
  - subst. apply runs_ret. split; [by eapply buffered_staging|done].
  - eapply runs_impl; [by apply (append_runs all buf buf)|done|]. intros r d [Hst Hok]. split; [done|].
    intros ->. specialize (Hok eq_refl []). rewrite !app_nil_r in Hok. by apply Hok.
Qed.

Lemma buf_WriteByte_runs all buf b s :
  buffered all buf (dirs s) → runs staging (extends_to (all ++ [b])) (history s) (buf_WriteByte partial results_name buf b s).
Proof.
  intros Hb. pose proof (buffered_staging _ _ _ Hb) as Hst. unfold buf_WriteByte.
  case_match; [apply runs_ret; split; [done|]; intros b' [= <-]; destruct Hb as (c & -> & <-); exists c; by rewrite app_assoc|].
  eapply runs_bind; [by apply (buf_Flush_runs all buf)|].
  intros [err|] s1 [Hs1 Hok]; apply runs_ret; (split; [done|]); [done|]. intros b' [= <-].
  destruct (Hok eq_refl) as (c & Hc & Hall). exists c. split; [done|]. rewrite app_nil_r in Hall. by subst.
Qed.

(** The bytes of the lines, as far as they can be encoded. *)
Definition encodings (lines : list ResultLine) (encs : list (list byte)) : Prop :=
  Forall2 (λ line b, Marshal (line_json line) = inr b) lines encs.

Lemma write_lines_runs all lines buf s :
  buffered all buf (dirs s) →
  runs staging (λ r d, staging d ∧ ∀ buf', r = inr buf' →
                  ∃ encs, encodings lines encs ∧ buffered (all ++ lines_file encs) buf' d)
    (history s) (write_lines partial lines buf s).
Proof.
  revert all buf s. induction lines as [|line lines IH]; intros all buf s Hb;
    pose proof (buffered_staging _ _ _ Hb) as Hst; cbn [write_lines].
  - apply runs_ret. split; [done|]. intros b [= <-]. exists []. split; [constructor|].
    unfold lines_file. simpl. by rewrite app_nil_r.
  - destruct (Marshal (line_json line)) as [msg|b] eqn:Hm; [apply close_after; [done|]; by intros d Hd; split|].
    eapply runs_bind; [by apply (buf_Write_runs all buf b)|].
    intros [err|buf1] s1 [Hs1 Hok1]; [apply close_after; [done|]; by intros d Hd; split|].
    eapply runs_bind; [by apply (buf_WriteByte_runs (all ++ b) buf1 newline), Hok1|].
    intros [err|buf2] s2 [Hs2 Hok2]; [apply close_after; [done|]; by intros d Hd; split|].
    eapply runs_impl; [by apply (IH ((all ++ b) ++ [newline]) buf2), Hok2|done|]. intros r d [Hd Hok]. split; [done|].
    intros buf' Hr. destruct (Hok buf' Hr) as (encs & He & Hb'). exists (b :: encs). split; [by constructor|].
    unfold lines_file in *. csimpl. by rewrite !app_assoc in *.
Qed.

Lemma write_results_runs lines s :
  dirs s = <[P := base]> d0 →
  runs staging (λ r d, staging d ∧ (r = inr tt → ∃ encs, encodings lines encs ∧
                  d = <[P := <[results_name := lines_file encs]> base]> d0))
    (history s) (write_results partial lines s).
Proof.
  intros Hs. eapply runs_bind; [by apply (Create_stages base)|].
  intros [err|] s1 [Hs1 Hok1]; [apply runs_ret; by split|].
  eapply runs_bind; [apply (write_lines_runs [] lines []); exists []; by rewrite (Hok1 eq_refl)|].
  intros [err|buf] s2 [Hs2 Hok2]; [apply runs_ret; by split|].
  destruct (Hok2 buf eq_refl) as (encs & He & Hb).
  eapply runs_bind; [by apply (buf_Flush_runs ([] ++ lines_file encs) buf)|].
  intros [err|] s3 [Hs3 Hok3]; [apply close_after; [done|]; by intros d Hd; split|].
  destruct (Hok3 eq_refl) as (c & Hc & Hall). rewrite app_nil_r in Hall. cbn [app] in Hall. subst c.
  eapply runs_bind; [by apply (close_file_stages (<[results_name := lines_file encs]> base))|].
  intros [err|] s4 [Hs4 Hok4]; apply runs_ret; (split; [done|]); [done|]. intros _. exists encs. by rewrite Hok4.
Qed.

End Facts.

(** ** Publishing *)

Section Publish.
Context {HO : HostOs}.
Context (now : Z) (legacy : option report) (engines : list string) (w : RunWriter) (d0 : tree).
Implicit Types (s : Os) (d : tree).

(** The files of a complete run: the manifest, one line per measurement, and the
    flat report when there is one. *)
Definition complete_run (files : gmap string (list byte)) : Prop :=
  ∃ man encs,
    MarshalIndent (manifest_json (finished_manifest now engines w)) = inr man ∧
    encodings (b_lines (w_buffer w)) encs ∧
    let results := <[results_name := lines_file encs]> {["manifest.json" := man]} in
    match legacy with
    | None => files = results
    | Some rep => ∃ b, MarshalIndent (report_json rep) = inr b ∧ files = <["report.legacy.json" := b]> results
    end.

Lemma stage_run_runs s :
  dirs s = <[resolve (PartialDir w) := ∅]> d0 →
  runs (staging (PartialDir w) d0)
    (λ r d, staging (PartialDir w) d0 d ∧
            (r = inr tt → ∃ files, complete_run files ∧ d = <[resolve (PartialDir w) := files]> d0))
    (history s) (stage_run now legacy engines w s).
Proof.
  intros Hs. assert (Hst : staging (PartialDir w) d0 (dirs s)) by by exists ∅.
  unfold stage_run, encoded at 1. cbv zeta.
  destruct (MarshalIndent _) as [msg|man] eqn:Hm; [apply runs_ret; by split|].
  eapply runs_bind; [by apply (WriteFile_stages (PartialDir w) d0 ∅)|].
  intros [err|] s1 [Hs1 Hok1]; [apply runs_ret; by split|]. rewrite insert_empty in Hok1.
  eapply runs_bind; [by apply (write_results_runs (PartialDir w) d0), Hok1|].
  intros [err|[]] s2 [Hs2 Hok2]; [apply runs_ret; by split|].
  destruct (Hok2 eq_refl) as (encs & He & Hd2).
  destruct legacy as [rep|] eqn:Hleg.
  - unfold encoded. destruct (MarshalIndent (report_json rep)) as [msg|b] eqn:Hb; [apply runs_ret; by split|].
    eapply runs_bind; [by apply (WriteFile_stages (PartialDir w) d0 _ _ _ _ Hd2)|].
    intros [err|] s3 [Hs3 Hok3]; apply runs_ret; (split; [done|]); [done|]. intros _.
    eexists. split; [|by apply Hok3]. exists man, encs. rewrite Hleg. eauto.
  - apply runs_ret. split; [done|]. intros _. eexists. split; [|exact Hd2]. exists man, encs. by rewrite Hleg.
Qed.

Local Abbreviation P := (resolve (PartialDir w)).
Local Abbreviation F := (resolve (FinalDir w)).

(** Nothing but the two directories of the run, and what is beneath them, differs
    from [d0]; the final one, and every one beneath it that is not the partial
    one, holds files that were there, with their contents. *)
Definition old_kept d : Prop :=
  (∀ q, ¬ P `prefix_of` q → ¬ F `prefix_of` q → d !! q = d0 !! q) ∧
  ∀ q files, ¬ P `prefix_of` q → F `prefix_of` q → d !! q = Some files →
    ∃ old, d0 !! q = Some old ∧ files ⊆ old.

(** The complete run is the final directory, with nothing beneath it, and the
    partial directory is gone; neither is inside the other. *)
Definition published files d : Prop :=
  complete_run files ∧ ¬ P `prefix_of` F ∧ ¬ F `prefix_of` P ∧ d = <[F := files]> (outside F d0).

(** [d0] is the file system without the partial directory. *)
Hypothesis Hfresh : ∀ q, P `prefix_of` q → d0 !! q = None.

Lemma staging_kept d : staging (PartialDir w) d0 d → old_kept d.
Proof.
  intros [files ->]. split.
  - intros q Hp Hf. rewrite lookup_insert_ne; [done|]. by apply not_below_ne.
  - intros q fs Hp Hf. rewrite lookup_insert_ne by (by apply not_below_ne). intros Hd. by exists fs.
Qed.

(** What the removal of the old run can leave. *)
Definition removing files d : Prop :=
  (∀ q, ¬ F `prefix_of` q → d !! q = <[P := files]> d0 !! q) ∧
  ∀ q fs, F `prefix_of` q → d !! q = Some fs → ∃ old, <[P := files]> d0 !! q = Some old ∧ fs ⊆ old.

Lemma removing_kept files d : removing files d → old_kept d.
Proof.
  intros [H1 H2]. split.
  - intros q Hp Hf. rewrite H1, lookup_insert_ne; [done|by apply not_below_ne|done].
  - intros q fs Hp Hf Hd. destruct (H2 q fs Hf Hd) as (old & Ho & Hsub). exists old. split; [|done].
    rewrite lookup_insert_ne in Ho; [done|by apply not_below_ne].
Qed.

Lemma RemoveAll_runs files s :
  dirs s = <[P := files]> d0 →
  runs (removing files) (λ _ d, removing files d) (history s) (RemoveAll (FinalDir w) s).
Proof.
  intros Hs. assert (Hr : removing files (dirs s)) by (rewrite Hs; split; eauto).
  unfold RemoveAll. case_bool_decide; [by apply runs_ret|]. destruct (ends_with_dot _); [by apply runs_ret|].
  apply runs_start. intros n s' Hs'. cbv zeta. rewrite Hs.
  assert (Hmid : removing files (partly_removed n F (<[P := files]> d0))).
  { split; intros q.
    - intros Hf. unfold partly_removed. rewrite map_lookup_imap, bool_decide_eq_false_2 by done.
      by destruct (_ !! q).
    - intros fs Hf. unfold partly_removed. rewrite map_lookup_imap, bool_decide_eq_true_2 by done.
      destruct (<[P := files]> d0 !! q) as [old|]; [|done]. simpl. exists old. split; [done|].
      destruct (os_left n q); [simplify_eq; apply map_filter_subseteq|].
      case_bool_decide; simplify_eq. apply map_empty_subseteq. }
  apply runs_observe; [done|]. intros s'' Hs''. apply runs_complete.
  1, 2: split; intros q; rewrite lookup_outside; [intros Hf; by rewrite bool_decide_eq_false_2|].
  1, 2: intros fs Hf; by rewrite bool_decide_eq_true_2.
  intros err. by rewrite Hs''.
Qed.

(** A rename that is done finds nothing left of the old run. *)
Lemma removing_done files d :
  removing files d → under F d = ∅ → exists_dir P d = true → ¬ P `prefix_of` F →
  ¬ F `prefix_of` P ∧ moved P F d = <[F := files]> (outside F d0).
Proof.
  intros [H1 H2] Hu He HPF. rewrite under_empty in Hu. 
  assert (Hbelow : ∀ q, P `prefix_of` q → q ≠ P → d !! q = None).
  { intros q Hq Hne. destruct (decide (F `prefix_of` q)); [auto|]. rewrite H1, lookup_insert_ne by done. auto. }
  assert (HFP : ¬ F `prefix_of` P).
  { intros HFP. unfold exists_dir in He. apply bool_decide_eq_true in He. apply He, under_empty.
    intros q Hq. apply Hu. by etrans. }
  split; [done|]. rewrite (moved_single P F d files); [|rewrite H1 by done; apply lookup_insert_eq|done].
  f_equal. apply map_eq. intros q. rewrite !lookup_outside. case_bool_decide as Hp; case_bool_decide as Hf; auto.
  - by rewrite Hfresh.
  - rewrite H1, lookup_insert_ne; [done|by apply not_below_ne|done].
Qed.

Lemma Rename_runs files s :
  complete_run files → removing files (dirs s) →
  runs (λ d, removing files d ∨ published files d)
    (λ r d, match r with Some _ => removing files d | None => published files d end)
    (history s) (Rename (PartialDir w) (FinalDir w) s).
Proof.
  intros Hc Hr. apply runs_start. intros n s' Hs'. cbv zeta.
  assert (Herr : ∀ msg, runs (λ d, removing files d ∨ published files d)
      (λ r d, match r with Some _ => removing files d | None => published files d end) (history s')
      (mret (Some (os_error msg)) s')) by (intros msg; apply runs_ret; by rewrite Hs').
  destruct (exists_dir P (dirs s)) eqn:HP; [|apply Herr]. simpl.
  destruct (exists_dir F (dirs s)) eqn:HF; [apply Herr|].
  case_bool_decide as HPF; [apply Herr|]. destruct (exists_dir (removelast F) (dirs s)); [|apply Herr]. simpl.
  assert (Hu : under F (dirs s) = ∅) by (apply under_empty; by apply exists_dir_none).
  destruct (removing_done files (dirs s) Hr Hu HP HPF) as [HFP Hm].
  apply runs_complete; [by right|done|by rewrite Hs'].
Qed.

(** What can be seen while [Finalize] runs. *)
Definition visible d : Prop := old_kept d ∨ ∃ files, published files d.

Lemma Finalize_runs s :
  dirs s = <[P := ∅]> d0 →
  runs visible
    (λ r d, match r with
            | inl _ => old_kept d
            | inr dir => dir = FinalDir w ∧ ∃ files, published files d
            end)
    (history s) (Finalize now legacy engines w s).
Proof.
  intros Hs. eapply runs_bind.
  { eapply runs_impl; [by apply stage_run_runs| |done]. intros d Hd. left. by apply staging_kept. }
  intros [err|[]] s1 [Hs1 Hok]; [apply runs_ret; by apply staging_kept|].
  destruct (Hok eq_refl) as (files & Hc & Hd). eapply runs_bind.
  { eapply runs_impl; [by apply (RemoveAll_runs files)| |done]. intros d Hd'. left. by eapply removing_kept. }
  intros r s2 Hr. eapply runs_bind.
  { eapply runs_impl; [by apply (Rename_runs files)| |done].
    intros d [Hd'|Hp]; [left; by eapply removing_kept|right; by exists files]. }
  intros [err|] s3 H3; apply runs_ret; [by eapply removing_kept|]. split; [done|]. by exists files.
Qed.

End Publish.

(** ** Properties *)

Lemma lookup_mkdirs ps d q :
  mkdirs ps d !! q = match d !! q with Some files => Some files | None => if bool_decide (q ∈ ps) then Some ∅ else None end.
Proof.
  unfold mkdirs. revert d. induction ps as [|p ps IH]; intros d; simpl; [by destruct (d !! q)|].
  rewrite IH. destruct (decide (q = p)) as [->|Hne].
  - rewrite lookup_insert_eq, (bool_decide_eq_true_2 (p ∈ p :: ps)) by set_solver. by destruct (d !! p).
  - rewrite lookup_insert_ne by done. destruct (d !! q); [done|]. destruct (decide (q ∈ ps)) as [Hq|Hq].
    + by rewrite !bool_decide_eq_true_2 by set_solver.
    + by rewrite !bool_decide_eq_false_2 by set_solver.
Qed.

(** A directory and those above it. *)
Lemma ancestors_spec p q : q ∈ ancestors p ↔ q `prefix_of` p.
Proof.
  unfold ancestors. rewrite list_elem_of_fmap. split.
  - intros (n & -> & _). apply prefix_take.
  - intros [r ->]. exists (length q). rewrite take_app_length. split; [done|].
    apply elem_of_seq. rewrite length_app. lia.
Qed.

Lemma Clean_not_nil path : Clean path ≠ [].
Proof. unfold Clean. destruct (is_rooted path); [done|]. by case_bool_decide. Qed.

Lemma Join_not_empty root name : root ≠ "" → filepath_Join [root; name] ≠ "".
Proof.
  intros Hr Hj. unfold filepath_Join in Hj. csimpl in Hj.
  apply (f_equal String.list_byte_of_string) in Hj. rewrite String.list_byte_of_string_of_list_byte in Hj.
  case_bool_decide as Hn; [|by apply Clean_not_nil in Hj].
  apply Hr. by rewrite <-(String.string_of_list_byte_of_string root), Hn.
Qed.

Section Writer.
Context {HO : HostOs}.

Lemma RemoveAll_removes dir s s' :
  dir ≠ "" → RemoveAll dir s = Ret None s' → dirs s' = outside (resolve dir) (dirs s).
Proof.
  intros Hd. unfold RemoveAll. rewrite bool_decide_eq_false_2 by done. destruct (ends_with_dot dir); [done|].
  unfold bind, tick, gets, complete, observe, mret. simpl. destruct (os_fails _); by intros [= <-].
Qed.

Lemma MkdirAll_makes dir s s' :
  MkdirAll dir s = Ret None s' → dirs s' = mkdirs (ancestors (resolve dir)) (dirs s).
Proof.
  unfold MkdirAll, bind, tick, gets, complete, observe, mret. simpl. destruct (os_fails _); by intros [= <-].
Qed.

(** A new writer starts from an empty partial directory with nothing beneath it;
    it makes what is missing above and changes no other directory. *)
Lemma NewRunWriter_starts now runsRoot runID manifest s w s' :
  NewRunWriter now runsRoot runID manifest s = Ret (inr w) s' →
  ∃ d0, dirs s' = <[resolve (PartialDir w) := ∅]> d0 ∧
    (∀ q, resolve (PartialDir w) `prefix_of` q → d0 !! q = None) ∧
    (∀ q, ¬ resolve (PartialDir w) `prefix_of` q → ¬ q `prefix_of` resolve (PartialDir w) → d0 !! q = dirs s !! q) ∧
    PartialDir w = filepath_Join [runsRoot; runID +:+ ".partial"] ∧
    FinalDir w = filepath_Join [runsRoot; runID] ∧ w_buffer w = mkBuffer runID [].
Proof.
  unfold NewRunWriter. case_bool_decide as Hroot; [done|]. case_bool_decide; [done|]. cbv zeta.
  pose proof (Join_not_empty runsRoot (runID +:+ ".partial") Hroot) as Hne.
  set (partial := filepath_Join [runsRoot; runID +:+ ".partial"]) in *.
  unfold or_return, bind. destruct (RemoveAll partial s) as [[err|] s1| | |] eqn:Hs1; try done.
  destruct (MkdirAll partial s1) as [[err|] s2| | |] eqn:Hs2; try done. intros [= <- <-]. cbn [PartialDir FinalDir w_buffer].
  apply RemoveAll_removes in Hs1; [|done]. apply MkdirAll_makes in Hs2. rewrite Hs1 in Hs2.
  exists (delete (resolve partial) (dirs s2)). rewrite Hs2.
  assert (Hl : ∀ q, mkdirs (ancestors (resolve partial)) (outside (resolve partial) (dirs s)) !! q =
    if bool_decide (resolve partial `prefix_of` q) then if bool_decide (q = resolve partial) then Some ∅ else None
    else match dirs s !! q with Some files => Some files
         | None => if bool_decide (q `prefix_of` resolve partial) then Some ∅ else None end).
  { intros q. rewrite lookup_mkdirs, lookup_outside, (bool_decide_ext _ _ (ancestors_spec _ q)).
    destruct (decide (resolve partial `prefix_of` q)) as [Hq|Hq]; [|by rewrite !(bool_decide_eq_false_2 _ Hq)].
    rewrite !(bool_decide_eq_true_2 _ Hq). destruct (decide (q = resolve partial)) as [->|Hne'].
    - by rewrite !bool_decide_eq_true_2.
    - rewrite !bool_decide_eq_false_2; [done|done|]. intros Hq'. by apply Hne', (anti_symm prefix). }
  split; [|split; [|split; [|done]]].
  - apply map_eq. intros q. destruct (decide (q = resolve partial)) as [->|Hq].
    + by rewrite lookup_insert_eq, Hl, !bool_decide_eq_true_2.
    + by rewrite lookup_insert_ne, lookup_delete_ne.
  - intros q Hq. destruct (decide (q = resolve partial)) as [->|Hne']; [apply lookup_delete_eq|].
    rewrite lookup_delete_ne, Hl, bool_decide_eq_true_2 by done. by rewrite bool_decide_eq_false_2.
  - intros q Hq Hq'. rewrite lookup_delete_ne by (by apply not_below_ne). rewrite Hl, !bool_decide_eq_false_2 by done.
    by destruct (dirs s !! q).
Qed.

End Writer.

(** A final directory that the partial one lies in, as for [-run-id=.], where it is
    the root of all runs: publishing removes it with every run in it, the staged one
    too, and then finds nothing to rename. *)
Lemma publish_covering {HO : HostOs} w s :
  resolve (FinalDir w) `prefix_of` resolve (PartialDir w) →
  FinalDir w ≠ "" → ends_with_dot (FinalDir w) = false → os_fails (os_calls s) = None →
  ∃ s', publish_run w s = Ret (inl (os_error "no such file or directory")) s' ∧
        dirs s' = outside (resolve (FinalDir w)) (dirs s).
Proof.
  intros Hin Hne Hdot Hok. unfold publish_run, RemoveAll. rewrite bool_decide_eq_false_2, Hdot by done.
  unfold Rename, or_return, complete, bind, tick, gets, observe, mret. simpl. rewrite Hok. simpl.
  assert (He : exists_dir (resolve (PartialDir w)) (outside (resolve (FinalDir w)) (dirs s)) = false).
  { apply bool_decide_eq_false. intros Hn. apply Hn, under_empty. intros q Hq.
    rewrite lookup_outside, bool_decide_eq_true_2; [done|]. by etrans. }
  rewrite He. simpl. by eexists.
Qed.

Section Claims.
Context {HO : HostOs}.

(** C18: whatever fails, whenever the process is stopped and whatever the run is
    called, a published run is never a mixture.  Every state that can be seen while
    [Finalize] works, and the state it leaves, differs from the one before only in
    the partial and the final directory and what is beneath them; the final one,
    and all beneath it but the partial one, holds files that were there, unchanged
    (what is missing was being removed), until it holds the complete new run.
    [Finalize] returns the final directory exactly when the new run is there, alone,
    and the partial directory is gone; after an error nothing of it is there.  What
    is beneath the final directory goes with it: for a run id such as [.] that is
    every other run ([publish_covering]). *)
Theorem publish_never_mixes now legacy engines w d0 s :
  (∀ q, resolve (PartialDir w) `prefix_of` q → d0 !! q = None) → dirs s = <[resolve (PartialDir w) := ∅]> d0 →
  ∃ r s', Finalize now legacy engines w s = Ret r s' ∧
    (∃ seen, history s' = seen ++ history s ∧ Forall (visible now legacy engines w d0) seen) ∧
    match r with
    | inl _ => old_kept w d0 (dirs s')
    | inr dir => dir = FinalDir w ∧ ∃ files, complete_run now legacy engines w files ∧
        ¬ resolve (PartialDir w) `prefix_of` resolve (FinalDir w) ∧
        ¬ resolve (FinalDir w) `prefix_of` resolve (PartialDir w) ∧
        dirs s' = <[resolve (FinalDir w) := files]> (outside (resolve (FinalDir w)) d0)
    end.
Proof.
  intros Hd0 Hs. destruct (Finalize_runs now legacy engines w d0 Hd0 s Hs) as (r & s' & Hr & Hseen & HQ).
  exists r, s'. split; [done|]. split; [done|]. by destruct r.
Qed.

(** C36: the results file of a published run reads back: cut at its line breaks it
    is the JSON of the buffered lines, in order, one per line and nothing else, as
    many as [LineCount] says. *)
Theorem results_read_back now legacy engines w d0 s dir s' :
  (∀ q, resolve (PartialDir w) `prefix_of` q → d0 !! q = None) → dirs s = <[resolve (PartialDir w) := ∅]> d0 →
  Finalize now legacy engines w s = Ret (inr dir) s' →
  ∃ files content encs,
    dirs s' !! resolve dir = Some files ∧ files !! "results.jsonl" = Some content ∧
    split_byte newline content = encs ++ [[]] ∧
    Forall2 (λ line b, Marshal (line_json line) = inr b) (b_lines (w_buffer w)) encs ∧
    zlen encs = LineCount (w_buffer w).
Proof.
  intros Hd0 Hs Hf. destruct (Finalize_runs now legacy engines w d0 Hd0 s Hs) as (r & s1 & Hr & _ & HQ).
  rewrite Hf in Hr. injection Hr as <- <-.
  destruct HQ as (-> & files & (man & encs & Hm & He & Hfiles) & _ & _ & Hd).
  exists files, (lines_file encs), encs. split; [by rewrite Hd, lookup_insert_eq|].
  assert (Hlook : <[results_name := lines_file encs]> ({["manifest.json" := man]} : gmap string (list byte)) !! "results.jsonl"
                  = Some (lines_file encs)) by apply lookup_insert_eq.
  split.
  { destruct legacy as [rep|]; [destruct Hfiles as (b & _ & ->)|by rewrite Hfiles].
    by rewrite lookup_insert_ne. }
  split_and!; [|done|].
  - apply split_lines_file. eapply Forall2_Forall_r; [exact He|]. apply Forall_forall. intros line _ b. apply Marshal_line.
  - unfold LineCount, zlen. by rewrite (Forall2_length _ _ _ He).
Qed.

End Claims.

(** ** Every operation answers *)

Section Answers.
Context {HO : HostOs}.

(** An operation of the file system answers, with [Ok] of the answer. *)
Definition answering {A} (Ok : A → Prop) (x : M Os A) : Prop := ∀ s, ∃ r s', x s = Ret r s' ∧ Ok r.
Definition no_miss (r : option GoError) : Prop := r ≠ Some ErrNotFound.

Lemma answering_bind {A B} (Ok1 : A → Prop) (Ok : B → Prop) x k :
  answering Ok1 x → (∀ a, Ok1 a → answering Ok (k a)) → answering Ok (bind x k).
Proof. intros Hx Hk s. destruct (Hx s) as (a & s1 & Ha & Hok). unfold bind. rewrite Ha. by apply Hk. Qed.

Lemma answering_ret {A} (Ok : A → Prop) a : Ok a → answering Ok (mret a).
Proof. intros Ha s. by exists a, s. Qed.

Lemma answering_start {A} (Ok : A → Prop) (k : nat → tree → M Os A) :
  (∀ n d, answering Ok (k n d)) → answering Ok (let! n := tick in let! d := gets dirs in k n d).
Proof. intros Hk s. apply Hk. Qed.

Lemma answering_complete n d : answering no_miss (complete n d).
Proof. unfold complete. destruct (os_fails n); [by apply answering_ret|]. intros s. by eexists _, _. Qed.

Lemma WriteFile_answers dir name b : answering no_miss (WriteFile dir name b).
Proof.
  apply (answering_bind no_miss).
  { apply answering_start. intros n d. destruct (d !! resolve dir); [apply answering_complete|by apply answering_ret]. }
  intros [err|] Hc; [by apply answering_ret|]. apply (answering_bind no_miss).
  { apply answering_start. intros n d. destruct (d !! resolve dir); [|by apply answering_ret].
    eapply (answering_bind (λ _, True)); [intros s; by eexists _, _|]. intros _ _. apply answering_complete. }
  intros err Herr. apply (answering_bind no_miss); [apply answering_start; intros; apply answering_complete|].
  intros cerr Hcerr. apply answering_ret. by destruct err.
Qed.

Lemma answering_any {A} (Ok : A → Prop) x : answering Ok x → answering (λ _, True) x.
Proof. intros Hx s. destruct (Hx s) as (r & s' & Hr & _). eauto. Qed.

Abbreviation answers_os := (answering (λ _, True)).

Lemma answers_bind {A B} (x : M Os A) (k : A → M Os B) : answers_os x → (∀ a, answers_os (k a)) → answers_os (bind x k).
Proof. intros Hx Hk. apply (answering_bind (λ _, True)); [done|]. intros a _. apply Hk. Qed.

Lemma answers_return {A} x (k : M Os (GoError + A)) : answers_os x → answers_os k → answers_os (or_return x k).
Proof. intros Hx Hk. apply answers_bind; [done|]. intros [err|]; [by apply answering_ret|done]. Qed.

Lemma answers_complete n d : answers_os (complete n d).
Proof. eapply answering_any, answering_complete. Qed.

Lemma answers_observe {A} d (k : M Os A) : answers_os k → answers_os (run! observe d in k).
Proof. intros Hk s. destruct (Hk (mkOs d (os_calls s) (d :: history s))) as (r & s' & Hr & _). by exists r, s'. Qed.

(** The first two steps of an operation. *)
Ltac answers_start := apply answering_start; intros ? ?; repeat case_match;
  cbv zeta; repeat case_match; repeat apply answers_observe; solve [apply answers_complete|by apply answering_ret].

Lemma RemoveAll_answers dir : answers_os (RemoveAll dir).
Proof.
  unfold RemoveAll. case_bool_decide; [by apply answering_ret|]. destruct (ends_with_dot dir); [by apply answering_ret|].
  answers_start.
Qed.

Lemma MkdirAll_answers dir : answers_os (MkdirAll dir).
Proof. answers_start. Qed.

Lemma Create_answers dir name : answers_os (Create dir name).
Proof. answers_start. Qed.

Lemma write_file_answers dir name data : answers_os (write_file dir name data).
Proof. answers_start. Qed.

Lemma close_file_answers : answers_os close_file.
Proof. answers_start. Qed.

Lemma Rename_answers old new : answers_os (Rename old new).
Proof. answers_start. Qed.

Lemma buf_Write_answers dir name buf p : answers_os (buf_Write dir name buf p).
Proof.
  unfold buf_Write. cbv zeta. repeat case_match;
    repeat first [apply answers_return; [apply write_file_answers|]|by apply answering_ret].
Qed.

Lemma buf_Flush_answers dir name buf : answers_os (buf_Flush dir name buf).
Proof. unfold buf_Flush. case_match; [by apply answering_ret|apply write_file_answers]. Qed.

Lemma write_lines_answers dir lines buf : answers_os (write_lines dir lines buf).
Proof.
  assert (Hfail : ∀ err, answers_os (run! close_file in mret (inl err : GoError + list byte))).
  { intros err. apply answers_bind; [apply close_file_answers|]. intros _. by apply answering_ret. }
  revert buf. induction lines as [|line lines IH]; intros buf; cbn [write_lines]; cbv zeta; [by apply answering_ret|].
  destruct (Marshal _); [apply Hfail|]. apply answers_bind; [apply buf_Write_answers|]. intros [err|buf']; [apply Hfail|].
  apply answers_bind; [|intros [err|buf'']; [apply Hfail|apply IH]].
  unfold buf_WriteByte. case_match; [by apply answering_ret|]. apply answers_return; [apply buf_Flush_answers|].
  by apply answering_ret.
Qed.

Lemma write_results_answers dir lines : answers_os (write_results dir lines).
Proof.
  apply answers_return; [apply Create_answers|]. apply answers_bind; [apply write_lines_answers|].
  intros [err|buf]; [by apply answering_ret|]. apply answers_bind; [apply buf_Flush_answers|].
  intros [err|]; [apply answers_bind; [apply close_file_answers|]; intros _; by apply answering_ret|].
  apply answers_return; [apply close_file_answers|by apply answering_ret].
Qed.

Lemma Finalize_answers now legacy engines w : answers_os (Finalize now legacy engines w).
Proof.
  apply answers_bind.
  - unfold stage_run, encoded. cbv zeta. destruct (MarshalIndent _); [by apply answering_ret|].
    apply answers_return; [eapply answering_any, WriteFile_answers|]. apply answers_bind; [apply write_results_answers|].
    intros [err|[]]; [by apply answering_ret|]. destruct legacy as [rep|]; [|by apply answering_ret].
    destruct (MarshalIndent _); [by apply answering_ret|].
    apply answers_return; [eapply answering_any, WriteFile_answers|by apply answering_ret].
  - intros [err|[]]; [by apply answering_ret|]. apply answers_bind; [apply RemoveAll_answers|]. intros _.
    apply answers_return; [apply Rename_answers|by apply answering_ret].
Qed.

Lemma NewRunWriter_answers now root id man : answers_os (NewRunWriter now root id man).
Proof.
  unfold NewRunWriter. cbv zeta. repeat case_match; try by apply answering_ret.
  all: apply answers_return; [apply RemoveAll_answers|]; apply answers_return; [apply MkdirAll_answers|]; by apply answering_ret.
Qed.

End Answers.

(** A failed integrity check loses its value in the flat report, where a zero is
    left out. *)
Lemma failed_row_without_value r fields v :
  is_zero (Value r) = true → row_json r = JObject fields → ("value", v) ∉ fields.
Proof.
  unfold row_json, omit_empty. intros -> [= <-]. repeat case_bool_decide; set_solver.
Qed.

(** ** A run *)
Section Run.
#[local] Instance quiet_host : HostOs :=
  {| os_wd := ["work"]; os_fails _ := None; os_torn _ := O; os_left _ _ := None |}.

Example resolved :
  resolve "runs/r1" = ["work"; "runs"; "r1"] ∧ resolve "." = ["work"] ∧ resolve ".." = [] ∧
  resolve "/a//b/../c/" = ["a"; "c"] ∧ resolve "../runs" = ["runs"].
Proof. by vm_compute. Qed.

Definition demo_manifest : RunManifest :=
  mkManifest "" "" "" "micro" 42 "" "" (mkGit "abc1234" "v0.1.0" false)
    (mkHost "linux" "amd64" "host" "go1.25" "cpu" 8) (mkScale 50 2000 200000 4096 500) None (mkHarness "" "go run .") "".

Definition demo_rows : list phaseResult :=
  [result "chunk_random_get" "f4kvs_wal_segment" 500 2500 "wal" "";
   metricResult "post_restart_row_count" "f4kvs_wal_segment" "integrity_ok" fone 0 "bool" "1=pass 0=fail"].

(** An earlier run of the same name, with a directory in it, and another run. *)
Definition demo_disk : tree := list_to_map
  [([], ∅); (["work"], ∅); (["work"; "runs"], ∅); (["work"; "runs"; "r0"], {["manifest.json" := [x7b; x7d]]});
   (["work"; "runs"; "r1"], {["manifest.json" := [x7b; x7d]]}); (["work"; "runs"; "r1"; "old"], ∅)].

Definition demo_writer : RunWriter :=
  mkWriter "runs" "runs/r1.partial" "runs/r1" demo_manifest (AppendPhaseResults demo_rows (mkBuffer "r1" [])) 1784370330.

Definition demo_partial : list string := ["work"; "runs"; "r1.partial"].
Definition demo_os : Os := mkOs (<[demo_partial := ∅]> demo_disk) 2 [].

Lemma demo_fresh q : resolve (PartialDir demo_writer) `prefix_of` q → demo_disk !! q = None.
Proof. apply (proj1 (under_empty demo_partial demo_disk)). vm_compute. reflexivity. Qed.

Lemma publish_never_mixes_witness :
  ∃ r s', Finalize 1784370400 None ["f4kvs_wal_segment"] demo_writer demo_os = Ret r s' ∧
    (∃ seen, history s' = seen ++ [] ∧
       Forall (visible 1784370400 None ["f4kvs_wal_segment"] demo_writer demo_disk) seen) ∧
    match r with
    | inl _ => old_kept demo_writer demo_disk (dirs s')
    | inr dir => dir = "runs/r1" ∧ ∃ files, complete_run 1784370400 None ["f4kvs_wal_segment"] demo_writer files ∧
        ¬ resolve "runs/r1.partial" `prefix_of` resolve "runs/r1" ∧
        ¬ resolve "runs/r1" `prefix_of` resolve "runs/r1.partial" ∧
        dirs s' = <[resolve "runs/r1" := files]> (outside (resolve "runs/r1") demo_disk)
    end.
Proof.
  apply (publish_never_mixes 1784370400 None ["f4kvs_wal_segment"] demo_writer demo_disk demo_os);
    [apply demo_fresh|done].
Defined.

(** The answer of a run of [Finalize], and the file system it leaves. *)
Definition left_by {A} (x : outcome Os A) : tree := match x with Ret _ s => dirs s | _ => ∅ end.
Definition os_of {A} (x : outcome Os A) : Os := match x with Ret _ s => s | _ => demo_os end.
Definition answers {A} (a : A) `{EqDecision A} (x : outcome Os A) : bool :=
  match x with Ret b _ => bool_decide (b = a) | _ => false end.

Lemma answers_ok {A} `{EqDecision A} (a : A) x : answers a x = true → x = Ret a (os_of x).
Proof. destruct x; simpl; try done. by intros <-%bool_decide_eq_true. Qed.

Lemma results_read_back_witness :
  let run := Finalize 1784370400 None ["f4kvs_wal_segment"] demo_writer demo_os in
  ∃ files content encs,
    dirs (os_of run) !! resolve "runs/r1" = Some files ∧ files !! "results.jsonl" = Some content ∧
    split_byte newline content = encs ++ [[]] ∧
    Forall2 (λ line b, Marshal (line_json line) = inr b) (b_lines (w_buffer demo_writer)) encs ∧
    zlen encs = LineCount (w_buffer demo_writer).
Proof.
  intros run. eapply (results_read_back 1784370400 None ["f4kvs_wal_segment"] demo_writer demo_disk demo_os "runs/r1");
    [apply demo_fresh|done|]. apply answers_ok. vm_compute. reflexivity.
Defined.

(** Three lines: two for the throughput row, one for the metric. *)
Example demo_lines :
  (λ files, length (split_byte newline (default [] (files !! "results.jsonl")))) <$>
    (left_by (Finalize 1784370400 None [] demo_writer demo_os) !! ["work"; "runs"; "r1"]) = Some 4%nat.
Proof. vm_compute. reflexivity. Qed.

(** [-run-id=.]: the run is refused and every earlier one is gone. *)
Example run_id_dot :
  match NewRunWriter 1784370330 "runs" "." demo_manifest (mkOs demo_disk 0 []) with
  | Ret (inr w) s =>
      let x := Finalize 1784370400 None [] w s in
      answers (inl (os_error "no such file or directory")) x &&
      bool_decide (left_by x = {[ [] := ∅; ["work"] := ∅ ]})
  | _ => false
  end = true.
Proof. vm_compute. reflexivity. Qed.

End Run.
