(* ===== verification/Repo.v ===== *)
(** * Where a run comes from

    The metadata functions of [bench/embed_vs_sqlite/de_out.go]: the root of the
    repository, the commits, the machine.  What the host answers (files, the
    environment, the output of [git] and [sysctl]) is the class [HostFacts]. *)

From S2P Require Import Prelude Engine Options Ffi Binding GoText Paths Harness Report RunDir.

Class HostFacts := {
  (** [os.Stat]: whether the path is a directory, [None] on an error. *)
  os_Stat : string → option bool;
  os_ReadFile : string → option string;
  os_Getenv : string → string;
  (** The output of a command that succeeds. *)
  exec_Output : list string → option string;
  os_Hostname : string;
  runtime_GOOS : string;
  runtime_GOARCH : string;
  runtime_Version : string;
  runtime_NumCPU : Z
}.

Section Repo.
Context {HF : HostFacts}.

Definition fileExists (p : string) : bool := match os_Stat p with Some is_dir => negb is_dir | None => false end.
Definition dirExists (p : string) : bool := match os_Stat p with Some is_dir => is_dir | None => false end.

(** The test of a directory in [FindRepoRoot]. *)
Definition is_root (dir : string) : bool :=
  fileExists (filepath_Join [dir; "Cargo.toml"]) && dirExists (filepath_Join [dir; "crates"; "f4kvs-ffi"]).

(** The loop, at [dir]; [None] when the fuel does not suffice. *)
Fixpoint find_root (fuel : nat) (start dir : string) : option string :=
  match fuel with
  | O => None
  | S fuel =>
      if is_root dir then Some dir
      else
        let parent := filepath_Dir dir in
        if bool_decide (parent = dir) then Some start else find_root fuel start parent
  end.

Definition FindRepoRoot (start : string) : option string := find_root (String.length start + 3) start start.

Definition gitShortSHA (dir : string) : string :=
  if bool_decide (dir = "") then "unknown"
  else match exec_Output ["git"; "-C"; dir; "rev-parse"; "--short"; "HEAD"] with
       | None => "unknown"
       | Some out => TrimSpace out
       end.

Definition gitDirty (dir : string) : bool :=
  if bool_decide (dir = "") then false
  else match exec_Output ["git"; "-C"; dir; "status"; "--porcelain"] with
       | None => false
       | Some out => (0 <? String.length (TrimSpace out))%nat
       end.

(** The text before a pin: the key, an equals sign and an opening quote. *)
Definition quote : string := String.string_of_list_byte [x22].
Definition tag_key : string := "tag = " +:+ quote.

(** The loop over the lines of Cargo.toml. *)
Fixpoint find_pin (lines : list string) : string :=
  match lines with
  | [] => ""
  | line :: lines =>
      if negb (Contains line "f4kvs-lsm") && negb (Contains line "github.com/noematic-eu/f4kvs-lsm")
      then find_pin lines
      else match Index line tag_key with
           | None => find_pin lines
           | Some i =>
               let rest := text_from (i + String.length tag_key) line in
               match Index rest quote with
               | None => find_pin lines
               | Some j => text_upto j rest
               end
           end
  end.

Definition cargoLSMPin (cargoPath : string) : string :=
  match os_ReadFile cargoPath with
  | None => ""
  | Some b => find_pin (Split_lines b)
  end.

Definition CollectGitInfo (repoRoot : string) : GitInfo :=
  let info := mkGit (gitShortSHA repoRoot) in
  let dirty := gitDirty repoRoot in
  let ref := TrimSpace (os_Getenv "F4KVS_LSM_REF") in
  if bool_decide (ref ≠ "") then info ref dirty
  else
    let lsmSibling := filepath_Clean (filepath_Join [repoRoot; ".."; "f4kvs-lsm"]) in
    let sha := gitShortSHA lsmSibling in
    if bool_decide (sha ≠ "") && bool_decide (sha ≠ "unknown") then info sha dirty
    else
      let tag := cargoLSMPin (filepath_Join [repoRoot; "Cargo.toml"]) in
      if bool_decide (tag ≠ "") then info tag dirty
      else info "unknown" dirty.

(** The text after the first colon of the first line that starts with [model name]
    and has one. *)
Fixpoint find_model (lines : list string) : option string :=
  match lines with
  | [] => None
  | line :: lines =>
      if HasPrefix line "model name" then
        match Index line ":" with
        | Some i => Some (TrimSpace (text_from (S i) line))
        | None => find_model lines
        end
      else find_model lines
  end.

Definition cpuModel : string :=
  if bool_decide (runtime_GOOS = "darwin") then
    match exec_Output ["sysctl"; "-n"; "machdep.cpu.brand_string"] with
    | Some out => TrimSpace out
    | None => "unknown"
    end
  else if bool_decide (runtime_GOOS = "linux") then
    match os_ReadFile "/proc/cpuinfo" with
    | Some b => default "unknown" (find_model (Split_lines b))
    | None => "unknown"
    end
  else "unknown".

Definition CollectHostInfo : HostInfo :=
  mkHost runtime_GOOS runtime_GOARCH os_Hostname runtime_Version cpuModel runtime_NumCPU.

End Repo.

(** ** The walk up ends *)

Section Walk.
Implicit Types (p : list byte).

(** A path that is its own parent, or one byte away from being so. *)
Lemma drop_name_spec p : drop_name p = [] ∨ ∃ l, drop_name p = slash :: l ∧ (length l < length p)%nat.
Proof.
  induction p as [|b p IH]; simpl; [by left|]. case_bool_decide as Hb.
  - right. exists p. subst. split; [done|lia].
  - destruct IH as [->|(l & -> & Hl)]; [by left|]. right. exists l. split; [done|lia].
Qed.

(** The steps the walk can still take from a path. *)
Definition height p : nat :=
  if bool_decide (p = dot) || bool_decide (p = [slash]) then 0
  else match p with [] => 1 | _ => S (length p) end.

Lemma Dir_height p : Dir p = p ∨ (height (Dir p) < height p)%nat.
Proof.
  unfold Dir. destruct (drop_name_spec (rev p)) as [Hd|(l & Hd & Hl)]; rewrite Hd.
  - change (Clean (rev [])) with dot. destruct (decide (p = dot)) as [->|Hp]; [by left|]. right.
    change (height dot) with O. unfold height.
    rewrite (bool_decide_eq_false_2 (p = dot)) by done. simpl.
    case_bool_decide as Hs; [by subst|]. destruct p; simpl; lia.
  - simpl. rewrite length_rev in Hl. destruct (decide (l = [])) as [->|Hne].
    + change (Clean (rev [] ++ [slash])) with [slash]. destruct (decide (p = [slash])) as [->|Hp]; [by left|]. right.
      change (height [slash]) with O. unfold height. rewrite (bool_decide_eq_false_2 (p = [slash])) by done.
      rewrite orb_false_r. case_bool_decide as Hs; [by subst|]. destruct p; simpl; lia.
    + right. pose proof (Clean_slash (rev l)) as Hc. rewrite length_rev in Hc.
      specialize (Hc ltac:(by intros Hr; apply Hne; rewrite <-(rev_involutive l), Hr)).
      set (q := Clean _) in *. assert (Hp : height p = S (length p)).
      { unfold height. destruct p as [|b [|b' p]]; simpl in Hl; [lia|destruct l; [done|simpl in Hl; lia]|].
        by rewrite !bool_decide_eq_false_2 by done. }
      rewrite Hp. unfold height. case_match; [lia|]. destruct q; [lia|]. lia.
Qed.

End Walk.

Section Root.
Context {HF : HostFacts}.

(** The n-th ancestor of a path. *)
Definition ancestor (n : nat) (p : string) : string := Nat.iter n filepath_Dir p.

Lemma ancestor_S n p : ancestor (S n) p = ancestor n (filepath_Dir p).
Proof. unfold ancestor. by rewrite Nat.iter_succ_r. Qed.

Definition path_height (p : string) : nat := height (String.list_byte_of_string p).

Lemma filepath_Dir_height p : filepath_Dir p = p ∨ (path_height (filepath_Dir p) < path_height p)%nat.
Proof.
  unfold path_height, filepath_Dir. rewrite bytes_of_string_of_bytes.
  destruct (Dir_height (String.list_byte_of_string p)) as [H|H]; [left|by right].
  by rewrite H, string_of_bytes_of_string.
Qed.

Lemma path_height_length p : (path_height p ≤ String.length p + 1)%nat.
Proof.
  assert (Hl : ∀ l, String.length (String.string_of_list_byte l) = length l).
  { intros l. induction l as [|b l IH]; [done|]. simpl. by rewrite <-IH. }
  specialize (Hl (String.list_byte_of_string p)). rewrite string_of_bytes_of_string in Hl.
  unfold path_height, height. case_match; [lia|]. destruct (String.list_byte_of_string p); simpl in *; lia.
Qed.

Lemma fixed_ancestor n p : filepath_Dir p = p → ancestor n p = p.
Proof. intros Hp. induction n as [|n IH]; [done|]. by rewrite ancestor_S, Hp. Qed.

(** What the walk from [dir] finds: the nearest ancestor that is a root, or the
    path it started from when there is none. *)
Definition nearest_root (start dir r : string) : Prop :=
  (∃ n, r = ancestor n dir ∧ is_root r = true ∧ ∀ i, (i < n)%nat → is_root (ancestor i dir) = false) ∨
  (r = start ∧ ∀ n, is_root (ancestor n dir) = false).

Lemma find_root_ends fuel start dir :
  (path_height dir < fuel)%nat → ∃ r, find_root fuel start dir = Some r ∧ nearest_root start dir r.
Proof.
  revert dir. induction fuel as [|fuel IH]; intros dir Hf; [lia|]. cbn [find_root].
  destruct (is_root dir) eqn:Hr.
  { exists dir. split; [done|]. left. exists O. split_and!; [done|done|]. lia. }
  cbv zeta. case_bool_decide as Hp.
  { exists start. split; [done|]. right. split; [done|]. intros n. by rewrite fixed_ancestor. }
  destruct (filepath_Dir_height dir) as [?|Hh]; [done|].
  destruct (IH (filepath_Dir dir)) as (r & Hres & Hnear); [lia|]. exists r. split; [done|].
  destruct Hnear as [(n & -> & Hn & Hi)|[-> Hn]].
  - left. exists (S n). rewrite ancestor_S. split_and!; [done|done|]. intros [|i] Hlt; [done|].
    rewrite ancestor_S. apply Hi. lia.
  - right. split; [done|]. intros [|n]; [done|]. by rewrite ancestor_S.
Qed.

(** C40: [FindRepoRoot] ends for every starting path, relative, empty or not clean,
    whatever the file system answers: each parent has fewer steps to go.  It
    returns the nearest ancestor with the two marks of the repository, or the
    starting path when no ancestor has them. *)
Theorem find_repo_root_ends start :
  ∃ r, FindRepoRoot start = Some r ∧ nearest_root start start r.
Proof. apply find_root_ends. pose proof (path_height_length start). lia. Qed.

End Root.

(** ** A host *)
Section Sample.
#[local] Instance sample_host : HostFacts := {|
  os_Stat p :=
    if bool_decide (p = "/src/f4kvs/Cargo.toml") then Some false
    else if bool_decide (p = "/src/f4kvs/crates/f4kvs-ffi") then Some true else None;
  os_ReadFile p :=
    if bool_decide (p = "/src/f4kvs/Cargo.toml") then
      Some ("[workspace]" +:+ String.string_of_list_byte [newline] +:+
            "f4kvs-lsm = { git = " +:+ quote +:+ "x" +:+ quote +:+ ", tag = " +:+ quote +:+ "v0.3.1" +:+ quote +:+ " }")
    else if bool_decide (p = "/proc/cpuinfo") then Some ("processor : 0" +:+ String.string_of_list_byte [newline] +:+ "model name : A: B ")
    else None;
  os_Getenv _ := "";
  exec_Output cmd := if bool_decide (cmd = ["git"; "-C"; "/src/f4kvs"; "rev-parse"; "--short"; "HEAD"])
                     then Some ("abc1234" +:+ String.string_of_list_byte [newline]) else None;
  os_Hostname := "h"; runtime_GOOS := "linux"; runtime_GOARCH := "amd64"; runtime_Version := "go1.25"; runtime_NumCPU := 8
|}.

Example sample_root :
  FindRepoRoot "/src/f4kvs/bench/embed_vs_sqlite" = Some "/src/f4kvs" ∧ FindRepoRoot "/tmp/x" = Some "/tmp/x" ∧
  FindRepoRoot "" = Some "" ∧ FindRepoRoot "a/../.." = Some "a/../..".
Proof. by vm_compute. Qed.

Example sample_info :
  CollectGitInfo "/src/f4kvs" = mkGit "abc1234" "v0.3.1" false ∧ cpuModel = "A: B".
Proof. by vm_compute. Qed.

End Sample.
