(* ===== verification/Table.v ===== *)
(** * The result table

    [printTable] of [bench/embed_vs_sqlite/main.go] and the comparison lines below
    each phase ([phaseCompares], [ratioLine], [speedRatioLine], [phaseMs]).  What is
    printed is a list of lines. *)

From Stdlib Require Import Floats.SpecFloat.
From stdpp Require Import sorting.
From S2P Require Import Prelude GoText Report.

Definition fgt (x y : spec_float) : bool := SFltb y x.

(** The first row of a profile. *)
Fixpoint phaseMs (rows : list phaseResult) (profile : string) : spec_float :=
  match rows with
  | [] => fzero
  | r :: rows => if bool_decide (Profile r = profile) then Ms r else phaseMs rows profile
  end.

Definition faster_line (faster : string) (ratio : spec_float) (slower : string) : string :=
  faster +:+ " " +:+ fmt_fixed 1 ratio +:+ "× faster than " +:+ slower.

Definition speedRatioLine (fasterName : string) (fasterMs : spec_float) (slowerName : string)
    (slowerMs : spec_float) : string :=
  if is_zero fasterMs || is_zero slowerMs then ""
  else if fgt fasterMs slowerMs then faster_line slowerName (fdiv fasterMs slowerMs) fasterName
  else faster_line fasterName (fdiv slowerMs fasterMs) slowerName.

(** The loop of [ratioLine]: the last row of each of the two profiles. *)
Definition last_two (rows : list phaseResult) (f4Profile sqlProfile : string) : spec_float * spec_float :=
  foldl (λ '(f4, sql) r,
           (if bool_decide (Profile r = f4Profile) then Ms r else f4,
            if bool_decide (Profile r = sqlProfile) then Ms r else sql)) (fzero, fzero) rows.

Definition ratioLine (rows : list phaseResult) (f4Profile sqlProfile : string) : string :=
  let '(f4, sql) := last_two rows f4Profile sqlProfile in
  if is_zero f4 || is_zero sql then ""
  else if fgt f4 sql then faster_line sqlProfile (fdiv f4 sql) f4Profile
  else faster_line f4Profile (fdiv sql f4) sqlProfile.

Record compareLine := mkCompare { label : string; line : string }.

Definition compare_if (label line : string) : list compareLine :=
  if bool_decide (line ≠ "") then [mkCompare label line] else [].

Definition is_batched (phase : string) : bool :=
  bool_decide (phase = "chunk_batch_put_batched") || bool_decide (phase = "chunk_batch_put_bulk_import").

Definition bulk_compare (byPhase : gmap string (list phaseResult)) (rows : list phaseResult) (profile : string)
    : list compareLine :=
  let batched := phaseMs (default [] (byPhase !! "chunk_batch_put_batched")) profile in
  let bulk := phaseMs rows profile in
  if fgt batched fzero && fgt bulk fzero
  then [mkCompare ("bulk-import vs batch (" +:+ profile +:+ ")")
          (speedRatioLine "chunk_batch_put_batched" batched "chunk_batch_put_bulk_import" bulk)]
  else [].

Definition phaseCompares (byPhase : gmap string (list phaseResult)) (rows : list phaseResult) (phase : string)
    : list compareLine :=
  compare_if (if is_batched phase then "batched compare" else "fair compare (segment)")
    (ratioLine rows "f4kvs_wal_segment" "sqlite_wal_full") ++
  compare_if (if is_batched phase then "batched compare (indexed)" else "fair compare (indexed v2)")
    (ratioLine rows "f4kvs_wal_indexed" "sqlite_wal_full") ++
  (if bool_decide (phase = "chunk_batch_put") then
     let seg := phaseMs rows "f4kvs_wal_segment" in
     let idx := phaseMs rows "f4kvs_wal_indexed" in
     if fgt seg fzero && fgt idx fzero
     then [mkCompare "indexed v2 vs segment" (speedRatioLine "f4kvs_wal_indexed" idx "f4kvs_wal_segment" seg)]
     else []
   else []) ++
  compare_if "fair compare (frame)" (ratioLine rows "f4kvs_wal_frame" "sqlite_wal_full") ++
  compare_if "segment vs frame" (ratioLine rows "f4kvs_wal_segment" "f4kvs_wal_frame") ++
  (if bool_decide (phase = "chunk_batch_put_bulk_import")
   then concat (bulk_compare byPhase rows <$> ["f4kvs_wal_segment"; "f4kvs_wal_frame"; "f4kvs_group_commit_10ms"])
   else []) ++
  compare_if "group-commit compare" (ratioLine rows "f4kvs_group_commit_10ms" "sqlite_wal_full") ++
  (if bool_decide (phase = "chunk_batch_put_durable")
   then compare_if "durable ingest compare" (ratioLine rows "f4kvs_group_commit_10ms" "sqlite_wal_full") else []) ++
  (if bool_decide (phase = "chunk_batch_put_flush")
   then compare_if "wal-flush compare" (ratioLine rows "f4kvs_group_commit_10ms" "sqlite_wal_full") else []).

(** ** The table *)

(** The order of [sort.Strings], and of the rows of a phase. *)
Definition string_le (a b : string) : Prop := String.leb a b = true.
#[global] Instance string_le_dec a b : Decision (string_le a b) := bool_eq_dec _ _.

Definition row_le (a b : phaseResult) : Prop :=
  if bool_decide (Profile a = Profile b) then string_le (MetricOnly a) (MetricOnly b)
  else string_le (Profile a) (Profile b).
#[global] Instance row_le_dec a b : Decision (row_le a b).
Proof. unfold row_le. destruct (bool_decide _); apply _. Defined.

(** Rows by phase, in the order they came. *)
Definition by_phase (results : list phaseResult) : gmap string (list phaseResult) :=
  foldl (λ m r, <[Phase r := default [] (m !! Phase r) ++ [r]]> m) ∅ results.

Definition row_text (r : phaseResult) : string :=
  let note := if bool_decide (Extra r = "") then Durability r else Extra r in
  let head := pad_right 22 (Phase r) +:+ " " +:+ pad_right 18 (Profile r) +:+ " " +:+
              pad_left 8 (pretty (Ops r)) +:+ " " +:+ pad_left 12 (fmt_fixed 1 (Ms r)) +:+ " " in
  if bool_decide (MetricOnly r ≠ "") then
    head +:+ pad_left 12 (Unit r) +:+ " " +:+ MetricOnly r +:+ "=" +:+ fmt_g (Value r) +:+ " " +:+ note
  else head +:+ pad_left 12 (fmt_fixed 0 (OpsPerS r)) +:+ " " +:+ note.

(** The loop over the phases.  Sorting the rows of a phase changes the slice in the
    map, which later comparisons read. *)
Fixpoint print_phases (byPhase : gmap string (list phaseResult)) (phases : list string) : list string :=
  match phases with
  | [] => []
  | phase :: phases =>
      let rows := merge_sort row_le (default [] (byPhase !! phase)) in
      let byPhase := <[phase := rows]> byPhase in
      (row_text <$> rows) ++
      ((λ cmp, "  → " +:+ label cmp +:+ ": " +:+ line cmp) <$> phaseCompares byPhase rows phase) ++
      print_phases byPhase phases
  end.

Definition printTable (results : list phaseResult) : list string :=
  let byPhase := by_phase results in
  let phases := merge_sort string_le (map_to_list byPhase).*1 in
  ["";
   "=== f4kvs-ffi vs SQLite (product-shaped workloads) ===";
   pad_right 22 "phase" +:+ " " +:+ pad_right 18 "profile" +:+ " " +:+ pad_left 8 "ops" +:+ " " +:+
   pad_left 12 "ms" +:+ " " +:+ pad_left 12 "ops/s" +:+ " notes"] ++
  print_phases byPhase phases.

Example table_sample :
  printTable [result "chunk_batch_put" "sqlite_wal_full" 2000 125000 "wal" "";
              result "chunk_batch_put" "f4kvs_wal_segment" 2000 50000 "wal" "per-commit"] =
  [""; "=== f4kvs-ffi vs SQLite (product-shaped workloads) ===";
   "phase                  profile                 ops           ms        ops/s notes";
   "chunk_batch_put        f4kvs_wal_segment      2000         50.0        40000 per-commit";
   "chunk_batch_put        sqlite_wal_full        2000        125.0        16000 wal";
   "  → fair compare (segment): f4kvs_wal_segment 2.5× faster than sqlite_wal_full"].
Proof. vm_compute. reflexivity. Qed.

(** ** What a comparison line says *)

Lemma SFltb_asym x y : SFltb x y = true → SFltb y x = false.
Proof.
  unfold SFltb. destruct x as [s|s| |s m e], y as [s'|s'| |s' m' e']; simpl;
    try (by destruct s); try (by destruct s'); try (by destruct s, s'); try done.
  rewrite (Z.compare_antisym e e'). change (Pos.compare_cont Eq m m') with (Pos.compare m m').
  change (Pos.compare_cont Eq m' m) with (Pos.compare m' m). rewrite (Pos.compare_antisym m m').
  destruct s, s', (Z.compare e e'); simpl; try done; by destruct (Pos.compare m m').
Qed.

(** [a] with time [ta] is said to beat [b] with [tb], and does. *)
Definition beats (text a : string) (ta : spec_float) (b : string) (tb : spec_float) : Prop :=
  text = faster_line a (fdiv tb ta) b ∧ SFltb tb ta = false ∧ is_zero ta = false ∧ is_zero tb = false.

Definition truthful (measured : string → spec_float → Prop) (text : string) : Prop :=
  ∃ a ta b tb, beats text a ta b tb ∧ measured a ta ∧ measured b tb.

Lemma speed_truthful (measured : string → spec_float → Prop) a ta b tb :
  measured a ta → measured b tb → speedRatioLine a ta b tb ≠ "" → truthful measured (speedRatioLine a ta b tb).
Proof.
  intros Ha Hb. unfold speedRatioLine. case_match eqn:Hz; [done|]. apply orb_false_iff in Hz as [Hza Hzb].
  intros _. unfold fgt. destruct (SFltb tb ta) eqn:Hlt.
  - exists b, tb, a, ta. split; [|done]. split_and!; try done. by apply SFltb_asym.
  - exists a, ta, b, tb. by split.
Qed.

(** [ratioLine] is [speedRatioLine] on the last times of its two profiles. *)
Lemma ratioLine_speed rows a b :
  ratioLine rows a b = speedRatioLine a (last_two rows a b).1 b (last_two rows a b).2.
Proof. unfold ratioLine, speedRatioLine. by destruct (last_two rows a b). Qed.

Definition row_time (rows : list phaseResult) (name : string) (t : spec_float) : Prop :=
  ∃ r, r ∈ rows ∧ Profile r = name ∧ Ms r = t.

Lemma last_two_times rows a b :
  let '(ta, tb) := last_two rows a b in
  (ta = fzero ∨ row_time rows a ta) ∧ (tb = fzero ∨ row_time rows b tb).
Proof.
  induction rows as [|r rows IH] using rev_ind; [by split; left|].
  unfold last_two in *. rewrite foldl_app. simpl. destruct (foldl _ _ rows) as [ta tb]. destruct IH as [Ha Hb].
  assert (Hmono : ∀ n t, row_time rows n t → row_time (rows ++ [r]) n t) by (intros n t (x & ? & ?); exists x; set_solver).
  split; case_bool_decide; [right; exists r; set_solver| |right; exists r; set_solver|]; naive_solver.
Qed.

Lemma phaseMs_time rows profile : phaseMs rows profile = fzero ∨ row_time rows profile (phaseMs rows profile).
Proof.
  induction rows as [|r rows IH]; simpl; [by left|]. case_bool_decide.
  - right. exists r. set_solver.
  - destruct IH as [->|(x & ? & ? & ?)]; [by left|]. right. exists x. set_solver.
Qed.

(** The times a comparison of a phase can be about: those of its rows, by profile,
    and for bulk import also those of the two phases it compares, by phase. *)
Definition phase_time (byPhase : gmap string (list phaseResult)) (rows : list phaseResult)
    (name : string) (t : spec_float) : Prop :=
  row_time rows name t ∨
  ∃ profile, (name = "chunk_batch_put_batched" ∧ row_time (default [] (byPhase !! "chunk_batch_put_batched")) profile t) ∨
             (name = "chunk_batch_put_bulk_import" ∧ row_time rows profile t).

Lemma ratio_truthful byPhase rows a b :
  ratioLine rows a b ≠ "" → truthful (phase_time byPhase rows) (ratioLine rows a b).
Proof.
  rewrite ratioLine_speed. intros Hne. pose proof (last_two_times rows a b) as Ht.
  destruct (last_two rows a b) as [ta tb]. simpl in *. destruct Ht as [[->|Ha] Ht]; [done|].
  destruct Ht as [->|Hb].
  - unfold speedRatioLine in Hne. by rewrite orb_true_r in Hne.
  - by apply speed_truthful; [left|left|].
Qed.

Lemma compare_if_truthful byPhase rows name a b c :
  c ∈ compare_if name (ratioLine rows a b) → truthful (phase_time byPhase rows) (line c).
Proof.
  unfold compare_if. case_bool_decide; [|set_solver]. intros ->%list_elem_of_singleton. by apply ratio_truthful.
Qed.

Lemma positive_line a ta b tb : fgt ta fzero && fgt tb fzero = true → speedRatioLine a ta b tb ≠ "".
Proof.
  intros [Ha Hb]%andb_true_iff. unfold speedRatioLine.
  assert (Hz : ∀ x, fgt x fzero = true → is_zero x = false).
  { intros x. unfold fgt, is_zero, SFltb, SFeqb. destruct x as [s|s| |s m e]; simpl; try done; by destruct s. }
  rewrite !Hz by done. simpl. unfold faster_line. by case_match; destruct a, b.
Qed.

Lemma positive_time rows profile :
  fgt (phaseMs rows profile) fzero = true → row_time rows profile (phaseMs rows profile).
Proof. destruct (phaseMs_time rows profile) as [->|H]; done. Qed.

(** C38: no comparison under a phase is the wrong way round: whatever the rows, each
    line names two times measured in that phase (for bulk import also in the phase
    it is compared with), both other than zero, says first the name whose time is
    not the larger one, and gives the quotient of the larger by the smaller. *)
Theorem compare_lines_truthful byPhase rows phase c :
  c ∈ phaseCompares byPhase rows phase → truthful (phase_time byPhase rows) (line c).
Proof.
  unfold phaseCompares. rewrite !elem_of_app.
  intros [H|[H|[H|[H|[H|[H|[H|[H|H]]]]]]]]; try (by eapply compare_if_truthful).
  - case_bool_decide; [|set_solver]. cbv zeta in H. case_match eqn:Hpos; [|set_solver].
    apply list_elem_of_singleton in H as ->. simpl. pose proof Hpos as [Hs Hi]%andb_true_iff.
    apply speed_truthful; [left; by apply positive_time..|]. apply positive_line. by rewrite Hs, Hi.
  - case_bool_decide; [|set_solver].
    apply list_elem_of_In, in_concat in H as (l & Hl & Hc). apply list_elem_of_In, list_elem_of_fmap in Hl as (p & -> & _).
    apply list_elem_of_In in Hc. unfold bulk_compare in Hc. case_match eqn:Hpos; [|set_solver].
    apply list_elem_of_singleton in Hc as ->. simpl. pose proof Hpos as [Hs Hi]%andb_true_iff.
    apply speed_truthful; [right; exists p; left|right; exists p; right|by apply positive_line];
      (split; [done|]); by apply positive_time.
  - case_bool_decide; [by eapply compare_if_truthful|set_solver].
  - case_bool_decide; [by eapply compare_if_truthful|set_solver].
Qed.

Lemma compare_lines_truthful_witness :
  let rows := [result "chunk_batch_put" "f4kvs_wal_segment" 2000 50000 "wal" "";
               result "chunk_batch_put" "sqlite_wal_full" 2000 125000 "wal" ""] in
  truthful (phase_time ∅ rows) (line (mkCompare "fair compare (segment)" "f4kvs_wal_segment 2.5× faster than sqlite_wal_full")).
Proof.
  intros rows. apply (compare_lines_truthful ∅ rows "chunk_batch_put"). vm_compute. left.
Defined.

(** After a restart the four rows of a profile are sorted by metric and the last
    one has no time: the phase is never compared. *)
Example restart_not_compared :
  phaseCompares ∅
    (merge_sort row_le
       (concat ((λ p, [metricResult "post_restart_row_count" p "duration_ms" (milliseconds 5000) 0 "ms" "";
                       metricResult "post_restart_row_count" p "row_count" fone 0 "count" "";
                       metricResult "post_restart_row_count" p "expected_row_count" fone 0 "count" "";
                       metricResult "post_restart_row_count" p "integrity_ok" fone 0 "bool" ""]) <$>
          ["f4kvs_wal_segment"; "sqlite_wal_full"]))) "post_restart_row_count" = [].
Proof. vm_compute. reflexivity. Qed.
