(* ===== verification/Sqlite.v ===== *)
(** * The SQLite peer

    The SQLite side of [bench/embed_vs_sqlite/main.go]: [sqliteBatchPut],
    [benchSQLite], [benchSQLiteChunkBatched], [benchSQLitePostRestart].

    The database (package [database/sql] over a third-party driver) is the class
    [SqlDb]: the statements the benchmark issues, on a handle named by its data
    source.  [SqlLaws] states what SQLite documents of them: an insert is refused
    when the key exists or the value is NULL, the statements of a transaction
    become visible together when it commits, [LIKE] ignores the case of ASCII
    letters.  A nil Go slice is NULL.  The loop over the rows of the scan ends when
    [Next] reports no more, for an error too, which the program does not ask for. *)

From Stdlib Require Import Floats.SpecFloat.
From S2P Require Import Prelude Engine Utf8 Options Ffi Binding Semantics GoText Paths Harness Report Restart Bench.

(** An operation of the database: an error or an answer, and the databases after it. *)
Definition SqlOp (D A : Type) : Type := D → (string + A) * D.

Class SqlDb := {
  sql_state : Type;
  sql_Open : string → SqlOp sql_state unit;
  sql_create : string → SqlOp sql_state unit;
  sql_insert : string → string → goslice → SqlOp sql_state unit;
  tx_Begin : string → SqlOp sql_state unit;
  tx_Prepare : string → SqlOp sql_state unit;
  tx_insert : string → string → goslice → SqlOp sql_state unit;
  tx_Commit : string → SqlOp sql_state unit;
  (** [SELECT value ... WHERE key = ?], [None] when there is no row. *)
  sql_value : string → string → SqlOp sql_state (option (list byte));
  (** [SELECT key ... LIKE ?]: the error of the query, or the rows [Next] hands out
      and what [rows.Err] would then say. *)
  sql_like : string → string → SqlOp sql_state (list string * option string);
  sql_count : string → SqlOp sql_state Z;
  sql_Close : string → SqlOp sql_state unit;
  (** [os.Remove] of a database file. *)
  os_Remove : string → sql_state → sql_state
}.

(** ASCII letters compared without case. *)
Definition lower (b : byte) : byte := if between 65 90 b then Zbyte (byteZ b + 32) else b.
Definition lower_text (s : string) : string :=
  String.string_of_list_byte (lower <$> String.list_byte_of_string s).

(** A pattern without wildcards, followed by a percent sign. *)
Definition no_wildcard (p : string) : bool :=
  forallb (λ b, negb (Byte.eqb b x25) && negb (Byte.eqb b x5f)) (String.list_byte_of_string p).
Definition like_prefix (prefix key : string) : bool := String.prefix (lower_text prefix) (lower_text key).

Class SqlLaws (S : SqlDb) := {
  (** The rows committed to a database, [None] without the table, and those its
      open transaction sees. *)
  table : sql_state → string → option (gmap string (list byte));
  pending : sql_state → string → option (gmap string (list byte));
  (** Opening a source is lazy: it reads nothing. *)
  open_ok c s r s' : sql_Open c s = (r, s') → table s' c = table s c;
  create_ok c s s' : sql_create c s = (inr tt, s') → table s c = None ∧ table s' c = Some ∅;
  insert_ok c k v s s' : sql_insert c k v s = (inr tt, s') →
    ∃ m l, table s c = Some m ∧ m !! k = None ∧ v = Some l ∧ table s' c = Some (<[k := l]> m);
  insert_atomic c k v s e s' : sql_insert c k v s = (inl e, s') → table s' c = table s c;
  begin_ok c s s' : tx_Begin c s = (inr tt, s') → table s' c = table s c ∧ pending s' c = table s c;
  begin_atomic c s e s' : tx_Begin c s = (inl e, s') → table s' c = table s c;
  prepare_ok c s r s' : tx_Prepare c s = (r, s') → table s' c = table s c ∧ pending s' c = pending s c;
  tx_insert_ok c k v s s' : tx_insert c k v s = (inr tt, s') →
    table s' c = table s c ∧
    ∃ m l, pending s c = Some m ∧ m !! k = None ∧ v = Some l ∧ pending s' c = Some (<[k := l]> m);
  tx_insert_atomic c k v s e s' : tx_insert c k v s = (inl e, s') → table s' c = table s c;
  commit_ok c s s' : tx_Commit c s = (inr tt, s') → table s' c = pending s c;
  commit_atomic c s e s' : tx_Commit c s = (inl e, s') → table s' c = table s c;
  value_ok c k s r s' : sql_value c k s = (inr r, s') →
    table s' c = table s c ∧ ∃ m, table s c = Some m ∧ r = m !! k;
  like_ok c p s ks err s' : sql_like c (p +:+ "%") s = (inr (ks, err), s') → no_wildcard p = true →
    table s' c = table s c ∧ ∃ m, table s c = Some m ∧ NoDup ks ∧
      (∀ k, k ∈ ks → is_Some (m !! k) ∧ like_prefix p k = true) ∧
      (err = None → ∀ k, is_Some (m !! k) → like_prefix p k = true → k ∈ ks);
  count_ok c s n s' : sql_count c s = (inr n, s') →
    table s' c = table s c ∧ ∃ m, table s c = Some m ∧ n = Z.of_nat (size m);
  close_ok c s r s' : sql_Close c s = (r, s') → table s' c = table s c;
  (** The two data sources name different files; a statement touches the database
      of its handle only. *)
  apart : string → string → Prop;
  open_frame c s r s' c' : sql_Open c s = (r, s') → apart c' c → table s' c' = table s c';
  create_frame c s r s' c' : sql_create c s = (r, s') → apart c' c → table s' c' = table s c';
  insert_frame c k v s r s' c' : sql_insert c k v s = (r, s') → apart c' c → table s' c' = table s c';
  begin_frame c s r s' c' : tx_Begin c s = (r, s') → apart c' c → table s' c' = table s c';
  prepare_frame c s r s' c' : tx_Prepare c s = (r, s') → apart c' c → table s' c' = table s c';
  tx_insert_frame c k v s r s' c' : tx_insert c k v s = (r, s') → apart c' c → table s' c' = table s c';
  commit_frame c s r s' c' : tx_Commit c s = (r, s') → apart c' c → table s' c' = table s c';
  close_frame c s r s' c' : sql_Close c s = (r, s') → apart c' c → table s' c' = table s c'
}.

Record sqliteProfile := mkSqlite {
  p_Name : string; DSN : string; p_Durability : string; PerCommit : bool; p_Extra : string }.

Section Sqlite.
Context `{S : SqlDb} (since : string → Z).

(** A statement as a step of the program: its error is what [database/sql] returns. *)
Definition stmt {A} (op : SqlOp sql_state A) : M sql_state (GoError + A) := λ s,
  let '(r, s') := op s in
  Ret (match r with inl msg => inl (Errorf "%s" [msg]) | inr a => inr a end) s'.

Definition sql_exec (op : SqlOp sql_state unit) : M sql_state (option GoError) := λ s,
  let '(r, s') := op s in Ret (match r with inl msg => Some (Errorf "%s" [msg]) | inr _ => None end) s'.

(** [if err := m; err != nil { return err }], then the rest. *)
Definition or_return_err (m k : M sql_state (option GoError)) : M sql_state (option GoError) :=
  let! err := m in
  match err with
  | Some err => mret (Some err)
  | None => k
  end.

(** The loop over the keys, with the insert it runs. *)
Fixpoint insert_each (ins : string → SqlOp sql_state unit) (keys : list string) : M sql_state (option GoError) :=
  match keys with
  | [] => mret None
  | key :: keys => or_return_err (sql_exec (ins key)) (insert_each ins keys)
  end.

Definition sqliteBatchPut (db : string) (perCommit : bool) (keys : list string) (payload : goslice)
    : M sql_state (option GoError) :=
  if perCommit then insert_each (λ key, sql_insert db key payload) keys
  else
    or_return_err (sql_exec (tx_Begin db))
    (or_return_err (sql_exec (tx_Prepare db))
    (or_return_err (insert_each (λ key, tx_insert db key payload) keys)
    (sql_exec (tx_Commit db)))).

Definition data_source (prof : sqliteProfile) (path : string) : string :=
  Replace_first (DSN prof) "file:kv?" ("file:" +:+ path +:+ "?").

Definition ErrNoRows : GoError := Errorf "sql: no rows in result set" [].

(** [db.QueryRow(...).Scan(&blob)]. *)
Definition query_value (db key : string) : M sql_state (option GoError) :=
  let! r := stmt (sql_value db key) in
  match r with
  | inl err => mret (Some err)
  | inr None => mret (Some ErrNoRows)
  | inr (Some _) => mret None
  end.

Fixpoint query_from (n : nat) (i : Z) (db : string) (keys : list string) : M sql_state (option GoError) :=
  match n with
  | O => mret None
  | Datatypes.S n =>
      let! key := key_at keys i in
      let! err := query_value db key in
      match err with
      | Some err => mret (Some err)
      | None => query_from n (i + 1) db keys
      end
  end.

Definition random_queries (randomGets : Z) (db : string) (keys : list string) : M sql_state (option GoError) :=
  query_from (Z.to_nat randomGets) 0 db keys.

(** The deferred [db.Close()], whose error is dropped. *)
Definition close_db (db : string) : M sql_state unit := λ s, Ret tt (sql_Close db s).2.

Definition benchSQLiteChunkBatched (path : string) (prof : sqliteProfile) (chunkKeys : list string)
    (chunkPayload : goslice) : M sql_state (GoError + list phaseResult) :=
  let db := data_source prof path in
  or_fatal (sql_exec (sql_Open db))
  (deferred (close_db db)
    (or_fatal (sql_exec (sql_create db))
    (or_fatal (sqliteBatchPut db false chunkKeys chunkPayload)
    (mret (inr [result "chunk_batch_put_batched" (p_Name prof) (zlen chunkKeys) (since "chunk_batch_put_batched")
                  (p_Durability prof) (p_Extra prof +:+ "; batched tx")]))))).

Definition benchSQLite (path : string) (prof : sqliteProfile) (memoirKeys chunkKeys : list string)
    (memoirPayload chunkPayload : goslice) (randomGets : Z) : M sql_state (GoError + list phaseResult) :=
  let db := data_source prof path in
  let row phase ops extra := result phase (p_Name prof) ops (since phase) (p_Durability prof) extra in
  or_fatal (sql_exec (sql_Open db))
  (deferred (close_db db)
    (or_fatal (sql_exec (sql_create db))
    (let putNote := if PerCommit prof then "per-commit" else "batched tx" in
     or_fatal (sqliteBatchPut db (PerCommit prof) memoirKeys memoirPayload)
    (or_fatal (random_queries randomGets db memoirKeys)
    (or_fatal (sqliteBatchPut db (PerCommit prof) chunkKeys chunkPayload)
    (value_or_fatal (benchSQLiteChunkBatched (path +:+ "_chunk_batched") prof chunkKeys chunkPayload) (λ batched,
    (value_or_fatal (stmt (sql_like db "chunk:legal:%")) (λ '(keys, _),
    (or_fatal (random_queries randomGets db chunkKeys)
    (mret (inr
      ([row "memoir_batch_put" (zlen memoirKeys) (p_Extra prof +:+ "; " +:+ putNote);
        row "memoir_random_get" randomGets "";
        row "chunk_batch_put" (zlen chunkKeys) (p_Extra prof +:+ "; " +:+ putNote)] ++
       batched ++
       [row "chunk_prefix_scan" (zlen keys) ("keys=" +:+ pretty (zlen keys));
        row "chunk_random_get" randomGets ""]))))))))))))).

(** [if err := m; err != nil { db.Close(); fatal(err) }], then the rest. *)
Definition or_close_db {A} (db : string) (m : M sql_state (option GoError)) (k : M sql_state (GoError + A))
    : M sql_state (GoError + A) :=
  let! err := m in
  match err with
  | Some err => run! close_db db in mret (inl err)
  | None => k
  end.

Definition benchSQLitePostRestart (path : string) (prof : sqliteProfile) (memoirKeys chunkKeys : list string)
    (memoirPayload chunkPayload : goslice) (elapsed : Z) : M sql_state (GoError + list phaseResult) :=
  let expected := zlen memoirKeys + zlen chunkKeys in
  run! modify (os_Remove path) in
  let db := data_source prof path in
  or_fatal (sql_exec (sql_Open db))
  (or_close_db db (sql_exec (sql_create db))
  (or_close_db db (sqliteBatchPut db false memoirKeys memoirPayload)
  (or_close_db db (sqliteBatchPut db false chunkKeys chunkPayload)
  (or_fatal (sql_exec (sql_Close db))
  (or_fatal (sql_exec (sql_Open db))
  (let! r := stmt (sql_count db) in
   match r with
   | inl err => run! close_db db in mret (inl err)
   | inr counted =>
       run! close_db db in
       mret (inr (restart_rows (p_Name prof) expected counted elapsed))
   end)))))).

End Sqlite.

(** ** Facts *)

Section SqliteFacts.
Context `{S : SqlDb} {Laws : SqlLaws S}.
Implicit Types (s : sql_state) (m : gmap string (list byte)) (db : string).

(** What a list of keys with one payload adds to a table. *)
Definition sql_rows (keys : list string) (v : goslice) : gmap string (list byte) :=
  slice_bytes <$> slice_items keys v.

Lemma lookup_sql_rows keys v k :
  sql_rows keys v !! k = if decide (k ∈ keys) then Some (slice_bytes v) else None.
Proof. unfold sql_rows. rewrite lookup_fmap, lookup_slice_items. by case_decide. Qed.

Lemma sql_rows_cons key keys v m :
  sql_rows keys v ∪ <[key := slice_bytes v]> m = sql_rows (key :: keys) v ∪ m.
Proof.
  apply map_eq. intros k. rewrite !lookup_union, !lookup_sql_rows.
  destruct (decide (k = key)) as [->|Hne].
  - rewrite lookup_insert_eq, (decide_True (P := key ∈ key :: keys)) by set_solver. case_decide; by destruct (m !! key).
  - rewrite lookup_insert_ne by done. destruct (decide (k ∈ keys)).
    + by rewrite decide_True by set_solver.
    + by rewrite decide_False by set_solver.
Qed.

Lemma sql_rows_nil v m : sql_rows [] v ∪ m = m.
Proof. unfold sql_rows, slice_items. simpl. by rewrite fmap_empty, (left_id_L ∅ (∪)). Qed.

(** All keys are new: none is in [m] and none comes twice. *)
Definition fresh_keys (keys : list string) m : Prop := NoDup keys ∧ ∀ k, k ∈ keys → m !! k = None.

(** An insert on what [view] shows of a database. *)
Definition inserts (view : sql_state → option (gmap string (list byte))) (v : goslice)
    (ins : string → SqlOp sql_state unit) : Prop :=
  ∀ k s s', ins k s = (inr tt, s') →
    ∃ m l, view s = Some m ∧ m !! k = None ∧ v = Some l ∧ view s' = Some (<[k := l]> m).

Lemma insert_each_ends view v ins (Inv : sql_state → Prop) keys s m :
  inserts view v ins → (∀ k s r s', ins k s = (r, s') → Inv s → Inv s') → view s = Some m → Inv s →
  ends (λ r s', Inv s' ∧
          (r = None → view s' = Some (sql_rows keys v ∪ m) ∧ fresh_keys keys m)) (λ _, False)
    (insert_each ins keys s).
Proof.
  intros Hins HInv. revert s m. induction keys as [|key keys IH]; intros s m Hv Hs; cbn [insert_each].
  - split; [done|]. intros _. rewrite sql_rows_nil. split; [done|]. split; [constructor|set_solver].
  - unfold or_return_err, sql_exec, bind. destruct (ins key s) as [[msg|[]] s1] eqn:Hi; [split; [by eapply HInv|done]|].
    destruct (Hins _ _ _ Hi) as (m' & l & Hm' & Hk & -> & Hv1). rewrite Hv in Hm'. injection Hm' as <-.
    eapply ends_impl; [by apply (IH s1), (HInv _ _ _ _ Hi)|]. intros r s' [Hs' Hr]. split; [done|]. intros ->.
    destruct (Hr eq_refl) as [Hvs [Hnd Hfr]]. rewrite Hvs, (sql_rows_cons key keys (Some l)). split; [done|].
    assert (Hni : key ∉ keys) by (intros Hin; specialize (Hfr key Hin); by rewrite lookup_insert_eq in Hfr).
    split; [by constructor|]. intros k [->|Hin]%elem_of_cons; [done|]. specialize (Hfr k Hin).
    by apply lookup_insert_None in Hfr as [? _].
Qed.

(** One commit per row: an error leaves the rows before it. *)
Lemma insert_each_prefix db v keys s m :
  table s db = Some m →
  ends (λ r s', r ≠ None → ∃ before rest, keys = before ++ rest ∧ rest ≠ [] ∧ table s' db = Some (sql_rows before v ∪ m))
    (λ _, False) (insert_each (λ key, sql_insert db key v) keys s).
Proof.
  revert s m. induction keys as [|key keys IH]; intros s m Hm; cbn [insert_each]; [by intros ?|].
  unfold or_return_err, sql_exec, bind. destruct (sql_insert db key v s) as [[msg|[]] s1] eqn:Hi.
  - intros _. exists [], (key :: keys). split_and!; [done|done|]. rewrite sql_rows_nil. by rewrite (insert_atomic _ _ _ _ _ _ Hi).
  - destruct (insert_ok _ _ _ _ _ Hi) as (m' & l & Hm' & Hk & -> & Hv1). rewrite Hm in Hm'. injection Hm' as <-.
    eapply ends_impl; [by apply (IH s1)|]. intros r s' Hr Hne.
    destruct (Hr Hne) as (before & rest & -> & Hrest & Ht). exists (key :: before), rest. split_and!; [done|done|].
    by rewrite Ht, (sql_rows_cons key before (Some l)).
Qed.

Lemma tx_inserts db v : inserts (λ s, pending s db) v (λ key, tx_insert db key v).
Proof. intros k s s' H. by destruct (tx_insert_ok _ _ _ _ _ H) as [_ ?]. Qed.

Lemma auto_inserts db v : inserts (λ s, table s db) v (λ key, sql_insert db key v).
Proof. intros k s s' H. by eapply insert_ok. Qed.

Lemma tx_keeps_table db v m k s r s' :
  tx_insert db k v s = (r, s') → table s db = Some m → table s' db = Some m.
Proof.
  intros H Hm. destruct r as [e|[]]; [by rewrite (tx_insert_atomic _ _ _ _ _ _ H)|].
  destruct (tx_insert_ok _ _ _ _ _ H) as [Ht _]. congruence.
Qed.

(** What [sqliteBatchPut] leaves in the table. *)
Definition batch_left (perCommit : bool) keys v m (r : option GoError) (t : option (gmap string (list byte))) : Prop :=
  match r with
  | None => t = Some (sql_rows keys v ∪ m) ∧ fresh_keys keys m
  | Some _ =>
      if perCommit
      then ∃ before rest, keys = before ++ rest ∧ (t = Some (sql_rows before v ∪ m)) ∧ rest ≠ []
      else t = Some m
  end.

Lemma sqliteBatchPut_ends db perCommit keys v s m :
  table s db = Some m →
  ends (λ r s', batch_left perCommit keys v m r (table s' db)) (λ _, False) (sqliteBatchPut db perCommit keys v s).
Proof.
  intros Hm. unfold sqliteBatchPut. destruct perCommit.
  - pose proof (insert_each_ends (λ s, table s db) v _ (λ _, True) keys s m (auto_inserts db v) ltac:(done) Hm I) as H1.
    pose proof (insert_each_prefix db v keys s m Hm) as H2.
    destruct (insert_each _ keys s) as [[err|] s'| | |]; try done; simpl in *; [|by apply H1].
    destruct (H2 ltac:(done)) as (before & rest & ? & ? & ?). exists before, rest. done.
  - unfold or_return_err at 1, sql_exec at 1, bind at 1.
    destruct (tx_Begin db s) as [[msg|[]] s1] eqn:Hb; [simpl; by rewrite (begin_atomic _ _ _ _ Hb)|].
    destruct (begin_ok _ _ _ Hb) as [Ht1 Hp1].
    unfold or_return_err at 1, sql_exec at 1, bind at 1.
    destruct (tx_Prepare db s1) as [r2 s2] eqn:Hp. destruct (prepare_ok _ _ _ _ Hp) as [Ht2 Hp2].
    destruct r2 as [msg|[]]; [simpl; congruence|].
    eapply ends_bind.
    { apply (insert_each_ends (λ s, pending s db) v _ (λ s, table s db = Some m) keys s2 m (tx_inserts db v)).
      - intros k s0 r s0' Hk. by eapply tx_keeps_table.
      - congruence.
      - congruence. }
    intros [err|] s3 [Ht3 Hv3]; [done|]. destruct (Hv3 eq_refl) as [Hpend Hfresh].
    unfold sql_exec. destruct (tx_Commit db s3) as [[msg|[]] s4] eqn:Hc; simpl.
    + by rewrite (commit_atomic _ _ _ _ Hc).
    + by rewrite (commit_ok _ _ _ Hc).
Qed.

(** What a batch of inserts leaves.  When [sqliteBatchPut] reports success all
    keys were new and the table holds them with the payload, next to the rows it
    had.  When it reports an error, one transaction leaves the table as it was, and
    one commit per row leaves the rows before the failing one. *)
Lemma sqlite_batch_put_left db perCommit keys v s m :
  table s db = Some m →
  ∃ r s', sqliteBatchPut db perCommit keys v s = Ret r s' ∧ batch_left perCommit keys v m r (table s' db).
Proof.
  intros Hm. pose proof (sqliteBatchPut_ends db perCommit keys v s m Hm) as H.
  destruct (sqliteBatchPut _ _ _ _ _) as [r s'| | |]; try done. by exists r, s'.
Qed.

(** ** Steps of a run *)

(** A step on [db] that may fail, but not for a missing row, and touches no other
    database. *)
Definition tame db (x : M sql_state (option GoError)) : Prop := ∀ s,
  ends (λ r s', r ≠ Some ErrNoRows ∧ ∀ c, apart c db → table s' c = table s c) (λ _, False) (x s).

Lemma tame_exec db op :
  (∀ s r s' c, op s = (r, s') → apart c db → table s' c = table s c) → tame db (sql_exec op).
Proof.
  intros Hf s. unfold sql_exec. destruct (op s) as [r s'] eqn:Ho. split; [by destruct r|]. intros c. by eapply Hf.
Qed.

Lemma tame_ret db : tame db (mret None).
Proof. intros s. by split. Qed.

Lemma tame_then db x y : tame db x → tame db y → tame db (or_return_err x y).
Proof.
  intros Hx Hy s. eapply ends_bind; [apply Hx|]. intros [err|] s1 [Hr Hf]; [by split|].
  eapply ends_impl; [apply Hy|]. intros r s2 [Hr2 Hf2]. split; [done|]. intros c Hc. rewrite Hf2, Hf; done.
Qed.

Lemma tame_each db ins keys : (∀ k, tame db (sql_exec (ins k))) → tame db (insert_each ins keys).
Proof. intros Hi. induction keys as [|k keys IH]; [apply tame_ret|]. by apply tame_then. Qed.

Lemma tame_batch db perCommit keys v : tame db (sqliteBatchPut db perCommit keys v).
Proof.
  unfold sqliteBatchPut. destruct perCommit.
  - apply tame_each. intros k. apply tame_exec. intros *. apply insert_frame.
  - repeat apply tame_then; try apply tame_exec.
    + intros *. apply begin_frame.
    + intros *. apply prepare_frame.
    + apply tame_each. intros k. apply tame_exec. intros *. apply tx_insert_frame.
    + intros *. apply commit_frame.
Qed.

(** A run that leaves [m] in [db], with answer [Q]. *)
Definition sql_run {A} db m (Q : A → Prop) (x : outcome sql_state (GoError + A)) : Prop :=
  ends (λ r s', match r with inl err => err ≠ ErrNoRows | inr a => Q a ∧ table s' db = Some m end) (λ _, False) x.

Lemma sql_run_or {A} db m1 m2 (Q : A → Prop) x k s :
  tame db x → ends (λ r s', r = None → table s' db = Some m1) (λ _, False) (x s) →
  (∀ s', table s' db = Some m1 → sql_run db m2 Q (k s')) → sql_run db m2 Q (or_fatal x k s).
Proof.
  intros Hx Hm Hk. unfold or_fatal, bind. specialize (Hx s).
  destruct (x s) as [[err|] s'| | |]; try done; [destruct Hx; simpl; congruence|]. by apply Hk, Hm.
Qed.

Lemma sql_run_value {A B} db m1 m2 (Q1 : A → Prop) (Q2 : B → Prop) x k s :
  sql_run db m1 Q1 (x s) → (∀ a s', Q1 a → table s' db = Some m1 → sql_run db m2 Q2 (k a s')) →
  sql_run db m2 Q2 (value_or_fatal x k s).
Proof. intros Hx Hk. eapply ends_bind; [exact Hx|]. intros [err|a] s' H; [done|]. destruct H. by apply Hk. Qed.

Lemma batch_step db perCommit keys v s m :
  table s db = Some m →
  ends (λ r s', r = None → table s' db = Some (sql_rows keys v ∪ m)) (λ _, False) (sqliteBatchPut db perCommit keys v s).
Proof.
  intros Hm. eapply ends_impl; [by apply sqliteBatchPut_ends|]. intros r s' H ->. apply H.
Qed.

Lemma query_from_step n i db keys s m :
  table s db = Some m → (keys ≠ [] ∨ n = O) → (∀ k, k ∈ keys → is_Some (m !! k)) →
  ends (λ r s', r ≠ Some ErrNoRows ∧ (r = None → table s' db = Some m)) (λ _, False) (query_from n i db keys s).
Proof.
  intros Hm Hne Hall. revert i s Hm. induction n as [|n IH]; intros i s Hm; [by split|].
  destruct Hne as [Hne|?]; [|done]. cbn [query_from].
  destruct (key_at_in keys i s Hne) as (key & Hin & Hk). rewrite (bind_ret _ _ _ _ _ Hk).
  unfold bind at 1, query_value, bind, stmt. destruct (sql_value db key s) as [[msg|r] s1] eqn:Hv; [by split|].
  destruct (value_ok _ _ _ _ _ Hv) as (Ht & m' & Hm' & ->). rewrite Hm in Hm'. injection Hm' as <-.
  destruct (Hall key Hin) as [l ->]. apply IH; [by left|congruence].
Qed.

(** Reads of keys that are there. *)
Lemma sql_run_reads {A} db m m2 (Q : A → Prop) randomGets keys k s :
  table s db = Some m → (keys ≠ [] ∨ randomGets ≤ 0) → (∀ k, k ∈ keys → is_Some (m !! k)) →
  (∀ s', table s' db = Some m → sql_run db m2 Q (k s')) →
  sql_run db m2 Q (or_fatal (random_queries randomGets db keys) k s).
Proof.
  intros Hm Hne Hall Hk. eapply ends_bind.
  { apply (query_from_step (Z.to_nat randomGets) 0 db keys s m Hm); [|done]. destruct Hne; [by left|right; lia]. }
  intros [err|] s' [Hr Ht]; [simpl; congruence|]. by apply Hk, Ht.
Qed.

(** Opening, creating and closing around a body. *)
Lemma opened_db {A} db (Q : A → Prop) body s :
  (∀ s', table s' db = Some ∅ → ∃ m, sql_run db m Q (body s')) →
  ends (λ r _, match r with inl err => err ≠ ErrNoRows | inr a => Q a end) (λ _, False)
    (or_fatal (sql_exec (sql_Open db)) (deferred (close_db db) (or_fatal (sql_exec (sql_create db)) body)) s).
Proof.
  intros Hbody. unfold or_fatal at 1, bind at 1, sql_exec at 1. destruct (sql_Open db s) as [[msg|[]] s1]; [done|].
  unfold deferred, finally, or_fatal, bind, sql_exec. destruct (sql_create db s1) as [[msg|[]] s2] eqn:Hc; [done|].
  destruct (Hbody s2) as [m Hm]; [by apply create_ok in Hc as []|].
  destruct (body s2) as [[err|a] s3| | |]; try done. by destruct Hm.
Qed.

End SqliteFacts.
