(* ===== verification/SqliteRuns.v ===== *)
(** * Whole runs on the SQLite peer

    What [benchSQLite] and [benchSQLitePostRestart] return on a database that keeps
    the laws of [Sqlite]: the rows of every phase, the same work as the F4KVS run
    does for the phases they share, and a restart check that passes. *)

From Stdlib Require Import Floats.SpecFloat.
From S2P Require Import Prelude Engine Utf8 Options Ffi Binding Semantics GoText Paths Harness Report Restart Bench Sqlite.

(** The rows of a run: phase, profile, operations. *)
Definition sqlite_summary (profile : string) (n k found randomGets : Z) : list (string * string * Z) :=
  [("memoir_batch_put", profile, n); ("memoir_random_get", profile, randomGets);
   ("chunk_batch_put", profile, k); ("chunk_batch_put_batched", profile, k);
   ("chunk_prefix_scan", profile, found); ("chunk_random_get", profile, randomGets)].

(** Two runs did the same work: the phases both have agree on the operations. *)
Definition same_work (a b : list (string * string * Z)) : Prop :=
  ∀ ph pa pb x y, (ph, pa, x) ∈ a → (ph, pb, y) ∈ b → x = y.

Definition same_workb (a b : list (string * string * Z)) : bool :=
  forallb (λ '(pha, _, x), forallb (λ '(phb, _, y), negb (String.eqb pha phb) || (x =? y)) b) a.

Lemma same_workb_ok a b : same_workb a b = true → same_work a b.
Proof.
  unfold same_workb. rewrite forallb_forall. intros H ph pa pb x y Ha%list_elem_of_In Hb%list_elem_of_In.
  specialize (H _ Ha). simpl in H. rewrite forallb_forall in H. specialize (H _ Hb). simpl in H.
  rewrite String.eqb_refl in H. simpl in H. lia.
Qed.

Lemma peers_same_work size p q n k randomGets skip gc :
  same_work (sqlite_summary p n k k randomGets) (bench_summary size q n k randomGets skip gc).
Proof.
  apply same_workb_ok. unfold bench_summary, chunk_summary. 
  destruct skip, gc, (0 <? size); simpl; by rewrite !Z.eqb_refl.
Qed.

Section Runs.
Context `{S : SqlDb} {Laws : SqlLaws S}.
Implicit Types (s : sql_state) (m : gmap string (list byte)) (db : string).

(** The side run leaves the other database alone. *)
Lemma side_run since db m path prof keys v s :
  apart db (data_source prof path) → table s db = Some m →
  sql_run db m (λ rows, summary rows = [("chunk_batch_put_batched", p_Name prof, zlen keys)])
    (benchSQLiteChunkBatched since path prof keys v s).
Proof.
  intros Hap Hm. unfold benchSQLiteChunkBatched. cbv zeta. set (side := data_source prof path) in *.
  unfold or_fatal at 1, bind at 1, sql_exec at 1. destruct (sql_Open side s) as [[msg|[]] s1] eqn:Ho; [done|].
  unfold deferred, finally, or_fatal, bind, sql_exec.
  destruct (sql_create side s1) as [[msg|[]] s2] eqn:Hc; [done|].
  pose proof (tame_batch side false keys v s2) as Ht.
  destruct (sqliteBatchPut side false keys v s2) as [[err|] s3| | |]; try done; destruct Ht as [Hr Hf]; [simpl; congruence|].
  simpl. split; [done|]. destruct (sql_Close side s3) as [r s4] eqn:Hcl. simpl.
  rewrite (close_frame _ _ _ _ _ Hcl Hap), (Hf db Hap), (create_frame _ _ _ _ _ Hc Hap), (open_frame _ _ _ _ _ Ho Hap). done.
Qed.

(** What the run has written when it scans. *)
Definition both_rows (n k : Z) (mp cp : goslice) : gmap string (list byte) :=
  sql_rows (chunkKeys k) cp ∪ sql_rows (memoirKeys n) mp.

Lemma both_rows_keys n k mp cp key :
  is_Some (both_rows n k mp cp !! key) ↔ key ∈ memoirKeys n ∨ key ∈ chunkKeys k.
Proof.
  unfold both_rows. rewrite lookup_union, !lookup_sql_rows.
  repeat case_decide; simpl; rewrite ?is_Some_alt; naive_solver.
Qed.

Lemma chunk_like i : like_prefix "chunk:legal:" (chunk_key i) = true.
Proof. by unfold like_prefix, lower_text, chunk_key; rewrite bytes_of_string_of_bytes. Qed.

Lemma memoir_not_like i : like_prefix "chunk:legal:" (memoir_key i) = false.
Proof. by unfold like_prefix, lower_text, memoir_key; rewrite bytes_of_string_of_bytes. Qed.

(** No scan ends early without being noticed. *)
Definition scans_complete : Prop :=
  ∀ c p s ks err s', sql_like c p s = (inr (ks, err), s') → err = None.

Lemma like_step db n k mp cp s :
  table s db = Some (both_rows n k mp cp) →
  sql_run db (both_rows n k mp cp)
    (λ '(ks, _), zlen ks ≤ zlen (chunkKeys k) ∧ (scans_complete → zlen ks = zlen (chunkKeys k)))
    (stmt (sql_like db "chunk:legal:%") s).
Proof.
  intros Hm. unfold stmt. destruct (sql_like db "chunk:legal:%" s) as [[msg|[ks err]] s'] eqn:Hl; [done|].
  destruct (like_ok _ "chunk:legal:" _ _ _ _ Hl eq_refl) as (Ht & m & Hm' & Hnd & Hin & Hall).
  rewrite Hm in Hm'. injection Hm' as <-. split; [|congruence].
  assert (Hsub : ∀ key, key ∈ ks → key ∈ chunkKeys k).
  { intros key Hk. destruct (Hin key Hk) as [[(i & -> & _)%list_elem_of_fmap|?]%both_rows_keys Hp]; [|done].
    by rewrite memoir_not_like in Hp. }
  split.
  - unfold zlen. apply inj_le, submseteq_length, NoDup_submseteq; done.
  - intros Hno. pose proof (Hno _ _ _ _ _ _ Hl) as ->.
    unfold zlen. f_equal. apply Permutation_length, NoDup_Permutation; [done|apply chunkKeys_NoDup|].
    intros key. split; [auto|]. intros Hk. apply Hall; [done| |].
    + apply both_rows_keys. by right.
    + apply list_elem_of_fmap in Hk as (i & -> & _). apply chunk_like.
Qed.

Lemma memoirKeys_not_nil n : 0 < n → memoirKeys n ≠ [].
Proof. intros Hn ?%fmap_nil_inv. by apply (seqZ_not_nil n). Qed.

Lemma chunkKeys_not_nil k : 0 < k → chunkKeys k ≠ [].
Proof. intros Hk ?%fmap_nil_inv. by apply (seqZ_not_nil k). Qed.

(** What a run promises: see [sqlite_run_complete]. *)
Lemma sqlite_run_ends since path prof n k mp cp randomGets s :
  apart (data_source prof path) (data_source prof (path +:+ "_chunk_batched")) →
  (0 < n ∧ 0 < k) ∨ randomGets ≤ 0 →
  ends (λ r _, match r with
               | inl err => err ≠ ErrNoRows
               | inr rows => ∃ found,
                   summary rows = sqlite_summary (p_Name prof) (zlen (memoirKeys n)) (zlen (chunkKeys k)) found randomGets ∧
                   found ≤ zlen (chunkKeys k) ∧
                   (scans_complete → ∀ size q skip gc, same_work (summary rows)
                      (bench_summary size q (zlen (memoirKeys n)) (zlen (chunkKeys k)) randomGets skip gc))
               end) (λ _, False)
    (benchSQLite since path prof (memoirKeys n) (chunkKeys k) mp cp randomGets s).
Proof.
  intros Hap Hne. apply opened_db. intros s1 H1. exists (both_rows n k mp cp).
  assert (Hn0 : memoirKeys n ≠ [] ∨ randomGets ≤ 0).
  { destruct Hne as [[? _]|?]; [left; by apply memoirKeys_not_nil|by right]. }
  assert (Hk0 : chunkKeys k ≠ [] ∨ randomGets ≤ 0).
  { destruct Hne as [[_ ?]|?]; [left; by apply chunkKeys_not_nil|by right]. }
  eapply sql_run_or; [apply tame_batch|by apply batch_step|]. intros s2 H2. rewrite (right_id_L ∅ (∪)) in H2.
  eapply sql_run_reads; [exact H2|done| |].
  { intros key Hk. by rewrite lookup_sql_rows, decide_True. }
  intros s3 H3. eapply sql_run_or; [apply tame_batch|by apply batch_step|]. intros s4 H4.
  eapply sql_run_value; [by apply side_run|]. intros batched s5 Hb H5.
  eapply sql_run_value; [by apply like_step|]. intros [ks err] s6 [Hle Hall] H6.
  eapply sql_run_reads; [exact H6|done| |].
  { intros key Hk. apply both_rows_keys. by right. }
  intros s7 H7. split; [|done]. exists (zlen ks).
  match goal with |- ?X ∧ _ => assert (Hs : X) by (unfold summary in *; csimpl; by rewrite fmap_app, Hb) end.
  split; [done|]. split; [done|]. intros Hno size q skip gc. rewrite Hs, (Hall Hno). apply peers_same_work.
Qed.

(** C19: a run on the SQLite peer, its two databases in separate files, with at
    least one memoir and one chunk unless it is to do no reads.  It ends without a
    panic: with an error of the database, which is never that of a missing row, or
    with one row per phase, in order.  The scan counts at most the chunks; it can
    count fewer, because the code does not ask for the error that ended it.  If the
    database ends no scan early, it counts all of them, and every phase that the
    F4KVS run of the same inputs also has did the same number of operations on both
    sides, whatever path that run takes. *)
Theorem sqlite_run_complete since path prof n k mp cp randomGets s :
  apart (data_source prof path) (data_source prof (path +:+ "_chunk_batched")) →
  (0 < n ∧ 0 < k) ∨ randomGets ≤ 0 →
  ends (λ r _, match r with
               | inl err => err ≠ ErrNoRows
               | inr rows => ∃ found,
                   summary rows = sqlite_summary (p_Name prof) (zlen (memoirKeys n)) (zlen (chunkKeys k)) found randomGets ∧
                   found ≤ zlen (chunkKeys k) ∧
                   (scans_complete → ∀ size q skip gc, same_work (summary rows)
                      (bench_summary size q (zlen (memoirKeys n)) (zlen (chunkKeys k)) randomGets skip gc))
               end) (λ _, False)
    (benchSQLite since path prof (memoirKeys n) (chunkKeys k) mp cp randomGets s).
Proof. intros. by apply sqlite_run_ends. Qed.

(** ** The restart check *)

Lemma dom_sql_rows keys v : dom (sql_rows keys v) = list_to_set keys.
Proof.
  apply set_eq. intros key. rewrite elem_of_dom, elem_of_list_to_set, lookup_sql_rows.
  case_decide; rewrite is_Some_alt; naive_solver.
Qed.

Lemma size_both_rows n k mp cp :
  Z.of_nat (size (both_rows n k mp cp)) = zlen (memoirKeys n) + zlen (chunkKeys k).
Proof.
  unfold both_rows. rewrite <-size_dom, dom_union_L, size_union, !dom_sql_rows.
  - rewrite !size_list_to_set by (apply chunkKeys_NoDup || apply memoirKeys_NoDup). unfold zlen. lia.
  - rewrite !dom_sql_rows. intros key. rewrite !elem_of_list_to_set.
    intros (i & -> & _)%list_elem_of_fmap (j & Hj & _)%list_elem_of_fmap.
    pose proof (memoir_not_chunk j) as Hp. rewrite <-Hj, chunk_key_prefix in Hp. done.
Qed.

Lemma or_close_db_ends {A} db (x : M sql_state (option GoError)) (k : M sql_state (GoError + A)) m1 (Q : A → Prop) s :
  ends (λ r s', r = None → table s' db = Some m1) (λ _, False) (x s) →
  (∀ s', table s' db = Some m1 → ends (λ r _, checked Q r) (λ _, False) (k s')) →
  ends (λ r _, checked Q r) (λ _, False) (or_close_db db x k s).
Proof.
  intros Hx Hk. eapply ends_bind; [exact Hx|]. intros [err|] s' H; [done|]. by apply Hk, H.
Qed.

Lemma or_fatal_ends {A} db (op : SqlOp sql_state unit) (k : M sql_state (GoError + A)) m1 (Q : A → Prop) s :
  (∀ s', op s = (inr tt, s') → table s' db = Some m1) →
  (∀ s', table s' db = Some m1 → ends (λ r _, checked Q r) (λ _, False) (k s')) →
  ends (λ r _, checked Q r) (λ _, False) (or_fatal (sql_exec op) k s).
Proof.
  intros Hx Hk. unfold or_fatal, bind, sql_exec. destruct (op s) as [[msg|[]] s'] eqn:Ho; [done|]. by apply Hk, Hx.
Qed.

Lemma create_step db s :
  ends (λ r s', r = None → table s' db = Some ∅) (λ _, False) (sql_exec (sql_create db) s).
Proof.
  unfold sql_exec. destruct (sql_create db s) as [[msg|[]] s'] eqn:Hc; [done|]. intros _. by apply create_ok in Hc as [].
Qed.

(** The restart check on SQLite ends with an error of the database or passes:
    the count after closing and opening again is the number of keys written, and
    the rows report [integrity_ok] as 1, whatever was in the directory before. *)
Lemma sqlite_restart_integrity path prof n k mp cp elapsed s :
  let total := zlen (memoirKeys n) + zlen (chunkKeys k) in
  ∃ r s', benchSQLitePostRestart path prof (memoirKeys n) (chunkKeys k) mp cp elapsed s = Ret r s' ∧
    checked (λ rows, rows = restart_rows (p_Name prof) total total elapsed) r.
Proof.
  intros total. set (db := data_source prof path).
  cut (ends (λ r _, checked (λ rows, rows = restart_rows (p_Name prof) total total elapsed) r) (λ _, False)
         (benchSQLitePostRestart path prof (memoirKeys n) (chunkKeys k) mp cp elapsed s)).
  { destruct (benchSQLitePostRestart _ _ _ _ _ _ _ _) as [r s'| | |]; try done. eauto. }
  unfold benchSQLitePostRestart, bind at 1, modify. cbv zeta. fold db.
  unfold or_fatal at 1, bind at 1, sql_exec at 1. destruct (sql_Open db _) as [[msg|[]] s1]; [done|].
  eapply or_close_db_ends; [apply create_step|]. intros s2 H2.
  eapply or_close_db_ends; [by apply batch_step|]. intros s3 H3. rewrite (right_id_L ∅ (∪)) in H3.
  eapply or_close_db_ends; [by apply batch_step|]. intros s4 H4.
  eapply (or_fatal_ends db); [intros s' Hc; rewrite (close_ok _ _ _ _ Hc); exact H4|]. intros s5 H5.
  eapply (or_fatal_ends db); [intros s' Ho; rewrite (open_ok _ _ _ _ Ho); exact H5|]. intros s6 H6.
  unfold bind, stmt. destruct (sql_count db s6) as [[msg|c] s7] eqn:Hc; [done|].
  destruct (count_ok _ _ _ _ Hc) as (_ & m & Hm & ->). rewrite H6 in Hm. injection Hm as <-.
  simpl. unfold total. by rewrite <-(size_both_rows n k mp cp).
Qed.

End Runs.

(** ** A database in memory *)

Section MemDb.
Local Abbreviation rows := (gmap string (list byte)).

Record mem := mkMem { tables : gmap string rows; opened_tx : gmap string rows }.

Definition set_tables (t : gmap string rows) (s : mem) : mem := mkMem t (opened_tx s).
Definition set_tx (t : gmap string rows) (s : mem) : mem := mkMem (tables s) t.

(** The check an insert makes: the table is there, the key is new, the value is not NULL. *)
Definition inserted (m : option rows) (k : string) (v : goslice) : string + rows :=
  match m, v with
  | None, _ => inl "no such table: kv"
  | _, None => inl "NOT NULL constraint failed: kv.value"
  | Some m, Some l => if decide (is_Some (m !! k)) then inl "UNIQUE constraint failed: kv.key" else inr (<[k := l]> m)
  end.

#[local] Instance mem_db : SqlDb := {|
  sql_state := mem;
  sql_Open _ s := (inr tt, s);
  sql_create c s := match tables s !! c with
                    | Some _ => (inl "table kv already exists", s)
                    | None => (inr tt, set_tables (<[c := ∅]> (tables s)) s)
                    end;
  sql_insert c k v s := match inserted (tables s !! c) k v with
                        | inl e => (inl e, s)
                        | inr m => (inr tt, set_tables (<[c := m]> (tables s)) s)
                        end;
  tx_Begin c s := (inr tt, set_tx (partial_alter (λ _, tables s !! c) c (opened_tx s)) s);
  tx_Prepare _ s := (inr tt, s);
  tx_insert c k v s := match inserted (opened_tx s !! c) k v with
                       | inl e => (inl e, s)
                       | inr m => (inr tt, set_tx (<[c := m]> (opened_tx s)) s)
                       end;
  tx_Commit c s := (inr tt, set_tables (partial_alter (λ _, opened_tx s !! c) c (tables s)) s);
  sql_value c k s := match tables s !! c with None => (inl "no such table: kv", s) | Some m => (inr (m !! k), s) end;
  sql_like c p s := match tables s !! c with
                    | None => (inl "no such table: kv", s)
                    | Some m => (inr (filter (λ k, like_prefix (text_upto (String.length p - 1) p) k = true) (map_to_list m).*1, None), s)
                    end;
  sql_count c s := match tables s !! c with None => (inl "no such table: kv", s) | Some m => (inr (Z.of_nat (size m)), s) end;
  sql_Close _ s := (inr tt, s);
  os_Remove _ s := s
|}.

Lemma inserted_ok m k v m' :
  inserted m k v = inr m' → ∃ m0 l, m = Some m0 ∧ m0 !! k = None ∧ v = Some l ∧ m' = <[k := l]> m0.
Proof.
  unfold inserted. intros H. repeat case_match; simplify_eq. eexists _, _. split_and!; [done| |done..].
  by apply eq_None_not_Some.
Qed.

Lemma text_upto_app p q : text_upto (String.length p) (p +:+ q) = p.
Proof. unfold text_upto. induction p as [|a p IH]; [by destruct q|].
  change (String a (String.substring 0 (String.length p) (p +:+ q)) = String a p). by rewrite IH.
Qed.

Lemma pattern_prefix p : text_upto (String.length (p +:+ "%") - 1) (p +:+ "%") = p.
Proof.
  assert (Hlen : String.length (p +:+ "%") = S (String.length p)).
  { induction p as [|a p IH]; [done|]. change (S (String.length (p +:+ "%")) = S (S (String.length p))). by rewrite IH. }
  rewrite Hlen. replace (S (String.length p) - 1)%nat with (String.length p) by lia. apply text_upto_app.
Qed.

Lemma mem_like_ok c p s ks err s' :
  sql_like c (p +:+ "%") s = (inr (ks, err), s') →
  tables s' !! c = tables s !! c ∧ ∃ m, tables s !! c = Some m ∧ NoDup ks ∧
    (∀ k, k ∈ ks → is_Some (m !! k) ∧ like_prefix p k = true) ∧
    (err = None → ∀ k, is_Some (m !! k) → like_prefix p k = true → k ∈ ks).
Proof.
  simpl. destruct (tables s !! c) as [m|] eqn:Hm; intros [=]; subst. rewrite pattern_prefix. split; [done|].
  exists m. split; [done|]. split; [apply NoDup_filter, NoDup_fst_map_to_list|]. split.
  - intros k [Hp [[k' v] [-> Hv%elem_of_map_to_list]]%list_elem_of_fmap]%list_elem_of_filter. simpl in *. eauto.
  - intros _ k [v Hv] Hp. apply list_elem_of_filter. split; [done|]. apply list_elem_of_fmap.
    exists (k, v). split; [done|]. by apply elem_of_map_to_list.
Qed.

#[local] Instance mem_laws : SqlLaws mem_db.
Proof.
  refine {| table (s : @sql_state mem_db) c := tables s !! c; pending (s : @sql_state mem_db) c := opened_tx s !! c; apart := (λ c' c, c' ≠ c) |};
    cbn [sql_Open sql_create sql_insert tx_Begin tx_Prepare tx_insert tx_Commit sql_value sql_count sql_Close mem_db sql_state];
    try (intros; repeat case_match; simplify_eq; simpl; by simplify_map_eq).
  - intros c k v s s' H. case_match eqn:Hi; simplify_eq. apply inserted_ok in Hi as (m & l & ? & ? & ? & ->).
    exists m, l. simpl. by simplify_map_eq.
  - intros c s s' [= <-]. simpl. by rewrite lookup_partial_alter_eq.
  - intros c k v s s' H. case_match eqn:Hi; simplify_eq. apply inserted_ok in Hi as (m & l & ? & ? & ? & ->).
    split; [done|]. exists m, l. simpl. by simplify_map_eq.
  - intros c s s' [= <-]. simpl. by rewrite lookup_partial_alter_eq.
  - intros c k s r s' H. case_match; simplify_eq. eauto.
  - intros c p s ks err s' H _. by apply mem_like_ok in H.
  - intros c s n s' H. case_match; simplify_eq. eauto.
  - intros c s r s' c' [= _ <-] Hne. simpl. by rewrite lookup_partial_alter_ne.
Defined.

Definition demo_profile (perCommit : bool) : sqliteProfile :=
  mkSqlite "sqlite_wal_full" (sqliteDSN "WAL" "FULL") "WAL + synchronous=FULL, per-commit put" perCommit "durability-matched".

Definition no_tables : sql_state (SqlDb := mem_db) := mkMem ∅ ∅.
Definition one_table : sql_state (SqlDb := mem_db) := mkMem {["kv" := ∅]} ∅.

Lemma sqlite_batch_put_left_witness :
  ∃ r s', sqliteBatchPut "kv" false (memoirKeys 2) (Some [x61]) one_table = Ret r s' ∧
    batch_left false (memoirKeys 2) (Some [x61]) ∅ r (table s' "kv").
Proof. apply (sqlite_batch_put_left "kv" false (memoirKeys 2) (Some [x61]) one_table ∅). reflexivity. Defined.

(** A key that comes twice: one transaction leaves nothing, single commits the first row. *)
Example twice_refused :
  forallb (λ perCommit, match sqliteBatchPut "kv" perCommit ["a"; "a"] (Some [x61]) one_table with
                        | Ret (Some _) s' =>
                            bool_decide (table s' "kv" = Some (if perCommit then {["a" := [x61]]} else ∅))
                        | _ => false
                        end) [true; false] = true.
Proof. vm_compute. reflexivity. Qed.

(** A nil payload is refused, where F4KVS stores an empty value. *)
Example nil_payload_refused :
  match sqliteBatchPut "kv" true (memoirKeys 1) None one_table with
  | Ret (Some _) _ => true
  | _ => false
  end = true.
Proof. vm_compute. reflexivity. Qed.

Lemma sqlite_run_complete_witness :
  ends (λ r _, match r with
               | inl err => err ≠ ErrNoRows
               | inr rows => ∃ found,
                   summary rows = sqlite_summary "sqlite_wal_full" 2 3 found 4 ∧ found ≤ 3 ∧
                   (scans_complete → ∀ size q skip gc, same_work (summary rows) (bench_summary size q 2 3 4 skip gc))
               end) (λ _, False)
    (benchSQLite (λ _, 1000) "/bench/sqlite_0.db" (demo_profile true) (memoirKeys 2) (chunkKeys 3) (Some [x61]) (Some [x62]) 4
       no_tables).
Proof.
  apply (sqlite_run_complete (λ _, 1000) "/bench/sqlite_0.db" (demo_profile true) 2 3 (Some [x61]) (Some [x62]) 4 no_tables).
  - discriminate.
  - by left.
Defined.

(** Evaluated: the run succeeds, both with one commit per row and with one transaction. *)
Example sqlite_rows :
  forallb (λ perCommit,
    match benchSQLite (λ _, 1000) "/bench/sqlite_0.db" (demo_profile perCommit) (memoirKeys 2) (chunkKeys 3)
            (Some [x61]) (Some [x62]) 4 no_tables with
    | Ret (inr rows) _ => bool_decide (summary rows = sqlite_summary "sqlite_wal_full" 2 3 3 4)
    | _ => false
    end) [true; false] = true.
Proof. vm_compute. reflexivity. Qed.

(** Evaluated: the restart check passes. *)
Example sqlite_restart_rows :
  match benchSQLitePostRestart "/bench/r.db" (demo_profile false) (memoirKeys 2) (chunkKeys 3)
          (Some [x61]) (Some [x62]) 1000 no_tables with
  | Ret (inr rows) _ => bool_decide (Extra <$> rows = Extra <$> restart_rows "sqlite_wal_full" 5 5 1000)
  | _ => false
  end = true.
Proof. vm_compute. reflexivity. Qed.

End MemDb.
