(* ===== verification/Main.v ===== *)
(** * The benchmark program

    [main] of [bench/embed_vs_sqlite/main.go]: the flags, the selected profiles and
    their runs, the restart checks, and what is reported: the table, the flat JSON
    file, the run directory and the exit code.

    The machine is the process with its engines ([World]), the databases of the
    SQLite peer, the file system that receives the reports, and what was printed
    on standard output.  Directories of engines, database files and report files
    are kept apart.  What the run measures or is told by the host (times, the
    temporary directory, the working directory, random bytes) is [Env].  [fatal]
    is the answer [inl]; otherwise the answer is the exit code, 0 when [main]
    returns and 1 when it calls [os.Exit(1)]. *)

From Stdlib Require Import Floats.SpecFloat.
From S2P Require Import Prelude Engine Utf8 Options Ffi Binding FfiFacts BindingFacts Session Semantics GoText Paths Json Harness Report Restart Bench RunDir Repo Table Sqlite.

Record Flags := mkFlags {
  fl_memoirs : Z;
  fl_chunks : Z;
  fl_memoirBytes : Z;
  fl_chunkBytes : Z;
  fl_randomGets : Z;
  fl_includeRelaxed : bool;
  fl_seed : Z;
  fl_runsRoot : string;
  fl_tier : string;
  fl_profiles : string;
  fl_maxPerCommitChunks : Z;
  fl_batchPutSize : Z;
  fl_fair : bool;
  fl_out : string;
  fl_runID : string
}.

(** The values without arguments. *)
Definition default_flags : Flags :=
  mkFlags 50 2000 200000 4096 500 true 42 "" "" "all" 10000 500 false "" "".

Record Env := mkEnv {
  (** [since p phase] is the time of a phase, [restart_us p] that of a restart check. *)
  since : string → string → Z;
  restart_us : string → Z;
  memoir_entropy : nat → byte;
  chunk_entropy : nat → byte;
  MkdirTemp : GoError + string;
  Getwd : string;
  now_id : Z;
  now_start : Z;
  now_end : Z
}.

Definition wal_frame : OpenOptions := mkOpenOptions false 0 0 false WalEngineFrame 0 0 0 0 0 0 0 0.
Definition wal_indexed : OpenOptions := mkOpenOptions false 0 0 false WalEngineIndexed 0 0 0 0 0 0 0 0.
Definition gc1Opts : OpenOptions := mkOpenOptions true 1 0 false 0 0 0 0 0 0 0 0 0.
Definition gc10Opts : OpenOptions := mkOpenOptions true 10 0 false 0 0 0 0 0 0 0 0 0.
Definition gc_idle : OpenOptions := mkOpenOptions false 50 0 false 0 WalDurabilityAmortized 100 0 0 0 0 0 0.

(** A run of [benchF4KVS]: profile, directory, durability label, options. *)
Definition f4kvs_runs : list (string * string * string * option OpenOptions) :=
  [("f4kvs_wal_segment", "f4kvs_segment", "Segment WAL + WalSyncMode::Fsync (sync_all per put)", None);
   ("f4kvs_wal_frame", "f4kvs_frame", "Frame WAL + WalSyncMode::Fsync (sync_data per put)", Some wal_frame);
   ("f4kvs_wal_indexed", "f4kvs_indexed", "Indexed WAL v2 — per-frame micro-files + wal.idx (wal_engine=2)",
    Some wal_indexed);
   ("f4kvs_group_commit_1ms", "f4kvs_gc1", "WAL group_commit 1ms (async ack; durable after FlushWAL / ≤1ms window)",
    Some gc1Opts);
   ("f4kvs_group_commit_10ms", "f4kvs_gc10", "WAL Fsync + group_commit 10ms window (async ack, durable within 10ms)",
    Some gc10Opts);
   ("f4kvs_group_commit_idle", "f4kvs_gc_idle",
    "Amortized WAL — 50ms max wait + 100ms idle flush (wal_durability=1)", Some gc_idle)].

Definition sqlite_full : sqliteProfile :=
  mkSqlite "sqlite_wal_full" (sqliteDSN "WAL" "FULL") "WAL + synchronous=FULL, per-commit put" true "durability-matched".
Definition sqlite_normal : sqliteProfile :=
  mkSqlite "sqlite_wal_normal" (sqliteDSN "WAL" "NORMAL") "WAL + synchronous=NORMAL, batched tx" false
    "reference (relaxed)".

(** The restart checks: profile, directory, options; database profile, file. *)
Definition f4kvs_restarts : list (string * string * option OpenOptions) :=
  [("f4kvs_wal_segment", "restart_f4kvs_segment", None);
   ("f4kvs_group_commit_1ms", "restart_f4kvs_gc1", Some gc1Opts);
   ("f4kvs_group_commit_10ms", "restart_f4kvs_gc10", Some gc10Opts)].

Definition sqlite_restarts : list (sqliteProfile * string) :=
  [(sqlite_full, "restart_sqlite_full.db"); (sqlite_normal, "restart_sqlite_normal.db")].

(** [p := prof; if skipPerCommitChunks { p.PerCommit = false }]. *)
Definition scaled_profile (skip : bool) (prof : sqliteProfile) : sqliteProfile :=
  if skip then mkSqlite (p_Name prof) (DSN prof) (p_Durability prof) false (p_Extra prof) else prof.

Section Main.
Context `{L : LsmEngine} {FS : HostFs} {P : Platform} {G : GoRuntime} {SD : SqlDb} {HO : HostOs} {HF : HostFacts}.
(** Removing a directory tree with databases in it. *)
Context (remove_databases : string → sql_state → sql_state).
Context (env : Env) (fl : Flags).

Record Machine := mkMachine { m_world : World; m_sql : sql_state; m_os : Os; m_stdout : list string }.

Definition set_world (w : World) (s : Machine) : Machine := mkMachine w (m_sql s) (m_os s) (m_stdout s).
Definition set_sql (d : sql_state) (s : Machine) : Machine := mkMachine (m_world s) d (m_os s) (m_stdout s).
Definition set_os (o : Os) (s : Machine) : Machine := mkMachine (m_world s) (m_sql s) o (m_stdout s).
Definition print (lines : list string) : M Machine unit := λ s,
  Ret tt (mkMachine (m_world s) (m_sql s) (m_os s) (m_stdout s ++ lines)).

Definition on_world {A} : M World A → M Machine A := lift m_world set_world.
Definition on_sql {A} : M sql_state A → M Machine A := lift m_sql set_sql.
Definition on_os {A} : M Os A → M Machine A := lift m_os set_os.

(** [rep.Results = append(rep.Results, f(a)...)] for every [a], in order. *)
Fixpoint run_each {A} (f : A → M Machine (GoError + list phaseResult)) (l : list A)
    : M Machine (GoError + list phaseResult) :=
  match l with
  | [] => mret (inr [])
  | a :: l => value_or_fatal (f a) (λ rows, value_or_fatal (run_each f l) (λ more, mret (inr (rows ++ more))))
  end.

Definition globalBatchPutSize : Z := if fl_fair fl then 0 else fl_batchPutSize fl.

Section Runs.
Context (want : gset string) (tmp : string) (payload chunkPayload : goslice).

Definition keys_m : list string := memoirKeys (fl_memoirs fl).
Definition keys_c : list string := chunkKeys (fl_chunks fl).
Definition skipPerCommitChunks : bool :=
  (0 <? fl_maxPerCommitChunks fl) && (fl_maxPerCommitChunks fl <? zlen keys_c).

Definition f4kvs_run (r : string * string * string * option OpenOptions) : M Machine (GoError + list phaseResult) :=
  let '(name, dir, durability, opts) := r in
  on_world (benchF4KVS globalBatchPutSize (since env name) (filepath_Join [tmp; dir]) name durability opts keys_m keys_c
              payload chunkPayload (fl_randomGets fl) skipPerCommitChunks).

Definition sqlite_run (r : nat * sqliteProfile) : M Machine (GoError + list phaseResult) :=
  let '(i, prof) := r in
  on_sql (benchSQLite (since env (p_Name prof)) (filepath_Join [tmp; "sqlite_" +:+ pretty (Z.of_nat i) +:+ ".db"])
            (scaled_profile skipPerCommitChunks prof) keys_m keys_c payload chunkPayload (fl_randomGets fl)).

Definition f4kvs_restart (r : string * string * option OpenOptions) : M Machine (GoError + list phaseResult) :=
  let '(name, dir, opts) := r in
  on_world (benchF4KVSPostRestart globalBatchPutSize (filepath_Join [tmp; dir]) name opts keys_m keys_c payload chunkPayload
              (restart_us env name)).

Definition sqlite_restart (r : sqliteProfile * string) : M Machine (GoError + list phaseResult) :=
  let '(prof, file) := r in
  on_sql (benchSQLitePostRestart (filepath_Join [tmp; file]) prof keys_m keys_c payload chunkPayload
            (restart_us env (p_Name prof))).

(** The runs [main] starts, in order. *)
Definition bench_all : M Machine (GoError + list phaseResult) :=
  let run := wantProfile want in
  let sqliteProfiles := List.filter (λ prof, run (p_Name prof)) [sqlite_full; sqlite_normal] in
  value_or_fatal (run_each f4kvs_run (List.filter (λ r, run r.1.1.1) f4kvs_runs)) (λ rows1,
  value_or_fatal (run_each sqlite_run (imap pair sqliteProfiles)) (λ rows2,
  value_or_fatal (run_each f4kvs_restart (List.filter (λ r, run r.1.1) f4kvs_restarts)) (λ rows3,
  value_or_fatal (run_each sqlite_restart (List.filter (λ r, run (p_Name r.1)) sqlite_restarts)) (λ rows4,
  mret (inr (rows1 ++ rows2 ++ rows3 ++ rows4)))))).

End Runs.

Definition runID : string := if bool_decide (fl_runID fl = "") then NewRunID (now_id env) else fl_runID fl.

(** The run writer, when there is a directory for runs. *)
Definition open_writer (repoRoot : string) : M Machine (GoError + option RunWriter) :=
  if bool_decide (fl_runsRoot fl = "") then mret (inr None)
  else
    let tier := if bool_decide (fl_tier fl = "") then DeriveTier (fl_chunks fl) else fl_tier fl in
    let man := mkManifest "" "" "" tier (fl_seed fl) "" "" (CollectGitInfo repoRoot) CollectHostInfo
                 (mkScale (fl_memoirs fl) (fl_chunks fl) (fl_memoirBytes fl) (fl_chunkBytes fl) (fl_randomGets fl)) None
                 (mkHarness harnessPath
                    (FormatHarnessCommand (fl_memoirs fl) (fl_chunks fl) (fl_memoirBytes fl) (fl_chunkBytes fl)
                       (fl_randomGets fl) (fl_seed fl) (fl_includeRelaxed fl) (fl_profiles fl))) "" in
    value_or_fatal (on_os (NewRunWriter (now_start env) (fl_runsRoot fl) runID man)) (λ writer, mret (inr (Some writer))).

Definition new_report (rows : list phaseResult) : report :=
  mkReport (runtime_GOOS +:+ "/" +:+ runtime_GOARCH) (fl_memoirs fl) (fl_chunks fl) (fl_memoirBytes fl)
    (fl_chunkBytes fl) (fl_randomGets fl)
    "f4kvs_wal_segment vs f4kvs_wal_frame vs sqlite_wal_full (per-commit puts)"
    "f4kvs_wal_segment vs sqlite_wal_full (chunk_batch_put_batched)" (Some rows).

Definition writeJSON (path : string) (rep : report) : M Machine (GoError + unit) :=
  match MarshalIndent (report_json rep) with
  | inl msg => mret (inl (os_error msg))
  | inr b =>
      or_fatal (on_os (WriteFile (filepath_Dir path) (file_name path) b))
      (run! print [""; "Wrote " +:+ path] in mret (inr tt))
  end.

(** Everything after the runs. *)
Definition report_rows (writer : option RunWriter) (rows : list phaseResult) : M Machine (GoError + Z) :=
  let rep := new_report rows in
  run! print (printTable rows) in
  value_or_fatal (if bool_decide (fl_out fl = "") then mret (inr tt) else writeJSON (fl_out fl) rep) (λ _,
  match writer with
  | Some w =>
      let w := mkWriter (RunsRoot w) (PartialDir w) (FinalDir w) (Manifest w)
                 (AppendPhaseResults rows (w_buffer w)) (started w) in
      value_or_fatal (on_os (Finalize (now_end env) (Some rep) (UniqueEngines rows) w)) (λ _,
      mret (inr (if HasIntegrityFailure (w_buffer w) then 1 else 0)))
  | None => mret (inr (if hasIntegrityFail rows then 1 else 0))
  end).

(** [defer os.RemoveAll(tmp)]: not run by [os.Exit]. *)
Definition remove_tmp (tmp : string) : M Machine unit :=
  run! on_world (os_RemoveAll tmp) in
  run! on_sql (modify (remove_databases tmp)) in
  run! on_os (RemoveAll tmp) in
  mret tt.

Definition unless_exit (cleanup : M Machine unit) (body : M Machine (GoError + Z)) : M Machine (GoError + Z) := λ s,
  match body s with
  | Ret (inl err) s' => Ret (inl err) s'
  | Ret (inr code) s' => if code =? 0 then finally body cleanup s else Ret (inr code) s'
  | _ => finally body cleanup s
  end.

Definition main : M Machine (GoError + Z) :=
  match parseProfiles (fl_profiles fl) with
  | inl err => mret (inl err)
  | inr want =>
      let want := expand_all (fl_includeRelaxed fl) want in
      let payload := samplePayloadSeeded (memoir_entropy env) (fl_memoirBytes fl) (fl_seed fl) in
      let chunkPayload := samplePayloadSeeded (chunk_entropy env) (fl_chunkBytes fl) (fl_seed fl + 1) in
      if (fl_memoirs fl <? 0) || (fl_chunks fl <? 0) then panic "runtime error: makeslice: len out of range"
      else match MkdirTemp env with
      | inl err => mret (inl err)
      | inr tmp =>
          unless_exit (remove_tmp tmp)
            (match FindRepoRoot (Getwd env) with
             | None => stuck
             | Some repoRoot =>
                 value_or_fatal (open_writer repoRoot) (λ writer,
                 value_or_fatal (bench_all want tmp payload chunkPayload) (λ rows,
                 match rows with
                 | [] => mret (inl (Errorf "no profiles selected (profiles=%q)" [fl_profiles fl]))
                 | _ => report_rows writer rows
                 end))
             end)
      end
  end.

End Main.
