(* ===== verification/MainFacts.v ===== *)
(** * What the benchmark program reports

    Every row carries the profile of the run it comes from, so a report covers the
    selected profiles and no others; the exit code is the verdict of the restart
    checks; a run that is not stopped by an error is published in full. *)

From Stdlib Require Import Floats.SpecFloat.
From stdpp Require Import sorting.
From S2P Require Import Prelude Engine Utf8 Options Ffi Binding FfiFacts BindingFacts Session Semantics Concrete GoText Paths Json Harness Report Restart Bench RunDir Repo Table Sqlite SqliteRuns Main.

(** ** Rows carry the name of their profile *)

(** When the step returns a value it satisfies [Q]. *)
Definition gives {S A} (Q : A → Prop) (x : M S (GoError + A)) : Prop :=
  ∀ s a s', x s = Ret (inr a) s' → Q a.

Definition named (p : string) (rows : list phaseResult) : Prop := rows ≠ [] ∧ Forall (λ r, Profile r = p) rows.

Lemma gives_ret {S A} (Q : A → Prop) a : Q a → gives (S := S) Q (mret (inr a)).
Proof. by intros HQ s b s' [= -> _]. Qed.

Lemma gives_err {S A} (Q : A → Prop) err : gives (S := S) Q (mret (inl err)).
Proof. by intros s b s'. Qed.

Lemma gives_bind {S A B} (Q : B → Prop) (x : M S A) k : (∀ a, gives Q (k a)) → gives Q (bind x k).
Proof. intros Hk s b s'. unfold bind. destruct (x s) as [a s1| | |]; try done. apply Hk. Qed.

Lemma gives_or {S A} (Q : A → Prop) (m : M S (option GoError)) k : gives Q k → gives Q (or_fatal m k).
Proof. intros Hk. apply gives_bind. intros [err|]; [apply gives_err|done]. Qed.

Lemma gives_value {S A B} (Q1 : A → Prop) (Q : B → Prop) (x : M S (GoError + A)) k :
  gives Q1 x → (∀ a, Q1 a → gives Q (k a)) → gives Q (value_or_fatal x k).
Proof.
  intros Hx Hk s b s'. unfold value_or_fatal, bind. destruct (x s) as [[err|a] s1| | |] eqn:Hs; try done.
  apply Hk. by eapply Hx.
Qed.

Lemma gives_any {S A} (x : M S (GoError + A)) : gives (λ _, True) x.
Proof. done. Qed.

Lemma gives_deferred {S A} (Q : A → Prop) (c : M S unit) x : gives Q x → gives Q (deferred c x).
Proof.
  intros Hx s b s'. unfold deferred, finally. destruct (x s) as [[err|a] s1|msg s1| |] eqn:Hs; try done.
  - destruct (c s1); try done. intros [= <- _]. by eapply Hx.
  - by destruct (c s1).
Qed.

Lemma gives_if {S A} (Q : A → Prop) (b : bool) (x y : M S (GoError + A)) :
  gives Q x → gives Q y → gives Q (if b then x else y).
Proof. by destruct b. Qed.

Lemma named_app p rows more : named p rows → Forall (λ r, Profile r = p) more → named p (rows ++ more).
Proof. intros [Hne Hall] Hm. split; [by destruct rows|]. by apply Forall_app. Qed.

Section Named.
Context `{L : LsmEngine} {FS : HostFs} {P : Platform} {G : GoRuntime}.

Lemma batch_put_named size since dir p keys v bulk ph note :
  gives (named p) (benchF4KVSChunkBatchPut size since dir p keys v bulk ph note).
Proof.
  eapply gives_value; [apply gives_any|]. intros e _. apply gives_deferred. do 3 apply gives_or. apply gives_ret.
  split; [done|]. by repeat constructor.
Qed.

Lemma durable_named since dir p durability opts keys v :
  gives (named p) (benchF4KVSChunkDurable since dir p durability opts keys v).
Proof.
  apply gives_bind. intros _. eapply gives_value; [apply gives_any|]. intros e _. apply gives_deferred.
  do 2 apply gives_or. apply gives_ret. split; [done|]. by repeat constructor.
Qed.

Lemma per_commit_named since e dir p durability opts keys v :
  gives (named p) (chunks_per_commit since e dir p durability opts keys v).
Proof.
  apply gives_or. cbv zeta. apply gives_if; [|apply gives_ret; split; [done|by repeat constructor]].
  apply gives_or. eapply gives_value; [apply durable_named|]. intros rows [_ Hr]. apply gives_ret.
  apply named_app; [|done]. split; [done|by repeat constructor].
Qed.

Lemma group_commit_named size since e dir p durability keys v :
  gives (named p) (chunks_group_commit size since e dir p durability keys v).
Proof.
  do 4 apply gives_or. eapply gives_value; [apply batch_put_named|]. intros rows [_ Hr]. apply gives_ret.
  split; [done|by constructor].
Qed.

Lemma batched_named size since e dir p durability keys v :
  gives (named p) (chunks_batched size since e dir p durability keys v).
Proof.
  do 3 apply gives_or. cbv zeta. apply gives_or.
  apply gives_if; [|apply gives_ret; split; [done|by repeat constructor]].
  eapply gives_value; [apply batch_put_named|]. intros rows [_ Hr]. apply gives_ret. split; [done|by constructor].
Qed.

Lemma benchF4KVS_named size since dir p durability opts mk ck mp cp n skip :
  gives (named p) (benchF4KVS size since dir p durability opts mk ck mp cp n skip).
Proof.
  eapply gives_value; [apply gives_any|]. intros e _. apply gives_deferred. do 2 apply gives_or.
  eapply (gives_value (named p)).
  { repeat apply gives_if; [apply group_commit_named|apply batched_named|apply per_commit_named]. }
  intros rows [_ Hr]. eapply (gives_value (Forall (λ r, Profile r = p))).
  { apply gives_if; [by apply gives_ret|]. eapply gives_value; [apply batch_put_named|]. intros b [_ Hb].
    eapply gives_value; [apply batch_put_named|]. intros b' [_ Hb']. apply gives_ret. by apply Forall_app. }
  intros sides Hsides. apply gives_bind. intros keys. apply gives_or, gives_ret.
  apply named_app; [split; [done|by repeat constructor]|]. do 2 (apply Forall_app; split; [done|]). by repeat constructor.
Qed.

Lemma restart_rows_named p t c us : named p (restart_rows p t c us).
Proof. split; [done|by repeat constructor]. Qed.

Lemma gives_or_close {A} (Q : A → Prop) e m (k : M World (GoError + A)) : gives Q k → gives Q (or_close_fatal e m k).
Proof. intros Hk. apply gives_bind. intros [err|]; [|done]. apply gives_bind. intros _. apply gives_err. Qed.

Lemma benchF4KVSPostRestart_named size dir p opts mk ck mp cp us :
  gives (named p) (benchF4KVSPostRestart size dir p opts mk ck mp cp us).
Proof.
  apply gives_bind. intros _. apply gives_bind. intros [err|e]; [apply gives_err|]. do 3 apply gives_or_close.
  do 2 (apply gives_bind; intros _). apply gives_or_close. apply gives_bind. intros _.
  apply gives_bind. intros [err|c]; [apply gives_err|]. apply gives_ret, restart_rows_named.
Qed.

Context {SD : SqlDb}.

Lemma benchSQLite_named since path prof mk ck mp cp n :
  gives (named (p_Name prof)) (benchSQLite since path prof mk ck mp cp n).
Proof.
  apply gives_or, gives_deferred. apply gives_or. cbv zeta. do 3 apply gives_or.
  eapply (gives_value (named (p_Name prof))).
  { apply gives_or, gives_deferred. do 2 apply gives_or. apply gives_ret. split; [done|by repeat constructor]. }
  intros rows [_ Hr]. eapply gives_value; [apply gives_any|]. intros [keys err] _. apply gives_or, gives_ret.
  apply named_app; [split; [done|by repeat constructor]|]. apply Forall_app. split; [done|by repeat constructor].
Qed.

Lemma gives_or_close_db {A} (Q : A → Prop) db m (k : M sql_state (GoError + A)) : gives Q k → gives Q (or_close_db db m k).
Proof. intros Hk. apply gives_bind. intros [err|]; [|done]. apply gives_bind. intros _. apply gives_err. Qed.

Lemma benchSQLitePostRestart_named path prof mk ck mp cp us :
  gives (named (p_Name prof)) (benchSQLitePostRestart path prof mk ck mp cp us).
Proof.
  apply gives_bind. intros _. apply gives_or. do 3 apply gives_or_close_db. do 2 apply gives_or.
  apply gives_bind. intros [err|c]; [apply gives_bind; intros _; apply gives_err|].
  apply gives_bind. intros _. apply gives_ret, restart_rows_named.
Qed.

End Named.

(** ** The profiles of a report *)

Lemma unique_engines_seen p b rest seen out :
  Forall (λ r, Profile r = p) b → p ∈ seen → unique_engines (b ++ rest) seen out = unique_engines rest seen out.
Proof.
  intros Hb Hp. induction Hb as [|r b Hr Hb IH]; [done|]. cbn [app unique_engines].
  by rewrite Hr, (bool_decide_eq_true_2 _ Hp), orb_true_r.
Qed.

Lemma unique_engines_new p b rest seen out :
  named p b → p ≠ "" → p ∉ seen →
  unique_engines (b ++ rest) seen out = unique_engines rest ({[p]} ∪ seen) (out ++ [p]).
Proof.
  intros [Hne Hb] Hp Hs. destruct b as [|r b]; [done|]. apply Forall_cons in Hb as [Hr Hb]. cbn [app unique_engines].
  rewrite Hr, (bool_decide_eq_false_2 _ Hp), (bool_decide_eq_false_2 _ Hs). apply (unique_engines_seen p); set_solver.
Qed.

(** Rows in blocks, one for each name. *)
Definition blocks (names : list string) (rows : list phaseResult) : Prop :=
  ∃ bs, rows = concat bs ∧ Forall2 named names bs.

Lemma blocks_app names names' rows rows' :
  blocks names rows → blocks names' rows' → blocks (names ++ names') (rows ++ rows').
Proof.
  intros (bs & -> & H) (bs' & -> & H'). exists (bs ++ bs'). split; [by rewrite concat_app|by apply Forall2_app].
Qed.

Lemma unique_engines_fresh names bs rest seen out :
  Forall2 named names bs → NoDup names → "" ∉ names → (∀ p, p ∈ names → p ∉ seen) →
  unique_engines (concat bs ++ rest) seen out = unique_engines rest (list_to_set names ∪ seen) (out ++ names).
Proof.
  intros H. revert seen out. induction H as [|p b names bs Hp H IH]; intros seen out Hnd He Hs.
  - simpl. by rewrite (left_id_L ∅ (∪)), app_nil_r.
  - apply NoDup_cons in Hnd as [Hni Hnd]. simpl. rewrite <-app_assoc, (unique_engines_new p) by set_solver.
    rewrite IH by set_solver. rewrite <-app_assoc. f_equal. set_solver.
Qed.

Lemma unique_engines_old names bs seen out :
  Forall2 named names bs → (∀ p, p ∈ names → p ∈ seen) → unique_engines (concat bs) seen out = out.
Proof.
  intros H. induction H as [|p b names bs [_ Hp] H IH]; intros Hs; [done|]. simpl.
  rewrite (unique_engines_seen p) by set_solver. apply IH. set_solver.
Qed.

Lemma unique_engines_blocks names again rows :
  blocks (names ++ again) rows → NoDup names → "" ∉ names → (∀ p, p ∈ again → p ∈ names) →
  UniqueEngines rows = names.
Proof.
  intros (bs & -> & H) Hnd He Ha. apply Forall2_app_inv_l in H as (bs1 & bs2 & H1 & H2 & ->).
  unfold UniqueEngines. rewrite concat_app, (unique_engines_fresh names) by set_solver.
  apply (unique_engines_old again); set_solver.
Qed.

Lemma selected_filter want : selectedProfileNames want = List.filter (wantProfile want) knownProfiles.
Proof.
  unfold selectedProfileNames, wantProfile. destruct (bool_decide ("all" ∈ want)); [done|]. simpl orb.
  induction knownProfiles as [|p l IH]; [done|]. rewrite filter_cons, IH. simpl. by destruct (decide (p ∈ want)) as [H|H]; [rewrite bool_decide_eq_true_2|rewrite bool_decide_eq_false_2].
Qed.

(** Three of the profiles have no restart check. *)
Lemma restart_checks_missing :
  filter (λ p, p ∉ ((λ r, r.1.1) <$> f4kvs_restarts) ++ ((λ r, p_Name r.1) <$> sqlite_restarts)) knownProfiles =
    ["f4kvs_wal_frame"; "f4kvs_wal_indexed"; "f4kvs_group_commit_idle"].
Proof. by vm_compute. Qed.

Section Report.
Context `{L : LsmEngine} {FS : HostFs} {P : Platform} {G : GoRuntime} {SD : SqlDb} {HO : HostOs} {HF : HostFacts}.
Context (remove_databases : string → sql_state → sql_state) (env : Env) (fl : Flags).

Lemma gives_lift {S T A} (Q : A → Prop) (get : S → T) set (x : M T (GoError + A)) : gives Q x → gives Q (lift get set x).
Proof. intros Hx s a s'. unfold lift. destruct (x (get s)) eqn:Hs; try done. intros [= -> _]. by eapply Hx. Qed.

Lemma run_each_blocks {A} (nm : A → string) f l :
  (∀ a, gives (named (nm a)) (f a)) → gives (blocks (nm <$> l)) (run_each f l).
Proof.
  intros Hf. induction l as [|a l IH]; [apply gives_ret; by exists []|].
  eapply gives_value; [apply Hf|]. intros rows Hr. eapply gives_value; [exact IH|]. intros more (bs & -> & Hb).
  apply gives_ret. exists (rows :: bs). split; [done|]. by constructor.
Qed.

Lemma filter_names {A} (nm : A → string) run (l : list A) :
  nm <$> List.filter (λ a, run (nm a)) l = List.filter run (nm <$> l).
Proof. induction l as [|a l IH]; [done|]. simpl. destruct (run (nm a)); csimpl; by rewrite IH. Qed.

Lemma sqlite_run_named tmp mp cp r : gives (named (p_Name r.2)) (sqlite_run env fl tmp mp cp r).
Proof.
  destruct r as [i prof]. apply gives_lift. 
  replace (p_Name (i, prof).2) with (p_Name (scaled_profile (skipPerCommitChunks fl) prof)); [apply benchSQLite_named|].
  unfold scaled_profile. by destruct (skipPerCommitChunks fl).
Qed.

Lemma bench_all_blocks want tmp mp cp :
  gives (blocks (selectedProfileNames want ++
                 List.filter (wantProfile want)
                   ["f4kvs_wal_segment"; "f4kvs_group_commit_1ms"; "f4kvs_group_commit_10ms"; "sqlite_wal_full";
                    "sqlite_wal_normal"]))
    (bench_all env fl want tmp mp cp).
Proof.
  unfold bench_all. cbv zeta. set (run := wantProfile want).
  eapply gives_value; [apply (run_each_blocks (λ r, r.1.1.1)); intros [[[name dir] d] opts]; apply gives_lift, benchF4KVS_named|].
  intros rows1 H1. rewrite (filter_names (λ r, r.1.1.1)) in H1.
  eapply gives_value; [apply (run_each_blocks (λ r, p_Name r.2)), sqlite_run_named|].
  intros rows2 H2.
  replace ((λ r : nat * sqliteProfile, p_Name r.2) <$> imap pair (List.filter (λ prof, run (p_Name prof)) [sqlite_full; sqlite_normal]))
    with (List.filter run ["sqlite_wal_full"; "sqlite_wal_normal"]) in H2.
  2: { simpl. by destruct (run "sqlite_wal_full"), (run "sqlite_wal_normal"). }
  eapply gives_value; [apply (run_each_blocks (λ r, r.1.1)); intros [[name dir] opts]; apply gives_lift, benchF4KVSPostRestart_named|].
  intros rows3 H3. rewrite (filter_names (λ r, r.1.1)) in H3.
  eapply gives_value; [apply (run_each_blocks (λ r, p_Name r.1)); intros [prof file]; apply gives_lift, benchSQLitePostRestart_named|].
  intros rows4 H4. rewrite (filter_names (λ r, p_Name r.1)) in H4.
  apply gives_ret. rewrite selected_filter. fold run.
  pose proof (blocks_app _ _ _ _ (blocks_app _ _ _ _ H1 H2) (blocks_app _ _ _ _ H3 H4)) as H.
  rewrite <-!List.filter_app in H. by rewrite <-List.filter_app, (app_assoc rows1).
Qed.

(** A report names the selected profiles, in the fixed order. *)
Lemma bench_all_engines want tmp mp cp :
  gives (λ rows, UniqueEngines rows = selectedProfileNames want) (bench_all env fl want tmp mp cp).
Proof.
  intros s rows s' Hr. apply bench_all_blocks in Hr. eapply unique_engines_blocks; [exact Hr|..].
  - rewrite selected_filter. apply NoDup_ListNoDup, List.NoDup_filter, NoDup_ListNoDup.
    unfold knownProfiles. apply (bool_decide_unpack _). by vm_compute.
  - rewrite selected_filter, list_elem_of_In, List.filter_In. intros [Hin _]. simpl in Hin. naive_solver.
  - intros p. rewrite selected_filter, !list_elem_of_In, !List.filter_In. intros [Hin Hw]. split; [|done]. simpl in *. naive_solver.
Qed.

(** ** What the runs leave alone *)

(** The step touches neither the report files nor the output. *)
Definition unseen {A} (x : M (Machine) A) : Prop :=
  ∀ s r s', x s = Ret r s' → m_os s' = m_os s ∧ m_stdout s' = m_stdout s.

Lemma unseen_world {A} (x : M World A) : unseen (on_world x).
Proof. intros s r s'. unfold on_world, lift. destruct (x (m_world s)); try done. by intros [= _ <-]. Qed.

Lemma unseen_sql {A} (x : M sql_state A) : unseen (on_sql x).
Proof. intros s r s'. unfold on_sql, lift. destruct (x (m_sql s)); try done. by intros [= _ <-]. Qed.

Lemma unseen_value {A B} (x : M Machine (GoError + A)) (k : A → M Machine (GoError + B)) :
  unseen x → (∀ a, unseen (k a)) → unseen (value_or_fatal x k).
Proof.
  intros Hx Hk s r s'. unfold value_or_fatal, bind. destruct (x s) as [[err|a] s1| | |] eqn:Hs; try done.
  - intros [= <- <-]. by eapply Hx.
  - intros Hr. apply Hx in Hs as [<- <-]. by eapply Hk.
Qed.

Lemma unseen_ret {A} (a : A) : unseen (mret a).
Proof. by intros s r s' [= _ <-]. Qed.

Lemma unseen_each {A} (f : A → M Machine (GoError + list phaseResult)) l : (∀ a, unseen (f a)) → unseen (run_each f l).
Proof.
  intros Hf. induction l as [|a l IH]; [apply unseen_ret|]. apply unseen_value; [done|]. intros rows.
  apply unseen_value; [done|]. intros more. apply unseen_ret.
Qed.

Lemma bench_all_unseen want tmp mp cp : unseen (bench_all env fl want tmp mp cp).
Proof.
  unfold bench_all. cbv zeta. apply unseen_value; [apply unseen_each; intros [[[? ?] ?] ?]; apply unseen_world|]. intros rows1.
  apply unseen_value; [apply unseen_each; intros [? ?]; apply unseen_sql|]. intros rows2.
  apply unseen_value; [apply unseen_each; intros [[? ?] ?]; apply unseen_world|]. intros rows3.
  apply unseen_value; [apply unseen_each; intros [? ?]; apply unseen_sql|]. intros rows4. apply unseen_ret.
Qed.

(** ** What the report leaves *)

(** The operation leaves directory [p] as it is. *)
Definition spares {A} (p : list string) (x : M Os A) : Prop := ∀ s r s', x s = Ret r s' → dirs s' !! p = dirs s !! p.

Lemma spares_bind {A B} p (x : M Os A) (k : A → M Os B) : spares p x → (∀ a, spares p (k a)) → spares p (bind x k).
Proof.
  intros Hx Hk s r s'. unfold bind. destruct (x s) as [a s1| | |] eqn:Hs; try done.
  intros Hr. rewrite <-(Hx _ _ _ Hs). by eapply Hk.
Qed.

Lemma spares_ret {A} p (a : A) : spares p (mret a).
Proof. by intros s r s' [= _ <-]. Qed.

(** What every operation does first: count itself and look. *)
Lemma spares_start {A} p (k : nat → tree → M Os A) :
  (∀ n s r s', k n (dirs s) s = Ret r s' → dirs s' !! p = dirs s !! p) →
  spares p (let! n := tick in let! d := gets dirs in k n d).
Proof. intros Hk s r s' H. apply Hk in H. done. Qed.

Lemma complete_other n d p s r s' :
  complete n d s = Ret r s' → d !! p = dirs s !! p → dirs s' !! p = dirs s !! p.
Proof. unfold complete, bind, observe, mret. intros H Hd. by destruct (os_fails n); simplify_eq. Qed.

Lemma observe_complete_other n d1 d2 p s r s' :
  bind (observe d1) (λ _, complete n d2) s = Ret r s' → d1 !! p = dirs s !! p → d2 !! p = dirs s !! p →
  dirs s' !! p = dirs s !! p.
Proof. intros H H1 H2. apply (complete_other n d2 p) in H; simpl in *; congruence. Qed.

Lemma RemoveAll_spares dir p : ¬ resolve dir `prefix_of` p → spares p (RemoveAll dir).
Proof.
  intros Hne. unfold RemoveAll. case_bool_decide; [apply spares_ret|]. destruct (ends_with_dot dir); [apply spares_ret|].
  apply spares_start. intros n s r s' Hrun. eapply observe_complete_other; [exact Hrun|..].
  - unfold partly_removed. rewrite map_lookup_imap, bool_decide_eq_false_2 by done. by destruct (dirs s !! p).
  - by rewrite lookup_outside, bool_decide_eq_false_2.
Qed.

(** Writing a file changes its directory only, which is there already. *)
Lemma WriteFile_spares dir name b p s r s' :
  p ≠ resolve dir ∨ dirs s !! p = None → WriteFile dir name b s = Ret r s' → dirs s' !! p = dirs s !! p.
Proof.
  intros Hp. set (q := resolve dir) in *.
  assert (Hother : ∀ (d : tree) files x, d !! p = dirs s !! p → d !! q = Some files → <[q := x]> d !! p = dirs s !! p).
  { intros d files x Hd Hq. destruct (decide (p = q)) as [Heq|]; [|by rewrite lookup_insert_ne].
    destruct Hp as [?|Hp]; [done|]. exfalso. rewrite Heq, Hq in Hd. rewrite Heq in Hp. congruence. }
  assert (Hstep : ∀ n d1 d2 s1 r1 s2, d1 !! p = dirs s !! p → d2 !! p = dirs s !! p →
      bind (observe d1) (λ _, complete n d2) s1 = Ret r1 s2 → dirs s2 !! p = dirs s !! p).
  { intros n d1 d2 s1 r1 s2 H1 H2 H. unfold complete, bind, observe, mret in H.
    destruct (os_fails n); by simplify_eq. }
  unfold WriteFile, bind at 1. destruct (Create dir name s) as [c s1| | |] eqn:Hc; try done.
  assert (H1 : dirs s1 !! p = dirs s !! p).
  { unfold Create, bind at 1 2, tick, gets in Hc. cbv zeta in Hc. simpl in Hc. fold q in Hc.
    destruct (dirs s !! q) as [files|] eqn:Hq; [|unfold mret in Hc; by simplify_eq].
    eapply (complete_other _ _ p (mkOs (dirs s) _ _)); [exact Hc|]. by eapply Hother. }
  destruct c as [err|]; [unfold mret; by intros [= _ <-]|]. unfold bind at 1.
  destruct (write_file dir name b s1) as [c s2| | |] eqn:Hw; try done.
  assert (H2 : dirs s2 !! p = dirs s !! p).
  { unfold write_file, bind at 1 2, tick, gets in Hw. cbv zeta in Hw. simpl in Hw. fold q in Hw.
    destruct (dirs s1 !! q) as [files|] eqn:Hq; [|unfold mret in Hw; by simplify_eq].
    eapply Hstep; [..|exact Hw]; by eapply Hother. }
  unfold close_file, bind, tick, gets, complete, observe, mret. simpl.
  destruct (os_fails _); by intros [= _ <-].
Qed.

(** Printing, and a write that spares directory [p] and makes no directory. *)
Definition prints (p : list string) (s s' : Machine) (lines : list string) : Prop :=
  (∀ q, q = p ∨ dirs (m_os s) !! q = None → dirs (m_os s') !! q = dirs (m_os s) !! q) ∧
  ∃ more, m_stdout s' = m_stdout s ++ lines ++ more.

Lemma flat_report_prints p rep s s' :
  fl_out fl = "" ∨ resolve (filepath_Dir (fl_out fl)) ≠ p →
  (if bool_decide (fl_out fl = "") then mret (inr tt) else writeJSON (fl_out fl) rep) s = Ret (inr tt) s' →
  prints p s s' [].
Proof.
  intros Hp. case_bool_decide as Ho.
  - intros [= <-]. split; [done|]. exists []. by rewrite app_nil_r.
  - destruct Hp as [?|Hp]; [done|]. unfold writeJSON. destruct (MarshalIndent _) as [msg|b]; [done|].
    unfold or_fatal, bind, on_os, lift. destruct (WriteFile _ _ b (m_os s)) as [[err|] o| | |] eqn:Hw; try done.
    intros [= <-]. split; [|simpl; eauto]. intros q Hq. eapply WriteFile_spares; [|exact Hw].
    destruct Hq as [->|]; [left; congruence|by right].
Qed.

(** The writer as the report has it: with the rows appended. *)
Definition with_rows (rows : list phaseResult) (w : RunWriter) : RunWriter :=
  mkWriter (RunsRoot w) (PartialDir w) (FinalDir w) (Manifest w) (AppendPhaseResults rows (w_buffer w)) (started w).

Lemma report_rows_printed writer rows s code s' p :
  fl_out fl = "" ∨ resolve (filepath_Dir (fl_out fl)) ≠ p →
  report_rows env fl writer rows s = Ret (inr code) s' →
  ∃ s1, prints p s s1 (printTable rows) ∧
    match writer with
    | None => s' = s1 ∧ code = if hasIntegrityFail rows then 1 else 0
    | Some w => ∃ dir o, Finalize (now_end env) (Some (new_report fl rows)) (UniqueEngines rows) (with_rows rows w) (m_os s1) =
                           Ret (inr dir) o ∧ s' = set_os o s1 ∧
                         code = if HasIntegrityFailure (w_buffer (with_rows rows w)) then 1 else 0
    end.
Proof.
  intros Hp. unfold report_rows. cbv zeta. unfold bind at 1, print. set (s0 := mkMachine _ _ _ _).
  unfold value_or_fatal at 1, bind at 1.
  match goal with |- context [match ?x s0 with _ => _ end] => destruct (x s0) as [[err|[]] s1| | |] eqn:Hw; try done end.
  apply (flat_report_prints p) in Hw as [Hd [more Hout]]; [|done]. intros Hr. exists s1. split.
  { split; [done|]. exists more. rewrite Hout. simpl. by rewrite <-app_assoc. }
  destruct writer as [w|]; [|by injection Hr as <- <-]. fold (with_rows rows w) in Hr.
  unfold value_or_fatal, bind, on_os, lift in Hr.
  destruct (Finalize _ _ _ _ (m_os s1)) as [[err|dir] o| | |] eqn:Hf; try done.
  injection Hr as <- <-. by exists dir, o.
Qed.

(** An empty partial directory with nothing beneath it. *)
Definition staged_empty (w : RunWriter) (o : Os) : Prop :=
  let p := resolve (PartialDir w) in
  dirs o !! p = Some ∅ ∧ ∀ q, p `prefix_of` q → q ≠ p → dirs o !! q = None.

Lemma published_rows w rows s dir o :
  staged_empty w (m_os s) →
  Finalize (now_end env) (Some (new_report fl rows)) (UniqueEngines rows) (with_rows rows w) (m_os s) = Ret (inr dir) o →
  ∃ files, dirs o !! resolve (FinalDir w) = Some files ∧
    complete_run (now_end env) (Some (new_report fl rows)) (UniqueEngines rows) (with_rows rows w) files.
Proof.
  intros [Hd Hbelow] Hf. set (p := resolve (PartialDir w)) in *.
  destruct (Finalize_runs (now_end env) (Some (new_report fl rows)) (UniqueEngines rows) (with_rows rows w)
              (delete p (dirs (m_os s)))) with (s := m_os s) as (r & s1 & Hr & _ & HQ).
  - intros q Hq. change (p `prefix_of` q) in Hq. destruct (decide (q = p)) as [->|]; [apply lookup_delete_eq|].
    rewrite lookup_delete_ne by done. auto.
  - change (dirs (m_os s) = <[p := ∅]> (delete p (dirs (m_os s)))). by rewrite insert_delete_eq, insert_id.
  - rewrite Hf in Hr. injection Hr as <- <-. destruct HQ as (_ & files & Hc & _ & _ & ->). exists files. split; [|done].
    apply lookup_insert_eq.
Qed.

Lemma open_writer_some repoRoot s w s1 :
  open_writer env fl repoRoot s = Ret (inr (Some w)) s1 →
  fl_runsRoot fl ≠ "" ∧ m_stdout s1 = m_stdout s ∧ staged_empty w (m_os s1) ∧
  PartialDir w = filepath_Join [fl_runsRoot fl; runID env fl +:+ ".partial"] ∧
  FinalDir w = filepath_Join [fl_runsRoot fl; runID env fl] ∧ w_buffer w = mkBuffer (runID env fl) [].
Proof.
  unfold open_writer. case_bool_decide as Hroot; [done|]. cbv zeta. unfold value_or_fatal, bind, on_os, lift.
  destruct (NewRunWriter _ _ _ _ (m_os s)) as [[err|w'] o| | |] eqn:Hn; try done. intros [= <- <-].
  apply NewRunWriter_starts in Hn as (d0 & Hd & Hfresh & _ & Hp & Hf & Hb). split_and!; try done.
  split; simpl; rewrite Hd; [apply lookup_insert_eq|]. intros q Hq Hne. rewrite lookup_insert_ne by done. auto.
Qed.

Lemma open_writer_none repoRoot s s1 :
  open_writer env fl repoRoot s = Ret (inr None) s1 → s1 = s ∧ fl_runsRoot fl = "".
Proof.
  unfold open_writer. case_bool_decide; [by intros [= <-]|]. cbv zeta. unfold value_or_fatal, bind, on_os, lift.
  by destruct (NewRunWriter _ _ _ _ (m_os s)) as [[err|w'] o| | |].
Qed.

(** What a run that is not stopped leaves: the table printed, the verdict, and the
    run directory when there is one. *)
Definition reported (rows : list phaseResult) (code : Z) (s s' : Machine) : Prop :=
  code = (if hasIntegrityFail rows then 1 else 0) ∧
  (∃ more, m_stdout s' = m_stdout s ++ printTable rows ++ more) ∧
  (fl_runsRoot fl ≠ "" → ∃ w files,
     b_lines (w_buffer w) = b_lines (AppendPhaseResults rows (mkBuffer (runID env fl) [])) ∧
     dirs (m_os s') !! resolve (filepath_Join [fl_runsRoot fl; runID env fl]) = Some files ∧
     complete_run (now_end env) (Some (new_report fl rows)) (UniqueEngines rows) w files).

Section Verdict.
Let partial := filepath_Join [fl_runsRoot fl; runID env fl +:+ ".partial"].
Let final := filepath_Join [fl_runsRoot fl; runID env fl].
Hypothesis Hout : fl_out fl = "" ∨ resolve (filepath_Dir (fl_out fl)) ≠ resolve partial.

Lemma report_rows_reported repoRoot writer rows s s1 s2 code s' :
  open_writer env fl repoRoot s = Ret (inr writer) s1 → m_os s2 = m_os s1 → m_stdout s2 = m_stdout s1 →
  report_rows env fl writer rows s2 = Ret (inr code) s' → reported rows code s s'.
Proof.
  intros Hw Hos Hso Hr. apply (report_rows_printed _ _ _ _ _ (resolve partial)) in Hr as (s3 & [Hd [more Hm]] & Hr); [|done].
  destruct writer as [w|].
  - apply open_writer_some in Hw as (Hroot & Hs1 & He & Hp & Hf & Hb). destruct Hr as (dir & o & Hfin & -> & ->).
    split; [|split].
    + unfold with_rows. cbn [w_buffer]. by rewrite integrity_gates_agree, Hb.
    + exists more. simpl. by rewrite Hm, Hso, Hs1.
    + intros _. assert (He3 : staged_empty w (m_os s3)).
      { unfold staged_empty in *. rewrite Hp in *. fold partial in He |- *. rewrite <-Hos in He. destruct He as [He Hb'].
        split; [rewrite Hd; auto|]. intros q Hq Hne. rewrite Hd; [auto|]. right. auto. }
      apply published_rows in Hfin as (files & Hfl & Hc); [|done].
      exists (with_rows rows w), files. split; [|split; [by rewrite <-Hf|done]].
      unfold with_rows. cbn [w_buffer]. by rewrite Hb.
  - apply open_writer_none in Hw as [-> Hroot]. destruct Hr as [-> ->]. split; [done|]. split; [|done].
    exists more. congruence.
Qed.

Lemma remove_tmp_reported rows code s tmp s1 s2 :
  ¬ resolve tmp `prefix_of` resolve final → reported rows code s s1 → remove_tmp remove_databases tmp s1 = Ret tt s2 → reported rows code s s2.
Proof.
  intros Ht (Hc & Hm & Hf) Hr. unfold remove_tmp, bind, on_world, on_sql, on_os, lift, os_RemoveAll, modify in Hr. simpl in Hr.
  destruct (RemoveAll tmp (m_os s1)) as [r o| | |] eqn:Hrm; try done. injection Hr as <-. split; [done|]. split; [done|].
  intros Hroot. destruct (Hf Hroot) as (w & files & ? & Hl & ?). exists w, files. simpl.
  fold final in Hl |- *. by rewrite (RemoveAll_spares tmp (resolve final) ltac:(done) _ _ _ Hrm).
Qed.

End Verdict.

Lemma unless_exit_code cleanup body s code s' :
  unless_exit cleanup body s = Ret (inr code) s' →
  ∃ s1, body s = Ret (inr code) s1 ∧ (s' = s1 ∨ cleanup s1 = Ret tt s').
Proof.
  unfold unless_exit, finally. destruct (body s) as [[err|c] s1|msg s1| |]; try done.
  - destruct (c =? 0); [|intros [= -> ->]; eauto]. destruct (cleanup s1) as [[] s2| | |] eqn:Hc; try done.
    intros [= -> ->]. eauto.
  - by destruct (cleanup s1).
Qed.

(** The flags of [main] as its runs see them. *)
Definition memoir_payload : goslice := samplePayloadSeeded (memoir_entropy env) (fl_memoirBytes fl) (fl_seed fl).
Definition chunk_payload : goslice := samplePayloadSeeded (chunk_entropy env) (fl_chunkBytes fl) (fl_seed fl + 1).
Definition selected (want : gset string) : gset string := expand_all (fl_includeRelaxed fl) want.

(** The runs of a program that was not stopped, and what it reported of them. *)
Lemma main_traced s code s' :
  fl_out fl = "" ∨ resolve (filepath_Dir (fl_out fl)) ≠ resolve (filepath_Join [fl_runsRoot fl; runID env fl +:+ ".partial"]) →
  (∀ tmp, MkdirTemp env = inr tmp → ¬ resolve tmp `prefix_of` resolve (filepath_Join [fl_runsRoot fl; runID env fl])) →
  main remove_databases env fl s = Ret (inr code) s' →
  ∃ want tmp root writer s1 rows s2,
    parseProfiles (fl_profiles fl) = inr want ∧ MkdirTemp env = inr tmp ∧
    open_writer env fl root s = Ret (inr writer) s1 ∧
    bench_all env fl (selected want) tmp memoir_payload chunk_payload s1 = Ret (inr rows) s2 ∧
    reported rows code s s'.
Proof.
  intros Hout Htmp. unfold main. destruct (parseProfiles (fl_profiles fl)) as [err|want]; [done|]. cbv zeta.
  case_match; [done|]. destruct (MkdirTemp env) as [err|tmp]; [done|]. specialize (Htmp tmp eq_refl).
  intros (s1 & Hbody & Hend)%unless_exit_code.
  destruct (FindRepoRoot (Getwd env)) as [root|]; [|done].
  unfold value_or_fatal at 1, bind at 1 in Hbody.
  destruct (open_writer env fl root s) as [[err|writer] s2| | |] eqn:Hw; try done.
  unfold value_or_fatal, bind in Hbody.
  destruct (bench_all _ _ _ _ _ _ s2) as [[err|rows] s3| | |] eqn:Hb; try done.
  destruct (bench_all_unseen _ _ _ _ _ _ _ Hb) as [Hos Hso].
  assert (Hr : reported rows code s s1).
  { destruct rows; [done|]. by eapply (report_rows_reported Hout). }
  exists want, tmp, root, writer, s2, rows, s3. split_and!; try done. destruct Hend as [->|Hrm]; [done|].
  by eapply remove_tmp_reported.
Qed.

(** C17: the program as a whole.  A run that is not stopped by an error has measured
    exactly the profiles its flags select, in the fixed order: the engines of the
    report are the selected names.  It has printed the table of its rows, exits
    with 1 exactly when a restart check failed, and, with [-runs-root], has
    published the complete run, its lines made of all rows, also when it exits
    with 1.  (The flat report must not be written into the partial directory, and
    the directory of the run is not inside the temporary one.) *)
Theorem main_report s code s' :
  fl_out fl = "" ∨ resolve (filepath_Dir (fl_out fl)) ≠ resolve (filepath_Join [fl_runsRoot fl; runID env fl +:+ ".partial"]) →
  (∀ tmp, MkdirTemp env = inr tmp → ¬ resolve tmp `prefix_of` resolve (filepath_Join [fl_runsRoot fl; runID env fl])) →
  main remove_databases env fl s = Ret (inr code) s' →
  ∃ want rows,
    parseProfiles (fl_profiles fl) = inr want ∧
    UniqueEngines rows = selectedProfileNames (expand_all (fl_includeRelaxed fl) want) ∧
    reported rows code s s'.
Proof.
  intros Hout Htmp (want & tmp & root & writer & s1 & rows & s2 & ? & _ & _ & Hb & ?)%main_traced; [|done..].
  exists want, rows. split; [done|]. split; [|done]. by eapply bench_all_engines.
Qed.

End Report.

(** ** A run of the whole program *)
Section Concrete.
#[local] Existing Instances steady_engine forgetful steady_platform mem_db quiet_host sample_host.

(** Two profiles, a run directory and a flat report. *)
Definition demo_flags : Flags :=
  mkFlags 2 3 40 40 2 true 42 "runs" "" "f4kvs_wal_segment,sqlite_wal_full" 10000 500 false "out/report.json" "r1".

Definition demo_env : Env :=
  mkEnv (λ _ _, 1000) (λ _, 2000) (λ _, x61) (λ _, x62) (inr "/tmp/f4kvs-sqlite-bench-1") "/src/f4kvs/bench/embed_vs_sqlite"
    1784370330 1784370331 1784370400.

(** The working directory, with a place for the flat report. *)
Definition demo_dirs : tree := {[ [] := ∅; ["work"] := ∅; ["work"; "out"] := ∅ ]}.

Definition demo_machine : Machine (L := steady_engine) (SD := mem_db) :=
  mkMachine (L := steady_engine) (SD := mem_db) steady_world no_tables (mkOs demo_dirs 0 []) [].

Definition demo_main (fl : Flags) : outcome (Machine (L := steady_engine) (SD := mem_db)) (GoError + Z) :=
  main (L := steady_engine) (SD := mem_db) (λ _ d, d) demo_env fl demo_machine.

Definition machine_of {A} (x : outcome (Machine (L := steady_engine) (SD := mem_db)) A) : Machine (L := steady_engine) (SD := mem_db) :=
  match x with Ret _ s => s | _ => demo_machine end.

Definition exits (code : Z) (x : outcome (Machine (L := steady_engine) (SD := mem_db)) (GoError + Z)) : bool :=
  match x with Ret (inr c) _ => c =? code | _ => false end.

Lemma exits_ok code x : exits code x = true → x = Ret (inr code) (machine_of x).
Proof. destruct x as [[err|c] s| | |]; simpl; try done. by intros ->%Z.eqb_eq. Qed.

Lemma main_report_witness :
  ∃ want rows,
    parseProfiles "f4kvs_wal_segment,sqlite_wal_full" = inr want ∧
    UniqueEngines rows = selectedProfileNames (expand_all true want) ∧
    reported (L := steady_engine) (SD := mem_db) demo_env demo_flags rows 0 demo_machine (machine_of (demo_main demo_flags)).
Proof.
  apply (main_report (L := steady_engine) (SD := mem_db) (λ _ d, d) demo_env demo_flags demo_machine 0).
  - right. apply (bool_decide_unpack _). by vm_compute.
  - intros tmp [= <-]. apply (bool_decide_unpack _). by vm_compute.
  - apply exits_ok. vm_compute. reflexivity.
Defined.

(** Evaluated: the files of the run. *)
Example demo_published :
  (map_to_list <$> (dirs (m_os (machine_of (demo_main demo_flags))) !! ["work"; "runs"; "r1"])) ≫= (λ l, Some (merge_sort string_le l.*1)) =
    Some ["manifest.json"; "report.legacy.json"; "results.jsonl"].
Proof. vm_compute. reflexivity. Qed.

End Concrete.
