(* ===== verification/MainRuns.v ===== *)
(** * The benchmark program on lawful parts

    The runs of [main] put together: on an engine and a database that keep their
    contracts, in a new temporary directory, the program never panics, every run
    it starts is complete and every restart check passes, so it exits with 0
    unless an error stops it. *)

From Stdlib Require Import Floats.SpecFloat.
From S2P Require Import Prelude Engine Utf8 Options Ffi Binding FfiFacts BindingFacts Session Semantics Concrete GoText Paths Json Harness Report Restart Bench Places RunDir Repo Table Sqlite SqliteRuns Main MainFacts.

(** ** A list of runs *)

Section Each.
Context `{L : LsmEngine} {P : Platform} {SD : SqlDb}.

(** What a step answers, and what holds of the machine unless it is an error. *)
Definition measures {A} (Q : A → Prop) (I : Machine → Prop) (x : outcome Machine (GoError + A)) : Prop :=
  ends (λ r s, match r with inl _ => True | inr a => Q a ∧ I s end) (λ _, False) x.

Lemma measures_value {A B} (Q : A → Prop) I (Q' : B → Prop) I' (x : M Machine (GoError + A)) k s :
  measures Q I (x s) → (∀ a s', Q a → I s' → measures Q' I' (k a s')) → measures Q' I' (value_or_fatal x k s).
Proof.
  intros Hx Hk. eapply ends_bind; [exact Hx|]. intros [err|a] s' H; [done|]. destruct H as [HQ HI]. by apply Hk.
Qed.

(** Runs one after another; [I l] holds of the machine when the runs [l] are still
    to be done. *)
Lemma run_each_measures {A} (I : list A → Machine → Prop) (Q : A → list phaseResult → Prop)
    (f : A → M Machine (GoError + list phaseResult)) l s :
  (∀ a l s, I (a :: l) s → measures (Q a) (I l) (f a s)) → I l s →
  measures (λ rows, ∃ bs, rows = concat bs ∧ Forall2 Q l bs) (I []) (run_each f l s).
Proof.
  intros Hf. revert s. induction l as [|a l IH]; intros s HI.
  - split; [|done]. exists []. split; [done|constructor].
  - eapply measures_value; [by apply Hf|]. intros rows s1 HQ HI1.
    eapply measures_value; [by apply IH|]. intros more s2 (bs & -> & Hbs) HI2.
    split; [|done]. exists (rows :: bs). split; [done|by constructor].
Qed.

End Each.

(** ** The runs on F4KVS *)

Lemma wf_same_memory `{L : LsmEngine} {P : Platform} s s' : same_memory s s' → wf s → wf s'.
Proof. intros (Hh & Hs & Hb) [W1 W2 W3]. split; rewrite ?Hh, ?Hs, ?Hb; done. Qed.

Lemma ends_always {S A} (I : S → Prop) (Q : A → S → Prop) R (x : M S A) s :
  ends Q R (x s) → always I x → I s → ends (λ a s', Q a s' ∧ I s') R (x s).
Proof. intros Hx Hi Hs. specialize (Hi s Hs). destruct (x s); try done. Qed.

Lemma always_all {S A X} (I : X → S → Prop) (D : X → Prop) (x : M S A) :
  (∀ i, D i → always (I i) x) → always (λ s, ∀ i, D i → I i s) x.
Proof.
  intros Hx s Hs. pose proof (λ i Hi, Hx i Hi s (Hs i Hi)) as H. by destruct (x s).
Qed.

(** Checks a list of options one by one. *)
Ltac fits :=
  repeat (apply Forall_cons_2;
    [intros po Hpo; simpl in Hpo; first [discriminate Hpo|injection Hpo as <-; vm_compute; intuition discriminate]|]);
  apply Forall_nil_2.

(** The options [main] gives its runs are of their Go types. *)
Lemma f4kvs_options_fit r : r ∈ f4kvs_runs → ∀ po, r.2 = Some po → go_options_fit po.
Proof.
  assert (Forall (λ r : string * string * string * option OpenOptions,
            ∀ po, r.2 = Some po → go_options_fit po) f4kvs_runs) as H.
  { fits. }
  rewrite Forall_forall in H. apply H.
Qed.

Lemma f4kvs_restart_options_fit r : r ∈ f4kvs_restarts → ∀ po, r.2 = Some po → go_options_fit po.
Proof.
  assert (Forall (λ r : string * string * option OpenOptions, ∀ po, r.2 = Some po → go_options_fit po)
            f4kvs_restarts) as H.
  { fits. }
  rewrite Forall_forall in H. apply H.
Qed.

(** The directories of the runs, pairwise different. *)
Definition run_dir (r : string * string * string * option OpenOptions) : string := r.1.1.2.

Lemma run_dirs_good r : r ∈ f4kvs_runs → good_name (run_dir r) = true.
Proof.
  assert (Forall (λ r, good_name (run_dir r) = true) f4kvs_runs) as H by (repeat constructor; by vm_compute).
  rewrite Forall_forall in H. apply H.
Qed.

Lemma restart_dirs_good r : r ∈ f4kvs_restarts → good_name r.1.2 = true.
Proof.
  assert (Forall (λ r : string * string * option OpenOptions, good_name r.1.2 = true) f4kvs_restarts) as H
    by (repeat constructor; by vm_compute).
  rewrite Forall_forall in H. apply H.
Qed.

Lemma run_dirs_NoDup : NoDup (run_dir <$> f4kvs_runs).
Proof. apply (bool_decide_unpack _). by vm_compute. Qed.

(** Two names under one directory. *)
Lemma siblings_apart base a b :
  place base → good_name a = true → good_name b = true → a ≠ b →
  apart_dirs (filepath_Join [dir_of base; a]) (filepath_Join [dir_of base; b]).
Proof.
  intros Hp Ha Hb Hne. destruct (place_join base a Hp Ha) as [-> Pa], (place_join base b Hp Hb) as [-> Pb].
  assert (String.list_byte_of_string a ≠ String.list_byte_of_string b) as Hl.
  { intros H. apply Hne. by rewrite <-(string_of_bytes_of_string a), H, string_of_bytes_of_string. }
  apply apart_dir_of; [apply Pa|apply Pb|apply Pa|apply Pb|..];
    intros [k Hk]; rewrite <-app_assoc in Hk; apply app_inv_head in Hk; by simplify_list_eq.
Qed.

Section Runs.
Context `{L : LsmEngine} {Laws : LsmLaws L} {PL : LsmPlace} {FS : HostFs} {HP : HostPlace FS}.
Context {P : Platform} {POk : PlatformOk P} {G : GoRuntime} {GOk : GoRuntimeOk G}.
Context {SD : SqlDb} {SL : SqlLaws SD} {HO : HostOs} {HF : HostFacts}.
Context (env : Env) (fl : Flags).

(** What is asked of the engine beyond its contract: it does not fail to scan, to
    shut down or, without slices, to flush its log. *)
Hypothesis Hscan : ∀ p g d, ∃ ks gd, lsm_scan_prefix p g d = (inr ks, gd).
Hypothesis Hshut : ∀ g d, (lsm_shutdown g d).1 = inr tt.
Hypothesis Hwal : globalBatchPutSize fl ≤ 0 → ∀ g d, (lsm_flush_wal g d).1 = inr tt.

(** And of the flags. *)
Hypothesis Hkeys : (0 < fl_memoirs fl ∧ 0 < fl_chunks fl) ∨ fl_randomGets fl ≤ 0.
Hypothesis Hcounts : fl_memoirs fl ≤ 2 ^ 30 ∧ fl_chunks fl ≤ 2 ^ 30.

Context (base : list (list byte)) (mp cp : goslice).
Hypothesis Hbase : place base.
Hypothesis Hmp : zlen (slice_bytes mp) < 2 ^ 31.
Hypothesis Hcp : zlen (slice_bytes cp) < 2 ^ 31.

Let tmp := dir_of base.
Let skip := skipPerCommitChunks fl.
Let nm := zlen (keys_m fl).
Let nc := zlen (keys_c fl).
Abbreviation at_dir name := (filepath_Join [tmp; name]).

(** The process can start, and the directories of the runs still to do are empty
    and no engine lives in them. *)
Definition ready (l : list (string * string * string * option OpenOptions)) (s : Machine) : Prop :=
  NoDup (run_dir <$> l) ∧ (∀ r, r ∈ l → r ∈ f4kvs_runs) ∧ wf (proc (m_world s)) ∧
  ∀ r, r ∈ l → away (at_dir (run_dir r)) ∅ (m_world s).

(** The rows of a run on F4KVS. *)
Definition f4kvs_rows (r : string * string * string * option OpenOptions) (rows : list phaseResult) : Prop :=
  summary rows = bench_summary (globalBatchPutSize fl) r.1.1.1 nm nc (fl_randomGets fl) skip
                   (usesGroupCommit (openOptsForProfile (globalBatchPutSize fl) r.2 nc)).

Lemma f4kvs_run_measures r l s : ready (r :: l) s → measures (f4kvs_rows r) (ready l) (f4kvs_run env fl tmp mp cp r s).
Proof.
  intros (Hnd & Hin & Hwf & Hfree). destruct (place_join base (run_dir r) Hbase) as [Hj Hpl];
    [apply run_dirs_good, Hin; by left|]. fold tmp in Hj.
  assert (∀ po, r.2 = Some po → go_options_fit po) as Hfit by (apply f4kvs_options_fit, Hin; by left).
  pose proof (Hfree r ltac:(by left)) as Hr. rewrite Hj in Hr.
  apply NoDup_cons in Hnd as [Hni Hnd]. destruct r as [[[name d] durability] opts]. simpl in *.
  apply ends_lift. cbn [m_world set_world]. unfold run_dir in Hj. simpl in Hj. rewrite Hj.
  set (x := benchF4KVS _ _ _ _ _ _ _ _ _ _ _ _).
  assert (clean_run (m_world s) (f4kvs_rows (name, d, durability, opts)) (x (m_world s))) as Hclean.
  { apply bench_run_ends; try done; [by apply place_check|apply Hr|apply Hcounts]. }
  assert (always (λ w, ∀ r, r ∈ l → away (at_dir (run_dir r)) ∅ w) x) as Hkeep.
  { apply always_all. intros r' Hl. apply benchF4KVS_kept; [done| |done]. rewrite <-Hj.
    apply siblings_apart; [done|..].
    - apply (run_dirs_good (name, d, durability, opts)), Hin. by left.
    - apply run_dirs_good, Hin. by right.
    - intros Hd. apply Hni. change (d ∈ run_dir <$> l). rewrite Hd. by apply list_elem_of_fmap_2. }
  eapply ends_impl; [apply (ends_always _ _ _ _ _ Hclean Hkeep); intros r' Hl; apply Hfree; by right|].
  intros [err|rows] w [H Hw]; [done|]. destruct H as (HQ & Hm & _). split; [done|].
  split_and!; [done|intros r' Hl; apply Hin; by right|by eapply wf_same_memory|done].
Qed.

(** ** The runs on SQLite *)

(** The databases of a run: its own and the one of the batched side run. *)
Hypothesis Hdbs : ∀ i prof, prof ∈ [sqlite_full; sqlite_normal] → (i < 2)%nat →
  let path := at_dir ("sqlite_" +:+ pretty (Z.of_nat i) +:+ ".db") in
  apart (data_source prof path) (data_source prof (path +:+ "_chunk_batched")).

Definition sqlite_rows (r : nat * sqliteProfile) (rows : list phaseResult) : Prop :=
  ∃ found, summary rows = sqlite_summary (p_Name r.2) nm nc found (fl_randomGets fl) ∧ found ≤ nc.

Definition started_ok (s : Machine) : Prop := wf (proc (m_world s)).

Lemma sqlite_run_measures r s :
  r.2 ∈ [sqlite_full; sqlite_normal] → (r.1 < 2)%nat → started_ok s →
  measures (sqlite_rows r) started_ok (sqlite_run env fl tmp mp cp r s).
Proof.
  destruct r as [i prof]. intros Hp Hi Hs. apply ends_lift. cbn [m_world set_sql].
  set (prof' := scaled_profile skip prof).
  assert (p_Name prof' = p_Name prof ∧ DSN prof' = DSN prof) as [Hn Hd] by (subst prof'; unfold scaled_profile; by destruct skip).
  eapply ends_impl; [apply sqlite_run_ends; [|done]|].
  - unfold data_source. fold skip prof'. rewrite Hd. by apply (Hdbs i prof).
  - intros [err|rows] d H; [done|]. destruct H as (found & Hsum & Hle & _). split; [|done].
    exists found. fold skip prof' in Hsum. by rewrite Hn in Hsum.
Qed.

(** ** The restart checks *)

Definition passed (name : string) (rows : list phaseResult) : Prop :=
  rows = restart_rows name (nm + nc) (nm + nc) (restart_us env name).

Lemma not_overfull : ¬ overfull (fl_memoirs fl) (fl_chunks fl).
Proof.
  unfold overfull, memoirKeys, chunkKeys, zlen. rewrite !length_fmap, !length_seqZ. destruct Hcounts. lia.
Qed.

Lemma f4kvs_restart_measures r s :
  r ∈ f4kvs_restarts → started_ok s → measures (passed r.1.1) started_ok (f4kvs_restart env fl tmp mp cp r s).
Proof.
  intros Hin Hs. destruct (place_join base r.1.2 Hbase (restart_dirs_good _ Hin)) as [Hj Hpl].
  fold tmp in Hj.
  pose proof (f4kvs_restart_options_fit r Hin) as Hfit. destruct r as [[name d] opts]. simpl in *.
  apply ends_lift. cbn [m_world set_world]. rewrite Hj.
  eapply ends_weaken; [eapply ends_impl; [apply (restart_ends (dir_of (base ++ [_])) (place_check _ Hpl) Hshut Hscan); try done|]|].
  - intros d0. apply removed.
  - intros [err|rows] w H; [done|]. by destruct H.
  - intros w Ho. by apply not_overfull.
Qed.

Lemma sqlite_restart_measures r s :
  started_ok s → measures (passed (p_Name r.1)) started_ok (sqlite_restart env fl tmp mp cp r s).
Proof.
  destruct r as [prof file]. intros Hs. apply ends_lift. cbn [m_world set_sql].
  destruct (sqlite_restart_integrity (at_dir file) prof (fl_memoirs fl) (fl_chunks fl) mp cp
              (restart_us env (p_Name prof)) (m_sql s)) as (r & d & Hx & Hr).
  unfold keys_m, keys_c. rewrite Hx. by destruct r.
Qed.

(** ** All runs *)

(** A list of rows made of complete runs and passed checks, one for each run that
    is selected, in order. *)
Definition measured (want : gset string) (rows : list phaseResult) : Prop :=
  let run := wantProfile want in
  ∃ fs ss fr sr, rows = concat fs ++ concat ss ++ concat fr ++ concat sr ∧
    Forall2 f4kvs_rows (List.filter (λ r, run r.1.1.1) f4kvs_runs) fs ∧
    Forall2 sqlite_rows (imap pair (List.filter (λ prof, run (p_Name prof)) [sqlite_full; sqlite_normal])) ss ∧
    Forall2 (λ r, passed r.1.1) (List.filter (λ r, run r.1.1) f4kvs_restarts) fr ∧
    Forall2 (λ r, passed (p_Name r.1)) (List.filter (λ r, run (p_Name r.1)) sqlite_restarts) sr.

Lemma filter_ready (f : string * string * string * option OpenOptions → bool) s :
  ready f4kvs_runs s → ready (List.filter f f4kvs_runs) s.
Proof.
  intros (Hnd & Hin & Hwf & Hfree).
  assert (∀ r, r ∈ List.filter f f4kvs_runs → r ∈ f4kvs_runs) as Hsub.
  { intros r. rewrite !list_elem_of_In, List.filter_In. by intros [? _]. }
  split_and!; [|by intros r Hr; apply Hin, Hsub|done|by intros r Hr; apply Hfree, Hsub].
  clear -Hnd. induction f4kvs_runs as [|r l IH]; [done|]. cbn [List.filter].
  rewrite fmap_cons in Hnd. apply NoDup_cons in Hnd as [Hni Hnd]. specialize (IH Hnd). destruct (f r); [|done].
  rewrite fmap_cons. apply NoDup_cons. split; [|done]. intros (r' & Hr & Hl)%list_elem_of_fmap. apply Hni. rewrite Hr.
  apply list_elem_of_fmap_2. rewrite list_elem_of_In, List.filter_In in Hl. rewrite list_elem_of_In. by destruct Hl.
Qed.

Lemma bench_all_measures want s :
  ready f4kvs_runs s → measures (measured want) started_ok (bench_all env fl want tmp mp cp s).
Proof.
  intros Hs. unfold bench_all. cbv zeta. set (run := wantProfile want).
  eapply measures_value; [apply (run_each_measures ready f4kvs_rows); [apply f4kvs_run_measures|by apply filter_ready]|].
  intros rows1 s1 (fs & -> & Hf) (_ & _ & Hs1 & _).
  eapply measures_value.
  { apply (run_each_measures (λ l s, (∀ r, r ∈ l → r.2 ∈ [sqlite_full; sqlite_normal] ∧ (r.1 < 2)%nat) ∧ started_ok s) sqlite_rows).
    - intros r l s2 [Hl Hs2]. eapply ends_impl; [apply sqlite_run_measures; [apply Hl; by left..|done]|].
      intros [err|rows] s3 H; [done|]. destruct H as [HQ Hs3]. split; [done|]. split; [|done].
      intros r' Hr'. apply Hl. by right.
    - split; [|exact Hs1]. intros r (i & prof & -> & Hl)%elem_of_lookup_imap. split.
      + apply list_elem_of_lookup_2 in Hl. rewrite list_elem_of_In, List.filter_In in Hl. rewrite list_elem_of_In. apply Hl.
      + apply lookup_lt_Some in Hl. pose proof (List.filter_length_le (λ prof, run (p_Name prof)) [sqlite_full; sqlite_normal]).
        simpl in *. lia. }
  intros rows2 s2 (ss & -> & Hss) [_ Hs2].
  eapply measures_value.
  { apply (run_each_measures (λ l s, (∀ r, r ∈ l → r ∈ f4kvs_restarts) ∧ started_ok s) (λ r, passed r.1.1)).
    - intros r l s3 [Hl Hs3]. eapply ends_impl; [apply f4kvs_restart_measures; [apply Hl; by left|done]|].
      intros [err|rows] s4 H; [done|]. destruct H as [HQ Hs4]. split; [done|]. split; [|done].
      intros r' Hr'. apply Hl. by right.
    - split; [|exact Hs2]. intros r. rewrite !list_elem_of_In, List.filter_In. by intros [? _]. }
  intros rows3 s3 (fr & -> & Hfr) [_ Hs3].
  eapply measures_value.
  { apply (run_each_measures (λ _, started_ok) (λ r, passed (p_Name r.1))); [|exact Hs3].
    intros r l s4 Hs4. by apply sqlite_restart_measures. }
  intros rows4 s4 (sr & -> & Hsr) Hs4. split; [|done]. by exists fs, ss, fr, sr.
Qed.

End Runs.

(** ** The verdict *)

Lemma gate_app rows rows' : hasIntegrityFail (rows ++ rows') = hasIntegrityFail rows || hasIntegrityFail rows'.
Proof. unfold hasIntegrityFail. apply existsb_app. Qed.

Lemma gate_concat {A} (Q : A → list phaseResult → Prop) l bs :
  (∀ a rows, Q a rows → hasIntegrityFail rows = false) → Forall2 Q l bs → hasIntegrityFail (concat bs) = false.
Proof. intros HQ H. induction H as [|a rows l bs Ha _ IH]; [done|]. simpl. by rewrite gate_app, (HQ _ _ Ha). Qed.

(** Only the restart checks have rows the gate looks at. *)
Lemma gate_phases rows :
  "post_restart_row_count" ∉ (summary rows).*1.*1 → hasIntegrityFail rows = false.
Proof.
  induction rows as [|r rows IH]; [done|]. unfold summary. csimpl. intros [Hr Hrows]%not_elem_of_cons.
  rewrite bool_decide_eq_false_2 by done. by apply IH.
Qed.

Lemma bench_phases size profile n k gets skip gc :
  "post_restart_row_count" ∉ (bench_summary size profile n k gets skip gc).*1.*1.
Proof.
  unfold bench_summary, chunk_summary. destruct skip, gc, (0 <? size); simpl; apply (bool_decide_unpack _); by vm_compute.
Qed.

Lemma sqlite_phases profile n k found gets : "post_restart_row_count" ∉ (sqlite_summary profile n k found gets).*1.*1.
Proof. apply (bool_decide_unpack _). by vm_compute. Qed.

Lemma measured_gate env fl want rows : measured env fl want rows → hasIntegrityFail rows = false.
Proof.
  intros (fs & ss & fr & sr & -> & Hf & Hs & Hfr & Hsr). rewrite !gate_app, !orb_false_iff. split_and!.
  - eapply gate_concat; [|exact Hf]. intros r rows Hr. apply gate_phases. rewrite Hr. apply bench_phases.
  - eapply gate_concat; [|exact Hs]. intros r rows (found & Hr & _). apply gate_phases. rewrite Hr. apply sqlite_phases.
  - eapply gate_concat; [|exact Hfr]. intros r rows ->. by rewrite restart_rows_gate, Z.eqb_refl.
  - eapply gate_concat; [|exact Hsr]. intros r rows ->. by rewrite restart_rows_gate, Z.eqb_refl.
Qed.

(** ** The program *)

Section Program.
Context `{L : LsmEngine} {Laws : LsmLaws L} {PL : LsmPlace} {FS : HostFs} {HP : HostPlace FS}.
Context {P : Platform} {POk : PlatformOk P} {G : GoRuntime} {GOk : GoRuntimeOk G}.
Context {SD : SqlDb} {SL : SqlLaws SD} {HO : HostOs} {HF : HostFacts}.
Context (remove_databases : string → sql_state → sql_state) (env : Env) (fl : Flags).

Definition answered {A} (x : M Machine A) : Prop := ∀ s, ∃ r s', x s = Ret r s'.

Lemma on_os_answered {A} (x : M Os A) : answering (λ _, True) x → answered (on_os x).
Proof. intros Hx s. destruct (Hx (m_os s)) as (r & o & Hr & _). unfold on_os, lift. rewrite Hr. eauto. Qed.

Lemma value_answered {A B} (x : M Machine (GoError + A)) (k : A → M Machine (GoError + B)) :
  answered x → (∀ a, answered (k a)) → answered (value_or_fatal x k).
Proof.
  intros Hx Hk s. unfold value_or_fatal, bind. destruct (Hx s) as (r & s1 & ->). destruct r as [err|a]; [by eexists _, _|apply Hk].
Qed.

Lemma ret_answered {A} (a : A) : answered (mret a).
Proof. intros s. by eexists _, _. Qed.

Lemma open_writer_answered root : answered (open_writer env fl root).
Proof.
  unfold open_writer. case_bool_decide; [apply ret_answered|]. cbv zeta.
  apply value_answered; [apply on_os_answered, NewRunWriter_answers|]. intros w. apply ret_answered.
Qed.

(** Opening the writer does not touch the process. *)
Lemma open_writer_world root s writer s1 : open_writer env fl root s = Ret (inr writer) s1 → m_world s1 = m_world s.
Proof.
  unfold open_writer. case_bool_decide; [by intros [= _ <-]|]. cbv zeta. unfold value_or_fatal, bind, on_os, lift.
  destruct (NewRunWriter _ _ _ _ (m_os s)) as [[err|w] o| | |]; try done. by intros [= _ <-].
Qed.

Lemma writeJSON_answered path rep : answered (writeJSON path rep).
Proof.
  unfold writeJSON. destruct (MarshalIndent _) as [msg|b]; [apply ret_answered|]. intros s. unfold or_fatal, bind at 1.
  destruct (on_os_answered (WriteFile (filepath_Dir path) (file_name path) b)
              (answering_any _ _ (WriteFile_answers _ _ _)) s) as (r & s1 & ->).
  destruct r; by eexists _, _.
Qed.

Lemma report_rows_answered writer rows : answered (report_rows env fl writer rows).
Proof.
  intros s. unfold report_rows. cbv zeta. unfold bind at 1, print.
  apply value_answered; [case_bool_decide; [apply ret_answered|apply writeJSON_answered]|].
  intros _. destruct writer as [w|]; [|apply ret_answered].
  apply value_answered; [apply on_os_answered, Finalize_answers|]. intros _. apply ret_answered.
Qed.

Lemma bind_answered {A B} (x : M Machine A) (k : A → M Machine B) :
  answered x → (∀ a, answered (k a)) → answered (bind x k).
Proof. intros Hx Hk s. destruct (Hx s) as (a & s1 & Ha). rewrite (bind_ret _ _ _ _ _ Ha). apply Hk. Qed.

Lemma remove_tmp_answers tmp s : ∃ s', remove_tmp remove_databases tmp s = Ret tt s'.
Proof.
  assert (answered (remove_tmp remove_databases tmp)) as H.
  { unfold remove_tmp. repeat (apply bind_answered; [|intros _]).
    - intros s0. by eexists _, _.
    - intros s0. by eexists _, _.
    - apply on_os_answered, RemoveAll_answers.
    - apply ret_answered. }
  destruct (H s) as ([] & s' & Hs). by exists s'.
Qed.

Lemma unless_exit_answers tmp (body : M Machine (GoError + Z)) s r s1 :
  body s = Ret r s1 → ∃ s', unless_exit (remove_tmp remove_databases tmp) body s = Ret r s'.
Proof.
  intros Hb. unfold unless_exit, finally. rewrite Hb. destruct r as [err|code]; [eauto|].
  destruct (code =? 0); [|eauto]. destruct (remove_tmp_answers tmp s1) as [s' ->]. eauto.
Qed.

(** The flags of a run that can succeed. *)
Definition flags_fit : Prop :=
  0 ≤ fl_memoirs fl ≤ 2 ^ 30 ∧ 0 ≤ fl_chunks fl ≤ 2 ^ 30 ∧
  ((0 < fl_memoirs fl ∧ 0 < fl_chunks fl) ∨ fl_randomGets fl ≤ 0) ∧
  fl_memoirBytes fl < 2 ^ 31 ∧ fl_chunkBytes fl < 2 ^ 31.

(** The temporary directory is new: no engine in it, nothing stored there; the
    databases of a run do not share a file. *)
Definition new_tmp (s : Machine) (tmp : string) : Prop :=
  ∃ base, tmp = dir_of base ∧ place base ∧
    (∀ r, r ∈ f4kvs_runs → away (filepath_Join [tmp; run_dir r]) ∅ (m_world s)) ∧
    ∀ i prof, prof ∈ [sqlite_full; sqlite_normal] → (i < 2)%nat →
      let path := filepath_Join [tmp; "sqlite_" +:+ pretty (Z.of_nat i) +:+ ".db"] in
      apart (data_source prof path) (data_source prof (path +:+ "_chunk_batched")).

Lemma payload_length entropy n seed : n < 2 ^ 31 → zlen (slice_bytes (samplePayloadSeeded entropy n seed)) < 2 ^ 31.
Proof.
  intros Hn. pose proof (payload_shape entropy n seed) as H. destruct (samplePayloadSeeded _ _ _) as [l|]; simpl; [lia|done].
Qed.

Hypothesis Hscan : ∀ p g d, ∃ ks gd, lsm_scan_prefix p g d = (inr ks, gd).
Hypothesis Hshut : ∀ g d, (lsm_shutdown g d).1 = inr tt.
Hypothesis Hwal : globalBatchPutSize fl ≤ 0 → ∀ g d, (lsm_flush_wal g d).1 = inr tt.

Lemma runs_measure want s s1 tmp :
  flags_fit → wf (proc (m_world s)) → new_tmp s tmp → m_world s1 = m_world s →
  measures (measured env fl want) started_ok
    (bench_all env fl want tmp (memoir_payload env fl) (chunk_payload env fl) s1).
Proof.
  intros (Hn & Hk & Hgets & Hmb & Hcb) Hwf (base & -> & Hbase & Hfree & Hdbs) Hw.
  apply bench_all_measures; try done; [lia|by apply payload_length..|].
  split_and!; [apply run_dirs_NoDup|done|by rewrite Hw|]. intros r Hr. rewrite Hw. by apply Hfree.
Qed.

(** [main] always answers: with an error or an exit code. *)
Lemma main_answers s :
  flags_fit → wf (proc (m_world s)) → (∀ tmp, MkdirTemp env = inr tmp → new_tmp s tmp) →
  ∃ r s', main remove_databases env fl s = Ret r s'.
Proof.
  intros Hfit Hwf Htmp. unfold main. destruct (parseProfiles (fl_profiles fl)) as [err|want]; [by eexists _, _|]. cbv zeta.
  replace ((fl_memoirs fl <? 0) || (fl_chunks fl <? 0)) with false
    by (destruct Hfit as (? & ? & _); symmetry; apply orb_false_iff; split; apply Z.ltb_ge; lia).
  destruct (MkdirTemp env) as [err|tmp] eqn:Ht; [by eexists _, _|].
  match goal with |- context [unless_exit _ ?b s] => cut (∃ r s1, b s = Ret r s1) end.
  { intros (r & s1 & Hb). destruct (unless_exit_answers tmp _ _ _ _ Hb) as [s' Hs']. eauto. }
  destruct (find_root_ends (String.length (Getwd env) + 3) (Getwd env) (Getwd env)) as (root & Hroot & _).
  { pose proof (path_height_length (Getwd env)). lia. }
  unfold FindRepoRoot. rewrite Hroot. unfold value_or_fatal at 1, bind at 1.
  destruct (open_writer_answered root s) as (r & s1 & Hw). rewrite Hw. destruct r as [err|writer]; [by eexists _, _|].
  apply open_writer_world in Hw. unfold value_or_fatal, bind at 1.
  pose proof (runs_measure (expand_all (fl_includeRelaxed fl) want) s s1 tmp Hfit Hwf (Htmp tmp eq_refl) Hw) as Hb.
  unfold measures, memoir_payload, chunk_payload in Hb.
  destruct (bench_all _ _ _ _ _ _ s1) as [[err|rows] s2| | |]; try done; [by eexists _, _|].
  destruct rows; [by eexists _, _|]. apply report_rows_answered.
Qed.

(** C4: the whole benchmark on lawful parts.  The flags ask for 0 to 2^30
    memoirs and chunks of less than 2^31 bytes each, and for at least one of each
    unless they ask for no reads (a read of none panics, [Bench.bench_no_memoirs_panics]).
    The engine keeps its contract and its directory and does not fail to scan or
    to shut down (nor, when slicing is off, to flush its log); the database keeps
    its contract; the temporary directory is new, and a run has its databases there
    in separate files.  Then [main] never panics,
    deadlocks or misuses the library, whatever else the engine, the database and
    the file system refuse.  Either an error stops it, or it exits with 0: every
    selected run did all operations of its path and found every chunk it wrote,
    every restart check counted exactly the keys written, and the rows are printed
    and published in full (where the flat report is not written into the partial
    directory, nor the run inside the temporary directory). *)
Theorem main_passes s :
  flags_fit → wf (proc (m_world s)) → (∀ tmp, MkdirTemp env = inr tmp → new_tmp s tmp) →
  fl_out fl = "" ∨ resolve (filepath_Dir (fl_out fl)) ≠ resolve (filepath_Join [fl_runsRoot fl; runID env fl +:+ ".partial"]) →
  (∀ tmp, MkdirTemp env = inr tmp → ¬ resolve tmp `prefix_of` resolve (filepath_Join [fl_runsRoot fl; runID env fl])) →
  ∃ r s', main remove_databases env fl s = Ret r s' ∧
    ∀ code, r = inr code → code = 0 ∧ ∃ want rows,
      parseProfiles (fl_profiles fl) = inr want ∧ measured env fl (selected fl want) rows ∧
      reported env fl rows code s s'.
Proof.
  intros Hfit Hwf Htmp Hout Hne. destruct (main_answers s Hfit Hwf Htmp) as (r & s' & Hm).
  exists r, s'. split; [done|]. intros code ->.
  destruct (main_traced _ _ _ _ _ _ Hout Hne Hm)
    as (want & tmp & root & writer & s1 & rows & s2 & Hwant & Ht & Hw & Hb & Hrep).
  apply open_writer_world in Hw.
  pose proof (runs_measure (selected fl want) s s1 tmp Hfit Hwf (Htmp tmp Ht) Hw) as Hall.
  rewrite Hb in Hall. destruct Hall as [Hall _]. split; [|by exists want, rows].
  destruct Hrep as (-> & _). by rewrite (measured_gate _ _ _ _ Hall).
Qed.

End Program.

(** ** A run *)
Section Concrete.
#[local] Existing Instances steady_engine steady_laws forgetful steady_platform mem_db mem_laws quiet_host sample_host.

Lemma new_demo_tmp tmp : MkdirTemp demo_env = inr tmp → new_tmp (L := steady_engine) (SD := mem_db) demo_machine tmp.
Proof.
  intros [= <-].
  exists [String.list_byte_of_string "tmp"; String.list_byte_of_string "f4kvs-sqlite-bench-1"]. split_and!.
  - by vm_compute.
  - split; [repeat constructor; apply (bool_decide_unpack _); by vm_compute|done|by vm_compute..].
  - intros r _. split; [done|]. intros a g H. simpl in H. by rewrite lookup_empty in H.
  - intros i prof Hp Hi. destruct i as [|[|i]]; [..|lia]; set_unfold in Hp; destruct Hp as [->|[->|[]]]; discriminate.
Qed.

Lemma main_passes_witness :
  ∃ r s', demo_main demo_flags = Ret r s' ∧
    ∀ code, r = inr code → code = 0 ∧ ∃ want rows,
      parseProfiles "f4kvs_wal_segment,sqlite_wal_full" = inr want ∧
      measured demo_env demo_flags (selected demo_flags want) rows ∧
      reported (L := steady_engine) (SD := mem_db) demo_env demo_flags rows code demo_machine s'.
Proof.
  apply (main_passes (L := steady_engine) (SD := mem_db) (PL := steady_place) (HP := forgetful_place)
           (λ _ d, d) demo_env demo_flags).
  - intros p g d. by eexists _, _.
  - done.
  - intros H. vm_compute in H. by destruct H.
  - unfold flags_fit. cbn [fl_memoirs fl_chunks fl_randomGets fl_memoirBytes fl_chunkBytes demo_flags]. lia.
  - apply steady_wf.
  - apply new_demo_tmp.
  - right. apply (bool_decide_unpack _). by vm_compute.
  - intros tmp [= <-]. apply (bool_decide_unpack _). by vm_compute.
Defined.

(** Evaluated: no error stops it. *)
Example demo_passes : exits 0 (demo_main demo_flags) = true.
Proof. vm_compute. reflexivity. Qed.

End Concrete.
