(* ===== verification/ReadTax.v ===== *)
(** * The read-tax benchmark

    [bench/ffi_read_tax/main.go]: fill a directory through the binding, close, open
    again, read at random.  The program runs on the process with its engines, the
    file system for the report and what it has printed.  [fatal] is the answer
    [inl].  What the host says is [TaxEnv]; progress output is left out. *)

From Stdlib Require Import Floats.SpecFloat.
From S2P Require Import Prelude Engine Utf8 Options Ffi Binding FfiFacts BindingFacts Session Semantics Concrete GoText Paths Json Harness Report Restart Bench RunDir.

Record TaxFlags := mkTaxFlags {
  x_dir : string;
  x_chunks : Z;
  x_chunkBytes : Z;
  x_randomGets : Z;
  x_bulkImport : bool;
  x_prepareOnly : bool;
  x_readOnly : bool;
  x_out : string
}.

Record TaxEnv := mkTaxEnv {
  x_MkdirTemp : GoError + string;
  (** [os.MkdirAll] of the directory of the store. *)
  x_MkdirAll : string → option GoError;
  ingest_us : Z;
  reads_us : Z;
  x_host : string
}.

(** [byte('a' + (i*17)%26)] for every position. *)
Definition tax_payload (n : Z) : list byte := (λ i, Zbyte (97 + (i * 17) mod 26)) <$> seqZ 0 n.

Definition opsPerS (ops : Z) (ms : spec_float) : spec_float :=
  if SFleb ms fzero then fzero else fdiv (float64_of_int ops) (fdiv ms (float64_of_int 1000)).

Record tax_report := mkTaxReport {
  x_Host : string; x_Dir : string; x_Chunks : Z; x_ChunkBytes : Z; x_RandomGets : Z; x_BulkImport : bool;
  IngestMs : spec_float; FFIReadMs : spec_float; FFIReadOpsS : spec_float }.

Definition tax_json (r : tax_report) : json_value :=
  JObject
    [("host", JString (x_Host r)); ("dir", JString (x_Dir r)); ("chunks", JInt (x_Chunks r));
     ("chunk_bytes", JInt (x_ChunkBytes r)); ("random_gets", JInt (x_RandomGets r)); ("bulk_import", JBool (x_BulkImport r));
     ("ingest_ms", JFloat (IngestMs r)); ("ffi_read_ms", JFloat (FFIReadMs r)); ("ffi_read_ops_per_s", JFloat (FFIReadOpsS r))].

Definition fmt_bool (b : bool) : string := if b then "true" else "false".

Section ReadTax.
Context `{L : LsmEngine} {P : Platform} {G : GoRuntime} {HO : HostOs}.
Context (env : TaxEnv) (fl : TaxFlags).

Record TaxMachine := mkTax { t_world : World; t_os : Os; t_stdout : list string }.

Definition t_on_world {A} : M World A → M TaxMachine A := lift t_world (λ w s, mkTax w (t_os s) (t_stdout s)).
Definition t_on_os {A} : M Os A → M TaxMachine A := lift t_os (λ o s, mkTax (t_world s) o (t_stdout s)).
Definition t_print (line : string) : M TaxMachine unit := λ s, Ret tt (mkTax (t_world s) (t_os s) (t_stdout s ++ [line])).

Definition tax_keys : list string := chunkKeys (x_chunks fl).
Definition tax_items : gmap string goslice := slice_items tax_keys (Some (tax_payload (x_chunkBytes fl))).

(** The directory of the store. *)
Definition store_dir : GoError + string :=
  if bool_decide (x_dir fl = "") then x_MkdirTemp env
  else match x_MkdirAll env (x_dir fl) with Some err => inl err | None => inr (x_dir fl) end.

(** Filling the store, in one batch. *)
Definition ingest (storeDir : string) : M World (GoError + unit) :=
  value_or_fatal (NewPersistentEngine storeDir) (λ engine,
  or_fatal (if x_bulkImport fl then SetBulkImport engine true else mret None)
  (or_fatal (BatchPutBytes engine tax_items)
  (run! Close engine in mret (inr tt)))).

Definition write_tax_report (rep : tax_report) : M TaxMachine (GoError + unit) :=
  if bool_decide (x_out fl = "") then mret (inr tt)
  else match MarshalIndent (tax_json rep) with
  | inl msg => mret (inl (os_error msg))
  | inr b =>
      or_fatal (t_on_os (WriteFile (filepath_Dir (x_out fl)) (file_name (x_out fl)) b))
      (run! t_print ("wrote " +:+ x_out fl) in mret (inr tt))
  end.

Definition print_ingest (storeDir : string) (ingestMs : spec_float) : M TaxMachine unit :=
  run! t_print ("dir=" +:+ storeDir) in
  t_print ("ingest_ms=" +:+ fmt_fixed 1 ingestMs +:+ " bulk_import=" +:+ fmt_bool (x_bulkImport fl)).

(** Opening the store and reading it. *)
Definition measure_reads (storeDir : string) (ingestMs : spec_float) : M TaxMachine (GoError + unit) :=
  value_or_fatal (t_on_world (NewPersistentEngine storeDir)) (λ engine,
  deferred (t_on_world (Close engine))
    (or_fatal (t_on_world (random_gets (x_randomGets fl) engine tax_keys))
    (let ffiMs := milliseconds (reads_us env) in
     let rep := mkTaxReport (x_host env) storeDir (x_chunks fl) (x_chunkBytes fl) (x_randomGets fl) (x_bulkImport fl)
                  ingestMs ffiMs (opsPerS (x_randomGets fl) ffiMs) in
     run! print_ingest storeDir ingestMs in
     run! t_print ("ffi_read_ms=" +:+ fmt_fixed 1 ffiMs +:+ " ops/s=" +:+ fmt_fixed 0 (FFIReadOpsS rep)) in
     write_tax_report rep))).

Definition tax_main : M TaxMachine (GoError + unit) :=
  if (x_chunkBytes fl <? 0) || (x_chunks fl <? 0) then panic "runtime error: makeslice: len out of range"
  else match store_dir with
  | inl err => mret (inl err)
  | inr storeDir =>
      value_or_fatal
        (if x_readOnly fl then mret (inr fzero)
         else value_or_fatal (t_on_world (ingest storeDir)) (λ _, mret (inr (milliseconds (ingest_us env)))))
      (λ ingestMs,
      if x_prepareOnly fl then run! print_ingest storeDir ingestMs in mret (inr tt)
      else measure_reads storeDir ingestMs)
  end.

End ReadTax.

(** ** Facts *)

Section ReadTaxFacts.
Context `{L : LsmEngine} {Laws : LsmLaws L} {P : Platform} {POk : PlatformOk P} {G : GoRuntime} {GOk : GoRuntimeOk G}.
Context {HO : HostOs}.
Implicit Types (w : World) (e : nat) (o : F4KVS) (g : lsm) (m : gmap string (Engine.Value json)).

(** A step of a run that also keeps the configuration of the engine. *)
Definition config_step w0 e o (c : LsmConfig) m (x : outcome World (option GoError)) : Prop :=
  ends (λ r w', match r with
                | Some err => err ≠ ErrNotFound
                | None => ∃ g, at_work w0 w' e o g ∧ lsm_config g = c ∧ contents g = m
                end) (λ _, False) x.

Lemma phase_config w0 e o g0 c m (x : outcome World (option GoError)) (Q : option GoError → lsm → Prop) R :
  live w0 e o g0 → wf (proc w0) → phase_step w0 e o m x →
  ends (λ r w', ∃ g', stepped w' e o g' ∧ lsm_config g' = c ∧ Q r g') R x →
  config_step w0 e o c m x.
Proof.
  intros Hl Hwf Hp He. destruct x as [[err|] w'| | |]; try done. simpl in *.
  destruct Hp as (g & Hg & Hm), He as (g' & [Hl' _] & Hc & _). exists g. split_and!; [done| |done].
  by rewrite (at_work_live w0 e o g0 Hl Hwf w' g g' Hg Hl').
Qed.

Lemma tax_items_plain fl key : is_Some (tax_items fl !! key) → plain_key key.
Proof.
  unfold tax_items. rewrite lookup_slice_items. case_decide as Hin; intros []; [|done].
  exact (proj1 (Forall_forall _ _) (chunkKeys_plain _) key Hin).
Qed.

Lemma bulk_config_step fl w0 e o g0 :
  live w0 e o g0 → wf (proc w0) →
  config_step w0 e o (lsm_config g0) (contents g0) ((if x_bulkImport fl then SetBulkImport e true else mret None) w0).
Proof.
  intros Hl Hwf. pose proof (at_work_refl w0 e o g0 Hl) as Hg. destruct (x_bulkImport fl).
  - eapply phase_config; [done..|by apply (SetBulkImport_step w0 e o g0 Hl Hwf)|by apply (SetBulkImport_ends w0 e o g0)].
  - by exists g0.
Qed.

Lemma items_config_step fl w0 e o g0 w g :
  live w0 e o g0 → wf (proc w0) → at_work w0 w e o g →
  config_step w0 e o (lsm_config g) (payload_map (tax_keys fl) (Some (tax_payload (x_chunkBytes fl))) ∪ contents g)
    (BatchPutBytes e (tax_items fl) w).
Proof.
  intros Hl Hwf Hg. destruct (at_work_stepped w0 e o g0 Hl Hwf w g Hg) as [Hl1 Hwf1].
  eapply phase_config; [done..| |].
  - apply (slice_step w0 e o g0 Hl Hwf); [done|apply chunkKeys_plain].
  - apply (BatchPutBytes_ends w e o g); [done..|]. apply tax_items_plain.
Qed.

Hypothesis Hshut : ∀ g d, (lsm_shutdown g d).1 = inr tt.

(** Opening the store: an error, or an engine with what the directory holds, whose
    close gives back all memory. *)
Lemma open_store w dir :
  wf (proc w) → check_dir dir = inr dir →
  (∃ err w', NewPersistentEngine dir w = Ret (inl err) w' ∧ err ≠ ErrNotFound) ∨
  ∃ e o g w1, NewPersistentEngine dir w = Ret (inr e) w1 ∧ live w1 e o g ∧ wf (proc w1) ∧ rw_readers (mu o) = O ∧
    contents g = durable (dsk (proc w)) dir ∧ data_dir (lsm_config g) = dir ∧
    ∀ w2 g2, at_work w1 w2 e o g2 → ∃ w3, Close e w2 = Ret tt w3 ∧ same_memory (proc w) (proc w3).
Proof.
  intros Hwf Hdir. unfold NewPersistentEngine. rewrite (Open_spec w dir None) by done. cbv zeta. rewrite Hdir.
  destruct (lsm_new _ _) as [[er|g] ds] eqn:Hnew; [left; by eexists _, _|right].
  destruct (new_ok _ _ _ _ Hnew) as [Hc Hcfg]. destruct (open_handle_fresh (enter (proc w)) dir) as [Ha Hf].
  set (a := alloc_addr _) in *. set (e := fresh (dom (objs w))). set (w1 := mkWorld (set_heap _ _) _ _).
  set (o := mkF4KVS a unlocked false).
  assert (Hl : live w1 e o g) by (apply (live_opened (enter (proc w)))).
  assert (Hwf1 : wf (proc w1)) by (apply (wf_new_engine (enter (proc w))); [by apply wf_enter|done..]).
  exists e, o, g, w1. split_and!; try done; [by rewrite Hcfg|].
  intros w2 g2 H2. destruct (at_work_stepped w1 e o g Hl Hwf1 w2 g2 H2) as [Hl2 _].
  destruct (close_clean w w1 w2 e a g g2) as (w3 & Hcl & Hmem & _); try done.
  - by apply not_elem_of_dom_1, is_fresh.
  - eauto.
Qed.

(** Filling the store: no panic, no missing key; when it returns, the chunks are on
    disk next to what was there and all memory is given back. *)
Lemma ingest_ends fl w dir :
  wf (proc w) → check_dir dir = inr dir →
  ends (λ r w', match r with
                | inl err => err ≠ ErrNotFound
                | inr _ => wf (proc w') ∧ same_memory (proc w) (proc w') ∧
                    durable (dsk (proc w')) dir =
                      payload_map (tax_keys fl) (Some (tax_payload (x_chunkBytes fl))) ∪ durable (dsk (proc w)) dir
                end) (λ _, False) (ingest fl dir w).
Proof.
  intros Hwf Hdir. unfold ingest, value_or_fatal, bind at 1.
  destruct (open_store w dir Hwf Hdir) as [(err & w' & -> & Herr)|(e & o & g & w1 & -> & Hl & Hwf1 & Hr & Hc & Hd & Hclose)]; [done|].
  eapply ends_bind; [by apply (bulk_config_step fl w1 e o g)|]. intros [err|] w2 H2; [done|].
  destruct H2 as (g2 & Hg2 & Hcf2 & Hc2).
  eapply ends_bind; [by apply (items_config_step fl w1 e o g w2 g2)|]. intros [err|] w3 H3; [done|].
  destruct H3 as (g3 & Hg3 & Hcf3 & Hc3), (Hclose w3 g3 Hg3) as (w4 & Hcl & Hmem).
  assert (Hserve : serving dir w3 e o (contents g3)).
  { exists g3. split_and!; [by apply (at_work_stepped w1 e o g Hl Hwf1)|done| |done]. by rewrite Hcf3, Hcf2. }
  pose proof (close_ends dir Hshut w3 e o _ Hserve) as Hce. unfold bind. rewrite Hcl in *. simpl in *.
  destruct Hce as [Hwf4 Hdur]. split_and!; [done..|]. by rewrite Hdur, Hc3, Hc2, Hc.
Qed.

(** ** The reads *)

Lemma tax_payload_length n : 0 ≤ n → zlen (tax_payload n) = n.
Proof. intros Hn. unfold tax_payload, zlen. rewrite length_fmap, length_seqZ. lia. Qed.

(** Writing the report: an answer, and the process untouched. *)
Lemma write_tax_report_ends fl rep (s : TaxMachine) :
  ends (λ r s', r ≠ inl ErrNotFound ∧ t_world s' = t_world s) (λ _, False) (write_tax_report fl rep s).
Proof.
  unfold write_tax_report. case_bool_decide; [by split|]. destruct (MarshalIndent _) as [msg|b]; [by split|].
  unfold or_fatal, bind, t_on_os, lift.
  pose proof (WriteFile_answers (filepath_Dir (x_out fl)) (file_name (x_out fl)) b (t_os s)) as (r & o & -> & Hr).
  destruct r as [err|]; split; simpl; congruence.
Qed.

(** Reads keep the configuration. *)
Lemma get_from_config n i w e o g keys r w' g' :
  live w e o g → wf (proc w) → get_from n i e keys w = Ret r w' → live w' e o g' → lsm_config g' = lsm_config g.
Proof.
  revert i w g. induction n as [|n IH]; intros i w g Hl Hwf H Hl'; cbn [get_from] in H.
  - unfold mret in H. simplify_eq. apply live_engine in Hl, Hl'. congruence.
  - unfold bind at 1, key_at in H. destruct (zlen keys =? 0); [done|]. destruct (keys !! _) as [key|]; [|done].
    unfold mret, bind in H. pose proof (GetBytes_framed w e o g key Hl Hwf) as Hf.
    destruct (GetBytes e key w) as [x w1| | |] eqn:Hx; try done. simpl in Hf. destruct Hf as [g1 Hf].
    pose proof (frame_live _ _ _ _ _ _ Hl Hf) as Hl1. pose proof (frame_wf _ _ _ _ _ _ Hl Hwf Hf) as Hwf1.
    rewrite <-(GetBytes_config _ _ _ _ _ _ _ _ Hl Hwf Hx Hl1).
    destruct x as [err|b]; [|by eapply IH]. simplify_eq. apply live_engine in Hl1, Hl'. congruence.
Qed.

(** Measuring the reads on a store that holds the chunks: no panic, no missing key;
    when it returns all memory is given back and the directory holds what it held. *)
Lemma measure_reads_ends env fl dir ms (s : TaxMachine) :
  wf (proc (t_world s)) → check_dir dir = inr dir → 0 ≤ x_chunkBytes fl < 2 ^ 31 →
  tax_keys fl ≠ [] ∨ x_randomGets fl ≤ 0 →
  (∀ key, key ∈ tax_keys fl → durable (dsk (proc (t_world s))) dir !! key = Some (VBytes (tax_payload (x_chunkBytes fl)))) →
  ends (λ r s', match r with
                | inl err => err ≠ ErrNotFound
                | inr _ => same_memory (proc (t_world s)) (proc (t_world s')) ∧
                           durable (dsk (proc (t_world s'))) dir = durable (dsk (proc (t_world s))) dir
                end) (λ _, False) (measure_reads env fl dir ms s).
Proof.
  intros Hwf Hdir Hlen Hne Hall. unfold measure_reads, value_or_fatal, bind at 1, t_on_world at 1, lift at 1.
  destruct (open_store (t_world s) dir Hwf Hdir)
    as [(err & w' & -> & Herr)|(e & o & g & w1 & -> & Hl & Hwf1 & Hrd & Hc & Hcfg & Hclose)]; [done|].
  assert (Hreads : phase_step w1 e o (contents g) (random_gets (x_randomGets fl) e (tax_keys fl) w1)).
  { apply (random_gets_step w1 e o g Hl Hwf1 _ w1 g _ (tax_payload (x_chunkBytes fl))); [by apply at_work_refl|done| |].
    - rewrite tax_payload_length; lia.
    - intros key Hin. rewrite Hc. split; [|by apply Hall]. exact (proj1 (Forall_forall _ _) (chunkKeys_plain _) key Hin). }
  unfold deferred, finally, or_fatal, bind, t_on_world, lift. cbn [t_world].
  destruct (random_gets _ e _ w1) as [[err|] w2| | |] eqn:Hgets; try done. destruct Hreads as (g2 & Hg2 & Hc2).
  cbv zeta. unfold print_ingest, t_print, bind. cbn [t_world t_os t_stdout].
  set (s2 := mkTax w2 _ _). set (rep := mkTaxReport _ _ _ _ _ _ _ _ _).
  pose proof (write_tax_report_ends fl rep s2) as Hrep.
  destruct (write_tax_report fl rep s2) as [[err|[]] s3| | |]; try done; destruct Hrep as [Hrep Hw]; [simpl; congruence|].
  change (t_world s2) with w2 in Hw. rewrite Hw. destruct (Hclose w2 g2 Hg2) as (w3 & Hcl & Hmem).
  rewrite Hcl. split; [done|].
  destruct (at_work_stepped w1 e o g Hl Hwf1 w2 g2 Hg2) as [Hl2 Hwf2].
  assert (Hserve : serving dir w2 e o (contents g)).
  { exists g2. split_and!; [done|done| |done]. by rewrite (get_from_config _ _ _ _ _ _ _ _ _ _ Hl Hwf1 Hgets Hl2). }
  pose proof (close_ends dir Hshut w2 e o _ Hserve) as Hce. rewrite Hcl in Hce. destruct Hce as [_ Hdur].
  cbn. by rewrite Hdur.
Qed.

(** C37: the read-tax program on an engine that keeps its contract and does not fail
    to shut down, with at least one chunk to read, or no reads to do, and chunks
    below 2^31 bytes; with [-read-only], on a directory that already holds every
    chunk.  It ends without a panic; an error it stops with is never a missing key.
    When it returns all memory is given back, and the directory holds every chunk
    next to what was there before, whichever of [-prepare-only] and [-read-only] is
    set.  (Without those bounds it can panic: [-chunks=0] with reads to do divides
    by zero.) *)
Theorem read_tax_complete env fl dir (s : TaxMachine) :
  wf (proc (t_world s)) → store_dir env fl = inr dir → check_dir dir = inr dir →
  0 ≤ x_chunkBytes fl < 2 ^ 31 → 0 < x_chunks fl ∨ 0 ≤ x_chunks fl ∧ x_randomGets fl ≤ 0 →
  let before := durable (dsk (proc (t_world s))) dir in
  let chunks := payload_map (chunkKeys (x_chunks fl)) (Some (tax_payload (x_chunkBytes fl))) in
  (x_readOnly fl = true → chunks ⊆ before) →
  ends (λ r s', match r with
                | inl err => err ≠ ErrNotFound
                | inr _ => same_memory (proc (t_world s)) (proc (t_world s')) ∧
                           durable (dsk (proc (t_world s'))) dir = chunks ∪ before
                end) (λ _, False) (tax_main env fl s).
Proof.
  intros Hwf Hs Hdir Hlen Hne before chunks Hro. unfold tax_main. rewrite Hs.
  replace ((x_chunkBytes fl <? 0) || (x_chunks fl <? 0)) with false by (symmetry; apply orb_false_iff; lia).
  assert (Hkeys : tax_keys fl ≠ [] ∨ x_randomGets fl ≤ 0).
  { destruct Hne as [Hk|[_ ?]]; [left|by right]. intros ?%fmap_nil_inv. by apply (seqZ_not_nil (x_chunks fl)). }
  unfold value_or_fatal at 1, bind at 1. destruct (x_readOnly fl).
  { specialize (Hro eq_refl). assert (Hsame : before = chunks ∪ before).
    { apply map_eq. intros key. rewrite lookup_union. destruct (chunks !! key) as [v|] eqn:Hk; [|by rewrite (left_id_L None _)].
      rewrite (lookup_weaken _ _ _ _ Hk Hro). done. }
    unfold mret. destruct (x_prepareOnly fl); [by split|]. rewrite <-Hsame. apply measure_reads_ends; try done.
    intros key Hin. eapply lookup_weaken; [|exact Hro]. rewrite <-(right_id_L ∅ (∪) chunks). by apply payload_map_hit. }
  unfold value_or_fatal at 1, bind at 1, t_on_world, lift.
  pose proof (ingest_ends fl (t_world s) dir Hwf Hdir) as Hi.
  destruct (ingest fl dir (t_world s)) as [[err|[]] w1| | |]; try done. destruct Hi as (Hwf1 & Hm1 & Hd1).
  cbn. destruct (x_prepareOnly fl); [done|].
  eapply ends_impl; [apply measure_reads_ends; try done|].
  - intros key Hin. cbn. rewrite Hd1. by apply payload_map_hit.
  - intros [err|[]] s' H; [done|]. destruct H as [H Hd]. split; [|cbn in Hd; by rewrite Hd, Hd1].
    destruct Hm1 as (? & ? & ?), H as (? & ? & ?). cbn in *. split_and!; congruence.
Qed.

End ReadTaxFacts.

(** ** A run *)
Section Concrete.
#[local] Existing Instances steady_engine steady_laws steady_platform quiet_host.

Definition tax_flags (prepare : bool) : TaxFlags := mkTaxFlags "/store" 3 20 5 true prepare false "out/tax.json".
Definition tax_env : TaxEnv := mkTaxEnv (inr "/tmp/t") (λ _, None) 1500 2500 "linux/amd64".

Definition tax_start : TaxMachine (L := steady_engine) :=
  mkTax (L := steady_engine) steady_world (mkOs {[ [] := ∅; ["work"] := ∅; ["work"; "out"] := ∅ ]} 0 []) [].

Lemma read_tax_complete_witness :
  ends (λ r s', match r with
                | inl err => err ≠ ErrNotFound
                | inr _ => same_memory (proc steady_world) (proc (t_world s')) ∧
                    durable (dsk (proc (t_world s'))) "/store" =
                       payload_map (L := steady_engine) (chunkKeys 3) (Some (tax_payload 20)) ∪
                       durable (dsk (proc steady_world)) "/store"
                end) (λ _, False) (tax_main (L := steady_engine) tax_env (tax_flags false) tax_start).
Proof.
  apply (read_tax_complete (L := steady_engine) (λ g d, eq_refl) tax_env (tax_flags false) "/store" tax_start).
  - apply steady_wf.
  - done.
  - done.
  - by vm_compute.
  - by left.
  - done.
Defined.

(** Evaluated: what the program prints. *)
Example tax_prints :
  match tax_main (L := steady_engine) tax_env (tax_flags false) tax_start with
  | Ret (inr _) s => t_stdout s
  | _ => []
  end = ["dir=/store"; "ingest_ms=1.5 bulk_import=true"; "ffi_read_ms=2.5 ops/s=2000"; "wrote out/tax.json"].
Proof. vm_compute. reflexivity. Qed.

End Concrete.
