(* ===== verification/Probes.v ===== *)
(** * The probes

    [bench/embed_vs_sqlite/f4kvs_batch_probe.go] and [sqlite_fsync_probe.go], two
    small programs that time puts.  They call [panic(err)] on every error, so their
    deferred calls run; the panic value, the times and what is printed are left
    out. *)

From S2P Require Import Prelude Engine Utf8 Options Ffi Binding FfiFacts BindingFacts Session Semantics Concrete GoText Paths Harness Report Restart Bench Sqlite SqliteRuns.

(** [panic(err)]. *)
Definition panic_error {S A} (err : GoError) : M S A := panic "error".

(** [if err := m; err != nil { panic(err) }]. *)
Definition or_panic {S} (m : M S (option GoError)) : M S unit :=
  let! err := m in
  match err with
  | Some err => panic_error err
  | None => mret tt
  end.

(** The same for a call with a value. *)
Definition value_or_panic {S A B} (m : M S (GoError + A)) (k : A → M S B) : M S B :=
  let! r := m in
  match r with
  | inl err => panic_error err
  | inr a => k a
  end.

Definition probe_n : Z := 2000.
Definition probe_payload : goslice := Some (replicate 4096 x78).

Section BatchProbe.
Context `{L : LsmEngine} {FS : HostFs} {P : Platform} {G : GoRuntime}.

Fixpoint put_or_panic (e : nat) (keys : list string) (payload : goslice) : M World unit :=
  match keys with
  | [] => mret tt
  | key :: keys => run! or_panic (PutBytes e key payload) in put_or_panic e keys payload
  end.

(** [tmp] is the answer of [os.MkdirTemp]. *)
Definition batch_probe (tmp : GoError + string) : M World unit :=
  let keys := chunkKeys probe_n in
  value_or_panic (mret tmp) (λ dir,
  defer! os_RemoveAll dir in
  value_or_panic (NewPersistentEngine dir) (λ engine,
  defer! Close engine in
  run! put_or_panic engine keys probe_payload in
  value_or_panic (NewPersistentEngine (dir +:+ "-batch")) (λ engine2,
  defer! Close engine2 in
  or_panic (BatchPutBytes engine2 (slice_items keys probe_payload))))).

End BatchProbe.

Section SqliteProbe.
Context {SD : SqlDb}.
(** Removing a directory with databases in it. *)
Context (remove_databases : string → sql_state → sql_state).

Definition probe_profiles : list (string * string) :=
  [("wal_full", "file:kv?_pragma=journal_mode(WAL)&_pragma=synchronous(FULL)");
   ("wal_normal", "file:kv?_pragma=journal_mode(WAL)&_pragma=synchronous(NORMAL)");
   ("delete_full", "file:kv?_pragma=journal_mode(DELETE)&_pragma=synchronous(FULL)")].

(** The inserts, one commit each. *)
Fixpoint insert_or_panic (db : string) (keys : list string) (payload : goslice) : M sql_state unit :=
  match keys with
  | [] => mret tt
  | key :: keys => run! or_panic (sql_exec (sql_insert db key payload)) in insert_or_panic db keys payload
  end.

(** The loop over the profiles, with the answers of [os.MkdirTemp]; the deferred
    removals run when [main] ends. *)
Fixpoint probe_each (profiles : list (string * string)) (tmps : list (GoError + string)) : M sql_state unit :=
  match profiles, tmps with
  | (_, dsn) :: profiles, tmp :: tmps =>
      value_or_panic (mret tmp) (λ dir,
      defer! modify (remove_databases dir) in
      let db := Replace_first dsn "file:kv?" ("file:" +:+ dir +:+ "/kv?") in
      run! or_panic (sql_exec (sql_Open db)) in
      run! or_panic (sql_exec (sql_create db)) in
      run! insert_or_panic db (chunkKeys probe_n) probe_payload in
      run! close_db db in
      probe_each profiles tmps)
  | _, _ => mret tt
  end.

Definition sqlite_probe (tmps : list (GoError + string)) : M sql_state unit := probe_each probe_profiles tmps.

End SqliteProbe.

(** ** The batch probe gives back its memory *)

Section ProbeFacts.
Context `{L : LsmEngine} {Laws : LsmLaws L} {FS : HostFs}.
Context {P : Platform} {POk : PlatformOk P} {G : GoRuntime} {GOk : GoRuntimeOk G}.
Implicit Types (w : World) (e : nat) (o : F4KVS) (g : lsm).

(** Nothing is left allocated, whether the step returns or panics. *)
Definition given_back w w' : Prop := same_memory (proc w) (proc w') ∧ objs w ⊆ objs w'.

Definition tidy {A} w (x : outcome World A) : Prop := ends (λ _ w', given_back w w') (given_back w) x.

(** A step of the owner of an open engine, likewise. *)
Definition working {A} w0 e o (x : outcome World A) : Prop :=
  ends (λ _ w', ∃ g, at_work w0 w' e o g) (λ w', ∃ g, at_work w0 w' e o g) x.

Lemma given_back_trans w1 w2 w3 : given_back w1 w2 → given_back w2 w3 → given_back w1 w3.
Proof.
  intros [(? & ? & ?) ?] [(? & ? & ?) ?]. split; [split_and!; congruence|]. by etrans.
Qed.

Lemma opened_tidy {A} w dir (body : nat → M World A) :
  wf (proc w) →
  (∀ w1 e o g, live w1 e o g → wf (proc w1) → working w1 e o (body e w1)) →
  tidy w (value_or_panic (NewPersistentEngine dir) (λ e, defer! Close e in body e) w).
Proof.
  intros Hwf Hbody. unfold value_or_panic, bind, NewPersistentEngine. rewrite (Open_spec w dir None) by done. cbv zeta.
  destruct (check_dir dir) as [msg|d] eqn:Hdir; [by split|].
  destruct (lsm_new _ _) as [[er|g] ds] eqn:Hnew; [by split|].
  destruct (open_handle_fresh (enter (proc w)) dir) as [Ha Hf]. set (a := alloc_addr _) in *.
  set (e := fresh (dom (objs w))). set (o := mkF4KVS a unlocked false). set (w1 := mkWorld (set_heap _ _) _ _).
  assert (Hl : live w1 e o g) by (apply (live_opened (enter (proc w)))).
  assert (Hwf1 : wf (proc w1)) by (apply (wf_new_engine (enter (proc w))); [by apply wf_enter|done..]).
  specialize (Hbody w1 e o g Hl Hwf1).
  assert (Hclose : ∀ w2, (∃ g2, at_work w1 w2 e o g2) → ∃ w3, Close e w2 = Ret tt w3 ∧ given_back w w3).
  { intros w2 [g2 H2]. destruct (at_work_stepped w1 e o g Hl Hwf1 w2 g2 H2) as [Hl2 _].
    destruct (close_clean w w1 w2 e a g g2) as (w3 & Hcl & Hm & Hob); try done; [by apply not_elem_of_dom_1, is_fresh|].
    exists w3. by split. }
  unfold finally. destruct (body e w1) as [r w2|msg w2| |]; try done;
    destruct (Hclose w2 Hbody) as (w3 & -> & Hg); exact Hg.
Qed.

Lemma or_panic_working w0 e o g0 m (x : M World (option GoError)) w g :
  live w0 e o g0 → wf (proc w0) → at_work w0 w e o g →
  phase_step w0 e o m (x w) → framed w (handle o) (x w) → working w0 e o (or_panic x w).
Proof.
  intros Hl Hwf Hg Hx Hf. unfold or_panic, bind. destruct (x w) as [[err|] w'| | |]; try done.
  - destruct Hf as [g1 Hf]. exists g1. by eapply (at_work_frame w0 e o).
  - destruct Hx as (g1 & Hg1 & _). by exists g1.
Qed.

Lemma put_or_panic_working w0 e o g0 keys v w g :
  live w0 e o g0 → wf (proc w0) → Forall plain_key keys → at_work w0 w e o g →
  working w0 e o (put_or_panic e keys v w).
Proof.
  intros Hl Hwf Hp. revert w g. induction Hp as [|key keys Hk Hp IH]; intros w g Hg; [by exists g|].
  destruct (at_work_stepped w0 e o g0 Hl Hwf w g Hg) as [Hl1 _]. eapply ends_bind.
  { eapply or_panic_working; [done..|by apply (PutBytes_step w0 e o g0 Hl Hwf w g)|by eapply PutBytes_framed]. }
  intros [] w' [g' Hg']. by eapply IH.
Qed.

Lemma batch_or_panic_working w0 e o g0 keys v w g :
  live w0 e o g0 → wf (proc w0) → Forall plain_key keys → at_work w0 w e o g →
  working w0 e o (or_panic (BatchPutBytes e (slice_items keys v)) w).
Proof.
  intros Hl Hwf Hp Hg. destruct (at_work_stepped w0 e o g0 Hl Hwf w g Hg) as [Hl1 _].
  eapply or_panic_working; [done..|by apply (slice_step w0 e o g0 Hl Hwf w g)|by eapply BatchPutBytes_framed].
Qed.

(** Whatever fails, the probe leaves nothing allocated: the deferred calls close
    both engines when it panics too. *)
Theorem batch_probe_tidy tmp w : wf (proc w) → tidy w (batch_probe tmp w).
Proof.
  intros Hwf. unfold batch_probe, value_or_panic at 1, bind at 1, mret at 1. cbv zeta. pose proof (chunkKeys_plain probe_n) as Hp.
  set (keys := chunkKeys probe_n) in *. clearbody keys.
  destruct tmp as [err|dir]; [by split|]. unfold finally at 1.
  match goal with |- tidy w (match ?x w with _ => _ end) => assert (Hx : tidy w (x w)) end.
  { apply opened_tidy; [done|]. intros w1 e o g Hl Hwf1. pose proof (at_work_refl w1 e o g Hl) as Hg.
    eapply ends_bind; [by eapply put_or_panic_working|]. intros [] w2 [g2 Hg2].
    destruct (at_work_stepped w1 e o g Hl Hwf1 w2 g2 Hg2) as [_ Hwf2].
    pose proof (opened_tidy w2 (dir +:+ "-batch") (λ e2, or_panic (BatchPutBytes e2 (slice_items keys probe_payload))) Hwf2) as Ht.
    assert (Hside : ∀ w3, given_back w2 w3 → ∃ g3, at_work w1 w3 e o g3).
    { intros w3 [Hm Hob]. exists g2. by eapply (at_work_side w1 e o). }
    unfold tidy, working in *.
    match goal with |- ends _ _ ?y => assert (Hy : ends (λ _ w', given_back w2 w') (given_back w2) y) end.
    { apply Ht. intros w3 e3 o3 g3 Hl3 Hwf3. by eapply batch_or_panic_working, at_work_refl. }
    match goal with |- ends _ _ ?y => destruct y end; simpl in *; auto. }
  match goal with |- tidy w (match ?x w with _ => _ end) => destruct (x w) as [r w'|msg w'| |] end; try done;
    (eapply given_back_trans; [exact Hx|]); by split.
Qed.

End ProbeFacts.
